(** * Collider-Tools: the capsule fitter and the capsule mesh builder

    A shallow embedding of [bmesh_operations/capsule_generation.py]:

    - [calculate_radius_height] (the Shape Fitter),
    - [create_capsule_data] (the Capsule Mesh Builder), and
    - [mesh_data_to_bmesh] (the conversion of the builder's lists to a
      BMesh).

    Conventions of the embedding.

    - Python [int] is [Z]; [//] is [Z.div] and [%] is [Z.modulo] (both floor
      towards minus infinity, like Python's).
    - Python [float] (and numpy's float64) is idealised as a real number
      [R]: no rounding, no NaN, no infinity.  [math.sin], [math.cos],
      [math.pi], [math.tau] are [sin], [cos], [PI] and [2 * PI].
    - A Python exception is a [Raise] in the error monad [res].  A list
      subscript out of range raises [IndexError], float or int true division
      by zero raises [ZeroDivisionError]; numpy's array division does not
      raise.
    - A Python list is a [list]; [l[i] = v] and [l[i]] follow Python's rule
      for a negative subscript (counted from the end).
    - [np.linalg.svd] is not part of the repository: the rows of its [vh]
      factor are supplied by a function parameter of the Fitter, and the
      theorems that need the singular vector to be one say so.
    - Blender's [bmesh] module is not part of the repository either: the
      calls [mesh_data_to_bmesh] makes are the fields of an interface, and
      the theorems say what they need of it.
    - What a function returns when it returns does not depend on whether
      the runtime could have refused a list or numpy a decomposition:
      [create_capsule_data] and [calculate_radius_height] are embedded
      with every list granted and the decomposition returned.  Where a
      theorem is about failure, it is about [create_capsule_data_allocating]
      and [calculate_radius_height_raising], the same two functions with
      the list allocations as CPython performs them ([OverflowError] past
      [sys.maxsize] entries, [MemoryError] when the runtime has no room)
      and with [np.linalg.svd] free to raise ([LinAlgError], a subclass
      of [ValueError]). *)

From Stdlib Require Import ZArith List Lia Bool String Reals Lra Psatz.
From Stdlib Require Import FinFun.
Import ListNotations.

Set Implicit Arguments.

Local Open Scope Z_scope.

(* ================================================================== *)
(** ** Python values, exceptions and lists *)
(* ================================================================== *)

Inductive exn : Type :=
| IndexError
| ZeroDivisionError
| ValueError
| OverflowError
| MemoryError
| LinAlgError.

Inductive res (A : Type) : Type :=
| Ok (a : A)
| Raise (e : exn).

Arguments Ok {A} a.
Arguments Raise {A} e.

Definition bind {A B : Type} (c : res A) (k : A -> res B) : res B :=
  match c with
  | Ok a => k a
  | Raise e => Raise e
  end.

Declare Scope py_scope.
Delimit Scope py_scope with py.

Notation "x <- c ;; k" := (bind c (fun x => k))
  (at level 100, c at next level, right associativity) : py_scope.
Notation "' p <- c ;; k" := (bind c (fun x => let 'p := x in k))
  (at level 100, p pattern, c at next level, right associativity) : py_scope.

Local Open Scope py_scope.

(** [for x in xs: st = body x st], stopping at the first exception. *)
Fixpoint for_each {X S : Type} (xs : list X) (body : X -> S -> res S) (st : S)
  : res S :=
  match xs with
  | [] => Ok st
  | x :: xs' => st' <- body x st ;; for_each xs' body st'
  end.

(** [range(a, b)]. *)
Definition range (a b : Z) : list Z :=
  map (fun k => a + Z.of_nat k) (seq 0 (Z.to_nat (b - a))).

(** [[x] * n]: the empty list when [n <= 0]. *)
Definition list_repeat {A : Type} (x : A) (n : Z) : list A :=
  repeat x (Z.to_nat n).

Definition len {A : Type} (l : list A) : Z := Z.of_nat (List.length l).

Fixpoint upd {A : Type} (l : list A) (n : nat) (v : A) : list A :=
  match l, n with
  | [], _ => []
  | _ :: tl, O => v :: tl
  | x :: tl, S n' => x :: upd tl n' v
  end.

(** The position a subscript [i] denotes in a list of length [n]:
    [i] itself, or [i + n] when [i] is negative; [IndexError] outside. *)
Definition subscript (n i : Z) : res nat :=
  let i' := if i <? 0 then i + n else i in
  if (0 <=? i') && (i' <? n) then Ok (Z.to_nat i') else Raise IndexError.

(** [l[i]] *)
Definition getitem {A : Type} (l : list A) (i : Z) : res A :=
  k <- subscript (len l) i ;;
  match nth_error l k with
  | Some x => Ok x
  | None => Raise IndexError
  end.

(** [l[i] = v] *)
Definition setitem {A : Type} (l : list A) (i : Z) (v : A) : res (list A) :=
  k <- subscript (len l) i ;;
  Ok (upd l k v).

(** Python's [max(a, b)] on floats: [b] when [b > a], else [a]. *)
Definition fmax (a b : R) : R := if Rlt_dec a b then b else a.

(** Python's [a / b] on floats, and on ints converted to floats. *)
Definition fdiv (a b : R) : res R :=
  if Req_dec_T b 0 then Raise ZeroDivisionError else Ok (a / b)%R.

(* ================================================================== *)
(** ** The Capsule Mesh Builder: [create_capsule_data] *)
(* ================================================================== *)

Definition vec3 : Type := R * R * R.
Definition vec2 : Type := R * R.

(** An index tuple of a face: 3 entries at the poles, 4 elsewhere. *)
Definition face : Type := list Z.

(** The dictionary the builder returns. *)
Record mesh : Type := Mesh {
  vs : list vec3;
  vts : list vec2;
  vns : list vec3;
  v_indices : list face;
  vt_indices : list face;
  vn_indices : list face
}.

Section create_capsule_data.

Variables longitudes latitudes rings : Z.
Variables depth radius : R.
Variable uv_profile : string.

(** Validate arguments. *)
Definition verif_rad : R := fmax 0.0001 radius.
Definition verif_depth : R := fmax 0.0002 depth.
Definition verif_rings : Z := Z.max 0 rings.
Definition verif_lons : Z := Z.max 3 longitudes.

(** Latitudes must be even so that equators can be split. *)
Definition verif_lats : Z :=
  let v := Z.max 2 latitudes in
  if negb (v mod 2 =? 0) then v + 1 else v.

(** Preliminary calculations. *)
Definition calc_middle : bool := 0 <? verif_rings.
Definition half_lats : Z := verif_lats / 2.
Definition half_lats_n1 : Z := half_lats - 1.
Definition half_lats_n2 : Z := half_lats - 2.
Definition verif_rings_p1 : Z := verif_rings + 1.
Definition verif_lons_p1 : Z := verif_lons + 1.
Definition v_lons_half_lat_n1 : Z := half_lats_n1 * verif_lons.
Definition v_lons_v_sections_p1 : Z := verif_rings_p1 * verif_lons.
Definition half_depth : R := (verif_depth * 0.5)%R.
Definition summit : R := (half_depth + verif_rad)%R.

(** Coordinate index offsets. *)
Definition idx_v_n_equator : Z := verif_lons_p1 + verif_lons * half_lats_n2.
Definition idx_v_cyl : Z := idx_v_n_equator + verif_lons.
Definition idx_v_s_equator : Z :=
  if calc_middle then idx_v_cyl + verif_lons * verif_rings else idx_v_cyl.
Definition idx_v_south : Z := idx_v_s_equator + verif_lons.
Definition idx_v_south_cap : Z := idx_v_south + verif_lons * half_lats_n2.
Definition idx_v_south_pole : Z := idx_v_south_cap + verif_lons.

(** Texture coordinate index offsets. *)
Definition idx_vt_n_equator : Z := verif_lons + verif_lons_p1 * half_lats_n1.
Definition idx_vt_cyl : Z := idx_vt_n_equator + verif_lons_p1.
Definition idx_vt_s_equator : Z :=
  if calc_middle then idx_vt_cyl + verif_lons_p1 * verif_rings else idx_vt_cyl.
Definition idx_vt_s_hemi : Z := idx_vt_s_equator + verif_lons_p1.
Definition idx_vt_s_polar : Z := idx_vt_s_hemi + verif_lons_p1 * half_lats_n2.
Definition idx_vt_s_cap : Z := idx_vt_s_polar + verif_lons_p1.

(** Normal index offsets. *)
Definition idx_vn_south : Z := idx_v_n_equator + verif_lons.
Definition idx_vn_south_cap : Z := idx_vn_south + verif_lons * half_lats_n2.
Definition idx_vn_south_pole : Z := idx_vn_south_cap + verif_lons.

(** Index offsets for face indices. *)
Definition idx_fs_cyl : Z := verif_lons + v_lons_half_lat_n1.
Definition idx_fs_south_equat : Z := idx_fs_cyl + v_lons_v_sections_p1.
Definition idx_fs_south_hemi : Z := idx_fs_south_equat + v_lons_half_lat_n1.

(** List lengths. *)
Definition len_vs : Z := idx_v_south_pole + 1.
Definition len_vts : Z := idx_vt_s_cap + verif_lons.
Definition len_vns : Z := idx_vn_south_pole + verif_lons.
Definition len_indices : Z := idx_fs_south_hemi + verif_lons.

(** Ranges for loops. *)
Definition lons_range : list Z := range 0 verif_lons.
Definition lons_p1_range : list Z := range 0 verif_lons_p1.
Definition hemi_range : list Z := range 0 half_lats_n1.

(** Body of [for j in lons_range] that sets the polar texture coordinates,
    the two equators, the equatorial normals and the two triangle fans. *)
Definition loop_poles (to_theta to_tex_horizontal : R) (j : Z)
    (st : mesh * list (R * R)) : res (mesh * list (R * R)) :=
  let '(m, sin_cos_theta_cache) := st in
  let j_next_vt := j + 1 in
  let j_next_v := j_next_vt mod verif_lons in
  (* Polar to Cartesian coordinates. *)
  let theta := (IZR j * to_theta)%R in
  let sin_theta := sin theta in
  let cos_theta := cos theta in
  sin_cos_theta_cache <- setitem sin_cos_theta_cache j (sin_theta, cos_theta) ;;
  (* Texture coordinates at North and South poles. *)
  let s_tex := ((IZR j + 0.5) * to_tex_horizontal)%R in
  vts1 <- setitem (vts m) j (s_tex, 1%R) ;;
  vts2 <- setitem vts1 (idx_vt_s_cap + j) (s_tex, 0%R) ;;
  (* Multiply by radius to get equatorial x and y. *)
  let x := (verif_rad * cos_theta)%R in
  let y := (verif_rad * sin_theta)%R in
  (* Equatorial coordinates. *)
  vs1 <- setitem (vs m) (idx_v_n_equator + j) (x, y, half_depth) ;;
  vs2 <- setitem vs1 (idx_v_s_equator + j) (x, y, (- half_depth)%R) ;;
  (* Equatorial normals. *)
  vns1 <- setitem (vns m) (idx_v_n_equator + j) (cos_theta, sin_theta, 0%R) ;;
  (* North triangle fan. *)
  v1 <- setitem (v_indices m) j [0; j_next_vt; 1 + j_next_v] ;;
  vt1 <- setitem (vt_indices m) j
           [j; verif_lons + j; verif_lons + j_next_vt] ;;
  vn1 <- setitem (vn_indices m) j [0; j_next_vt; 1 + j_next_v] ;;
  (* South triangle fan. *)
  v2 <- setitem v1 (idx_fs_south_hemi + j)
          [idx_v_south_pole; idx_v_south_cap + j_next_v; idx_v_south_cap + j] ;;
  vt2 <- setitem vt1 (idx_fs_south_hemi + j)
           [idx_vt_s_cap + j; idx_vt_s_polar + j_next_vt; idx_vt_s_polar + j] ;;
  vn2 <- setitem vn1 (idx_fs_south_hemi + j)
           [idx_vn_south_pole; idx_vn_south_cap + j_next_v;
            idx_vn_south_cap + j] ;;
  Ok (Mesh vs2 vts2 vns1 v2 vt2 vn2, sin_cos_theta_cache).

(** Aspect ratio: the V coordinate of the south equator, [1.0 / 3.0]
    unless the profile is ["ASPECT"] or ["UNIFORM"]. *)
Definition vt_aspect_south_of : res R :=
  vt_aspect_south <- fdiv 1.0 3.0 ;;
  if String.eqb uv_profile "ASPECT" then
    fdiv verif_rad (verif_depth + 2.0 * verif_rad)%R
  else if String.eqb uv_profile "UNIFORM" then
    fdiv (IZR half_lats) (IZR (verif_rings_p1 + verif_lats))
  else
    Ok vt_aspect_south.

(** Body of [for j in lons_p1_range]: equatorial texture coordinates. *)
Definition loop_equator_uvs (to_tex_horizontal vt_aspect_north vt_aspect_south : R)
    (j : Z) (st : list vec2 * list R) : res (list vec2 * list R) :=
  let '(vts0, s_tex_cache) := st in
  let s_tex := (IZR j * to_tex_horizontal)%R in
  s_tex_cache <- setitem s_tex_cache j s_tex ;;
  vts1 <- setitem vts0 (idx_vt_n_equator + j) (s_tex, vt_aspect_north) ;;
  vts2 <- setitem vts1 (idx_vt_s_equator + j) (s_tex, vt_aspect_south) ;;
  Ok (vts2, s_tex_cache).

(** The running offsets of the hemisphere loops. *)
Record hemi_offsets : Type := HemiOffsets {
  v_hemi_offset_north : Z;
  v_hemi_offset_south : Z;
  vt_hemi_offset_north : Z;
  vt_hemi_offset_south : Z;
  vn_hemi_offset_south : Z;
  f_hemi_offset_north : Z;
  f_hemi_offset_south : Z
}.

(** Body of the inner [for j in lons_range] of the hemisphere loop:
    coordinates, normals and the quads of latitude band [i]. *)
Definition loop_hemi_coords (sin_cos_theta_cache : list (R * R)) (i : Z)
    (phi : R) (j : Z) (st : mesh * hemi_offsets) : res (mesh * hemi_offsets) :=
  let '(m, o) := st in
  let i_v_lons := i * verif_lons in
  (* Symmetries mean cos and sin only need to be called once. *)
  let sin_phi_south := sin phi in
  let cos_phi_south := cos phi in
  let sin_phi_north := (- cos_phi_south)%R in
  let cos_phi_north := sin_phi_south in
  (* North coordinates: multiply by radius and offset. *)
  let rho_cos_phi_north := (verif_rad * cos_phi_north)%R in
  let rho_sin_phi_north := (verif_rad * sin_phi_north)%R in
  let offset_z_north := (half_depth - rho_sin_phi_north)%R in
  (* South coordinates: multiply by radius and offset. *)
  let rho_cos_phi_south := (verif_rad * cos_phi_south)%R in
  let rho_sin_phi_south := (verif_rad * sin_phi_south)%R in
  let offset_z_south := (- half_depth - rho_sin_phi_south)%R in
  (* Index offsets of the current and the next latitude. *)
  let v_curr_lat_n := 1 + i_v_lons in
  let v_next_lat_n := v_curr_lat_n + verif_lons in
  let vt_curr_lat_n := verif_lons + i * verif_lons_p1 in
  let vt_next_lat_n := vt_curr_lat_n + verif_lons_p1 in
  let vn_curr_lat_n := 1 + i_v_lons in
  let vn_next_lat_n := vn_curr_lat_n + verif_lons in
  let v_curr_lat_s := idx_v_s_equator + i_v_lons in
  let v_next_lat_s := v_curr_lat_s + verif_lons in
  let vt_curr_lat_s := idx_vt_s_equator + i * verif_lons_p1 in
  let vt_next_lat_s := vt_curr_lat_s + verif_lons_p1 in
  let vn_curr_lat_s := idx_v_n_equator + i_v_lons in
  let vn_next_lat_s := vn_curr_lat_s + verif_lons in
  let j_next_vt := j + 1 in
  let j_next_v := j_next_vt mod verif_lons in
  '(sin_theta, cos_theta) <- getitem sin_cos_theta_cache j ;;
  (* North coordinate. *)
  vs1 <- setitem (vs m) (v_hemi_offset_north o)
           ((rho_cos_phi_north * cos_theta)%R,
            (rho_cos_phi_north * sin_theta)%R, offset_z_north) ;;
  (* South coordinate. *)
  vs2 <- setitem vs1 (v_hemi_offset_south o)
           ((rho_cos_phi_south * cos_theta)%R,
            (rho_cos_phi_south * sin_theta)%R, offset_z_south) ;;
  (* North normal. *)
  vns1 <- setitem (vns m) (v_hemi_offset_north o)
            ((cos_phi_north * cos_theta)%R,
             (cos_phi_north * sin_theta)%R, (- sin_phi_north)%R) ;;
  (* South normal. *)
  vns2 <- setitem vns1 (vn_hemi_offset_south o)
            ((cos_phi_south * cos_theta)%R,
             (cos_phi_south * sin_theta)%R, (- sin_phi_south)%R) ;;
  (* Coordinates, texture coordinates and normals of the North quad. *)
  v1 <- setitem (v_indices m) (f_hemi_offset_north o)
          [v_curr_lat_n + j; v_next_lat_n + j;
           v_next_lat_n + j_next_v; v_curr_lat_n + j_next_v] ;;
  vt1 <- setitem (vt_indices m) (f_hemi_offset_north o)
           [vt_curr_lat_n + j; vt_next_lat_n + j;
            vt_next_lat_n + j_next_vt; vt_curr_lat_n + j_next_vt] ;;
  vn1 <- setitem (vn_indices m) (f_hemi_offset_north o)
           [vn_curr_lat_n + j; vn_next_lat_n + j;
            vn_next_lat_n + j_next_v; vn_curr_lat_n + j_next_v] ;;
  (* Coordinates, texture coordinates and normals of the South quad. *)
  v2 <- setitem v1 (f_hemi_offset_south o)
          [v_curr_lat_s + j; v_next_lat_s + j;
           v_next_lat_s + j_next_v; v_curr_lat_s + j_next_v] ;;
  vt2 <- setitem vt1 (f_hemi_offset_south o)
           [vt_curr_lat_s + j; vt_next_lat_s + j;
            vt_next_lat_s + j_next_vt; vt_curr_lat_s + j_next_vt] ;;
  vn2 <- setitem vn1 (f_hemi_offset_south o)
           [vn_curr_lat_s + j; vn_next_lat_s + j;
            vn_next_lat_s + j_next_v; vn_curr_lat_s + j_next_v] ;;
  Ok (Mesh vs2 (vts m) vns2 v2 vt2 vn2,
      HemiOffsets (v_hemi_offset_north o + 1) (v_hemi_offset_south o + 1)
        (vt_hemi_offset_north o) (vt_hemi_offset_south o)
        (vn_hemi_offset_south o + 1)
        (f_hemi_offset_north o + 1) (f_hemi_offset_south o + 1)).

(** Body of the inner [for j in lons_p1_range] of the hemisphere loop:
    texture coordinates of latitude [i]. *)
Definition loop_hemi_uvs (s_tex_cache : list R) (t_tex_north t_tex_south : R)
    (j : Z) (st : mesh * hemi_offsets) : res (mesh * hemi_offsets) :=
  let '(m, o) := st in
  s_tex <- getitem s_tex_cache j ;;
  vts1 <- setitem (vts m) (vt_hemi_offset_north o) (s_tex, t_tex_north) ;;
  vts2 <- setitem vts1 (vt_hemi_offset_south o) (s_tex, t_tex_south) ;;
  Ok (Mesh (vs m) vts2 (vns m) (v_indices m) (vt_indices m) (vn_indices m),
      HemiOffsets (v_hemi_offset_north o) (v_hemi_offset_south o)
        (vt_hemi_offset_north o + 1) (vt_hemi_offset_south o + 1)
        (vn_hemi_offset_south o)
        (f_hemi_offset_north o) (f_hemi_offset_south o)).

(** Body of [for i in hemi_range]. *)
Definition loop_hemi (sin_cos_theta_cache : list (R * R)) (s_tex_cache : list R)
    (to_phi to_tex_vertical vt_aspect_north vt_aspect_south : R)
    (i : Z) (st : mesh * hemi_offsets) : res (mesh * hemi_offsets) :=
  let ip1 := (IZR i + 1.0)%R in
  let phi := (ip1 * to_phi)%R in
  (* Coordinates & normals. *)
  st1 <- for_each lons_range (loop_hemi_coords sin_cos_theta_cache i phi) st ;;
  (* Find vertical component of texture. *)
  let t_tex_fac := (ip1 * to_tex_vertical)%R in
  let t_tex_north :=
    (1.0 * (1.0 - t_tex_fac) + t_tex_fac * vt_aspect_north)%R in
  let t_tex_south :=
    (vt_aspect_south * (1.0 - t_tex_fac) + t_tex_fac * 0.0)%R in
  (* Texture coordinates. *)
  for_each lons_p1_range (loop_hemi_uvs s_tex_cache t_tex_north t_tex_south) st1.

(** Body of the inner [for j in lons_range] of the ring loop: the
    coordinates of a ring of the cylinder, between the two equators. *)
Definition loop_ring_coords (fac cmpl_fac : R) (j : Z) (st : list vec3 * Z)
  : res (list vec3 * Z) :=
  let '(vs0, v_cyl_offset) := st in
  v_equator_north <- getitem vs0 (idx_v_n_equator + j) ;;
  v_equator_south <- getitem vs0 (idx_v_s_equator + j) ;;
  let '(n0, n1, n2) := v_equator_north in
  let '(s0, s1, s2) := v_equator_south in
  vs1 <- setitem vs0 v_cyl_offset
           ((n0 * cmpl_fac + s0 * fac)%R,
            (n1 * cmpl_fac + s1 * fac)%R,
            (n2 * cmpl_fac + s2 * fac)%R) ;;
  Ok (vs1, v_cyl_offset + 1).

(** Body of the inner [for j in lons_p1_range] of the ring loop. *)
Definition loop_ring_uvs (s_tex_cache : list R) (t_tex : R) (j : Z)
    (st : list vec2 * Z) : res (list vec2 * Z) :=
  let '(vts0, vt_cyl_offset) := st in
  s_tex <- getitem s_tex_cache j ;;
  vts1 <- setitem vts0 vt_cyl_offset (s_tex, t_tex) ;;
  Ok (vts1, vt_cyl_offset + 1).

(** Body of [for m in range(1, verif_rings_p1)]. *)
Definition loop_rings (s_tex_cache : list R)
    (to_fac vt_aspect_north vt_aspect_south : R) (m : Z)
    (st : list vec3 * list vec2 * Z * Z) : res (list vec3 * list vec2 * Z * Z) :=
  let '(vs0, vts0, v_cyl_offset, vt_cyl_offset) := st in
  let fac := (IZR m * to_fac)%R in
  let cmpl_fac := (1.0 - fac)%R in
  let t_tex := (vt_aspect_north * cmpl_fac + vt_aspect_south * fac)%R in
  (* Coordinates. *)
  '(vs1, v_cyl_offset) <-
     for_each lons_range (loop_ring_coords fac cmpl_fac) (vs0, v_cyl_offset) ;;
  (* Texture coordinates. *)
  '(vts1, vt_cyl_offset) <-
     for_each lons_p1_range (loop_ring_uvs s_tex_cache t_tex)
       (vts0, vt_cyl_offset) ;;
  Ok (vs1, vts1, v_cyl_offset, vt_cyl_offset).

(** Body of the inner [for j in lons_range] of the cylinder loop: the
    quads of cylinder band [m]. *)
Definition loop_cyl_quads (m : Z) (j : Z) (st : list face * list face * list face * Z)
  : res (list face * list face * list face * Z) :=
  let '(v0, vt0, vn0, f_cyl_offset) := st in
  let v_curr_ring := idx_v_n_equator + m * verif_lons in
  let v_next_ring := v_curr_ring + verif_lons in
  let vt_curr_ring := idx_vt_n_equator + m * verif_lons_p1 in
  let vt_next_ring := vt_curr_ring + verif_lons_p1 in
  let j_next_vt := j + 1 in
  let j_next_v := j_next_vt mod verif_lons in
  (* Coordinate quad. *)
  v1 <- setitem v0 f_cyl_offset
          [v_curr_ring + j; v_next_ring + j;
           v_next_ring + j_next_v; v_curr_ring + j_next_v] ;;
  (* Texture coordinate quad. *)
  vt1 <- setitem vt0 f_cyl_offset
           [vt_curr_ring + j; vt_next_ring + j;
            vt_next_ring + j_next_vt; vt_curr_ring + j_next_vt] ;;
  (* Normals quad. *)
  vn1 <- setitem vn0 f_cyl_offset
           [idx_v_n_equator + j; idx_v_n_equator + j;
            idx_v_n_equator + j_next_v; idx_v_n_equator + j_next_v] ;;
  Ok (v1, vt1, vn1, f_cyl_offset + 1).

(** Body of [for m in range(0, verif_rings_p1)]. *)
Definition loop_cyl (m : Z) (st : list face * list face * list face * Z)
  : res (list face * list face * list face * Z) :=
  for_each lons_range (loop_cyl_quads m) st.

Definition create_capsule_data : res mesh :=
  (* Allocate mesh data. *)
  let vs0 := list_repeat (0.0, 0.0, 0.0)%R len_vs in
  let vts0 := list_repeat (0.5, 0.5)%R len_vts in
  let vns0 := list_repeat (0.0, 0.0, 1.0)%R len_vns in
  (* Allocate indices arrays. *)
  let v_indices0 := list_repeat [0; 0; 0] len_indices in
  let vt_indices0 := list_repeat [0; 0; 0] len_indices in
  let vn_indices0 := list_repeat [0; 0; 0] len_indices in
  (* Set poles. *)
  vs1 <- setitem vs0 0 (0.0, 0.0, summit)%R ;;
  vs2 <- setitem vs1 idx_v_south_pole (0.0, 0.0, - summit)%R ;;
  vns1 <- setitem vns0 0 (0.0, 0.0, 1.0)%R ;;
  vns2 <- setitem vns1 idx_vn_south_pole (0.0, 0.0, - 1.0)%R ;;
  (* Calculate polar texture coordinates. *)
  to_theta <- fdiv (2 * PI) (IZR verif_lons) ;;
  to_phi <- fdiv PI (IZR verif_lats) ;;
  to_tex_horizontal <- fdiv 1.0 (IZR verif_lons) ;;
  to_tex_vertical <- fdiv 1.0 (IZR half_lats) ;;
  let sin_cos_theta_cache := list_repeat (0.0, 1.0)%R verif_lons in
  '(m1, sin_cos_theta_cache) <-
     for_each lons_range (loop_poles to_theta to_tex_horizontal)
       (Mesh vs2 vts0 vns2 v_indices0 vt_indices0 vn_indices0,
        sin_cos_theta_cache) ;;
  (* Calculate equatorial texture coordinates. Cache horizontal measure. *)
  let s_tex_cache := list_repeat 0.5%R verif_lons_p1 in
  vt_aspect_south <- vt_aspect_south_of ;;
  let vt_aspect_north := (1.0 - vt_aspect_south)%R in
  '(vts2, s_tex_cache) <-
     for_each lons_p1_range
       (loop_equator_uvs to_tex_horizontal vt_aspect_north vt_aspect_south)
       (vts m1, s_tex_cache) ;;
  let m2 := Mesh (vs m1) vts2 (vns m1)
              (v_indices m1) (vt_indices m1) (vn_indices m1) in
  (* Divide latitudes into hemispheres. Start at i = 1 due to the poles. *)
  let offsets :=
    HemiOffsets 1 idx_v_south verif_lons idx_vt_s_hemi idx_vn_south
      verif_lons idx_fs_south_equat in
  '(m3, _) <-
     for_each hemi_range
       (loop_hemi sin_cos_theta_cache s_tex_cache to_phi to_tex_vertical
          vt_aspect_north vt_aspect_south)
       (m2, offsets) ;;
  (* Calculate rings of cylinder in middle. *)
  '(vs4, vts4) <-
     (if calc_middle then
        to_fac <- fdiv 1.0 (IZR verif_rings_p1) ;;
        '(vs4, vts4, _, _) <-
           for_each (range 1 verif_rings_p1)
             (loop_rings s_tex_cache to_fac vt_aspect_north vt_aspect_south)
             (vs m3, vts m3, idx_v_cyl, idx_vt_cyl) ;;
        Ok (vs4, vts4)
      else Ok (vs m3, vts m3)) ;;
  (* Cylinder indices (quads). *)
  '(v5, vt5, vn5, _) <-
     for_each (range 0 verif_rings_p1) loop_cyl
       (v_indices m3, vt_indices m3, vn_indices m3, idx_fs_cyl) ;;
  (* Return a dictionary containing data. *)
  Ok (Mesh vs4 vts4 (vns m3) v5 vt5 vn5).

End create_capsule_data.

(* ================================================================== *)
(** ** The Shape Fitter: [calculate_radius_height] *)
(* ================================================================== *)

Local Open Scope R_scope.

(** *** The numpy operations the Fitter uses, on rows of three floats *)

Definition vadd (a b : vec3) : vec3 :=
  let '(a0, a1, a2) := a in let '(b0, b1, b2) := b in (a0 + b0, a1 + b1, a2 + b2).

Definition vsub (a b : vec3) : vec3 :=
  let '(a0, a1, a2) := a in let '(b0, b1, b2) := b in (a0 - b0, a1 - b1, a2 - b2).

(** [a * k] and [a / k] for an array [a] and a scalar [k]. *)
Definition vscale (a : vec3) (k : R) : vec3 :=
  let '(a0, a1, a2) := a in (a0 * k, a1 * k, a2 * k).

Definition vdiv (a : vec3) (k : R) : vec3 :=
  let '(a0, a1, a2) := a in (a0 / k, a1 / k, a2 / k).

(** [np.dot(a, b)] *)
Definition dot (a b : vec3) : R :=
  let '(a0, a1, a2) := a in let '(b0, b1, b2) := b in a0 * b0 + a1 * b1 + a2 * b2.

(** [np.cross(a, b)] *)
Definition cross (a b : vec3) : vec3 :=
  let '(a0, a1, a2) := a in
  let '(b0, b1, b2) := b in
  (a1 * b2 - a2 * b1, a2 * b0 - a0 * b2, a0 * b1 - a1 * b0).

(** [np.linalg.norm(a)] *)
Definition norm (a : vec3) : R := sqrt (dot a a).

(** [a.mean(axis=0)] of an array of rows. *)
Definition np_mean (rows : list vec3) : vec3 :=
  vdiv (fold_left vadd rows (0, 0, 0)) (INR (List.length rows)).

(** [a.min()] and [a.max()] of a one-dimensional array; numpy raises
    [ValueError] on an empty one. *)
Definition np_min (xs : list R) : res R :=
  match xs with
  | [] => Raise ValueError
  | x :: xs' => Ok (fold_left Rmin xs' x)
  end.

Definition np_max (xs : list R) : res R :=
  match xs with
  | [] => Raise ValueError
  | x :: xs' => Ok (fold_left Rmax xs' x)
  end.

(** Python's [max(iterable)]: the first of the largest items; [ValueError]
    on an empty iterable. *)
Definition py_max (xs : list R) : res R :=
  match xs with
  | [] => Raise ValueError
  | x :: xs' => Ok (fold_left fmax xs' x)
  end.

(** A [mathutils.Matrix], as its rows. *)
Definition matrix : Type := list (list R).

(** [Matrix.to_4x4()] of a 3x3 matrix. *)
Definition to_4x4 (m : matrix) : matrix :=
  map (fun row => row ++ [0]) m ++ [[0; 0; 0; 1]].

Section calculate_radius_height.

(** The rows of the [vh] factor of [np.linalg.svd(a)] for an array of
    rows of three floats. *)
Variable linalg_svd_vh : list vec3 -> vec3 * vec3 * vec3.

Definition distance_to_axis (point axis_point axis_dir : vec3) : R :=
  let v := vsub point axis_point in
  let d := vsub v (vscale axis_dir (dot v axis_dir)) in
  norm d.

Definition calculate_radius_height (points : list vec3) (cylinder_axis : string)
  : res (R * R * vec3 * matrix) :=
  if (len points <? 2)%Z then Raise ValueError else
  (* Convert points to numpy array *)
  let np_points := points in
  (* Perform Singular Value Decomposition (SVD) to find the principal axis *)
  let centered_points := map (fun p => vsub p (np_mean np_points)) np_points in
  let '(vh0, _, _) := linalg_svd_vh centered_points in
  let principal_axis := vh0 in
  (* Project points onto the principal axis *)
  let projections := map (fun p => dot p principal_axis) np_points in
  min_projection <- np_min projections ;;
  max_projection <- np_max projections ;;
  (* Calculate the capsule height *)
  let height := max_projection - min_projection in
  (* Calculate the center of the capsule along the principal axis *)
  let center_along_axis := (min_projection + max_projection) / 2.0 in
  let capsule_center :=
    vadd (np_mean np_points) (vscale principal_axis center_along_axis) in
  (* Calculate the radius as the maximum distance from the points to the
     principal axis *)
  let axis_point := np_mean np_points in
  radius <- py_max
              (map (fun p => distance_to_axis p axis_point principal_axis)
                 np_points) ;;
  (* Calculate rotation matrix to align the principal axis with the
     selected cylinder axis *)
  let '(x_axis, y_axis, z_axis) :=
    if String.eqb cylinder_axis "X" then
      let x_axis := principal_axis in
      let y_axis := cross (0, 0, 1) x_axis in
      let z_axis := cross x_axis y_axis in
      (x_axis, y_axis, z_axis)
    else if String.eqb cylinder_axis "Y" then
      let y_axis := principal_axis in
      let x_axis := cross (0, 0, 1) y_axis in
      let z_axis := cross x_axis y_axis in
      (x_axis, y_axis, z_axis)
    else
      let z_axis := principal_axis in
      let x_axis := cross (0, 1, 0) z_axis in
      let y_axis := cross z_axis x_axis in
      (x_axis, y_axis, z_axis) in
  let y_axis :=
    if Rlt_dec (norm y_axis) 1e-6 then cross (0, 1, 0) z_axis else y_axis in
  let '(x0, x1, x2) := vdiv x_axis (norm x_axis) in
  let '(y0, y1, y2) := vdiv y_axis (norm y_axis) in
  let '(z0, z1, z2) := vdiv z_axis (norm z_axis) in
  let rotation_matrix_3x3 : matrix :=
    [[x0; y0; z0];
     [x1; y1; z1];
     [x2; y2; z2]] in
  (* Convert center back to Vector for Blender *)
  let center_vector := capsule_center in
  let rotation_matrix_4x4 := to_4x4 rotation_matrix_3x3 in
  Ok (radius, height, center_vector, rotation_matrix_4x4).

End calculate_radius_height.

Local Close Scope R_scope.


(* ================================================================== *)
(** ** The conversion to a BMesh: [mesh_data_to_bmesh] *)
(* ================================================================== *)

(** What [mesh_data_to_bmesh] uses of Blender's [bmesh] module, as an
    interface: the mesh under construction is a state that every call
    reads and may change, and every call may raise. *)
Record bmesh_api : Type := BMeshApi {
  BMesh : Type;
  BMVert : Type;
  BMFace : Type;
  BMLoop : Type;
  UVLayer : Type;
  (* bmesh.new() *)
  bmesh_new : BMesh;
  (* bm.verts.new(co) *)
  verts_new : vec3 -> BMesh -> res (BMVert * BMesh);
  (* bm.loops.layers.uv.verify() *)
  uv_verify : BMesh -> res (UVLayer * BMesh);
  (* bm.faces.new(verts), where an entry of verts may be None *)
  faces_new : list (option BMVert) -> BMesh -> res (BMFace * BMesh);
  (* list(face.loops) *)
  face_loops : BMFace -> BMesh -> list BMLoop;
  (* loop[layer].uv = uv *)
  set_loop_uv : BMLoop -> UVLayer -> vec2 -> BMesh -> res BMesh;
  (* loop.vert.normal = n *)
  set_loop_vert_normal : BMLoop -> vec3 -> BMesh -> res BMesh
}.

Section mesh_data_to_bmesh.

Variable api : bmesh_api.

(** [for i in range(0, len_vs)]: the state is [bm_verts] and [bm]. *)
Definition loop_verts (vs : list vec3) (i : Z)
    (st : list (option (BMVert api)) * BMesh api)
  : res (list (option (BMVert api)) * BMesh api) :=
  let '(bm_verts, bm) := st in
  v <- getitem vs i ;;
  '(bm_vert, bm) <- verts_new api v bm ;;
  bm_verts <- setitem bm_verts i (Some bm_vert) ;;
  Ok (bm_verts, bm).

(** [for j in range(0, len_v_loop)]: the state is [face_verts]. *)
Definition loop_face_verts (bm_verts : list (option (BMVert api)))
    (v_loop : face) (j : Z) (face_verts : list (option (BMVert api)))
  : res (list (option (BMVert api))) :=
  v_index <- getitem v_loop j ;;
  bm_vert <- getitem bm_verts v_index ;;
  setitem face_verts j bm_vert.

(** [for k in range(0, len_v_loop)]: the state is [bm]. *)
Definition loop_corners (vts : list vec2) (vns : list vec3)
    (vt_loop vn_loop : face) (uv_layer : UVLayer api)
    (bm_face_loops : list (BMLoop api)) (k : Z) (bm : BMesh api)
  : res (BMesh api) :=
  bm_face_loop <- getitem bm_face_loops k ;;
  vt_index <- getitem vt_loop k ;;
  uv <- getitem vts vt_index ;;
  bm <- set_loop_uv api bm_face_loop uv_layer uv bm ;;
  vn_index <- getitem vn_loop k ;;
  n <- getitem vns vn_index ;;
  set_loop_vert_normal api bm_face_loop n bm.

(** [for i in range(0, len_v_indices)]: the state is [bm_faces] and
    [bm]. *)
Definition loop_faces (vts : list vec2) (vns : list vec3)
    (v_indices vt_indices vn_indices : list face)
    (bm_verts : list (option (BMVert api))) (uv_layer : UVLayer api) (i : Z)
    (st : list (option (BMFace api)) * BMesh api)
  : res (list (option (BMFace api)) * BMesh api) :=
  let '(bm_faces, bm) := st in
  v_loop <- getitem v_indices i ;;
  vt_loop <- getitem vt_indices i ;;
  vn_loop <- getitem vn_indices i ;;
  (* Find list of vertices per face. *)
  let len_v_loop := len v_loop in
  let face_verts := list_repeat None len_v_loop in
  face_verts <- for_each (range 0 len_v_loop)
                  (loop_face_verts bm_verts v_loop) face_verts ;;
  (* Create BM face. *)
  '(bm_face, bm) <- faces_new api face_verts bm ;;
  bm_faces <- setitem bm_faces i (Some bm_face) ;;
  let bm_face_loops := face_loops api bm_face bm in
  (* Assign texture coordinates and normals. *)
  bm <- for_each (range 0 len_v_loop)
          (loop_corners vts vns vt_loop vn_loop uv_layer bm_face_loops) bm ;;
  Ok (bm_faces, bm).

Definition mesh_data_to_bmesh (vs : list vec3) (vts : list vec2)
    (vns : list vec3) (v_indices vt_indices vn_indices : list face)
  : res (BMesh api) :=
  let bm := bmesh_new api in
  (* Create BM vertices. *)
  let len_vs := len vs in
  let bm_verts := list_repeat None len_vs in
  '(bm_verts, bm) <- for_each (range 0 len_vs) (loop_verts vs) (bm_verts, bm) ;;
  (* Create BM faces. *)
  let len_v_indices := len v_indices in
  let bm_faces := list_repeat None len_v_indices in
  '(uv_layer, bm) <- uv_verify api bm ;;
  '(_, bm) <- for_each (range 0 len_v_indices)
                (loop_faces vts vns v_indices vt_indices vn_indices
                   bm_verts uv_layer)
                (bm_faces, bm) ;;
  Ok bm.

End mesh_data_to_bmesh.

(* ================================================================== *)
(** ** The two functions where the runtime and numpy may refuse *)
(* ================================================================== *)

(** [isinstance(e, ValueError)]: numpy's [LinAlgError] is a subclass of
    [ValueError]. *)
Definition isinstance_ValueError (e : exn) : bool :=
  match e with
  | ValueError | LinAlgError => true
  | _ => false
  end.

(** [sys.maxsize] of a 64-bit CPython: the largest length of a list. *)
Definition sys_maxsize : Z := 2 ^ 63 - 1.

Section create_capsule_data_allocating.

(** Whether the runtime, at the allocation numbered [site] of the call,
    has no room for a list of [n] entries. *)
Variable out_of_memory : nat -> Z -> bool.

(** What [[x] * n] raises, if anything: [OverflowError] when [n] does not
    fit an index, [MemoryError] when the runtime has no room. *)
Definition list_mul_error (site : nat) (n : Z) : option exn :=
  if (n <? - sys_maxsize - 1) || (sys_maxsize <? n) then Some OverflowError
  else if out_of_memory site n then Some MemoryError
  else None.

(** [[x] * n] *)
Definition py_list_mul {A : Type} (site : nat) (x : A) (n : Z) : res (list A) :=
  match list_mul_error site n with
  | Some e => Raise e
  | None => Ok (list_repeat x n)
  end.

Variables longitudes latitudes rings : Z.
Variables depth radius : R.
Variable uv_profile : string.

Local Abbreviation verif_lons := (verif_lons longitudes).
Local Abbreviation verif_lats := (verif_lats latitudes).
Local Abbreviation calc_middle := (calc_middle rings).
Local Abbreviation half_lats := (half_lats latitudes).
Local Abbreviation verif_rings_p1 := (verif_rings_p1 rings).
Local Abbreviation verif_lons_p1 := (verif_lons_p1 longitudes).
Local Abbreviation summit := (summit depth radius).
Local Abbreviation idx_v_cyl := (idx_v_cyl longitudes latitudes).
Local Abbreviation idx_v_south := (idx_v_south longitudes latitudes rings).
Local Abbreviation idx_v_south_pole :=
  (idx_v_south_pole longitudes latitudes rings).
Local Abbreviation idx_vt_cyl := (idx_vt_cyl longitudes latitudes).
Local Abbreviation idx_vt_s_hemi := (idx_vt_s_hemi longitudes latitudes rings).
Local Abbreviation idx_vn_south := (idx_vn_south longitudes latitudes).
Local Abbreviation idx_vn_south_pole := (idx_vn_south_pole longitudes latitudes).
Local Abbreviation idx_fs_cyl := (idx_fs_cyl longitudes latitudes).
Local Abbreviation idx_fs_south_equat :=
  (idx_fs_south_equat longitudes latitudes rings).
Local Abbreviation len_vs := (len_vs longitudes latitudes rings).
Local Abbreviation len_vts := (len_vts longitudes latitudes rings).
Local Abbreviation len_vns := (len_vns longitudes latitudes).
Local Abbreviation len_indices := (len_indices longitudes latitudes rings).
Local Abbreviation lons_range := (lons_range longitudes).
Local Abbreviation lons_p1_range := (lons_p1_range longitudes).
Local Abbreviation hemi_range := (hemi_range latitudes).
Local Abbreviation loop_poles :=
  (loop_poles longitudes latitudes rings depth radius).
Local Abbreviation vt_aspect_south_of :=
  (vt_aspect_south_of latitudes rings depth radius uv_profile).
Local Abbreviation loop_equator_uvs :=
  (loop_equator_uvs longitudes latitudes rings).
Local Abbreviation loop_hemi :=
  (loop_hemi longitudes latitudes rings depth radius).
Local Abbreviation loop_rings := (loop_rings longitudes latitudes rings).
Local Abbreviation loop_cyl := (loop_cyl longitudes latitudes).

(** The lists the builder allocates, in the order of the source, each
    with the number of its allocation and its length. *)
Definition list_allocations : list (nat * Z) :=
  [(0%nat, len_vs); (1%nat, len_vts); (2%nat, len_vns);
   (3%nat, len_indices); (4%nat, len_indices); (5%nat, len_indices);
   (6%nat, verif_lons); (7%nat, verif_lons_p1)].

(** The runtime grants every list the builder allocates. *)
Definition allocations_granted : Prop :=
  Forall (fun a => list_mul_error (fst a) (snd a) = None) list_allocations.

Definition create_capsule_data_allocating : res mesh :=
  (* Allocate mesh data. *)
  vs0 <- py_list_mul 0 (0.0, 0.0, 0.0)%R len_vs ;;
  vts0 <- py_list_mul 1 (0.5, 0.5)%R len_vts ;;
  vns0 <- py_list_mul 2 (0.0, 0.0, 1.0)%R len_vns ;;
  (* Allocate indices arrays. *)
  v_indices0 <- py_list_mul 3 [0; 0; 0] len_indices ;;
  vt_indices0 <- py_list_mul 4 [0; 0; 0] len_indices ;;
  vn_indices0 <- py_list_mul 5 [0; 0; 0] len_indices ;;
  (* Set poles. *)
  vs1 <- setitem vs0 0 (0.0, 0.0, summit)%R ;;
  vs2 <- setitem vs1 idx_v_south_pole (0.0, 0.0, - summit)%R ;;
  vns1 <- setitem vns0 0 (0.0, 0.0, 1.0)%R ;;
  vns2 <- setitem vns1 idx_vn_south_pole (0.0, 0.0, - 1.0)%R ;;
  (* Calculate polar texture coordinates. *)
  to_theta <- fdiv (2 * PI) (IZR verif_lons) ;;
  to_phi <- fdiv PI (IZR verif_lats) ;;
  to_tex_horizontal <- fdiv 1.0 (IZR verif_lons) ;;
  to_tex_vertical <- fdiv 1.0 (IZR half_lats) ;;
  sin_cos_theta_cache <- py_list_mul 6 (0.0, 1.0)%R verif_lons ;;
  '(m1, sin_cos_theta_cache) <-
     for_each lons_range (loop_poles to_theta to_tex_horizontal)
       (Mesh vs2 vts0 vns2 v_indices0 vt_indices0 vn_indices0,
        sin_cos_theta_cache) ;;
  (* Calculate equatorial texture coordinates. Cache horizontal measure. *)
  s_tex_cache <- py_list_mul 7 0.5%R verif_lons_p1 ;;
  vt_aspect_south <- vt_aspect_south_of ;;
  let vt_aspect_north := (1.0 - vt_aspect_south)%R in
  '(vts2, s_tex_cache) <-
     for_each lons_p1_range
       (loop_equator_uvs to_tex_horizontal vt_aspect_north vt_aspect_south)
       (vts m1, s_tex_cache) ;;
  let m2 := Mesh (vs m1) vts2 (vns m1)
              (v_indices m1) (vt_indices m1) (vn_indices m1) in
  (* Divide latitudes into hemispheres. Start at i = 1 due to the poles. *)
  let offsets :=
    HemiOffsets 1 idx_v_south verif_lons idx_vt_s_hemi idx_vn_south
      verif_lons idx_fs_south_equat in
  '(m3, _) <-
     for_each hemi_range
       (loop_hemi sin_cos_theta_cache s_tex_cache to_phi to_tex_vertical
          vt_aspect_north vt_aspect_south)
       (m2, offsets) ;;
  (* Calculate rings of cylinder in middle. *)
  '(vs4, vts4) <-
     (if calc_middle then
        to_fac <- fdiv 1.0 (IZR verif_rings_p1) ;;
        '(vs4, vts4, _, _) <-
           for_each (range 1 verif_rings_p1)
             (loop_rings s_tex_cache to_fac vt_aspect_north vt_aspect_south)
             (vs m3, vts m3, idx_v_cyl, idx_vt_cyl) ;;
        Ok (vs4, vts4)
      else Ok (vs m3, vts m3)) ;;
  (* Cylinder indices (quads). *)
  '(v5, vt5, vn5, _) <-
     for_each (range 0 verif_rings_p1) loop_cyl
       (v_indices m3, vt_indices m3, vn_indices m3, idx_fs_cyl) ;;
  (* Return a dictionary containing data. *)
  Ok (Mesh vs4 vts4 (vns m3) v5 vt5 vn5).

End create_capsule_data_allocating.

Local Open Scope R_scope.

Section calculate_radius_height_raising.

(** [np.linalg.svd(a)] for an array of rows of three floats: the rows of
    its [vh] factor, or what it raises. *)
Variable linalg_svd : list vec3 -> res (vec3 * vec3 * vec3).

Definition calculate_radius_height_raising (points : list vec3)
    (cylinder_axis : string) : res (R * R * vec3 * matrix) :=
  if (len points <? 2)%Z then Raise ValueError else
  (* Convert points to numpy array *)
  let np_points := points in
  (* Perform Singular Value Decomposition (SVD) to find the principal axis *)
  let centered_points := map (fun p => vsub p (np_mean np_points)) np_points in
  '(vh0, _, _) <- linalg_svd centered_points ;;
  let principal_axis := vh0 in
  (* Project points onto the principal axis *)
  let projections := map (fun p => dot p principal_axis) np_points in
  min_projection <- np_min projections ;;
  max_projection <- np_max projections ;;
  (* Calculate the capsule height *)
  let height := max_projection - min_projection in
  (* Calculate the center of the capsule along the principal axis *)
  let center_along_axis := (min_projection + max_projection) / 2.0 in
  let capsule_center :=
    vadd (np_mean np_points) (vscale principal_axis center_along_axis) in
  (* Calculate the radius as the maximum distance from the points to the
     principal axis *)
  let axis_point := np_mean np_points in
  radius <- py_max
              (map (fun p => distance_to_axis p axis_point principal_axis)
                 np_points) ;;
  (* Calculate rotation matrix to align the principal axis with the
     selected cylinder axis *)
  let '(x_axis, y_axis, z_axis) :=
    if String.eqb cylinder_axis "X" then
      let x_axis := principal_axis in
      let y_axis := cross (0, 0, 1) x_axis in
      let z_axis := cross x_axis y_axis in
      (x_axis, y_axis, z_axis)
    else if String.eqb cylinder_axis "Y" then
      let y_axis := principal_axis in
      let x_axis := cross (0, 0, 1) y_axis in
      let z_axis := cross x_axis y_axis in
      (x_axis, y_axis, z_axis)
    else
      let z_axis := principal_axis in
      let x_axis := cross (0, 1, 0) z_axis in
      let y_axis := cross z_axis x_axis in
      (x_axis, y_axis, z_axis) in
  let y_axis :=
    if Rlt_dec (norm y_axis) 1e-6 then cross (0, 1, 0) z_axis else y_axis in
  let '(x0, x1, x2) := vdiv x_axis (norm x_axis) in
  let '(y0, y1, y2) := vdiv y_axis (norm y_axis) in
  let '(z0, z1, z2) := vdiv z_axis (norm z_axis) in
  let rotation_matrix_3x3 : matrix :=
    [[x0; y0; z0];
     [x1; y1; z1];
     [x2; y2; z2]] in
  (* Convert center back to Vector for Blender *)
  let center_vector := capsule_center in
  let rotation_matrix_4x4 := to_4x4 rotation_matrix_3x3 in
  Ok (radius, height, center_vector, rotation_matrix_4x4).

End calculate_radius_height_raising.

Local Close Scope R_scope.
(* ================================================================== *)
(** ** Properties of a face list *)
(* ================================================================== *)

(** The edges of a face: each entry paired with its successor, the last
    with the first. *)
Definition face_edges {A : Type} (f : list A) : list (A * A) :=
  match f with
  | [] => []
  | x :: tl => combine f (tl ++ [x])
  end.

Definition edge_eqb (e1 e2 : Z * Z) : bool :=
  (fst e1 =? fst e2) && (snd e1 =? snd e2).

(** Face [f] runs along the edge [e], in the direction of [e]. *)
Definition has_edge (e : Z * Z) (f : face) : bool :=
  existsb (edge_eqb e) (face_edges f).

(** The faces that run along [e] in its direction, and the faces that
    share the edge between [a] and [b] in either direction. *)
Definition faces_along (fs : list face) (e : Z * Z) : list face :=
  filter (has_edge e) fs.

Definition faces_sharing (fs : list face) (a b : Z) : list face :=
  filter (fun f => has_edge (a, b) f || has_edge (b, a) f) fs.

(** A closed, consistently wound surface: every edge of every face is
    shared by exactly two faces, one running along it in each direction. *)
Definition closed_oriented (fs : list face) : Prop :=
  forall f a b,
    In f fs -> In (a, b) (face_edges f) ->
    List.length (faces_sharing fs a b) = 2%nat /\
    List.length (faces_along fs (a, b)) = 1%nat /\
    List.length (faces_along fs (b, a)) = 1%nat.

(** Every entry of a face is an index into a buffer of [n] entries. *)
Definition valid_face (n : Z) (f : face) : Prop :=
  Forall (fun i => 0 <= i < n) f.

(** *** The faces of a capsule in closed form

    A capsule with [K] rings of [L] vertices between its poles: the north
    pole has index [0], vertex [j] of ring [t] has index [1 + t * L + j],
    the south pole has index [1 + K * L].  Row [s] of the face list ([L]
    faces) is the north fan for [s = 0], the south fan for [s = K], and
    the band of quads between rings [s - 1] and [s] otherwise. *)
Definition capsule_face (L K s j : Z) : face :=
  let jn := (j + 1) mod L in
  if s =? 0 then
    [0; j + 1; 1 + jn]
  else if s <? K then
    [1 + (s - 1) * L + j; 1 + s * L + j; 1 + s * L + jn; 1 + (s - 1) * L + jn]
  else
    [1 + K * L; 1 + (K - 1) * L + jn; 1 + (K - 1) * L + j].

Definition capsule_faces (L K : Z) : list face :=
  flat_map (fun s => map (capsule_face L K s) (range 0 L)) (range 0 (K + 1)).


(* ================================================================== *)
(** ** Properties of a fitted capsule *)
(* ================================================================== *)

Local Open Scope R_scope.

(** What [np.linalg.svd] promises of the first row [a] of [vh] for the
    rows [cs]: a unit vector along which the squared projections of the
    rows sum to the most. *)
Definition is_principal_axis (cs : list vec3) (a : vec3) : Prop :=
  norm a = 1 /\
  forall b, norm b = 1 ->
    fold_right Rplus 0 (map (fun c => dot c b * dot c b) cs) <=
    fold_right Rplus 0 (map (fun c => dot c a * dot c a) cs).

(** The principal axis the Fitter works with for [points]. *)
Definition principal_axis_of (linalg_svd_vh : list vec3 -> vec3 * vec3 * vec3)
    (points : list vec3) : vec3 :=
  fst (fst (linalg_svd_vh (map (fun p => vsub p (np_mean points)) points))).

(** [d] is the distance from [p] to the line through [c] along [a]: the
    distance from [p] to the foot of the perpendicular from [p]. *)
Definition perpendicular_distance (p c a : vec3) (d : R) : Prop :=
  exists t,
    let foot := vadd c (vscale a t) in
    dot (vsub p foot) a = 0 /\ d = norm (vsub p foot).

(** Column [k] of the upper three rows of a matrix. *)
Definition column (m : matrix) (k : nat) : vec3 :=
  (nth k (nth 0 m []) 0, nth k (nth 1 m []) 0, nth k (nth 2 m []) 0).

Definition orthonormal_columns (m : matrix) : Prop :=
  norm (column m 0) = 1 /\ norm (column m 1) = 1 /\ norm (column m 2) = 1 /\
  dot (column m 0) (column m 1) = 0 /\
  dot (column m 0) (column m 2) = 0 /\
  dot (column m 1) (column m 2) = 0.

(** The fixed axis the Fitter crosses the principal axis with first. *)
Definition reference_axis (cylinder_axis : string) : vec3 :=
  if String.eqb cylinder_axis "X" then (0, 0, 1)
  else if String.eqb cylinder_axis "Y" then (0, 0, 1)
  else (0, 1, 0).

(** An answer of [np.linalg.svd] that does not depend on its argument,
    for runs on a given input. *)
Definition vh_const (r0 r1 r2 : vec3) (_ : list vec3) : vec3 * vec3 * vec3 :=
  (r0, r1, r2).

Local Close Scope R_scope.

(* ================================================================== *)
(** ** Definitions of the proofs *)
(* ================================================================== *)

(** *** Lists addressed by integers *)

(** The entry at a non-negative position [k], if any. *)
Definition zth {A : Type} (l : list A) (k : Z) : option A :=
  if k <? 0 then None else nth_error l (Z.to_nat k).

(** The list with its entry at position [i] replaced by [v]. *)
Definition zupd {A : Type} (l : list A) (i : Z) (v : A) : list A :=
  upd l (Z.to_nat i) v.

(** A table of rows [a .. b - 1], each of the [n] entries [f s 0 ..
    f s (n - 1)], stored row after row. *)
Definition table {A : Type} (f : Z -> Z -> A) (n a b : Z) : list A :=
  flat_map (fun s => map (f s) (range 0 n)) (range a b).

(** *** The surface of a capsule

    The vertices of a capsule by their place on the surface, and its faces
    over them: the index arithmetic of [capsule_face] is left behind, and
    what remains is told apart by linear arithmetic on ring and column. *)

Inductive vertex : Type :=
| NorthPole
| Ring (t j : Z)
| SouthPole.

Section surface.

Variables L K : Z.

(** The index of a vertex in the vertex buffer. *)
Definition vertex_index (v : vertex) : Z :=
  match v with
  | NorthPole => 0
  | Ring t j => 1 + t * L + j
  | SouthPole => 1 + K * L
  end.

(** The vertices that exist: the poles and [L] vertices on each of [K]
    rings. *)
Definition on_surface (v : vertex) : Prop :=
  match v with
  | Ring t j => 0 <= t < K /\ 0 <= j < L
  | _ => True
  end.

(** Face [j] of row [s], as [capsule_face] has it. *)
Definition surface_face (s j : Z) : list vertex :=
  let jn := (j + 1) mod L in
  if s =? 0 then
    [NorthPole; Ring 0 j; Ring 0 jn]
  else if s <? K then
    [Ring (s - 1) j; Ring s j; Ring s jn; Ring (s - 1) jn]
  else
    [SouthPole; Ring (K - 1) jn; Ring (K - 1) j].

(** The edges of the face at a place, and an edge by its indices. *)
Definition surface_edges (p : Z * Z) : list (vertex * vertex) :=
  face_edges (surface_face (fst p) (snd p)).

Definition index_edge (e : vertex * vertex) : Z * Z :=
  (vertex_index (fst e), vertex_index (snd e)).

End surface.

(** *** Invariants of the builder's loops *)

Section builder_invariants.

Variables longitudes latitudes rings : Z.
Variables depth radius : R.

Local Abbreviation L := (verif_lons longitudes).
Local Abbreviation hl := (half_lats latitudes).
Local Abbreviation rg := (verif_rings rings).
Local Abbreviation verif_lats := (verif_lats latitudes).
Local Abbreviation verif_rings := (verif_rings rings).
Local Abbreviation summit := (summit depth radius).
Local Abbreviation idx_v_south := (idx_v_south longitudes latitudes rings).
Local Abbreviation idx_v_south_pole :=
  (idx_v_south_pole longitudes latitudes rings).
Local Abbreviation idx_vt_s_hemi := (idx_vt_s_hemi longitudes latitudes rings).
Local Abbreviation idx_vn_south := (idx_vn_south longitudes latitudes).
Local Abbreviation idx_vn_south_pole := (idx_vn_south_pole longitudes latitudes).
Local Abbreviation idx_fs_cyl := (idx_fs_cyl longitudes latitudes).
Local Abbreviation idx_fs_south_equat :=
  (idx_fs_south_equat longitudes latitudes rings).
Local Abbreviation len_vs := (len_vs longitudes latitudes rings).
Local Abbreviation len_vts := (len_vts longitudes latitudes rings).
Local Abbreviation len_vns := (len_vns longitudes latitudes).
Local Abbreviation len_indices := (len_indices longitudes latitudes rings).

(** The builder's surface has [ring_count] rings of [L] vertices between
    its poles. *)
Definition ring_count : Z := verif_lats + verif_rings.

Local Abbreviation K := ring_count.
Local Abbreviation face_row := (capsule_face L K).

(** The vertex buffer keeps its length and its two poles. *)
Definition vs_inv (l : list vec3) : Prop :=
  len l = len_vs /\
  zth l 0 = Some (0.0, 0.0, summit)%R /\
  zth l idx_v_south_pole = Some (0.0, 0.0, - summit)%R.

(** The normal buffer keeps its length, and the entries past the normal
    of the south pole keep the value they were allocated with. *)
Definition vns_inv (l : list vec3) : Prop :=
  len l = len_vns /\
  forall k, idx_vn_south_pole < k < len_vns ->
            zth l k = Some (0.0, 0.0, 1.0)%R.

(** The faces written so far, [W s j] for face [j] of row [s], are the
    faces of the closed form. *)
Definition faces_inv (W : Z -> Z -> Prop) (l : list face) : Prop :=
  len l = len_indices /\
  forall s j, 0 <= j < L -> W s j -> zth l (s * L + j) = Some (face_row s j).

(** The texture and normal faces index into their buffers. *)
Definition vt_inv (l : list face) : Prop :=
  len l = len_indices /\ Forall (valid_face len_vts) l.

Definition vn_inv (l : list face) : Prop :=
  len l = len_indices /\ Forall (valid_face len_vns) l.

Definition mesh_inv (W : Z -> Z -> Prop) (m : mesh) : Prop :=
  vs_inv (vs m) /\ len (vts m) = len_vts /\ vns_inv (vns m) /\
  faces_inv W (v_indices m) /\ vt_inv (vt_indices m) /\ vn_inv (vn_indices m).

(** Faces written by the first [j0] iterations of the loop over the
    poles: the first [j0] faces of the two fans. *)
Definition W_poles (j0 : Z) (s j : Z) : Prop :=
  (s = 0 \/ s = K) /\ 0 <= j < j0.

(** The running offsets of the hemisphere loops after [i] whole latitudes,
    [j] more vertices and [jt] more texture coordinates. *)
Definition hemi_off (i j jt : Z) : hemi_offsets :=
  HemiOffsets (1 + i * L + j) (idx_v_south + i * L + j)
    (L + i * (L + 1) + jt) (idx_vt_s_hemi + i * (L + 1) + jt)
    (idx_vn_south + i * L + j)
    (L + i * L + j) (idx_fs_south_equat + i * L + j).

(** Faces written once the fans, [i0] whole latitude bands per hemisphere
    and the first [j0] quads of the next band of each are done. *)
Definition W_hemi (i0 j0 : Z) (s j : Z) : Prop :=
  W_poles L s j \/
  ((1 <= s < 1 + i0 \/ hl + rg + 1 <= s < hl + rg + 1 + i0) /\ 0 <= j < L) \/
  ((s = 1 + i0 \/ s = hl + rg + 1 + i0) /\ 0 <= j < j0).

(** Faces written once the fans, both hemispheres, [m0] whole bands of the
    cylinder and the first [j0] quads of its next band are done. *)
Definition W_cyl (m0 j0 : Z) (s j : Z) : Prop :=
  W_hemi (hl - 1) 0 s j \/
  (hl <= s < hl + m0 /\ 0 <= j < L) \/
  (s = hl + m0 /\ 0 <= j < j0).

(** The state of the loops over the cylinder. *)
Definition cyl_inv (m j : Z) (st : list face * list face * list face * Z)
  : Prop :=
  let '(v, vt, vn, off) := st in
  faces_inv (W_cyl m j) v /\ vt_inv vt /\ vn_inv vn /\
  off = idx_fs_cyl + m * L + j.

End builder_invariants.

(** *** The rotation of the Fitter *)

Local Open Scope R_scope.

(** The three axes the Fitter derives from the principal axis, each
    divided by its length, and the matrix it builds of them as columns. *)
Definition fit_axes (principal_axis : vec3) (cylinder_axis : string)
  : vec3 * vec3 * vec3 :=
  let '(x_axis, y_axis, z_axis) :=
    if String.eqb cylinder_axis "X" then
      let x_axis := principal_axis in
      let y_axis := cross (0, 0, 1) x_axis in
      let z_axis := cross x_axis y_axis in
      (x_axis, y_axis, z_axis)
    else if String.eqb cylinder_axis "Y" then
      let y_axis := principal_axis in
      let x_axis := cross (0, 0, 1) y_axis in
      let z_axis := cross x_axis y_axis in
      (x_axis, y_axis, z_axis)
    else
      let z_axis := principal_axis in
      let x_axis := cross (0, 1, 0) z_axis in
      let y_axis := cross z_axis x_axis in
      (x_axis, y_axis, z_axis) in
  let y_axis :=
    if Rlt_dec (norm y_axis) 1e-6 then cross (0, 1, 0) z_axis else y_axis in
  (vdiv x_axis (norm x_axis), vdiv y_axis (norm y_axis),
   vdiv z_axis (norm z_axis)).

Definition axes_matrix (axes : vec3 * vec3 * vec3) : matrix :=
  let '(x, y, z) := axes in
  let '(x0, x1, x2) := x in
  let '(y0, y1, y2) := y in
  let '(z0, z1, z2) := z in
  to_4x4 [[x0; y0; z0]; [x1; y1; z1]; [x2; y2; z2]].

Local Close Scope R_scope.


(* ================================================================== *)
(** ** The capsule in closed form: coordinates, normals, texture *)
(* ================================================================== *)

(** What a row of the builder's buffers holds: the entry of a pole or of
    its cap of texture coordinates, latitude [i] of a hemisphere, an
    equator, or ring [m] of the cylinder. *)
Inductive ring_kind : Type :=
| NorthCap
| NorthRing (i : Z)
| NorthEquator
| CylRing (m : Z)
| SouthEquator
| SouthRing (i : Z)
| SouthCap.

Section capsule_closed_form.

Variables longitudes latitudes rings : Z.
Variables depth radius : R.
Variable uv_profile : string.

Local Abbreviation L := (verif_lons longitudes).
Local Abbreviation hl := (half_lats latitudes).
Local Abbreviation rg := (verif_rings rings).
Local Abbreviation K := (ring_count latitudes rings).
Local Abbreviation verif_rad := (verif_rad radius).
Local Abbreviation verif_depth := (verif_depth depth).
Local Abbreviation verif_lats := (verif_lats latitudes).
Local Abbreviation half_depth := (half_depth depth).
Local Abbreviation summit := (summit depth radius).

(** Row [t] of the vertex buffer (after the north pole) and of the
    texture coordinate buffer (after the north cap): the latitudes of the
    north hemisphere, the north equator, the rings of the cylinder, the
    south equator, the latitudes of the south hemisphere. *)
Definition ring_kind_of (t : Z) : ring_kind :=
  if t <? 0 then NorthCap
  else if t <? hl - 1 then NorthRing t
  else if t =? hl - 1 then NorthEquator
  else if t <? hl + rg then CylRing (t - hl + 1)
  else if t =? hl + rg then SouthEquator
  else if t <? K then SouthRing (t - hl - rg - 1)
  else SouthCap.

(** Row [r] of the normal buffer (after the north pole's normal): the
    latitudes of the north hemisphere, the equator, the latitudes of the
    south hemisphere. *)
Definition normal_kind_of (r : Z) : ring_kind :=
  if r <? 0 then NorthCap
  else if r <? hl - 1 then NorthRing r
  else if r =? hl - 1 then NorthEquator
  else if r <? 2 * hl - 1 then SouthRing (r - hl)
  else SouthCap.

(** The row of the normal buffer that the faces use for the vertices of
    row [t]: the rings of the cylinder and both equators share the
    normals of the equator. *)
Definition normal_row (t : Z) : Z :=
  if t <? hl then t else if t <? hl + rg then hl - 1 else t - rg - 1.

Local Open Scope R_scope.

(** The azimuth of column [j] and the polar angle of latitude [i], as the
    builder computes them. *)
Definition theta (j : Z) : R := IZR j * (2 * PI / IZR L).
Definition phi (i : Z) : R := (IZR i + 1.0) * (PI / IZR verif_lats).

(** The horizontal texture coordinate of column [j], the interpolation
    factor of latitude [i] and that of ring [m]. *)
Definition s_tex_of (j : Z) : R := IZR j * (1.0 / IZR L).
Definition t_tex_fac_of (i : Z) : R := (IZR i + 1.0) * (1.0 / IZR hl).
Definition fac_of (m : Z) : R := IZR m * (1.0 / IZR (rg + 1)).

(** The V coordinate of the south equator by the profile, and that of the
    north equator. *)
Definition uv_aspect_south : R :=
  if String.eqb uv_profile "ASPECT" then
    verif_rad / (verif_depth + 2.0 * verif_rad)
  else if String.eqb uv_profile "UNIFORM" then
    IZR hl / IZR (rg + 1 + verif_lats)
  else 1.0 / 3.0.

Definition uv_aspect_north : R := 1.0 - uv_aspect_south.

(** The coordinates the builder computes for column [j] of a row. *)
Definition ring_vertex (k : ring_kind) (j : Z) : vec3 :=
  match k with
  | NorthCap => (0.0, 0.0, summit)
  | NorthRing i =>
      (verif_rad * sin (phi i) * cos (theta j),
       verif_rad * sin (phi i) * sin (theta j),
       half_depth - verif_rad * - cos (phi i))
  | NorthEquator =>
      (verif_rad * cos (theta j), verif_rad * sin (theta j), half_depth)
  | CylRing m =>
      (verif_rad * cos (theta j) * (1.0 - fac_of m) +
       verif_rad * cos (theta j) * fac_of m,
       verif_rad * sin (theta j) * (1.0 - fac_of m) +
       verif_rad * sin (theta j) * fac_of m,
       half_depth * (1.0 - fac_of m) + - half_depth * fac_of m)
  | SouthEquator =>
      (verif_rad * cos (theta j), verif_rad * sin (theta j), - half_depth)
  | SouthRing i =>
      (verif_rad * cos (phi i) * cos (theta j),
       verif_rad * cos (phi i) * sin (theta j),
       - half_depth - verif_rad * sin (phi i))
  | SouthCap => (0.0, 0.0, - summit)
  end.

(** The normal the builder computes for column [j] of a row. *)
Definition ring_normal (k : ring_kind) (j : Z) : vec3 :=
  match k with
  | NorthCap => (0.0, 0.0, 1.0)
  | NorthRing i =>
      (sin (phi i) * cos (theta j), sin (phi i) * sin (theta j),
       - - cos (phi i))
  | NorthEquator | CylRing _ | SouthEquator =>
      (cos (theta j), sin (theta j), 0)
  | SouthRing i =>
      (cos (phi i) * cos (theta j), cos (phi i) * sin (theta j),
       - sin (phi i))
  | SouthCap => (0.0, 0.0, - 1.0)
  end.

(** The texture coordinate the builder computes for column [j] of a row;
    column [j] of the north cap belongs to triangle [j - 1] of the fan. *)
Definition ring_uv (k : ring_kind) (j : Z) : vec2 :=
  match k with
  | NorthCap => ((IZR (j - 1) + 0.5) * (1.0 / IZR L), 1)
  | NorthRing i =>
      (s_tex_of j,
       1.0 * (1.0 - t_tex_fac_of i) + t_tex_fac_of i * uv_aspect_north)
  | NorthEquator => (s_tex_of j, uv_aspect_north)
  | CylRing m =>
      (s_tex_of j,
       uv_aspect_north * (1.0 - fac_of m) + uv_aspect_south * fac_of m)
  | SouthEquator => (s_tex_of j, uv_aspect_south)
  | SouthRing i =>
      (s_tex_of j, uv_aspect_south * (1.0 - t_tex_fac_of i) +
                   t_tex_fac_of i * 0.0)
  | SouthCap => ((IZR j + 0.5) * (1.0 / IZR L), 0)
  end.

Local Close Scope R_scope.

Definition capsule_vertex (t j : Z) : vec3 := ring_vertex (ring_kind_of t) j.
Definition capsule_normal (r j : Z) : vec3 := ring_normal (normal_kind_of r) j.
Definition capsule_uv (t j : Z) : vec2 := ring_uv (ring_kind_of t) j.

(** *** The texture and normal faces in closed form

    Row [t] of the texture coordinates starts at [L + t * (L + 1)]: it
    has one column more than a row of vertices, so that no face wraps
    around the seam. *)
Definition uv_row (t : Z) : Z := L + t * (L + 1).

Definition capsule_vt_face (s j : Z) : face :=
  if s =? 0 then
    [j; L + j; L + (j + 1)]
  else if s <? K then
    [uv_row (s - 1) + j; uv_row s + j;
     uv_row s + (j + 1); uv_row (s - 1) + (j + 1)]
  else
    [uv_row K + j; uv_row (K - 1) + (j + 1); uv_row (K - 1) + j].

Definition capsule_vn_face (s j : Z) : face :=
  let jn := (j + 1) mod L in
  if s =? 0 then
    [0; j + 1; 1 + jn]
  else if s <? K then
    [1 + normal_row (s - 1) * L + j; 1 + normal_row s * L + j;
     1 + normal_row s * L + jn; 1 + normal_row (s - 1) * L + jn]
  else
    [1 + (2 * hl - 1) * L; 1 + (2 * hl - 2) * L + jn; 1 + (2 * hl - 2) * L + j].

(** *** The buffers in closed form

    The coordinates: the north pole, the rows, the south pole.  The
    texture coordinates: the north cap, the rows of [L + 1] columns, the
    south cap.  The normals: that of the north pole, the rows, that of
    the south pole, and [L - 1] entries that keep the value they were
    allocated with.  The three face lists, row after row. *)
Definition vertex_buffer : list vec3 :=
  ring_vertex NorthCap 0 ::
  table capsule_vertex L 0 K ++ [ring_vertex SouthCap 0].

Definition uv_buffer : list vec2 :=
  map (fun j => ring_uv NorthCap (j + 1)) (range 0 L) ++
  table capsule_uv (L + 1) 0 K ++
  map (ring_uv SouthCap) (range 0 L).

Definition normal_buffer : list vec3 :=
  ring_normal NorthCap 0 ::
  table capsule_normal L 0 (2 * hl - 1) ++
  ring_normal SouthCap 0 :: list_repeat (0.0, 0.0, 1.0)%R (L - 1).

Definition capsule_mesh : mesh :=
  Mesh vertex_buffer uv_buffer normal_buffer
    (table (capsule_face L K) L 0 (K + 1))
    (table capsule_vt_face L 0 (K + 1))
    (table capsule_vn_face L 0 (K + 1)).

(** *** The corners of the faces

    The index of the normal, the coordinates and the normal that belong
    to a vertex of the surface. *)
Definition normal_index (v : vertex) : Z :=
  match v with
  | NorthPole => 0
  | Ring t j => 1 + normal_row t * L + j
  | SouthPole => 1 + (2 * hl - 1) * L
  end.

Definition vertex_point (v : vertex) : vec3 :=
  match v with
  | NorthPole => ring_vertex NorthCap 0
  | Ring t j => capsule_vertex t j
  | SouthPole => ring_vertex SouthCap 0
  end.

Definition vertex_normal (v : vertex) : vec3 :=
  match v with
  | NorthPole => ring_normal NorthCap 0
  | Ring t j => capsule_normal (normal_row t) j
  | SouthPole => ring_normal SouthCap 0
  end.

(** The rows and columns of the texture coordinates of face [j] of row
    [s], corner by corner; the column after [j] is [j + 1], also at the
    seam. *)
Definition surface_uv_face (s j : Z) : list (Z * Z) :=
  if s =? 0 then
    [(-1, j + 1); (0, j); (0, j + 1)]
  else if s <? K then
    [(s - 1, j); (s, j); (s, j + 1); (s - 1, j + 1)]
  else
    [(K, j); (K - 1, j + 1); (K - 1, j)].

Definition uv_index (p : Z * Z) : Z := uv_row (fst p) + snd p.

(** *** Invariants of the values in the buffers *)

(** The entries written so far, [W t j] for column [j] of row [t] of a
    buffer whose rows of [cols] entries start at [off], are the entries
    of the closed form [g]. *)
Definition grid_inv {A : Type} (off cols : Z) (g : Z -> Z -> A)
    (W : Z -> Z -> Prop) (l : list A) : Prop :=
  forall t j, 0 <= j < cols -> W t j ->
              zth l (off + t * cols + j) = Some (g t j).

(** The entries of the vertex buffer written by the first [j0] iterations
    of the loop over the poles (the poles are row [-1], last column, and
    row [K], first column), by [i0] latitudes and [j0] columns of the loop
    over the hemispheres, and by [m0 - 1] rings and [j0] columns of the
    loop over the rings. *)
Definition Wv_poles (j0 : Z) (t j : Z) : Prop :=
  (t = -1 /\ j = L - 1) \/ (t = K /\ j = 0) \/
  ((t = hl - 1 \/ t = hl + rg) /\ 0 <= j < j0).

Definition Wv_hemi (i0 j0 : Z) (t j : Z) : Prop :=
  Wv_poles L t j \/
  ((0 <= t < i0 \/ hl + rg + 1 <= t < hl + rg + 1 + i0) /\ 0 <= j < L) \/
  ((t = i0 \/ t = hl + rg + 1 + i0) /\ 0 <= j < j0).

Definition Wv_rings (m0 j0 : Z) (t j : Z) : Prop :=
  Wv_hemi (hl - 1) 0 t j \/
  (hl <= t < hl + m0 - 1 /\ 0 <= j < L) \/
  (t = hl + m0 - 1 /\ 0 <= j < j0).

(** The same for the normal buffer. *)
Definition Wn_poles (j0 : Z) (r j : Z) : Prop :=
  (r = -1 /\ j = L - 1) \/ (r = 2 * hl - 1 /\ j = 0) \/
  (r = hl - 1 /\ 0 <= j < j0).

Definition Wn_hemi (i0 j0 : Z) (r j : Z) : Prop :=
  Wn_poles L r j \/
  ((0 <= r < i0 \/ hl <= r < hl + i0) /\ 0 <= j < L) \/
  ((r = i0 \/ r = hl + i0) /\ 0 <= j < j0).

(** The same for the texture coordinate buffer, whose rows have [L + 1]
    columns (the north cap is row [-1], columns [1 .. L], the south cap
    row [K], columns [0 .. L - 1]). *)
Definition Wt_poles (j0 : Z) (t j : Z) : Prop :=
  (t = -1 /\ 1 <= j < j0 + 1) \/ (t = K /\ 0 <= j < j0).

Definition Wt_equators (j0 : Z) (t j : Z) : Prop :=
  Wt_poles L t j \/ ((t = hl - 1 \/ t = hl + rg) /\ 0 <= j < j0).

Definition Wt_hemi (i0 j0 : Z) (t j : Z) : Prop :=
  Wt_equators (L + 1) t j \/
  ((0 <= t < i0 \/ hl + rg + 1 <= t < hl + rg + 1 + i0) /\ 0 <= j < L + 1) \/
  ((t = i0 \/ t = hl + rg + 1 + i0) /\ 0 <= j < j0).

Definition Wt_rings (m0 j0 : Z) (t j : Z) : Prop :=
  Wt_hemi (hl - 1) 0 t j \/
  (hl <= t < hl + m0 - 1 /\ 0 <= j < L + 1) \/
  (t = hl + m0 - 1 /\ 0 <= j < j0).

(** All the entries the builder writes: the rows of coordinates and the
    two poles; the rows of texture coordinates and the two caps; the rows
    of normals and those of the two poles; every row of faces. *)
Definition Wv_all (t j : Z) : Prop :=
  (t = -1 /\ j = L - 1) \/ 0 <= t < K \/ (t = K /\ j = 0).

Definition Wt_all (t j : Z) : Prop :=
  (t = -1 /\ 1 <= j) \/ 0 <= t < K \/ (t = K /\ j < L).

Definition Wn_all (r j : Z) : Prop :=
  (r = -1 /\ j = L - 1) \/ 0 <= r < 2 * hl - 1 \/ (r = 2 * hl - 1 /\ j = 0).

Definition Wf_all (s j : Z) : Prop := 0 <= s <= K.

(** The first [j0] entries of the two caches. *)
Definition W_cache (j0 : Z) (t j : Z) : Prop := t = 0 /\ 0 <= j < j0.

Definition theta_cache_inv (j0 : Z) (cache : list (R * R)) : Prop :=
  grid_inv 0 L (fun _ j => (sin (theta j), cos (theta j))) (W_cache j0) cache.

Definition s_tex_cache_inv (j0 : Z) (cache : list R) : Prop :=
  grid_inv 0 (L + 1) (fun _ j => s_tex_of j) (W_cache j0) cache.

(** The values of a mesh in the making: coordinates, texture coordinates,
    normals, and the texture and normal faces. *)
Definition geom_inv (Wv Wt Wn Wf : Z -> Z -> Prop) (m : mesh) : Prop :=
  grid_inv 1 L capsule_vertex Wv (vs m) /\
  grid_inv L (L + 1) capsule_uv Wt (vts m) /\
  grid_inv 1 L capsule_normal Wn (vns m) /\
  grid_inv 0 L capsule_vt_face Wf (vt_indices m) /\
  grid_inv 0 L capsule_vn_face Wf (vn_indices m).

(** What the builder returns, buffer by buffer: the lengths it computed,
    the three face lists in closed form, row after row, and every entry
    of the coordinates, texture coordinates and normals that it writes;
    the normals past the south pole's are as allocated. *)
Definition capsule_values (m : mesh) : Prop :=
  (len (vs m) = len_vs longitudes latitudes rings /\
   len (vts m) = len_vts longitudes latitudes rings /\
   len (vns m) = len_vns longitudes latitudes) /\
  (v_indices m = table (capsule_face L K) L 0 (K + 1) /\
   vt_indices m = table capsule_vt_face L 0 (K + 1) /\
   vn_indices m = table capsule_vn_face L 0 (K + 1)) /\
  grid_inv 1 L capsule_vertex Wv_all (vs m) /\
  grid_inv L (L + 1) capsule_uv Wt_all (vts m) /\
  grid_inv 1 L capsule_normal Wn_all (vns m) /\
  (forall k, idx_vn_south_pole longitudes latitudes < k <
             len_vns longitudes latitudes ->
             zth (vns m) k = Some (0.0, 0.0, 1.0)%R).

End capsule_closed_form.

(* ================================================================== *)
(** ** Properties of a capsule mesh *)
(* ================================================================== *)

Local Open Scope R_scope.

(** The point of the segment from [(0, 0, - h)] to [(0, 0, h)] nearest
    to a point at height [z]. *)
Definition axis_foot (h z : R) : vec3 := (0, 0, Rmax (- h) (Rmin h z)).

(** [p] lies on the capsule of radius [r] about that segment: at distance
    [r] from its nearest point on the segment. *)
Definition on_capsule (r h : R) (p : vec3) : Prop :=
  let d := vsub p (axis_foot h (snd p)) in dot d d = r * r.

(** [n] is the outward unit normal of that capsule at [p]: [p] is the
    point at distance [r] from the segment in the direction [n]. *)
Definition outward_normal (r h : R) (p n : vec3) : Prop :=
  dot n n = 1 /\
  exists c, - h <= c <= h /\ p = vadd (0, 0, c) (vscale n r) /\
            (c < h -> snd n <= 0) /\ (- h < c -> 0 <= snd n).

(** The texture coordinate [uv] fits the point [p] of a capsule whose
    equators have the V coordinates [v_north] and [v_south]: U is the
    azimuth of [p] as a fraction of the full turn, and V lies in the band
    of the part of the capsule that [p] is on. *)
Definition uv_fits (h v_north v_south : R) (p : vec3) (uv : vec2) : Prop :=
  (exists rho, 0 <= rho /\
     fst (fst p) = rho * cos (2 * PI * fst uv) /\
     snd (fst p) = rho * sin (2 * PI * fst uv)) /\
  (h <= snd p -> v_north <= snd uv <= 1) /\
  (- h <= snd p <= h -> v_south <= snd uv <= v_north) /\
  (snd p <= - h -> 0 <= snd uv <= v_south).

(** A texture coordinate within the unit square. *)
Definition in_unit_square (uv : vec2) : Prop :=
  0 <= fst uv <= 1 /\ 0 <= snd uv <= 1.

Local Close Scope R_scope.

(* ================================================================== *)
(** ** Properties of a fitted rotation *)
(* ================================================================== *)

Local Open Scope R_scope.

(** The determinant of the upper left three by three block of a matrix,
    expanded along its first row. *)
Definition det3 (m : matrix) : R :=
  let e (i k : nat) := nth k (nth i m []) 0 in
  e 0%nat 0%nat * (e 1%nat 1%nat * e 2%nat 2%nat - e 1%nat 2%nat * e 2%nat 1%nat) -
  e 0%nat 1%nat * (e 1%nat 0%nat * e 2%nat 2%nat - e 1%nat 2%nat * e 2%nat 0%nat) +
  e 0%nat 2%nat * (e 1%nat 0%nat * e 2%nat 1%nat - e 1%nat 1%nat * e 2%nat 0%nat).

(** The column of the rotation that the Fitter fills with the principal
    axis: that of the axis the hint names. *)
Definition hint_column (cylinder_axis : string) : nat :=
  if String.eqb cylinder_axis "X" then 0%nat
  else if String.eqb cylinder_axis "Y" then 1%nat
  else 2%nat.

Local Close Scope R_scope.

(* ================================================================== *)
(** ** Properties of the conversion to a BMesh *)
(* ================================================================== *)

(** Two faces on the same corners, in whatever order. *)
Definition same_corners {A : Type} (f g : list A) : Prop :=
  forall x, In x f <-> In x g.

(** What the conversion needs of a mesh: as many texture and normal
    faces as vertex faces; every vertex face of at least three corners,
    all different, with a texture face and a normal face of as many
    corners; every index within its buffer; no two vertex faces on the
    same corners. *)
Definition bmesh_ready (m : mesh) : Prop :=
  len (vt_indices m) = len (v_indices m) /\
  len (vn_indices m) = len (v_indices m) /\
  forall i f,
    zth (v_indices m) i = Some f ->
    3 <= len f /\ NoDup f /\ valid_face (len (vs m)) f /\
    (exists tf nf,
       zth (vt_indices m) i = Some tf /\ zth (vn_indices m) i = Some nf /\
       len tf = len f /\ len nf = len f /\
       valid_face (len (vts m)) tf /\ valid_face (len (vns m)) nf) /\
    (forall i' f',
       zth (v_indices m) i' = Some f' -> same_corners f f' -> i = i').

Section bmesh_laws.

Variable api : bmesh_api.

(** The vertices and the faces of a mesh under construction, each face
    as its vertices. *)
Variable verts_of : BMesh api -> list (BMVert api).
Variable faces_of : BMesh api -> list (list (BMVert api)).

(** What the conversion needs of the module: a new mesh is empty; a new
    vertex is one the mesh did not have; a face is made of three or more
    different vertices of the mesh when no face is on the same vertices
    yet, and has a loop for each; creating the layer and assigning a
    texture coordinate or a normal raise nothing and leave the vertices
    and the faces as they are. *)
Record bmesh_laws : Prop := BMeshLaws {
  new_empty :
    verts_of (bmesh_new api) = [] /\ faces_of (bmesh_new api) = [];
  verts_new_ok :
    forall co bm, exists v bm',
      verts_new api co bm = Ok (v, bm') /\
      ~ In v (verts_of bm) /\
      verts_of bm' = verts_of bm ++ [v] /\ faces_of bm' = faces_of bm;
  uv_verify_ok :
    forall bm, exists layer bm',
      uv_verify api bm = Ok (layer, bm') /\
      verts_of bm' = verts_of bm /\ faces_of bm' = faces_of bm;
  faces_new_ok :
    forall verts bm,
      (3 <= List.length verts)%nat -> NoDup verts ->
      incl verts (verts_of bm) ->
      (forall f, In f (faces_of bm) -> ~ same_corners f verts) ->
      exists face bm',
        faces_new api (map Some verts) bm = Ok (face, bm') /\
        verts_of bm' = verts_of bm /\ faces_of bm' = faces_of bm ++ [verts] /\
        List.length (face_loops api face bm') = List.length verts;
  set_loop_uv_ok :
    forall loop layer uv bm, exists bm',
      set_loop_uv api loop layer uv bm = Ok bm' /\
      verts_of bm' = verts_of bm /\ faces_of bm' = faces_of bm;
  set_loop_vert_normal_ok :
    forall loop n bm, exists bm',
      set_loop_vert_normal api loop n bm = Ok bm' /\
      verts_of bm' = verts_of bm /\ faces_of bm' = faces_of bm
}.

(** The mesh [bm] is the mesh of the lists: a vertex for each entry of
    [vs], all different, and for each face of [v_indices], in order, a
    face on the vertices its indices name. *)
Definition bmesh_of (vs : list vec3) (v_indices : list face)
    (bm : BMesh api) : Prop :=
  len (verts_of bm) = len vs /\ NoDup (verts_of bm) /\
  Forall2 (Forall2 (fun v i => zth (verts_of bm) i = Some v))
    (faces_of bm) v_indices.

End bmesh_laws.

(** *** A module that keeps the vertices and the faces only

    A vertex is a number, a face the list of its vertices, a loop a face
    and the position of a corner; [faces.new] raises [ValueError] on
    [None]. *)
Fixpoint all_some {A : Type} (l : list (option A)) : option (list A) :=
  match l with
  | [] => Some []
  | Some x :: tl => option_map (cons x) (all_some tl)
  | None :: _ => None
  end.

Definition plain_bmesh : bmesh_api :=
  @BMeshApi (list nat * list (list nat)) nat (list nat) (list nat * nat) unit
    ([], [])
    (fun _ bm => let v := S (list_max (fst bm)) in
                 Ok (v, (fst bm ++ [v], snd bm)))
    (fun bm => Ok (tt, bm))
    (fun verts bm =>
       match all_some verts with
       | Some f => Ok (f, (fst bm, snd bm ++ [f]))
       | None => Raise ValueError
       end)
    (fun f _ => map (pair f) (seq 0 (List.length f)))
    (fun _ _ _ bm => Ok bm)
    (fun _ _ bm => Ok bm).

Definition plain_verts_of (bm : BMesh plain_bmesh) : list (BMVert plain_bmesh) :=
  fst bm.

Definition plain_faces_of (bm : BMesh plain_bmesh)
  : list (list (BMVert plain_bmesh)) :=
  snd bm.
(* ================================================================== *)
(** ** Lists, ranges and loops *)
(* ================================================================== *)

Lemma length_upd {A : Type} (l : list A) n v :
  List.length (upd l n v) = List.length l.
Proof.
  revert n; induction l as [|x l IH]; intros [|n]; simpl; auto.
Qed.

Lemma len_zupd {A : Type} (l : list A) i v : len (zupd l i v) = len l.
Proof. unfold len, zupd. now rewrite length_upd. Qed.

Lemma len_nonneg {A : Type} (l : list A) : 0 <= len l.
Proof. unfold len; lia. Qed.

Lemma len_list_repeat {A : Type} (x : A) n : 0 <= n -> len (list_repeat x n) = n.
Proof. intros Hn. unfold len, list_repeat. rewrite repeat_length. lia. Qed.

Lemma nth_error_upd_eq {A : Type} (l : list A) n v :
  (n < List.length l)%nat -> nth_error (upd l n v) n = Some v.
Proof.
  revert n; induction l as [|x l IH]; intros [|n] Hn; simpl in *;
    try lia; auto.
  apply IH; lia.
Qed.

Lemma nth_error_upd_neq {A : Type} (l : list A) n k v :
  n <> k -> nth_error (upd l n v) k = nth_error l k.
Proof.
  revert n k; induction l as [|x l IH]; intros [|n] [|k] Hk; simpl;
    auto; try congruence.
Qed.

Lemma zth_zupd_eq {A : Type} (l : list A) i v :
  0 <= i < len l -> zth (zupd l i v) i = Some v.
Proof.
  intros Hi. unfold zth, zupd, len in *.
  destruct (Z.ltb_spec i 0); [lia|].
  apply nth_error_upd_eq. lia.
Qed.

Lemma zth_zupd_neq {A : Type} (l : list A) i k v :
  0 <= i -> i <> k -> zth (zupd l i v) k = zth l k.
Proof.
  intros Hi Hk. unfold zth, zupd.
  destruct (Z.ltb_spec k 0); [reflexivity|].
  apply nth_error_upd_neq. lia.
Qed.

Lemma zth_list_repeat {A : Type} (x : A) n k :
  0 <= k < n -> zth (list_repeat x n) k = Some x.
Proof.
  intros Hk. unfold zth, list_repeat.
  destruct (Z.ltb_spec k 0); [lia|].
  apply nth_error_repeat. lia.
Qed.

Lemma zth_Some_lt {A : Type} (l : list A) k x :
  zth l k = Some x -> 0 <= k < len l.
Proof.
  unfold zth, len. destruct (Z.ltb_spec k 0); [discriminate|].
  intros H0. assert (Hs : nth_error l (Z.to_nat k) <> None) by congruence.
  apply nth_error_Some in Hs. lia.
Qed.

Lemma zth_lt_Some {A : Type} (l : list A) k :
  0 <= k < len l -> exists x, zth l k = Some x.
Proof.
  intros Hk. unfold zth, len in *.
  destruct (Z.ltb_spec k 0); [lia|].
  destruct (nth_error l (Z.to_nat k)) eqn:E; [eauto|].
  apply nth_error_None in E. lia.
Qed.

(** Two lists of one length with the same entries are equal. *)
Lemma zth_ext {A : Type} (l1 l2 : list A) :
  len l1 = len l2 ->
  (forall k, 0 <= k < len l1 -> zth l1 k = zth l2 k) ->
  l1 = l2.
Proof.
  unfold len, zth. intros Hlen Hk.
  apply nth_error_ext. intros n.
  destruct (Nat.lt_ge_cases n (List.length l1)) as [Hn|Hn].
  - specialize (Hk (Z.of_nat n)).
    destruct (Z.ltb_spec (Z.of_nat n) 0); [lia|].
    rewrite Nat2Z.id in Hk. apply Hk; lia.
  - transitivity (@None A); [|symmetry]; apply nth_error_None; lia.
Qed.

Lemma Forall_upd {A : Type} (P : A -> Prop) (l : list A) n v :
  Forall P l -> P v -> Forall P (upd l n v).
Proof.
  intros Hl Hv; revert n; induction Hl as [|x l Hx Hl IH]; intros [|n];
    simpl; auto.
Qed.

Lemma Forall_zupd {A : Type} (P : A -> Prop) (l : list A) i v :
  Forall P l -> P v -> Forall P (zupd l i v).
Proof. apply Forall_upd. Qed.

Lemma Forall_list_repeat {A : Type} (P : A -> Prop) (x : A) n :
  P x -> Forall P (list_repeat x n).
Proof.
  intros Hx. unfold list_repeat. apply Forall_forall.
  intros y Hy. apply repeat_spec in Hy. now subst.
Qed.

Lemma subscript_ok n i : 0 <= i < n -> subscript n i = Ok (Z.to_nat i).
Proof.
  intros Hi. unfold subscript.
  destruct (Z.ltb_spec i 0); [lia|].
  destruct (Z.leb_spec 0 i); [|lia].
  destruct (Z.ltb_spec i n); [reflexivity|lia].
Qed.

Lemma setitem_ok {A : Type} (l : list A) i v :
  0 <= i < len l -> setitem l i v = Ok (zupd l i v).
Proof. intros Hi. unfold setitem. now rewrite subscript_ok. Qed.

Lemma getitem_ok {A : Type} (l : list A) i :
  0 <= i < len l -> exists x, getitem l i = Ok x /\ zth l i = Some x.
Proof.
  intros Hi. unfold getitem. rewrite subscript_ok by assumption. simpl.
  destruct (zth_lt_Some l Hi) as [x Hx]. exists x.
  unfold zth in *. destruct (Z.ltb_spec i 0); [lia|].
  now rewrite Hx.
Qed.

Lemma fdiv_ok a b : b <> 0%R -> fdiv a b = Ok (a / b)%R.
Proof. intros Hb. unfold fdiv. destruct (Req_dec_T b 0); tauto. Qed.

(** *** Ranges and loops *)

Lemma range_nil a b : b <= a -> range a b = [].
Proof.
  intros H. unfold range. replace (Z.to_nat (b - a)) with 0%nat by lia.
  reflexivity.
Qed.

Lemma range_cons a b : a < b -> range a b = a :: range (a + 1) b.
Proof.
  intros H. unfold range.
  replace (Z.to_nat (b - a)) with (S (Z.to_nat (b - (a + 1)))) by lia.
  simpl. f_equal; [lia|].
  rewrite <- seq_shift, map_map. apply map_ext. intros k. lia.
Qed.

Lemma length_range a b : List.length (range a b) = Z.to_nat (b - a).
Proof. unfold range. now rewrite length_map, length_seq. Qed.

Lemma In_range a b k : In k (range a b) <-> a <= k < b.
Proof.
  unfold range. rewrite in_map_iff. split.
  - intros (n & <- & Hn). apply in_seq in Hn. lia.
  - intros Hk. exists (Z.to_nat (k - a)). split; [lia|]. apply in_seq. lia.
Qed.

Lemma NoDup_range a b : NoDup (range a b).
Proof.
  unfold range. apply Injective_map_NoDup; [|apply seq_NoDup].
  intros x y. lia.
Qed.

Lemma zth_range a b k : 0 <= k < b - a -> zth (range a b) k = Some (a + k).
Proof.
  intros Hk. unfold zth, range. destruct (Z.ltb_spec k 0); [lia|].
  rewrite nth_error_map, nth_error_seq.
  destruct (Nat.ltb_spec (Z.to_nat k) (Z.to_nat (b - a))); [|lia].
  simpl. f_equal. lia.
Qed.

(** The invariant rule of [for j in range(a, b)]: an invariant that holds
    on entry and that every iteration re-establishes without raising holds
    on exit, and the loop does not raise. *)
Lemma for_each_range_inv {S : Type} (I : Z -> S -> Prop)
    (body : Z -> S -> res S) a b s0 :
  a <= b ->
  I a s0 ->
  (forall j s, a <= j < b -> I j s -> exists s', body j s = Ok s' /\ I (j + 1) s') ->
  exists s', for_each (range a b) body s0 = Ok s' /\ I b s'.
Proof.
  intros Hab. remember (Z.to_nat (b - a)) as n eqn:En.
  revert a s0 Hab En. induction n as [|n IH]; intros a s0 Hab En H0 Hstep.
  - assert (a = b) by lia. subst. rewrite range_nil by lia. simpl. eauto.
  - rewrite range_cons by lia. simpl.
    destruct (Hstep a s0) as (s1 & -> & H1); [lia|assumption|]. simpl.
    apply IH; [lia|lia|assumption|].
    intros j s Hj. apply Hstep. lia.
Qed.

(** *** Tables laid out row by row *)

Lemma len_app {A : Type} (l1 l2 : list A) : len (l1 ++ l2) = len l1 + len l2.
Proof. unfold len. rewrite length_app. lia. Qed.

Lemma len_map {A B : Type} (f : A -> B) (l : list A) : len (map f l) = len l.
Proof. unfold len. now rewrite length_map. Qed.

Lemma len_range a b : a <= b -> len (range a b) = b - a.
Proof. intros H. unfold len. rewrite length_range. lia. Qed.

Lemma zth_app_l {A : Type} (l1 l2 : list A) k :
  0 <= k < len l1 -> zth (l1 ++ l2) k = zth l1 k.
Proof.
  unfold zth, len. intros Hk. destruct (Z.ltb_spec k 0); [lia|].
  apply nth_error_app1. lia.
Qed.

Lemma zth_app_r {A : Type} (l1 l2 : list A) k :
  len l1 <= k -> zth (l1 ++ l2) k = zth l2 (k - len l1).
Proof.
  unfold zth, len. intros Hk.
  destruct (Z.ltb_spec k 0); [lia|].
  destruct (Z.ltb_spec (k - Z.of_nat (List.length l1)) 0); [lia|].
  rewrite nth_error_app2 by lia. f_equal. lia.
Qed.

Lemma zth_map {A B : Type} (f : A -> B) (l : list A) k :
  zth (map f l) k = option_map f (zth l k).
Proof.
  unfold zth. destruct (Z.ltb_spec k 0); [reflexivity|].
  apply nth_error_map.
Qed.

Lemma table_nil {A : Type} (f : Z -> Z -> A) n a b :
  b <= a -> table f n a b = [].
Proof. intros H. unfold table. rewrite (range_nil H). reflexivity. Qed.

Lemma table_cons {A : Type} (f : Z -> Z -> A) n a b :
  a < b -> table f n a b = map (f a) (range 0 n) ++ table f n (a + 1) b.
Proof. intros H. unfold table. rewrite (range_cons H). reflexivity. Qed.

Lemma len_table {A : Type} (f : Z -> Z -> A) n a b :
  0 <= n -> a <= b -> len (table f n a b) = (b - a) * n.
Proof.
  intros Hn Hab. remember (Z.to_nat (b - a)) as d eqn:Ed.
  revert a Hab Ed. induction d as [|d IH]; intros a Hab Ed.
  - rewrite table_nil by lia. unfold len; simpl. nia.
  - rewrite table_cons by lia.
    rewrite len_app, len_map, len_range, IH by lia. lia.
Qed.

Lemma zth_table {A : Type} (f : Z -> Z -> A) n a b s j :
  a <= s < b -> 0 <= j < n ->
  zth (table f n a b) ((s - a) * n + j) = Some (f s j).
Proof.
  intros Hs Hj. remember (Z.to_nat (b - a)) as d eqn:Ed.
  revert a Hs Ed. induction d as [|d IH]; intros a Hs Ed; [lia|].
  rewrite table_cons by lia.
  destruct (Z.eq_dec s a) as [->|Hne].
  - rewrite zth_app_l by (rewrite len_map, len_range; lia).
    replace ((a - a) * n + j) with j by lia.
    rewrite zth_map, zth_range by lia. reflexivity.
  - rewrite zth_app_r by (rewrite len_map, len_range; nia).
    rewrite len_map, len_range by lia.
    replace ((s - a) * n + j - (n - 0)) with ((s - (a + 1)) * n + j) by lia.
    apply IH; lia.
Qed.

Lemma In_table {A : Type} (f : Z -> Z -> A) n a b x :
  In x (table f n a b) <-> exists s j, a <= s < b /\ 0 <= j < n /\ x = f s j.
Proof.
  unfold table. rewrite in_flat_map. split.
  - intros (s & Hs & Hx). apply in_map_iff in Hx. destruct Hx as (j & <- & Hj).
    apply In_range in Hs, Hj. eauto.
  - intros (s & j & Hs & Hj & ->). exists s. split; [now apply In_range|].
    apply in_map. now apply In_range.
Qed.

Lemma table_pairs {A : Type} (f : Z -> Z -> A) n a b :
  table f n a b = map (fun p => f (fst p) (snd p)) (table pair n a b).
Proof.
  unfold table. induction (range a b) as [|s l IH]; simpl; [reflexivity|].
  rewrite map_app, map_map, IH. reflexivity.
Qed.

Lemma flat_map_map {A B C : Type} (f : B -> list C) (g : A -> B) (l : list A) :
  flat_map f (map g l) = flat_map (fun x => f (g x)) l.
Proof.
  induction l as [|x l IH]; simpl; [reflexivity|]. now rewrite IH.
Qed.

Lemma NoDup_map_inj {A B : Type} (g : A -> B) (l : list A) :
  (forall x y, In x l -> In y l -> g x = g y -> x = y) ->
  NoDup l -> NoDup (map g l).
Proof.
  intros Hinj Hl. induction Hl as [|x l Hx Hl IH]; simpl; constructor.
  - intros Hin. apply in_map_iff in Hin. destruct Hin as (y & E & Hy).
    apply Hx. rewrite <- (Hinj y x); auto; [now right|now left].
  - apply IH. intros y z Hy Hz. apply Hinj; now right.
Qed.

Lemma NoDup_table_pairs n a b : NoDup (table pair n a b).
Proof.
  unfold table.
  pose proof (NoDup_range a b) as Hnd.
  induction Hnd as [|s l Hs Hl IH]; simpl; [constructor|].
  apply NoDup_app.
  - apply NoDup_map_inj; [|apply NoDup_range]. now intros x y _ _ [= ].
  - exact IH.
  - intros [s' j'] H1 H2.
    apply in_map_iff in H1. destruct H1 as (j & [= <- <-] & _).
    apply in_flat_map in H2. destruct H2 as (s'' & Hs'' & H2).
    apply in_map_iff in H2. destruct H2 as (j'' & [= <- <-] & _).
    contradiction.
Qed.

(* ================================================================== *)
(** ** Closed surfaces *)
(* ================================================================== *)

(** *** Counting the faces along an edge *)

Lemma edge_eqb_eq e1 e2 : edge_eqb e1 e2 = true <-> e1 = e2.
Proof.
  destruct e1 as [a b], e2 as [c d]. unfold edge_eqb; simpl.
  rewrite andb_true_iff, !Z.eqb_eq. split; [intros []|intros [= ]]; subst; auto.
Qed.

Lemma has_edge_In e f : has_edge e f = true <-> In e (face_edges f).
Proof.
  unfold has_edge. rewrite existsb_exists. split.
  - intros (x & Hx & E). apply edge_eqb_eq in E. now subst.
  - intros H. exists e. split; [assumption|]. now apply edge_eqb_eq.
Qed.

Lemma combine_map {A B : Type} (g : A -> B) (l r : list A) :
  combine (map g l) (map g r) =
  map (fun e => (g (fst e), g (snd e))) (combine l r).
Proof.
  revert r; induction l as [|y l IH]; intros [|z r]; simpl; auto.
  now rewrite IH.
Qed.

Lemma face_edges_map {A B : Type} (g : A -> B) (f : list A) :
  face_edges (map g f) = map (fun e => (g (fst e), g (snd e))) (face_edges f).
Proof.
  destruct f as [|x tl]; [reflexivity|].
  unfold face_edges. rewrite <- combine_map, map_app. reflexivity.
Qed.

Lemma In_face_edges {A : Type} (f : list A) a b :
  In (a, b) (face_edges f) -> In a f /\ In b f.
Proof.
  destruct f as [|x tl]; [contradiction|].
  unfold face_edges. intros H.
  split; [eapply in_combine_l; eauto|].
  apply in_combine_r in H. apply in_app_or in H.
  destruct H as [H|[<-|[]]]; [right; assumption|left; reflexivity].
Qed.

Lemma NoDup_flat_map {A B : Type} (g : A -> list B) (l : list A) :
  NoDup l ->
  (forall x, In x l -> NoDup (g x)) ->
  (forall x y e, In x l -> In y l -> x <> y -> In e (g x) -> In e (g y) -> False) ->
  NoDup (flat_map g l).
Proof.
  induction l as [|x l IH]; intros Hl Hg Hd; simpl; [constructor|].
  inversion Hl as [|? ? Hx Hl']; subst.
  apply NoDup_app.
  - apply Hg. now left.
  - apply IH; [assumption|intros; apply Hg; now right|].
    intros y z e Hy Hz. apply Hd; now right.
  - intros e He Hin. apply in_flat_map in Hin. destruct Hin as (y & Hy & Hey).
    apply (Hd x y e); [now left|now right| |assumption|assumption].
    intros ->. contradiction.
Qed.

Lemma NoDup_app_disjoint {A : Type} (l1 l2 : list A) a :
  NoDup (l1 ++ l2) -> In a l1 -> In a l2 -> False.
Proof.
  induction l1 as [|x l1 IH]; simpl; intros Hnd H1 H2; [contradiction|].
  inversion Hnd as [|? ? Hx Hnd']; subst.
  destruct H1 as [->|H1]; [|auto].
  apply Hx. apply in_or_app. now right.
Qed.

Lemma filter_nil_iff {A : Type} (p : A -> bool) (l : list A) :
  (forall x, In x l -> p x = false) -> filter p l = [].
Proof.
  induction l as [|x l IH]; intros H; simpl; [reflexivity|].
  rewrite (H x) by now left. apply IH. intros y Hy. apply H. now right.
Qed.

(** In a list of faces whose edges are all different, one face runs along
    each edge. *)
Lemma faces_along_unique (fs : list face) e :
  NoDup (flat_map face_edges fs) ->
  In e (flat_map face_edges fs) ->
  List.length (faces_along fs e) = 1%nat.
Proof.
  unfold faces_along.
  induction fs as [|f fs IH]; intros Hnd Hin; simpl in *; [contradiction|].
  apply NoDup_app_remove_l in Hnd as Hnd'.
  destruct (has_edge e f) eqn:Ef.
  - simpl. f_equal.
    rewrite filter_nil_iff; [reflexivity|].
    intros g Hg. destruct (has_edge e g) eqn:Eg; [exfalso|reflexivity].
    apply has_edge_In in Ef, Eg.
    apply (NoDup_app_disjoint _ _ e Hnd); [assumption|].
    apply in_flat_map. eauto.
  - apply IH; [assumption|].
    apply in_app_or in Hin. destruct Hin as [Hin|Hin]; [|assumption].
    apply has_edge_In in Hin. congruence.
Qed.

Lemma length_filter_orb {A : Type} (p q : A -> bool) (l : list A) :
  (forall x, In x l -> p x = true -> q x = true -> False) ->
  List.length (filter (fun x => p x || q x) l) =
  (List.length (filter p l) + List.length (filter q l))%nat.
Proof.
  induction l as [|x l IH]; intros H; simpl; [reflexivity|].
  assert (IH' := IH (fun y Hy => H y (or_intror Hy))).
  specialize (H x (or_introl eq_refl)).
  destruct (p x), (q x); simpl; first [lia | exfalso; auto].
Qed.

(** The criterion for a closed, consistently wound surface: all edges of
    all faces are different, the reverse of every edge is an edge, and no
    face runs along an edge in both directions. *)
Lemma closed_oriented_criterion (fs : list face) :
  NoDup (flat_map face_edges fs) ->
  (forall a b, In (a, b) (flat_map face_edges fs) ->
               In (b, a) (flat_map face_edges fs)) ->
  (forall f a b, In f fs -> In (a, b) (face_edges f) ->
                 In (b, a) (face_edges f) -> False) ->
  closed_oriented fs.
Proof.
  intros Hnd Hrev Hboth f a b Hf Hab.
  assert (Hin : In (a, b) (flat_map face_edges fs))
    by (apply in_flat_map; eauto).
  assert (H1 : List.length (faces_along fs (a, b)) = 1%nat)
    by now apply faces_along_unique.
  assert (H2 : List.length (faces_along fs (b, a)) = 1%nat)
    by (apply faces_along_unique; auto).
  split; [|split; assumption].
  unfold faces_sharing. rewrite length_filter_orb.
  - unfold faces_along in H1, H2. rewrite H1, H2. reflexivity.
  - intros g Hg E1 E2. apply has_edge_In in E1, E2. eauto.
Qed.

(** *** The faces and edges of the surface of a capsule *)

Section capsule_topology.

Variables L K : Z.
Hypothesis HL : 3 <= L.
Hypothesis HK : 2 <= K.

Local Abbreviation vertex_index := (vertex_index L K).
Local Abbreviation on_surface := (on_surface L K).
Local Abbreviation surface_face := (surface_face L K).
Local Abbreviation surface_edges := (surface_edges L K).
Local Abbreviation index_edge := (index_edge L K).

Lemma capsule_face_surface s j :
  capsule_face L K s j = map vertex_index (surface_face s j).
Proof.
  unfold capsule_face, surface_face. cbv zeta.
  destruct (s =? 0); [|destruct (s <? K)]; cbn [map vertex_index].
  all: repeat match goal with
              | |- _ :: _ = _ :: _ => apply (f_equal2 cons); [lia|]
              end; reflexivity.
Qed.

Lemma vertex_index_inj v w :
  on_surface v -> on_surface w -> vertex_index v = vertex_index w -> v = w.
Proof.
  destruct v as [|t j|], w as [|t' j'|]; cbn [vertex_index on_surface];
    intros Hv Hw E;
    try reflexivity; try (exfalso; nia).
  assert (t = t') by nia. subst. f_equal. lia.
Qed.

Lemma next_col j :
  0 <= j < L ->
  0 <= (j + 1) mod L < L /\
  ((j + 1 < L /\ (j + 1) mod L = j + 1) \/ (j + 1 = L /\ (j + 1) mod L = 0)).
Proof.
  intros Hj. destruct (Z.eq_dec (j + 1) L) as [E|E].
  - rewrite E, Z.mod_same by lia. lia.
  - rewrite Z.mod_small by lia. lia.
Qed.

Lemma prev_col j :
  0 <= j < L ->
  0 <= (j - 1) mod L < L /\ ((j - 1) mod L + 1) mod L = j.
Proof.
  intros Hj. destruct (Z.eq_dec j 0) as [->|E].
  - replace (0 - 1) with (L - 1 + (-1) * L) by lia.
    rewrite Z.mod_add, Z.mod_small by lia.
    replace (L - 1 + 1) with L by lia. rewrite Z.mod_same by lia. lia.
  - rewrite (Z.mod_small (j - 1)) by lia.
    replace (j - 1 + 1) with j by lia. rewrite Z.mod_small by lia. lia.
Qed.

(** The edges of the three kinds of faces. *)
Lemma edges_north_fan j :
  face_edges (surface_face 0 j) =
  let jn := (j + 1) mod L in
  [(NorthPole, Ring 0 j); (Ring 0 j, Ring 0 jn); (Ring 0 jn, NorthPole)].
Proof. reflexivity. Qed.

Lemma edges_band s j :
  0 < s < K ->
  face_edges (surface_face s j) =
  let jn := (j + 1) mod L in
  [(Ring (s - 1) j, Ring s j); (Ring s j, Ring s jn);
   (Ring s jn, Ring (s - 1) jn); (Ring (s - 1) jn, Ring (s - 1) j)].
Proof.
  intros Hs. unfold surface_face. cbv zeta.
  destruct (Z.eqb_spec s 0); [lia|].
  destruct (Z.ltb_spec s K); [reflexivity|lia].
Qed.

Lemma edges_south_fan j :
  face_edges (surface_face K j) =
  let jn := (j + 1) mod L in
  [(SouthPole, Ring (K - 1) jn); (Ring (K - 1) jn, Ring (K - 1) j);
   (Ring (K - 1) j, SouthPole)].
Proof.
  unfold surface_face. cbv zeta.
  destruct (Z.eqb_spec K 0); [lia|].
  destruct (Z.ltb_spec K K); [lia|reflexivity].
Qed.

(** Rewrites the edges of the face at row [s] by the kind of the face. *)
Ltac face_kind s j :=
  let Hs := fresh "Hs" in
  assert (Hs : s = 0 \/ 0 < s < K \/ s = K) by lia;
  destruct Hs as [->|[Hs| ->]];
  [rewrite (edges_north_fan j) in *
  |rewrite (edges_band j Hs) in *
  |rewrite (edges_south_fan j) in *];
  cbv zeta in *.

(** Names the successor of column [j] and splits on whether it wraps. *)
Ltac wrap j :=
  let Hn := fresh "Hn" in
  let Hw := fresh "Hw" in
  destruct (@next_col j ltac:(lia)) as (Hn & Hw);
  generalize dependent ((j + 1) mod L); intros.

Ltac edge_clash :=
  repeat match goal with
         | H : In _ (_ :: _) |- _ => destruct H as [H|H]
         | H : In _ [] |- _ => destruct H
         | H : ?x = ?x |- _ => clear H
         | H : (_, _) = (_, _) |- _ => injection H; clear H; intros
         | H : Ring _ _ = Ring _ _ |- _ => injection H; clear H; intros
         | H : NorthPole = Ring _ _ |- _ => discriminate H
         | H : Ring _ _ = NorthPole |- _ => discriminate H
         | H : SouthPole = Ring _ _ |- _ => discriminate H
         | H : Ring _ _ = SouthPole |- _ => discriminate H
         | H : NorthPole = SouthPole |- _ => discriminate H
         | H : SouthPole = NorthPole |- _ => discriminate H
         end.

(** The edges of one face are different. *)
Lemma surface_face_edges_NoDup s j :
  0 <= s <= K -> 0 <= j < L -> NoDup (face_edges (surface_face s j)).
Proof.
  intros Hs Hj. face_kind s j; wrap j.
  all: repeat (constructor; [intros Hin; edge_clash; lia|]); constructor.
Qed.

(** Different faces have no edge in common. *)
Lemma surface_face_edges_disjoint s j s' j' e :
  0 <= s <= K -> 0 <= j < L -> 0 <= s' <= K -> 0 <= j' < L ->
  (s, j) <> (s', j') ->
  In e (face_edges (surface_face s j)) ->
  In e (face_edges (surface_face s' j')) -> False.
Proof.
  intros Hs Hj Hs' Hj' Hne H1 H2.
  assert (Hne' : s <> s' \/ j <> j').
  { destruct (Z.eq_dec s s') as [->|]; [|auto].
    destruct (Z.eq_dec j j') as [->|]; [|auto].
    exfalso. apply Hne. reflexivity. }
  clear Hne.
  face_kind s j; face_kind s' j'; wrap j; wrap j'.
  all: destruct e as [a b]; edge_clash; subst; edge_clash; lia.
Qed.

(** No face runs along an edge in both directions. *)
Lemma surface_face_one_way s j a b :
  0 <= s <= K -> 0 <= j < L ->
  In (a, b) (face_edges (surface_face s j)) ->
  In (b, a) (face_edges (surface_face s j)) -> False.
Proof.
  intros Hs Hj H1 H2.
  face_kind s j; wrap j.
  all: edge_clash; subst; edge_clash; lia.
Qed.

Ltac vertex_eq :=
  match goal with
  | |- Ring _ _ = Ring _ _ => apply f_equal2; lia
  | |- _ => reflexivity
  end.

(** Finds the edge among the edges of the face at row [s'], column [j']. *)
Ltac mate s' j' :=
  exists s', j';
  split; [lia|]; split; [lia|];
  let Hs := fresh "Hs" in
  first
    [ assert (Hs : 0 < s' < K) by lia; rewrite (edges_band j' Hs)
    | replace s' with 0 by lia; rewrite (edges_north_fan j')
    | replace s' with K by lia; rewrite (edges_south_fan j') ];
  cbv zeta; cbn [In];
  repeat first [ left; apply f_equal2; vertex_eq | right ].

(** The reverse of every edge is an edge of some face. *)
Lemma surface_edge_reversed s j a b :
  0 <= s <= K -> 0 <= j < L ->
  In (a, b) (face_edges (surface_face s j)) ->
  exists s' j', 0 <= s' <= K /\ 0 <= j' < L /\
                In (b, a) (face_edges (surface_face s' j')).
Proof.
  intros Hs Hj Hin.
  destruct (next_col Hj) as (Hn & _).
  destruct (prev_col Hj) as (Hp & Hpn).
  set (jn := (j + 1) mod L) in *.
  set (jp := (j - 1) mod L) in *.
  face_kind s j; fold jn in Hin; edge_clash; subst a b.
  - (* north fan, pole to ring *)
    mate 0 jp.
  - (* north fan, along ring 0 *)
    mate 1 j.
  - (* north fan, ring to pole *)
    mate 0 jn.
  - (* band, down column j *)
    mate s jp.
  - (* band, along ring s *)
    destruct (Z.eq_dec (s + 1) K); [mate K j|mate (s + 1) j].
  - (* band, up column jn *)
    mate s jn.
  - (* band, back along ring s - 1 *)
    destruct (Z.eq_dec s 1); [mate 0 j|mate (s - 1) j].
  - (* south fan, pole to ring *)
    mate K jn.
  - (* south fan, back along ring K - 1 *)
    mate (K - 1) j.
  - (* south fan, ring to pole *)
    mate K jp.
Qed.

Lemma surface_face_on_surface s j :
  0 <= s <= K -> 0 <= j < L -> Forall on_surface (surface_face s j).
Proof.
  intros Hs Hj. destruct (next_col Hj) as (Hn & _).
  unfold surface_face. cbv zeta.
  destruct (Z.eqb_spec s 0); [|destruct (Z.ltb_spec s K)].
  all: repeat (constructor; [cbn [on_surface]; lia|]); constructor.
Qed.

Lemma vertex_index_bound v :
  on_surface v -> 0 <= vertex_index v < 2 + K * L.
Proof. destruct v as [|t j|]; cbn [vertex_index on_surface]; nia. Qed.

Lemma surface_face_NoDup s j :
  0 <= s <= K -> 0 <= j < L -> NoDup (surface_face s j).
Proof.
  intros Hs Hj. destruct (next_col Hj) as (Hn & Hw).
  unfold surface_face. cbv zeta.
  generalize dependent ((j + 1) mod L). intros jn Hn Hw.
  destruct (Z.eqb_spec s 0); [|destruct (Z.ltb_spec s K)].
  all: repeat (constructor; [intros Hin; edge_clash; lia|]); constructor.
Qed.

(** Every face of the closed form has different entries, all of them
    indices of vertices. *)
Lemma capsule_face_NoDup s j :
  0 <= s <= K -> 0 <= j < L -> NoDup (capsule_face L K s j).
Proof.
  intros Hs Hj. rewrite capsule_face_surface.
  pose proof (surface_face_on_surface Hs Hj) as Hon.
  rewrite Forall_forall in Hon.
  apply NoDup_map_inj; [|now apply surface_face_NoDup].
  intros v w Hv Hw. apply vertex_index_inj; auto.
Qed.

Lemma capsule_face_valid s j :
  0 <= s <= K -> 0 <= j < L -> valid_face (2 + K * L) (capsule_face L K s j).
Proof.
  intros Hs Hj. rewrite capsule_face_surface. unfold valid_face.
  apply Forall_map.
  eapply Forall_impl; [|now apply surface_face_on_surface].
  apply vertex_index_bound.
Qed.

Lemma In_positions p :
  In p (table pair L 0 (K + 1)) <-> 0 <= fst p <= K /\ 0 <= snd p < L.
Proof.
  rewrite In_table. split.
  - intros (s & j & Hs & Hj & ->). simpl. lia.
  - intros (Hs & Hj). exists (fst p), (snd p).
    destruct p; simpl in *. repeat split; lia.
Qed.

Lemma capsule_faces_positions :
  capsule_faces L K =
  map (fun p => map vertex_index (surface_face (fst p) (snd p)))
    (table pair L 0 (K + 1)).
Proof.
  unfold capsule_faces. fold (table (capsule_face L K) L 0 (K + 1)).
  rewrite table_pairs. apply map_ext. intros p.
  apply capsule_face_surface.
Qed.

Lemma capsule_edges_positions :
  flat_map face_edges (capsule_faces L K) =
  flat_map (fun p => map index_edge (surface_edges p)) (table pair L 0 (K + 1)).
Proof.
  rewrite capsule_faces_positions, flat_map_map.
  apply flat_map_ext. intros p. apply face_edges_map.
Qed.

Lemma surface_edge_on_surface p e :
  In p (table pair L 0 (K + 1)) -> In e (surface_edges p) ->
  on_surface (fst e) /\ on_surface (snd e).
Proof.
  intros Hp He. apply In_positions in Hp. destruct Hp as (Hs & Hj).
  pose proof (surface_face_on_surface Hs Hj) as Hon.
  rewrite Forall_forall in Hon.
  destruct e as [a b]. apply In_face_edges in He. simpl. split; apply Hon; tauto.
Qed.

Lemma index_edge_inj p q e1 e2 :
  In p (table pair L 0 (K + 1)) -> In q (table pair L 0 (K + 1)) ->
  In e1 (surface_edges p) -> In e2 (surface_edges q) ->
  index_edge e1 = index_edge e2 -> e1 = e2.
Proof.
  intros Hp Hq H1 H2 E.
  destruct (@surface_edge_on_surface p e1 Hp H1), (@surface_edge_on_surface q e2 Hq H2).
  destruct e1 as [a b], e2 as [c d]. unfold index_edge in E; simpl in *.
  injection E as E1 E2. f_equal; apply vertex_index_inj; auto.
Qed.

Lemma capsule_edges_NoDup : NoDup (flat_map face_edges (capsule_faces L K)).
Proof.
  rewrite capsule_edges_positions.
  apply NoDup_flat_map.
  - apply NoDup_table_pairs.
  - intros p Hp. apply NoDup_map_inj.
    + intros e1 e2. now apply index_edge_inj.
    + apply In_positions in Hp. now apply surface_face_edges_NoDup.
  - intros p q e Hp Hq Hne H1 H2.
    apply in_map_iff in H1, H2.
    destruct H1 as (e1 & <- & H1), H2 as (e2 & E & H2).
    apply (@index_edge_inj q p e2 e1 Hq Hp H2 H1) in E. subst e2.
    pose proof Hp as Hp'. pose proof Hq as Hq'.
    apply In_positions in Hp', Hq'.
    destruct p as [s j], q as [s' j'].
    eapply (@surface_face_edges_disjoint s j s' j'); try eassumption; tauto.
Qed.

Lemma capsule_edges_reversed a b :
  In (a, b) (flat_map face_edges (capsule_faces L K)) ->
  In (b, a) (flat_map face_edges (capsule_faces L K)).
Proof.
  rewrite capsule_edges_positions, !in_flat_map.
  intros (p & Hp & Hin). apply in_map_iff in Hin.
  destruct Hin as ([x y] & [= <- <-] & Hxy).
  pose proof Hp as Hp'. apply In_positions in Hp'.
  destruct (@surface_edge_reversed (fst p) (snd p) x y)
    as (s' & j' & Hs' & Hj' & Hyx); try tauto.
  exists (s', j'). split; [apply In_positions; simpl; lia|].
  apply in_map_iff. exists (y, x). split; [reflexivity|assumption].
Qed.

Lemma capsule_faces_one_way f a b :
  In f (capsule_faces L K) ->
  In (a, b) (face_edges f) -> In (b, a) (face_edges f) -> False.
Proof.
  rewrite capsule_faces_positions, in_map_iff.
  intros (p & <- & Hp). rewrite face_edges_map.
  change (map (fun e => (vertex_index (fst e), vertex_index (snd e))))
    with (map index_edge).
  fold (surface_edges p).
  intros H1 H2. apply in_map_iff in H1, H2.
  destruct H1 as ([x y] & E1 & H1), H2 as ([x' y'] & E2 & H2).
  destruct (@surface_edge_on_surface p (x, y) Hp H1) as (Hx & Hy).
  destruct (@surface_edge_on_surface p (x', y') Hp H2) as (Hx' & Hy').
  unfold index_edge in E1, E2; simpl in *.
  injection E1 as <- <-. injection E2 as E2 E3.
  apply vertex_index_inj in E2, E3; try assumption. subst x' y'.
  apply In_positions in Hp.
  eapply (@surface_face_one_way (fst p) (snd p)); try eassumption; tauto.
Qed.

(** The faces of the closed form make a closed, consistently wound
    surface. *)
Lemma capsule_faces_closed_oriented : closed_oriented (capsule_faces L K).
Proof.
  apply closed_oriented_criterion.
  - apply capsule_edges_NoDup.
  - apply capsule_edges_reversed.
  - apply capsule_faces_one_way.
Qed.

End capsule_topology.

(** *** No two faces on the same corners *)

Section capsule_faces_distinct.

Variables L K : Z.
Hypothesis HL : 3 <= L.
Hypothesis HK : 2 <= K.

Local Abbreviation vertex_index := (vertex_index L K).
Local Abbreviation on_surface := (on_surface L K).
Local Abbreviation surface_face := (surface_face L K).

Lemma Ring_inj t j t' j' : Ring t j = Ring t' j' -> t = t' /\ j = j'.
Proof. intros E. injection E. auto. Qed.

(** What a vertex among the corners of a face says of rows and
    columns. *)
Ltac split_corner :=
  repeat match goal with
         | M : _ \/ _ |- _ => destruct M as [M|M]
         | M : False |- _ => contradiction
         | M : NorthPole = NorthPole |- _ => clear M
         | M : SouthPole = SouthPole |- _ => clear M
         | M : Ring _ _ = Ring _ _ |- _ => apply Ring_inj in M
         | M : _ = _ :> vertex |- _ => discriminate M
         end;
  try lia.

Ltac corners_l H l :=
  lazymatch l with
  | ?v :: ?tl =>
      (let M := fresh "M" in
       pose proof (proj1 (H v) ltac:(cbn [In]; tauto)) as M;
       cbn [In] in M; split_corner);
      corners_l H tl
  | _ => idtac
  end.

Ltac corners_r H l :=
  lazymatch l with
  | ?v :: ?tl =>
      (let M := fresh "M" in
       pose proof (proj2 (H v) ltac:(cbn [In]; tauto)) as M;
       cbn [In] in M; split_corner);
      corners_r H tl
  | _ => idtac
  end.

Lemma surface_face_same_corners s j s' j' :
  0 <= s <= K -> 0 <= j < L -> 0 <= s' <= K -> 0 <= j' < L ->
  same_corners (surface_face s j) (surface_face s' j') ->
  s = s' /\ j = j'.
Proof.
  intros Hs Hj Hs' Hj'.
  destruct (next_col HL Hj) as (Hn & Hw).
  destruct (next_col HL Hj') as (Hn' & Hw').
  unfold surface_face, same_corners. cbv zeta.
  generalize dependent ((j + 1) mod L). intros jn Hn Hw.
  generalize dependent ((j' + 1) mod L). intros jn' Hn' Hw'.
  destruct (Z.eqb_spec s 0); [|destruct (Z.ltb_spec s K)];
    (destruct (Z.eqb_spec s' 0); [|destruct (Z.ltb_spec s' K)]);
    intros Hsame;
    match type of Hsame with
    | forall x, In x ?l <-> In x ?r => corners_l Hsame l; corners_r Hsame r
    end.
Qed.

Lemma capsule_face_same_corners s j s' j' :
  0 <= s <= K -> 0 <= j < L -> 0 <= s' <= K -> 0 <= j' < L ->
  same_corners (capsule_face L K s j) (capsule_face L K s' j') ->
  s = s' /\ j = j'.
Proof.
  intros Hs Hj Hs' Hj' H.
  rewrite !capsule_face_surface in H.
  pose proof (surface_face_on_surface HL HK Hs Hj) as Hon.
  pose proof (surface_face_on_surface HL HK Hs' Hj') as Hon'.
  rewrite Forall_forall in Hon, Hon'.
  apply surface_face_same_corners; try assumption.
  intros v. split; intros Hv.
  - pose proof (proj1 (H (vertex_index v)) (in_map _ _ _ Hv)) as Hw.
    apply in_map_iff in Hw. destruct Hw as (w & E & Hw).
    apply (@vertex_index_inj L K) in E; auto. now subst.
  - pose proof (proj2 (H (vertex_index v)) (in_map _ _ _ Hv)) as Hw.
    apply in_map_iff in Hw. destruct Hw as (w & E & Hw).
    apply (@vertex_index_inj L K) in E; auto. now subst.
Qed.

End capsule_faces_distinct.

(* ================================================================== *)
(** ** The Builder: index arithmetic *)
(* ================================================================== *)

Section builder_correct.

Variables longitudes latitudes rings : Z.
Variables depth radius : R.
Variable uv_profile : string.

Local Abbreviation verif_rad := (verif_rad radius).
Local Abbreviation verif_depth := (verif_depth depth).
Local Abbreviation verif_rings := (verif_rings rings).
Local Abbreviation verif_lons := (verif_lons longitudes).
Local Abbreviation verif_lats := (verif_lats latitudes).
Local Abbreviation calc_middle := (calc_middle rings).
Local Abbreviation half_lats := (half_lats latitudes).
Local Abbreviation half_lats_n1 := (half_lats_n1 latitudes).
Local Abbreviation half_lats_n2 := (half_lats_n2 latitudes).
Local Abbreviation verif_rings_p1 := (verif_rings_p1 rings).
Local Abbreviation verif_lons_p1 := (verif_lons_p1 longitudes).
Local Abbreviation half_depth := (half_depth depth).
Local Abbreviation summit := (summit depth radius).
Local Abbreviation idx_v_n_equator := (idx_v_n_equator longitudes latitudes).
Local Abbreviation idx_v_cyl := (idx_v_cyl longitudes latitudes).
Local Abbreviation idx_v_s_equator := (idx_v_s_equator longitudes latitudes rings).
Local Abbreviation idx_v_south := (idx_v_south longitudes latitudes rings).
Local Abbreviation idx_v_south_cap := (idx_v_south_cap longitudes latitudes rings).
Local Abbreviation idx_v_south_pole := (idx_v_south_pole longitudes latitudes rings).
Local Abbreviation idx_vt_n_equator := (idx_vt_n_equator longitudes latitudes).
Local Abbreviation idx_vt_cyl := (idx_vt_cyl longitudes latitudes).
Local Abbreviation idx_vt_s_equator := (idx_vt_s_equator longitudes latitudes rings).
Local Abbreviation idx_vt_s_hemi := (idx_vt_s_hemi longitudes latitudes rings).
Local Abbreviation idx_vt_s_polar := (idx_vt_s_polar longitudes latitudes rings).
Local Abbreviation idx_vt_s_cap := (idx_vt_s_cap longitudes latitudes rings).
Local Abbreviation idx_vn_south := (idx_vn_south longitudes latitudes).
Local Abbreviation idx_vn_south_cap := (idx_vn_south_cap longitudes latitudes).
Local Abbreviation idx_vn_south_pole := (idx_vn_south_pole longitudes latitudes).
Local Abbreviation idx_fs_cyl := (idx_fs_cyl longitudes latitudes).
Local Abbreviation idx_fs_south_equat := (idx_fs_south_equat longitudes latitudes rings).
Local Abbreviation idx_fs_south_hemi := (idx_fs_south_hemi longitudes latitudes rings).
Local Abbreviation len_vs := (len_vs longitudes latitudes rings).
Local Abbreviation len_vts := (len_vts longitudes latitudes rings).
Local Abbreviation len_vns := (len_vns longitudes latitudes).
Local Abbreviation len_indices := (len_indices longitudes latitudes rings).
Local Abbreviation lons_range := (lons_range longitudes).
Local Abbreviation lons_p1_range := (lons_p1_range longitudes).
Local Abbreviation hemi_range := (hemi_range latitudes).
Local Abbreviation loop_poles := (loop_poles longitudes latitudes rings depth radius).
Local Abbreviation vt_aspect_south_of :=
  (vt_aspect_south_of latitudes rings depth radius uv_profile).
Local Abbreviation loop_equator_uvs := (loop_equator_uvs longitudes latitudes rings).
Local Abbreviation loop_hemi_coords :=
  (loop_hemi_coords longitudes latitudes rings depth radius).
Local Abbreviation loop_hemi := (loop_hemi longitudes latitudes rings depth radius).
Local Abbreviation loop_ring_coords := (loop_ring_coords longitudes latitudes rings).
Local Abbreviation loop_rings := (loop_rings longitudes latitudes rings).
Local Abbreviation loop_cyl_quads := (loop_cyl_quads longitudes latitudes).
Local Abbreviation loop_cyl := (loop_cyl longitudes latitudes).
Local Abbreviation create_capsule_data :=
  (create_capsule_data longitudes latitudes rings depth radius uv_profile).

(** *** The clamped parameters *)

Lemma verif_lons_ge : 3 <= verif_lons.
Proof. unfold verif_lons. lia. Qed.

Lemma verif_rings_ge : 0 <= verif_rings.
Proof. unfold verif_rings. lia. Qed.

Lemma verif_lats_even : verif_lats = 2 * half_lats.
Proof.
  unfold half_lats, verif_lats. cbv zeta.
  set (v := Z.max 2 latitudes).
  pose proof (Z.mod_pos_bound v 2 ltac:(lia)) as Hb.
  pose proof (Z.div_mod v 2 ltac:(lia)) as Hd.
  destruct (Z.eqb_spec (v mod 2) 0) as [E|E]; cbn [negb].
  - lia.
  - replace (v + 1) with ((v / 2 + 1) * 2) by lia.
    rewrite Z.div_mul; lia.
Qed.

Lemma half_lats_ge : 1 <= half_lats.
Proof.
  pose proof verif_lats_even.
  assert (2 <= verif_lats).
  { unfold verif_lats. cbv zeta. destruct (negb _); lia. }
  lia.
Qed.

(** *** The offsets in closed form

    [idx_v_s_equator] and [idx_vt_s_equator] branch on [calc_middle]; both
    branches give the same closed form, since [verif_rings = 0] in the
    other. *)

Local Abbreviation L := verif_lons.
Local Abbreviation hl := half_lats.
Local Abbreviation rg := verif_rings.

Lemma rings_mul_middle x :
  (if calc_middle then x + L * rg else x) = x + L * rg.
Proof.
  unfold calc_middle. pose proof verif_rings_ge.
  destruct (Z.ltb_spec 0 rg); [reflexivity|].
  replace rg with 0 by lia. lia.
Qed.

Lemma rings_mul_middle_p1 x :
  (if calc_middle then x + verif_lons_p1 * rg else x) = x + verif_lons_p1 * rg.
Proof.
  unfold calc_middle. pose proof verif_rings_ge.
  destruct (Z.ltb_spec 0 rg); [reflexivity|].
  replace rg with 0 by lia. lia.
Qed.

Lemma idx_v_n_equator_eq : idx_v_n_equator = 1 + L * (hl - 1).
Proof. unfold idx_v_n_equator, verif_lons_p1, half_lats_n2. lia. Qed.

Lemma idx_v_cyl_eq : idx_v_cyl = 1 + L * hl.
Proof. unfold idx_v_cyl. rewrite idx_v_n_equator_eq. lia. Qed.

Lemma idx_v_s_equator_eq : idx_v_s_equator = 1 + L * (hl + rg).
Proof.
  unfold idx_v_s_equator. rewrite rings_mul_middle, idx_v_cyl_eq. lia.
Qed.

Lemma idx_v_south_eq : idx_v_south = 1 + L * (hl + rg + 1).
Proof. unfold idx_v_south. rewrite idx_v_s_equator_eq. lia. Qed.

Lemma idx_v_south_cap_eq : idx_v_south_cap = 1 + L * (2 * hl + rg - 1).
Proof.
  unfold idx_v_south_cap, half_lats_n2. rewrite idx_v_south_eq. lia.
Qed.

Lemma idx_v_south_pole_eq : idx_v_south_pole = 1 + L * (2 * hl + rg).
Proof. unfold idx_v_south_pole. rewrite idx_v_south_cap_eq. lia. Qed.

Lemma idx_vt_n_equator_eq : idx_vt_n_equator = L + (L + 1) * (hl - 1).
Proof. unfold idx_vt_n_equator, verif_lons_p1, half_lats_n1. lia. Qed.

Lemma idx_vt_cyl_eq : idx_vt_cyl = L + (L + 1) * hl.
Proof.
  unfold idx_vt_cyl, verif_lons_p1. rewrite idx_vt_n_equator_eq. lia.
Qed.

Lemma idx_vt_s_equator_eq : idx_vt_s_equator = L + (L + 1) * (hl + rg).
Proof.
  unfold idx_vt_s_equator. rewrite rings_mul_middle_p1, idx_vt_cyl_eq.
  unfold verif_lons_p1. lia.
Qed.

Lemma idx_vt_s_hemi_eq : idx_vt_s_hemi = L + (L + 1) * (hl + rg + 1).
Proof.
  unfold idx_vt_s_hemi, verif_lons_p1. rewrite idx_vt_s_equator_eq. lia.
Qed.

Lemma idx_vt_s_polar_eq : idx_vt_s_polar = L + (L + 1) * (2 * hl + rg - 1).
Proof.
  unfold idx_vt_s_polar, verif_lons_p1, half_lats_n2.
  rewrite idx_vt_s_hemi_eq. lia.
Qed.

Lemma idx_vt_s_cap_eq : idx_vt_s_cap = L + (L + 1) * (2 * hl + rg).
Proof.
  unfold idx_vt_s_cap, verif_lons_p1. rewrite idx_vt_s_polar_eq. lia.
Qed.

Lemma idx_vn_south_eq : idx_vn_south = 1 + L * hl.
Proof. unfold idx_vn_south. rewrite idx_v_n_equator_eq. lia. Qed.

Lemma idx_vn_south_cap_eq : idx_vn_south_cap = 1 + L * (2 * hl - 2).
Proof.
  unfold idx_vn_south_cap, half_lats_n2. rewrite idx_vn_south_eq. lia.
Qed.

Lemma idx_vn_south_pole_eq : idx_vn_south_pole = 1 + L * (2 * hl - 1).
Proof. unfold idx_vn_south_pole. rewrite idx_vn_south_cap_eq. lia. Qed.

Lemma idx_fs_cyl_eq : idx_fs_cyl = L * hl.
Proof.
  unfold idx_fs_cyl, v_lons_half_lat_n1, half_lats_n1. lia.
Qed.

Lemma idx_fs_south_equat_eq : idx_fs_south_equat = L * (hl + rg + 1).
Proof.
  unfold idx_fs_south_equat, v_lons_v_sections_p1, verif_rings_p1.
  rewrite idx_fs_cyl_eq. lia.
Qed.

Lemma idx_fs_south_hemi_eq : idx_fs_south_hemi = L * (2 * hl + rg).
Proof.
  unfold idx_fs_south_hemi, v_lons_half_lat_n1, half_lats_n1.
  rewrite idx_fs_south_equat_eq. lia.
Qed.

Lemma len_vs_eq : len_vs = 2 + L * (2 * hl + rg).
Proof. unfold len_vs. rewrite idx_v_south_pole_eq. lia. Qed.

Lemma len_vts_eq : len_vts = 2 * L + (L + 1) * (2 * hl + rg).
Proof. unfold len_vts. rewrite idx_vt_s_cap_eq. lia. Qed.

Lemma len_vns_eq : len_vns = 1 + L * (2 * hl).
Proof. unfold len_vns. rewrite idx_vn_south_pole_eq. lia. Qed.

Lemma len_indices_eq : len_indices = L * (2 * hl + rg + 1).
Proof. unfold len_indices. rewrite idx_fs_south_hemi_eq. lia. Qed.


(** *** The faces of the builder

    The builder's surface has [ring_count] rings of [L] vertices between
    its poles. *)

Local Abbreviation ring_count := (ring_count latitudes rings).
Local Abbreviation K := ring_count.
Local Abbreviation face_row := (capsule_face L K).
Local Abbreviation vs_inv := (vs_inv longitudes latitudes rings depth radius).
Local Abbreviation vns_inv := (vns_inv longitudes latitudes).
Local Abbreviation faces_inv := (faces_inv longitudes latitudes rings).
Local Abbreviation vt_inv := (vt_inv longitudes latitudes rings).
Local Abbreviation vn_inv := (vn_inv longitudes latitudes rings).
Local Abbreviation mesh_inv :=
  (mesh_inv longitudes latitudes rings depth radius).
Local Abbreviation W_poles := (W_poles latitudes rings).
Local Abbreviation hemi_off := (hemi_off longitudes latitudes rings).
Local Abbreviation W_hemi := (W_hemi longitudes latitudes rings).
Local Abbreviation W_cyl := (W_cyl longitudes latitudes rings).
Local Abbreviation cyl_inv := (cyl_inv longitudes latitudes rings).

Lemma ring_count_eq : K = 2 * hl + rg.
Proof. unfold ring_count. rewrite verif_lats_even. reflexivity. Qed.

(** Rewrites every offset to its closed form and brings the bounds of the
    clamped parameters into the context. *)
Ltac closed_forms :=
  rewrite ?idx_v_n_equator_eq, ?idx_v_cyl_eq, ?idx_v_s_equator_eq,
    ?idx_v_south_eq, ?idx_v_south_cap_eq, ?idx_v_south_pole_eq,
    ?idx_vt_n_equator_eq, ?idx_vt_cyl_eq, ?idx_vt_s_equator_eq,
    ?idx_vt_s_hemi_eq, ?idx_vt_s_polar_eq, ?idx_vt_s_cap_eq,
    ?idx_vn_south_eq, ?idx_vn_south_cap_eq, ?idx_vn_south_pole_eq,
    ?idx_fs_cyl_eq, ?idx_fs_south_equat_eq, ?idx_fs_south_hemi_eq,
    ?len_vs_eq, ?len_vts_eq, ?len_vns_eq, ?len_indices_eq, ?ring_count_eq
    in *;
  unfold verif_lons_p1, verif_rings_p1, half_lats_n1, half_lats_n2 in *.

Ltac param_bounds :=
  pose proof verif_lons_ge; pose proof half_lats_ge; pose proof verif_rings_ge;
  assert (L <= L * hl) by nia;
  assert (0 <= L * rg) by nia.

Ltac idx_arith := closed_forms; param_bounds; nia.

(** *** Invariants of the buffers *)

Lemma row_col_unique s j s' j' :
  0 <= j < L -> 0 <= j' < L -> s * L + j = s' * L + j' -> s = s' /\ j = j'.
Proof.
  intros Hj Hj' E. pose proof verif_lons_ge.
  assert (s = s') by nia. subst. lia.
Qed.

Lemma vs_inv_zupd l i v :
  vs_inv l -> 0 < i < idx_v_south_pole -> vs_inv (zupd l i v).
Proof.
  intros (Hl & Hn & Hs) Hi. unfold vs_inv.
  rewrite len_zupd, !zth_zupd_neq by lia. auto.
Qed.

Lemma vns_inv_zupd l i v :
  vns_inv l -> 0 <= i <= idx_vn_south_pole -> vns_inv (zupd l i v).
Proof.
  intros (Hl & Hk) Hi. unfold vns_inv. rewrite len_zupd.
  split; [assumption|]. intros k Hk'.
  rewrite zth_zupd_neq by lia. auto.
Qed.

Lemma faces_inv_zupd (W : Z -> Z -> Prop) l i v s0 j0 :
  faces_inv W l ->
  i = s0 * L + j0 -> v = face_row s0 j0 ->
  0 <= j0 < L -> 0 <= s0 <= K ->
  faces_inv (fun s j => W s j \/ (s = s0 /\ j = j0)) (zupd l i v).
Proof.
  intros (Hl & HW) -> -> Hj0 Hs0. unfold faces_inv.
  rewrite len_zupd. split; [assumption|].
  intros s j Hj Hsj.
  assert (0 <= s0 * L + j0 < len l).
  { rewrite Hl. idx_arith. }
  destruct Hsj as [HWsj|[-> ->]].
  - destruct (Z.eq_dec (s0 * L + j0) (s * L + j)) as [E|E].
    + apply row_col_unique in E; [|assumption..]. destruct E as [-> ->].
      apply zth_zupd_eq. assumption.
    + rewrite zth_zupd_neq by lia. auto.
  - apply zth_zupd_eq. assumption.
Qed.

Lemma vt_inv_zupd l i v :
  vt_inv l -> valid_face len_vts v -> vt_inv (zupd l i v).
Proof.
  intros (Hl & Hv) Hf. unfold vt_inv. rewrite len_zupd.
  split; [assumption|]. now apply Forall_zupd.
Qed.

Lemma vn_inv_zupd l i v :
  vn_inv l -> valid_face len_vns v -> vn_inv (zupd l i v).
Proof.
  intros (Hl & Hv) Hf. unfold vn_inv. rewrite len_zupd.
  split; [assumption|]. now apply Forall_zupd.
Qed.

Lemma faces_inv_weaken (W W' : Z -> Z -> Prop) l :
  faces_inv W l ->
  (forall s j, 0 <= j < L -> W' s j -> W s j) ->
  faces_inv W' l.
Proof. intros (Hl & HW) Hsub. split; auto. Qed.

Lemma mesh_inv_weaken (W W' : Z -> Z -> Prop) m :
  mesh_inv W m ->
  (forall s j, 0 <= j < L -> W' s j -> W s j) ->
  mesh_inv W' m.
Proof.
  intros (Hvs & Hvts & Hvns & Hf & Hvt & Hvn) Hsub.
  unfold mesh_inv. repeat (split; [assumption|]).
  split; [|split; assumption]. eapply faces_inv_weaken; eauto.
Qed.

(** *** The loops *)

(** Discharges [0 <= i < len l] for a buffer whose length an invariant
    gives. *)
Ltac bounds :=
  rewrite ?len_zupd;
  repeat match goal with
         | E : len ?l = _ |- context [len ?l] => rewrite E
         end;
  idx_arith.

Ltac mesh_simpl :=
  cbn [vs vts vns v_indices vt_indices vn_indices fst snd] in *.

Ltac set_ok := rewrite setitem_ok by bounds; cbn [bind].

(** Proves that a written tuple is the face of the closed form. *)
Ltac face_eq :=
  unfold capsule_face; cbv zeta;
  repeat match goal with
         | |- context [?a =? ?b] =>
             destruct (Z.eqb_spec a b); [try (exfalso; idx_arith)|]
         | |- context [?a <? ?b] =>
             destruct (Z.ltb_spec a b); try (exfalso; idx_arith)
         end;
  try (exfalso; idx_arith);
  repeat (f_equal; try idx_arith).

Ltac valid_face_tac :=
  unfold valid_face;
  repeat (apply Forall_cons; [idx_arith|]); apply Forall_nil.

Lemma loop_poles_ok to_theta to_tex_horizontal j m cache :
  0 <= j < L ->
  mesh_inv (W_poles j) m -> len cache = L ->
  exists st',
    loop_poles to_theta to_tex_horizontal j (m, cache) = Ok st' /\
    mesh_inv (W_poles (j + 1)) (fst st') /\ len (snd st') = L.
Proof.
  intros Hj (Hvs & Hvts & Hvns & Hf & Hvt & Hvn) Hc.
  destruct m as [vs0 vts0 vns0 vi vti vni]; mesh_simpl.
  destruct (next_col verif_lons_ge Hj) as (Hn & Hn').
  set (jn := (j + 1) mod L) in *.
  pose proof Hvs as (Hvs' & _). pose proof Hvns as (Hvns' & _).
  pose proof Hf as (Hf' & _).
  pose proof Hvt as (Hvt' & _). pose proof Hvn as (Hvn' & _).
  unfold loop_poles. fold jn. mesh_simpl.
  repeat set_ok.
  eexists; split; [reflexivity|]. cbn [fst snd].
  split; [|now rewrite len_zupd].
  unfold mesh_inv; mesh_simpl.
  split; [|split; [|split; [|split; [|split]]]].
  - apply vs_inv_zupd; [apply vs_inv_zupd; [assumption|]|]; idx_arith.
  - now rewrite !len_zupd.
  - apply vns_inv_zupd; [assumption|idx_arith].
  - eapply faces_inv_weaken.
    + eapply faces_inv_zupd with (s0 := K) (j0 := j);
        [eapply faces_inv_zupd with (s0 := 0) (j0 := j);
         [eassumption|..]|..].
      all: try lia.
      all: try (subst jn; face_eq).
      all: idx_arith.
    + unfold W_poles. cbv beta. intros s j'. lia.
  - apply vt_inv_zupd; [apply vt_inv_zupd; [assumption|]|]; valid_face_tac.
  - apply vn_inv_zupd; [apply vn_inv_zupd; [assumption|]|]; valid_face_tac.
Qed.

Lemma loop_equator_uvs_ok to_tex_horizontal vt_aspect_north vt_aspect_south
    j vts0 cache :
  0 <= j < L + 1 ->
  len vts0 = len_vts -> len cache = L + 1 ->
  exists st',
    loop_equator_uvs to_tex_horizontal vt_aspect_north vt_aspect_south j
      (vts0, cache) = Ok st' /\
    len (fst st') = len_vts /\ len (snd st') = L + 1.
Proof.
  intros Hj Hvts Hc. unfold loop_equator_uvs.
  repeat set_ok.
  eexists; split; [reflexivity|]. cbn [fst snd].
  now rewrite !len_zupd.
Qed.

Ltac offsets_simpl :=
  cbn [v_hemi_offset_north v_hemi_offset_south vt_hemi_offset_north
       vt_hemi_offset_south vn_hemi_offset_south f_hemi_offset_north
       f_hemi_offset_south] in *.

Lemma loop_hemi_coords_ok cache i phi j m :
  0 <= i < hl - 1 -> 0 <= j < L ->
  len cache = L ->
  mesh_inv (W_hemi i j) m ->
  exists st',
    loop_hemi_coords cache i phi j (m, hemi_off i j 0) = Ok st' /\
    mesh_inv (W_hemi i (j + 1)) (fst st') /\ snd st' = hemi_off i (j + 1) 0.
Proof.
  intros Hi Hj Hc (Hvs & Hvts & Hvns & Hf & Hvt & Hvn).
  destruct m as [vs0 vts0 vns0 vi vti vni]; mesh_simpl.
  destruct (next_col verif_lons_ge Hj) as (Hn & Hn').
  set (jn := (j + 1) mod L) in *.
  pose proof Hvs as (Hvs' & _). pose proof Hvns as (Hvns' & _).
  pose proof Hf as (Hf' & _).
  pose proof Hvt as (Hvt' & _). pose proof Hvn as (Hvn' & _).
  pose proof verif_lons_ge.
  assert (Hprod : 0 <= i * L /\ i * L + 2 * L <= hl * L) by nia.
  unfold loop_hemi_coords, hemi_off. fold jn. mesh_simpl. offsets_simpl.
  destruct (@getitem_ok _ cache j) as ([sin_theta cos_theta] & -> & _); [lia|].
  cbn [bind].
  repeat set_ok.
  eexists; split; [reflexivity|]. cbn [fst snd].
  split; [|f_equal; lia].
  unfold mesh_inv; mesh_simpl.
  split; [|split; [|split; [|split; [|split]]]].
  - apply vs_inv_zupd; [apply vs_inv_zupd; [assumption|]|]; idx_arith.
  - assumption.
  - apply vns_inv_zupd; [apply vns_inv_zupd; [assumption|]|]; idx_arith.
  - eapply faces_inv_weaken.
    + eapply faces_inv_zupd with (s0 := hl + rg + 1 + i) (j0 := j);
        [eapply faces_inv_zupd with (s0 := 1 + i) (j0 := j);
         [eassumption|..]|..].
      all: try lia.
      all: try (subst jn; face_eq).
      all: idx_arith.
    + unfold W_hemi, W_poles. cbv beta. intros s j'. lia.
  - apply vt_inv_zupd; [apply vt_inv_zupd; [assumption|]|]; valid_face_tac.
  - apply vn_inv_zupd; [apply vn_inv_zupd; [assumption|]|]; valid_face_tac.
Qed.

Lemma loop_hemi_uvs_ok (W : Z -> Z -> Prop) cache t_tex_north t_tex_south i j m :
  0 <= i < hl - 1 -> 0 <= j < L + 1 ->
  len cache = L + 1 ->
  mesh_inv W m ->
  exists st',
    loop_hemi_uvs cache t_tex_north t_tex_south j (m, hemi_off i L j) = Ok st' /\
    mesh_inv W (fst st') /\ snd st' = hemi_off i L (j + 1).
Proof.
  intros Hi Hj Hc (Hvs & Hvts & Hvns & Hf & Hvt & Hvn).
  destruct m as [vs0 vts0 vns0 vi vti vni]; mesh_simpl.
  pose proof verif_lons_ge.
  assert (Hprod : 0 <= i * L /\ i * L + 2 * L <= hl * L) by nia.
  unfold loop_hemi_uvs, hemi_off. mesh_simpl. offsets_simpl.
  destruct (@getitem_ok _ cache j) as (s_tex & -> & _); [lia|].
  cbn [bind].
  repeat set_ok.
  eexists; split; [reflexivity|]. cbn [fst snd].
  split; [|f_equal; lia].
  unfold mesh_inv; mesh_simpl.
  repeat (split; [assumption|]).
  split; [now rewrite !len_zupd|].
  repeat (split; [assumption|]). assumption.
Qed.

Lemma loop_hemi_ok sin_cos_theta_cache s_tex_cache
    to_phi to_tex_vertical vt_aspect_north vt_aspect_south i m :
  0 <= i < hl - 1 ->
  len sin_cos_theta_cache = L -> len s_tex_cache = L + 1 ->
  mesh_inv (W_hemi i 0) m ->
  exists st',
    loop_hemi sin_cos_theta_cache s_tex_cache to_phi to_tex_vertical
      vt_aspect_north vt_aspect_south i (m, hemi_off i 0 0) = Ok st' /\
    mesh_inv (W_hemi (i + 1) 0) (fst st') /\ snd st' = hemi_off (i + 1) 0 0.
Proof.
  intros Hi Hc1 Hc2 Hm. pose proof verif_lons_ge.
  unfold loop_hemi, lons_range, lons_p1_range, verif_lons_p1.
  edestruct (@for_each_range_inv (mesh * hemi_offsets)
               (fun j st => mesh_inv (W_hemi i j) (fst st) /\
                            snd st = hemi_off i j 0))
    as ([m1 o1] & -> & Hm1 & Ho1); [| |intros j [m' o'] Hj (Hm' & Ho')|].
  - lia.
  - split; [exact Hm|reflexivity].
  - cbn [fst snd] in *. subst o'. apply loop_hemi_coords_ok; assumption.
  - cbn [fst snd bind] in *. subst o1.
    edestruct (@for_each_range_inv (mesh * hemi_offsets)
                 (fun j st => mesh_inv (W_hemi i L) (fst st) /\
                              snd st = hemi_off i L j))
      as ([m2 o2] & -> & Hm2 & Ho2); [| |intros j [m' o'] Hj (Hm' & Ho')|].
    + lia.
    + split; [exact Hm1|reflexivity].
    + cbn [fst snd] in *. subst o'. apply loop_hemi_uvs_ok; assumption.
    + cbn [fst snd] in *. eexists; split; [reflexivity|]. cbn [fst snd].
      split.
      * eapply mesh_inv_weaken; [exact Hm2|].
        unfold W_hemi, W_poles. intros s j. lia.
      * subst o2. unfold hemi_off. f_equal; lia.
Qed.

(** The rings of the cylinder. *)
Lemma loop_ring_coords_ok fac cmpl_fac m j vs0 :
  1 <= m < rg + 1 -> 0 <= j < L ->
  vs_inv vs0 ->
  exists st',
    loop_ring_coords fac cmpl_fac j (vs0, idx_v_cyl + (m - 1) * L + j) = Ok st' /\
    vs_inv (fst st') /\ snd st' = idx_v_cyl + (m - 1) * L + (j + 1).
Proof.
  intros Hm Hj Hvs. pose proof Hvs as (Hvs' & _).
  pose proof verif_lons_ge.
  assert (Hprod : 0 <= (m - 1) * L /\ (m - 1) * L + L <= rg * L) by nia.
  unfold loop_ring_coords.
  destruct (@getitem_ok _ vs0 (idx_v_n_equator + j))
    as ([[n0 n1] n2] & -> & _); [bounds|].
  destruct (@getitem_ok _ vs0 (idx_v_s_equator + j))
    as ([[s0 s1] s2] & -> & _); [bounds|].
  cbn [bind].
  repeat set_ok.
  eexists; split; [reflexivity|]. cbn [fst snd].
  split; [|lia].
  apply vs_inv_zupd; [assumption|idx_arith].
Qed.

Lemma loop_ring_uvs_ok cache t_tex m j vts0 :
  1 <= m < rg + 1 -> 0 <= j < L + 1 ->
  len cache = L + 1 -> len vts0 = len_vts ->
  exists st',
    loop_ring_uvs cache t_tex j (vts0, idx_vt_cyl + (m - 1) * (L + 1) + j)
      = Ok st' /\
    len (fst st') = len_vts /\
    snd st' = idx_vt_cyl + (m - 1) * (L + 1) + (j + 1).
Proof.
  intros Hm Hj Hc Hvts. pose proof verif_lons_ge.
  assert (Hprod : 0 <= (m - 1) * L /\ (m - 1) * L + L <= rg * L) by nia.
  unfold loop_ring_uvs.
  destruct (@getitem_ok _ cache j) as (s_tex & -> & _); [lia|].
  cbn [bind].
  repeat set_ok.
  eexists; split; [reflexivity|]. cbn [fst snd].
  split; [now rewrite len_zupd|lia].
Qed.

Lemma loop_rings_ok cache to_fac vt_aspect_north vt_aspect_south m vs0 vts0 :
  1 <= m < rg + 1 ->
  len cache = L + 1 -> vs_inv vs0 -> len vts0 = len_vts ->
  exists vs1 vts1,
    loop_rings cache to_fac vt_aspect_north vt_aspect_south m
      (vs0, vts0, idx_v_cyl + (m - 1) * L, idx_vt_cyl + (m - 1) * (L + 1))
    = Ok (vs1, vts1, idx_v_cyl + m * L, idx_vt_cyl + m * (L + 1)) /\
    vs_inv vs1 /\ len vts1 = len_vts.
Proof.
  intros Hm Hc Hvs Hvts. pose proof verif_lons_ge.
  unfold loop_rings, lons_range, lons_p1_range, verif_lons_p1.
  edestruct (@for_each_range_inv (list vec3 * Z)
               (fun j st => vs_inv (fst st) /\
                            snd st = idx_v_cyl + (m - 1) * L + j)
               (loop_ring_coords (IZR m * to_fac) (1.0 - IZR m * to_fac))
               0 L (vs0, idx_v_cyl + (m - 1) * L))
    as ([vs1 o1] & E1 & Hvs1 & Ho1); [| |intros j [v' o'] Hj (Hv' & Ho')|].
  - lia.
  - cbn [fst snd]. split; [exact Hvs|lia].
  - cbn [fst snd] in *. subst o'. apply loop_ring_coords_ok; assumption.
  - rewrite E1. cbn [fst snd bind] in *. subst o1.
    edestruct (@for_each_range_inv (list vec2 * Z)
                 (fun j st => len (fst st) = len_vts /\
                              snd st = idx_vt_cyl + (m - 1) * (L + 1) + j)
                 (loop_ring_uvs cache
                    (vt_aspect_north * (1.0 - IZR m * to_fac) +
                     vt_aspect_south * (IZR m * to_fac)))
                 0 (L + 1) (vts0, idx_vt_cyl + (m - 1) * (L + 1)))
      as ([vts1 o2] & E2 & Hvts1 & Ho2); [| |intros j [v' o'] Hj (Hv' & Ho')|].
    + lia.
    + cbn [fst snd]. split; [exact Hvts|lia].
    + cbn [fst snd] in *. subst o'. apply loop_ring_uvs_ok; assumption.
    + rewrite E2. cbn [fst snd bind] in *. subst o2.
      exists vs1, vts1. split; [|split; assumption].
      replace (idx_v_cyl + (m - 1) * L + L) with (idx_v_cyl + m * L) by lia.
      replace (idx_vt_cyl + (m - 1) * (L + 1) + (L + 1))
        with (idx_vt_cyl + m * (L + 1)) by lia.
      reflexivity.
Qed.

Lemma loop_cyl_quads_ok m j st :
  0 <= m < rg + 1 -> 0 <= j < L ->
  cyl_inv m j st ->
  exists st', loop_cyl_quads m j st = Ok st' /\ cyl_inv m (j + 1) st'.
Proof.
  intros Hm Hj. destruct st as [[[v vt] vn] off].
  intros (Hf & Hvt & Hvn & ->).
  destruct (next_col verif_lons_ge Hj) as (Hn & Hn').
  set (jn := (j + 1) mod L) in *.
  pose proof Hf as (Hf' & _).
  pose proof Hvt as (Hvt' & _). pose proof Hvn as (Hvn' & _).
  pose proof verif_lons_ge.
  assert (Hprod : 0 <= m * L /\ m * L <= rg * L) by nia.
  unfold loop_cyl_quads. fold jn.
  repeat set_ok.
  eexists; split; [reflexivity|]. unfold cyl_inv.
  split; [|split; [|split]].
  - eapply faces_inv_weaken.
    + eapply faces_inv_zupd with (s0 := hl + m) (j0 := j); [eassumption|..].
      all: try lia.
      all: try (subst jn; face_eq).
      all: idx_arith.
    + unfold W_cyl, W_hemi, W_poles. cbv beta. intros s j'. lia.
  - apply vt_inv_zupd; [assumption|]; valid_face_tac.
  - apply vn_inv_zupd; [assumption|]; valid_face_tac.
  - lia.
Qed.

Lemma loop_cyl_ok m st :
  0 <= m < rg + 1 ->
  cyl_inv m 0 st ->
  exists st', loop_cyl m st = Ok st' /\ cyl_inv (m + 1) 0 st'.
Proof.
  intros Hm Hst. pose proof verif_lons_ge.
  unfold loop_cyl, lons_range.
  destruct (@for_each_range_inv _ (cyl_inv m) (loop_cyl_quads m) 0 L st)
    as ([[[v vt] vn] off] & -> & Hf & Hvt & Hvn & ->).
  - lia.
  - assumption.
  - intros j s Hj. now apply loop_cyl_quads_ok.
  - eexists; split; [reflexivity|]. unfold cyl_inv.
    split; [|split; [|split]]; try assumption; [|lia].
    eapply faces_inv_weaken; [exact Hf|].
    unfold W_cyl, W_hemi, W_poles. intros s j. lia.
Qed.

(** *** The whole builder *)

Lemma verif_rad_pos : (0.0001 <= verif_rad)%R.
Proof. unfold verif_rad, fmax. destruct (Rlt_dec _ _); lra. Qed.

Lemma verif_depth_pos : (0.0002 <= verif_depth)%R.
Proof. unfold verif_depth, fmax. destruct (Rlt_dec _ _); lra. Qed.

Lemma vt_aspect_south_of_ok : exists x, vt_aspect_south_of = Ok x.
Proof.
  unfold vt_aspect_south_of.
  rewrite (@fdiv_ok 1.0 3.0) by lra. cbn [bind].
  destruct (String.eqb uv_profile "ASPECT").
  - rewrite fdiv_ok; [eauto|].
    pose proof verif_rad_pos. pose proof verif_depth_pos. lra.
  - destruct (String.eqb uv_profile "UNIFORM"); [|eauto].
    rewrite fdiv_ok; [eauto|].
    apply not_0_IZR. pose proof half_lats_ge. pose proof verif_rings_ge.
    pose proof verif_lats_even. unfold verif_rings_p1. lia.
Qed.

(** The builder returns, and what it returns has buffers of the computed
    lengths, the two poles in place, every face of the closed form, and
    texture and normal indices within their buffers. *)
Lemma create_capsule_data_ok :
  exists m, create_capsule_data = Ok m /\ mesh_inv (fun s _ => 0 <= s <= K) m.
Proof.
  pose proof verif_lons_ge as HL. pose proof half_lats_ge as Hhl.
  pose proof verif_rings_ge as Hrg. pose proof verif_lats_even as Heven.
  assert (Hlen_vs : 2 <= len_vs) by idx_arith.
  assert (Hlen_vts : 1 <= len_vts) by idx_arith.
  assert (Hlen_vns : 1 <= len_vns) by idx_arith.
  assert (Hlen_idx : 0 <= len_indices) by idx_arith.
  unfold create_capsule_data. cbv zeta.
  rewrite setitem_ok by (rewrite len_list_repeat; lia). cbn [bind].
  rewrite setitem_ok
    by (rewrite len_zupd, len_list_repeat by lia; idx_arith). cbn [bind].
  rewrite setitem_ok by (rewrite len_list_repeat; lia). cbn [bind].
  rewrite setitem_ok
    by (rewrite len_zupd, len_list_repeat by lia; idx_arith). cbn [bind].
  rewrite !fdiv_ok by (apply not_0_IZR; lia). cbn [bind].
  (* the poles, the equators and the fans *)
  unfold lons_range.
  edestruct (@for_each_range_inv (mesh * list (R * R))
               (fun j st => mesh_inv (W_poles j) (fst st) /\ len (snd st) = L))
    as ([m1 cache1] & -> & Hm1 & Hc1);
    [| |intros j [m' c'] Hj (Hm' & Hc'); apply loop_poles_ok; eassumption|].
  { lia. }
  { cbn [fst snd]. split; [|apply len_list_repeat; lia].
    unfold mesh_inv; mesh_simpl.
    split; [|split; [|split; [|split; [|split]]]].
    - unfold vs_inv. rewrite !len_zupd, len_list_repeat by lia.
      split; [reflexivity|]. split.
      + rewrite zth_zupd_neq by idx_arith.
        apply zth_zupd_eq. rewrite len_list_repeat; lia.
      + apply zth_zupd_eq.
        rewrite len_zupd, len_list_repeat by lia. idx_arith.
    - apply len_list_repeat; lia.
    - apply vns_inv_zupd; [apply vns_inv_zupd|]; [|idx_arith|idx_arith].
      split; [apply len_list_repeat; lia|].
      intros k Hk. apply zth_list_repeat. revert Hk. idx_arith.
    - split; [apply len_list_repeat; lia|].
      unfold W_poles. intros s j ?. lia.
    - split; [apply len_list_repeat; lia|].
      apply Forall_list_repeat. unfold valid_face.
      repeat (apply Forall_cons; [lia|]). apply Forall_nil.
    - split; [apply len_list_repeat; lia|].
      apply Forall_list_repeat. unfold valid_face.
      repeat (apply Forall_cons; [lia|]). apply Forall_nil. }
  cbn [fst snd bind] in *.
  (* the texture coordinates of the equators *)
  destruct vt_aspect_south_of_ok as (vt_aspect_south & ->). cbn [bind].
  destruct Hm1 as (Hvs1 & Hvts1 & Hvns1 & Hf1 & Hvt1 & Hvn1).
  unfold lons_p1_range, verif_lons_p1.
  edestruct (@for_each_range_inv (list vec2 * list R)
               (fun (j : Z) st => len (fst st) = len_vts /\ len (snd st) = L + 1))
    as ([vts2 s_tex_cache] & -> & Hvts2 & Hc2);
    [| |intros j [v' c'] Hj (Hv' & Hc');
        apply loop_equator_uvs_ok; eassumption|].
  { lia. }
  { cbn [fst snd]. split; [assumption|apply len_list_repeat; lia]. }
  cbn [fst snd bind] in *.
  (* the hemispheres *)
  unfold hemi_range, half_lats_n1.
  edestruct (@for_each_range_inv (mesh * hemi_offsets)
               (fun i st => mesh_inv (W_hemi i 0) (fst st) /\
                            snd st = hemi_off i 0 0))
    as ([m3 o3] & -> & Hm3 & _);
    [| |intros i [m' o'] Hi (Hm' & Ho'); cbn [fst snd] in *; subst o';
        apply loop_hemi_ok; eassumption|].
  { lia. }
  { cbn [fst snd]. split.
    - unfold mesh_inv; mesh_simpl.
      repeat (split; [assumption|]). split; [|split; assumption].
      eapply faces_inv_weaken; [exact Hf1|].
      unfold W_hemi, W_poles. intros s j. lia.
    - unfold hemi_off. f_equal; lia. }
  cbn [fst snd bind] in *.
  destruct Hm3 as (Hvs3 & Hvts3 & Hvns3 & Hf3 & Hvt3 & Hvn3).
  (* the rings of the cylinder *)
  assert (Hmid : exists vs4 vts4,
    (if calc_middle
     then to_fac <- fdiv 1.0 (IZR verif_rings_p1) ;;
          ' (vs4, vts4, _, _) <-
            for_each (range 1 verif_rings_p1)
              (loop_rings s_tex_cache to_fac (1.0 - vt_aspect_south)
                 vt_aspect_south)
              (vs m3, vts m3, idx_v_cyl, idx_vt_cyl) ;;
          Ok (vs4, vts4)
     else Ok (vs m3, vts m3)) = Ok (vs4, vts4) /\
    vs_inv vs4 /\ len vts4 = len_vts).
  { destruct calc_middle; [|eauto].
    unfold verif_rings_p1.
    rewrite fdiv_ok by (apply not_0_IZR; lia). cbn [bind].
    edestruct (@for_each_range_inv (list vec3 * list vec2 * Z * Z)
                 (fun m st =>
                    let '(v, vt, vo, vto) := st in
                    vs_inv v /\ len vt = len_vts /\
                    vo = idx_v_cyl + (m - 1) * L /\
                    vto = idx_vt_cyl + (m - 1) * (L + 1)))
      as ([[[vs4 vts4] vo] vto] & -> & Hvs4 & Hvts4 & _);
      [| |intros m [[[v' vt'] vo'] vto'] Hm (Hv' & Hvt' & -> & ->)|].
    - lia.
    - split; [assumption|split; [assumption|split; lia]].
    - destruct (@loop_rings_ok s_tex_cache (1.0 / IZR (rg + 1))
                  (1.0 - vt_aspect_south) vt_aspect_south m v' vt')
        as (v'' & vt'' & -> & Hv'' & Hvt''); try assumption.
      eexists; split; [reflexivity|].
      split; [assumption|split; [assumption|split; lia]].
    - cbn [bind]. eauto. }
  destruct Hmid as (vs4 & vts4 & -> & Hvs4 & Hvts4). cbn [bind].
  (* the quads of the cylinder *)
  unfold verif_rings_p1.
  edestruct (@for_each_range_inv _ (fun m st => cyl_inv m 0 st) loop_cyl
               0 (rg + 1) (v_indices m3, vt_indices m3, vn_indices m3, idx_fs_cyl))
    as ([[[v5 vt5] vn5] o5] & -> & Hf5 & Hvt5 & Hvn5 & _).
  { lia. }
  { unfold cyl_inv.
    split; [|split; [assumption|split; [assumption|lia]]].
    eapply faces_inv_weaken; [exact Hf3|].
    unfold W_cyl, W_hemi, W_poles. intros s j. lia. }
  { intros m st Hm Hst. now apply loop_cyl_ok. }
  cbn [bind].
  eexists; split; [reflexivity|].
  unfold mesh_inv; mesh_simpl.
  repeat (split; [assumption|]). split; [|split; assumption].
  eapply faces_inv_weaken; [exact Hf5|].
  unfold W_cyl, W_hemi, W_poles. rewrite ring_count_eq. intros s j. lia.
Qed.

(** *** The values the loops write *)

Local Abbreviation ring_kind_of := (ring_kind_of latitudes rings).
Local Abbreviation normal_kind_of := (normal_kind_of latitudes).
Local Abbreviation normal_row := (normal_row latitudes rings).
Local Abbreviation theta := (theta longitudes).
Local Abbreviation phi := (phi latitudes).
Local Abbreviation s_tex_of := (s_tex_of longitudes).
Local Abbreviation t_tex_fac_of := (t_tex_fac_of latitudes).
Local Abbreviation fac_of := (fac_of rings).
Local Abbreviation uv_aspect_south :=
  (uv_aspect_south latitudes rings depth radius uv_profile).
Local Abbreviation uv_aspect_north :=
  (uv_aspect_north latitudes rings depth radius uv_profile).
Local Abbreviation ring_vertex :=
  (ring_vertex longitudes latitudes rings depth radius).
Local Abbreviation ring_normal := (ring_normal longitudes latitudes).
Local Abbreviation ring_uv :=
  (ring_uv longitudes latitudes rings depth radius uv_profile).
Local Abbreviation capsule_vertex :=
  (capsule_vertex longitudes latitudes rings depth radius).
Local Abbreviation capsule_normal := (capsule_normal longitudes latitudes).
Local Abbreviation capsule_uv :=
  (capsule_uv longitudes latitudes rings depth radius uv_profile).
Local Abbreviation uv_row := (uv_row longitudes).
Local Abbreviation capsule_vt_face :=
  (capsule_vt_face longitudes latitudes rings).
Local Abbreviation capsule_vn_face :=
  (capsule_vn_face longitudes latitudes rings).
Local Abbreviation Wv_poles := (Wv_poles longitudes latitudes rings).
Local Abbreviation Wv_hemi := (Wv_hemi longitudes latitudes rings).
Local Abbreviation Wv_rings := (Wv_rings longitudes latitudes rings).
Local Abbreviation Wn_poles := (Wn_poles longitudes latitudes).
Local Abbreviation Wn_hemi := (Wn_hemi longitudes latitudes).
Local Abbreviation Wt_poles := (Wt_poles latitudes rings).
Local Abbreviation Wt_equators := (Wt_equators longitudes latitudes rings).
Local Abbreviation Wt_hemi := (Wt_hemi longitudes latitudes rings).
Local Abbreviation Wt_rings := (Wt_rings longitudes latitudes rings).
Local Abbreviation Wv_all := (Wv_all longitudes latitudes rings).
Local Abbreviation Wt_all := (Wt_all longitudes latitudes rings).
Local Abbreviation Wn_all := (Wn_all longitudes latitudes).
Local Abbreviation Wf_all := (Wf_all latitudes rings).
Local Abbreviation theta_cache_inv := (theta_cache_inv longitudes).
Local Abbreviation s_tex_cache_inv := (s_tex_cache_inv longitudes).
Local Abbreviation geom_inv :=
  (geom_inv longitudes latitudes rings depth radius uv_profile).

Lemma Ok_inj {A : Type} (x y : A) : Ok x = Ok y -> x = y.
Proof. congruence. Qed.

Lemma Some_inj {A : Type} (x y : A) : Some x = Some y -> x = y.
Proof. congruence. Qed.

(** Reads the state a loop body returns off its equation. *)
Ltac ok_inv :=
  let E := fresh "E" in
  intros E; apply Ok_inj in E; subst; cbn [fst snd].

(** The kind of each row. *)
Lemma ring_kind_north_cap : ring_kind_of (-1) = NorthCap.
Proof. reflexivity. Qed.

Lemma ring_kind_north i : 0 <= i < hl - 1 -> ring_kind_of i = NorthRing i.
Proof.
  intros Hi. unfold ring_kind_of.
  destruct (Z.ltb_spec i 0); [lia|].
  destruct (Z.ltb_spec i (hl - 1)); [reflexivity|lia].
Qed.

Lemma ring_kind_north_equator : ring_kind_of (hl - 1) = NorthEquator.
Proof.
  pose proof half_lats_ge. unfold ring_kind_of.
  destruct (Z.ltb_spec (hl - 1) 0); [lia|].
  destruct (Z.ltb_spec (hl - 1) (hl - 1)); [lia|].
  now rewrite Z.eqb_refl.
Qed.

Lemma ring_kind_cyl m : 1 <= m <= rg -> ring_kind_of (hl + m - 1) = CylRing m.
Proof.
  intros Hm. pose proof half_lats_ge. unfold ring_kind_of.
  destruct (Z.ltb_spec (hl + m - 1) 0); [lia|].
  destruct (Z.ltb_spec (hl + m - 1) (hl - 1)); [lia|].
  destruct (Z.eqb_spec (hl + m - 1) (hl - 1)); [lia|].
  destruct (Z.ltb_spec (hl + m - 1) (hl + rg)); [|lia].
  f_equal. lia.
Qed.

Lemma ring_kind_south_equator : ring_kind_of (hl + rg) = SouthEquator.
Proof.
  pose proof half_lats_ge. pose proof verif_rings_ge. unfold ring_kind_of.
  destruct (Z.ltb_spec (hl + rg) 0); [lia|].
  destruct (Z.ltb_spec (hl + rg) (hl - 1)); [lia|].
  destruct (Z.eqb_spec (hl + rg) (hl - 1)); [lia|].
  destruct (Z.ltb_spec (hl + rg) (hl + rg)); [lia|].
  now rewrite Z.eqb_refl.
Qed.

Lemma ring_kind_south i :
  0 <= i < hl - 1 -> ring_kind_of (hl + rg + 1 + i) = SouthRing i.
Proof.
  intros Hi. pose proof verif_rings_ge. pose proof ring_count_eq.
  unfold ring_kind_of.
  destruct (Z.ltb_spec (hl + rg + 1 + i) 0); [lia|].
  destruct (Z.ltb_spec (hl + rg + 1 + i) (hl - 1)); [lia|].
  destruct (Z.eqb_spec (hl + rg + 1 + i) (hl - 1)); [lia|].
  destruct (Z.ltb_spec (hl + rg + 1 + i) (hl + rg)); [lia|].
  destruct (Z.eqb_spec (hl + rg + 1 + i) (hl + rg)); [lia|].
  destruct (Z.ltb_spec (hl + rg + 1 + i) K); [|lia].
  f_equal. lia.
Qed.

Lemma ring_kind_south_cap : ring_kind_of K = SouthCap.
Proof.
  pose proof half_lats_ge. pose proof verif_rings_ge.
  pose proof ring_count_eq. unfold ring_kind_of.
  destruct (Z.ltb_spec K 0); [lia|].
  destruct (Z.ltb_spec K (hl - 1)); [lia|].
  destruct (Z.eqb_spec K (hl - 1)); [lia|].
  destruct (Z.ltb_spec K (hl + rg)); [lia|].
  destruct (Z.eqb_spec K (hl + rg)); [lia|].
  destruct (Z.ltb_spec K K); [lia|reflexivity].
Qed.

Lemma normal_kind_north_cap : normal_kind_of (-1) = NorthCap.
Proof. reflexivity. Qed.

Lemma normal_kind_north i : 0 <= i < hl - 1 -> normal_kind_of i = NorthRing i.
Proof.
  intros Hi. unfold normal_kind_of.
  destruct (Z.ltb_spec i 0); [lia|].
  destruct (Z.ltb_spec i (hl - 1)); [reflexivity|lia].
Qed.

Lemma normal_kind_equator : normal_kind_of (hl - 1) = NorthEquator.
Proof.
  pose proof half_lats_ge. unfold normal_kind_of.
  destruct (Z.ltb_spec (hl - 1) 0); [lia|].
  destruct (Z.ltb_spec (hl - 1) (hl - 1)); [lia|].
  now rewrite Z.eqb_refl.
Qed.

Lemma normal_kind_south i :
  0 <= i < hl - 1 -> normal_kind_of (hl + i) = SouthRing i.
Proof.
  intros Hi. unfold normal_kind_of.
  destruct (Z.ltb_spec (hl + i) 0); [lia|].
  destruct (Z.ltb_spec (hl + i) (hl - 1)); [lia|].
  destruct (Z.eqb_spec (hl + i) (hl - 1)); [lia|].
  destruct (Z.ltb_spec (hl + i) (2 * hl - 1)); [|lia].
  f_equal. lia.
Qed.

Lemma normal_kind_south_cap : normal_kind_of (2 * hl - 1) = SouthCap.
Proof.
  pose proof half_lats_ge. unfold normal_kind_of.
  destruct (Z.ltb_spec (2 * hl - 1) 0); [lia|].
  destruct (Z.ltb_spec (2 * hl - 1) (hl - 1)); [lia|].
  destruct (Z.eqb_spec (2 * hl - 1) (hl - 1)); [lia|].
  destruct (Z.ltb_spec (2 * hl - 1) (2 * hl - 1)); [lia|reflexivity].
Qed.

(** Writing the entry of the closed form keeps the invariant of a
    buffer. *)
Lemma grid_inv_zupd {A : Type} off cols (g : Z -> Z -> A)
    (W : Z -> Z -> Prop) l i v t0 j0 :
  grid_inv off cols g W l ->
  i = off + t0 * cols + j0 -> v = g t0 j0 ->
  0 <= j0 < cols -> 0 <= i < len l ->
  grid_inv off cols g (fun t j => W t j \/ (t = t0 /\ j = j0)) (zupd l i v).
Proof.
  intros HW -> -> Hj0 Hi t j Hj Htj.
  destruct (Z.eq_dec (off + t0 * cols + j0) (off + t * cols + j)) as [E|E].
  - assert (t = t0) by nia. subst t. assert (j = j0) by lia. subst j.
    apply zth_zupd_eq. assumption.
  - rewrite zth_zupd_neq by lia.
    destruct Htj as [Htj|[-> ->]]; [auto|congruence].
Qed.

Lemma grid_inv_weaken {A : Type} off cols (g : Z -> Z -> A)
    (W W' : Z -> Z -> Prop) l :
  grid_inv off cols g W l ->
  (forall t j, 0 <= j < cols -> W' t j -> W t j) ->
  grid_inv off cols g W' l.
Proof. intros HW Hsub t j Hj Htj. apply HW; auto. Qed.

(** What an entry read from a buffer is. *)
Lemma grid_inv_getitem {A : Type} off cols (g : Z -> Z -> A)
    (W : Z -> Z -> Prop) l i t j :
  grid_inv off cols g W l ->
  i = off + t * cols + j -> 0 <= j < cols -> W t j ->
  getitem l i = Ok (g t j).
Proof.
  intros HW -> Hj Htj. pose proof (HW t j Hj Htj) as E.
  pose proof (zth_Some_lt _ _ E) as Hb.
  destruct (getitem_ok l Hb) as (x & -> & E'). congruence.
Qed.

(** Proves that a written index tuple is the face of the closed form. *)
Ltac index_face_eq :=
  unfold capsule_vt_face, capsule_vn_face, uv_row, normal_row; cbv zeta;
  repeat match goal with
         | |- context [?a =? ?b] =>
             destruct (Z.eqb_spec a b); try (exfalso; idx_arith)
         | |- context [?a <? ?b] =>
             destruct (Z.ltb_spec a b); try (exfalso; idx_arith)
         end;
  try (exfalso; idx_arith);
  repeat (apply (f_equal2 cons); [idx_arith|]); try reflexivity.

(** Proves that a set of written entries includes another. *)
Ltac incl := cbv beta; clear; intros ? ? ? ?; intuition lia.

Ltac geom_simpl :=
  unfold geom_inv in *; mesh_simpl.

(** The loop over the poles. *)
Lemma loop_poles_geom j m cache :
  0 <= j < L ->
  mesh_inv (W_poles j) m -> len cache = L ->
  geom_inv (Wv_poles j) (Wt_poles j) (Wn_poles j) (W_poles j) m ->
  theta_cache_inv j cache ->
  exists st',
    loop_poles (2 * PI / IZR L) (1.0 / IZR L) j (m, cache) = Ok st' /\
    (mesh_inv (W_poles (j + 1)) (fst st') /\ len (snd st') = L) /\
    geom_inv (Wv_poles (j + 1)) (Wt_poles (j + 1)) (Wn_poles (j + 1))
      (W_poles (j + 1)) (fst st') /\
    theta_cache_inv (j + 1) (snd st').
Proof.
  intros Hj Hm Hc (Gv & Gt & Gn & Gvt & Gvn) Gc.
  destruct (@loop_poles_ok (2 * PI / IZR L) (1.0 / IZR L) j m cache Hj Hm Hc)
    as (st' & E & Hm' & Hc').
  exists st'. split; [exact E|]. split; [split; assumption|].
  destruct Hm as (Hvs & Hvts & Hvns & Hf & Hvt & Hvn).
  destruct m as [vs0 vts0 vns0 vi vti vni]; mesh_simpl.
  destruct (next_col verif_lons_ge Hj) as (Hn & Hn').
  pose proof Hvs as (Hvs' & _). pose proof Hvns as (Hvns' & _).
  pose proof Hf as (Hf' & _).
  pose proof Hvt as (Hvt' & _). pose proof Hvn as (Hvn' & _).
  revert E. unfold loop_poles. mesh_simpl.
  set (jn := (j + 1) mod L) in *.
  repeat set_ok. ok_inv.
  split; [|].
  - geom_simpl. split; [|split; [|split; [|split]]].
    + eapply grid_inv_weaken.
      * eapply grid_inv_zupd with (t0 := hl + rg) (j0 := j);
          [eapply grid_inv_zupd with (t0 := hl - 1) (j0 := j);
           [exact Gv|..]|..].
        all: try lia.
        all: try bounds.
        -- unfold capsule_vertex. now rewrite ring_kind_north_equator.
        -- unfold capsule_vertex. now rewrite ring_kind_south_equator.
      * unfold Wv_poles. incl.
    + eapply grid_inv_weaken.
      * eapply grid_inv_zupd with (t0 := K) (j0 := j);
          [eapply grid_inv_zupd with (t0 := -1) (j0 := j + 1);
           [exact Gt|..]|..].
        all: try lia.
        all: try bounds.
        -- unfold capsule_uv. rewrite ring_kind_north_cap. cbn [ring_uv].
           now replace (j + 1 - 1) with j by lia.
        -- unfold capsule_uv. now rewrite ring_kind_south_cap.
      * unfold Wt_poles. incl.
    + eapply grid_inv_weaken.
      * eapply grid_inv_zupd with (t0 := hl - 1) (j0 := j); [exact Gn|..].
        all: try lia.
        all: try bounds.
        unfold capsule_normal. now rewrite normal_kind_equator.
      * unfold Wn_poles. incl.
    + eapply grid_inv_weaken.
      * eapply grid_inv_zupd with (t0 := K) (j0 := j);
          [eapply grid_inv_zupd with (t0 := 0) (j0 := j);
           [exact Gvt|..]|..].
        all: try lia.
        all: try bounds.
        all: subst jn; index_face_eq.
      * unfold W_poles. incl.
    + eapply grid_inv_weaken.
      * eapply grid_inv_zupd with (t0 := K) (j0 := j);
          [eapply grid_inv_zupd with (t0 := 0) (j0 := j);
           [exact Gvn|..]|..].
        all: try lia.
        all: try bounds.
        all: subst jn; index_face_eq.
      * unfold W_poles. incl.
  - unfold theta_cache_inv in *. eapply grid_inv_weaken.
    + eapply grid_inv_zupd with (t0 := 0) (j0 := j); [exact Gc|..].
      all: try lia.
      reflexivity.
    + unfold W_cache. incl.
Qed.

(** The texture coordinates of the equators. *)
Lemma loop_equator_uvs_geom j vts0 cache :
  0 <= j < L + 1 ->
  len vts0 = len_vts -> len cache = L + 1 ->
  grid_inv L (L + 1) capsule_uv (Wt_equators j) vts0 ->
  s_tex_cache_inv j cache ->
  exists st',
    loop_equator_uvs (1.0 / IZR L) uv_aspect_north uv_aspect_south j
      (vts0, cache) = Ok st' /\
    (len (fst st') = len_vts /\ len (snd st') = L + 1) /\
    grid_inv L (L + 1) capsule_uv (Wt_equators (j + 1)) (fst st') /\
    s_tex_cache_inv (j + 1) (snd st').
Proof.
  intros Hj Hvts Hc Gt Gc.
  destruct (@loop_equator_uvs_ok (1.0 / IZR L) uv_aspect_north uv_aspect_south
              j vts0 cache Hj Hvts Hc) as (st' & E & Hl').
  exists st'. split; [exact E|]. split; [exact Hl'|].
  revert E. unfold loop_equator_uvs.
  repeat set_ok. ok_inv.
  split.
  - eapply grid_inv_weaken.
    + eapply grid_inv_zupd with (t0 := hl + rg) (j0 := j);
        [eapply grid_inv_zupd with (t0 := hl - 1) (j0 := j);
         [exact Gt|..]|..].
      all: try lia.
      all: try bounds.
      * unfold capsule_uv. now rewrite ring_kind_north_equator.
      * unfold capsule_uv. now rewrite ring_kind_south_equator.
    + unfold Wt_equators. incl.
  - unfold s_tex_cache_inv in *. eapply grid_inv_weaken.
    + eapply grid_inv_zupd with (t0 := 0) (j0 := j); [exact Gc|..].
      all: try lia.
      reflexivity.
    + unfold W_cache. incl.
Qed.

(** The coordinates, normals and quads of a latitude of the
    hemispheres. *)
Lemma loop_hemi_coords_geom (Wt : Z -> Z -> Prop) cache i j m :
  0 <= i < hl - 1 -> 0 <= j < L ->
  len cache = L -> theta_cache_inv L cache ->
  mesh_inv (W_hemi i j) m ->
  geom_inv (Wv_hemi i j) Wt (Wn_hemi i j) (W_hemi i j) m ->
  exists st',
    loop_hemi_coords cache i (phi i) j (m, hemi_off i j 0) = Ok st' /\
    (mesh_inv (W_hemi i (j + 1)) (fst st') /\ snd st' = hemi_off i (j + 1) 0) /\
    geom_inv (Wv_hemi i (j + 1)) Wt (Wn_hemi i (j + 1)) (W_hemi i (j + 1))
      (fst st').
Proof.
  intros Hi Hj Hc Gc Hm (Gv & Gt & Gn & Gvt & Gvn).
  destruct (@loop_hemi_coords_ok cache i (phi i) j m Hi Hj Hc Hm)
    as (st' & E & Hm' & Ho').
  exists st'. split; [exact E|]. split; [split; assumption|].
  destruct Hm as (Hvs & Hvts & Hvns & Hf & Hvt & Hvn).
  destruct m as [vs0 vts0 vns0 vi vti vni]; mesh_simpl.
  destruct (next_col verif_lons_ge Hj) as (Hn & Hn').
  pose proof Hvs as (Hvs' & _). pose proof Hvns as (Hvns' & _).
  pose proof Hf as (Hf' & _).
  pose proof Hvt as (Hvt' & _). pose proof Hvn as (Hvn' & _).
  pose proof verif_lons_ge.
  assert (Hprod : 0 <= i * L /\ i * L + 2 * L <= hl * L) by nia.
  revert E. unfold loop_hemi_coords, hemi_off. mesh_simpl. offsets_simpl.
  set (jn := (j + 1) mod L) in *.
  rewrite (@grid_inv_getitem _ 0 L _ _ cache j 0 j Gc)
    by (unfold W_cache; lia).
  cbn [bind].
  repeat set_ok. ok_inv.
  geom_simpl. split; [|split; [|split; [|split]]].
  - eapply grid_inv_weaken.
    + eapply grid_inv_zupd with (t0 := hl + rg + 1 + i) (j0 := j);
        [eapply grid_inv_zupd with (t0 := i) (j0 := j);
         [exact Gv|..]|..].
      all: try lia.
      all: try bounds.
      * unfold capsule_vertex. now rewrite ring_kind_north by lia.
      * unfold capsule_vertex. now rewrite ring_kind_south by lia.
    + unfold Wv_hemi. incl.
  - exact Gt.
  - eapply grid_inv_weaken.
    + eapply grid_inv_zupd with (t0 := hl + i) (j0 := j);
        [eapply grid_inv_zupd with (t0 := i) (j0 := j);
         [exact Gn|..]|..].
      all: try lia.
      all: try bounds.
      * unfold capsule_normal. now rewrite normal_kind_north by lia.
      * unfold capsule_normal. now rewrite normal_kind_south by lia.
    + unfold Wn_hemi. incl.
  - eapply grid_inv_weaken.
    + eapply grid_inv_zupd with (t0 := hl + rg + 1 + i) (j0 := j);
        [eapply grid_inv_zupd with (t0 := 1 + i) (j0 := j);
         [exact Gvt|..]|..].
      all: try lia.
      all: try bounds.
      all: subst jn; index_face_eq.
    + unfold W_hemi. incl.
  - eapply grid_inv_weaken.
    + eapply grid_inv_zupd with (t0 := hl + rg + 1 + i) (j0 := j);
        [eapply grid_inv_zupd with (t0 := 1 + i) (j0 := j);
         [exact Gvn|..]|..].
      all: try lia.
      all: try bounds.
      all: subst jn; index_face_eq.
    + unfold W_hemi. incl.
Qed.

(** The texture coordinates of a latitude of the hemispheres. *)
Lemma loop_hemi_uvs_geom (W Wv Wn : Z -> Z -> Prop) cache i j m :
  0 <= i < hl - 1 -> 0 <= j < L + 1 ->
  len cache = L + 1 -> s_tex_cache_inv (L + 1) cache ->
  mesh_inv W m ->
  geom_inv Wv (Wt_hemi i j) Wn W m ->
  exists st',
    loop_hemi_uvs cache
      (1.0 * (1.0 - t_tex_fac_of i) + t_tex_fac_of i * uv_aspect_north)%R
      (uv_aspect_south * (1.0 - t_tex_fac_of i) + t_tex_fac_of i * 0.0)%R
      j (m, hemi_off i L j) = Ok st' /\
    (mesh_inv W (fst st') /\ snd st' = hemi_off i L (j + 1)) /\
    geom_inv Wv (Wt_hemi i (j + 1)) Wn W (fst st').
Proof.
  intros Hi Hj Hc Gc Hm (Gv & Gt & Gn & Gvt & Gvn).
  destruct (@loop_hemi_uvs_ok W cache
              (1.0 * (1.0 - t_tex_fac_of i) + t_tex_fac_of i * uv_aspect_north)%R
              (uv_aspect_south * (1.0 - t_tex_fac_of i) + t_tex_fac_of i * 0.0)%R
              i j m Hi Hj Hc Hm)
    as (st' & E & Hm' & Ho').
  exists st'. split; [exact E|]. split; [split; assumption|].
  destruct Hm as (Hvs & Hvts & Hvns & Hf & Hvt & Hvn).
  destruct m as [vs0 vts0 vns0 vi vti vni]; mesh_simpl.
  pose proof verif_lons_ge.
  assert (Hprod : 0 <= i * L /\ i * L + 2 * L <= hl * L) by nia.
  revert E. unfold loop_hemi_uvs, hemi_off. mesh_simpl. offsets_simpl.
  rewrite (@grid_inv_getitem _ 0 (L + 1) _ _ cache j 0 j Gc)
    by (unfold W_cache; lia).
  cbn [bind].
  repeat set_ok. ok_inv.
  geom_simpl. split; [exact Gv|]. split; [|auto].
  eapply grid_inv_weaken.
  - eapply grid_inv_zupd with (t0 := hl + rg + 1 + i) (j0 := j);
      [eapply grid_inv_zupd with (t0 := i) (j0 := j);
       [exact Gt|..]|..].
    all: try lia.
    all: try bounds.
    + unfold capsule_uv. now rewrite ring_kind_north by lia.
    + unfold capsule_uv. now rewrite ring_kind_south by lia.
  - unfold Wt_hemi. incl.
Qed.

Lemma geom_inv_weaken (Wv Wt Wn Wf Wv' Wt' Wn' Wf' : Z -> Z -> Prop) m :
  geom_inv Wv Wt Wn Wf m ->
  (forall t j, 0 <= j < L -> Wv' t j -> Wv t j) ->
  (forall t j, 0 <= j < L + 1 -> Wt' t j -> Wt t j) ->
  (forall t j, 0 <= j < L -> Wn' t j -> Wn t j) ->
  (forall t j, 0 <= j < L -> Wf' t j -> Wf t j) ->
  geom_inv Wv' Wt' Wn' Wf' m.
Proof.
  intros (Gv & Gt & Gn & Gvt & Gvn) Hv Ht Hn Hf.
  unfold geom_inv.
  repeat split; eapply grid_inv_weaken; eauto.
Qed.

(** A latitude of the hemispheres. *)
Lemma loop_hemi_geom sin_cos_theta_cache s_tex_cache i m :
  0 <= i < hl - 1 ->
  len sin_cos_theta_cache = L -> theta_cache_inv L sin_cos_theta_cache ->
  len s_tex_cache = L + 1 -> s_tex_cache_inv (L + 1) s_tex_cache ->
  mesh_inv (W_hemi i 0) m ->
  geom_inv (Wv_hemi i 0) (Wt_hemi i 0) (Wn_hemi i 0) (W_hemi i 0) m ->
  exists st',
    loop_hemi sin_cos_theta_cache s_tex_cache (PI / IZR verif_lats)
      (1.0 / IZR hl) uv_aspect_north uv_aspect_south i (m, hemi_off i 0 0)
    = Ok st' /\
    (mesh_inv (W_hemi (i + 1) 0) (fst st') /\ snd st' = hemi_off (i + 1) 0 0) /\
    geom_inv (Wv_hemi (i + 1) 0) (Wt_hemi (i + 1) 0) (Wn_hemi (i + 1) 0)
      (W_hemi (i + 1) 0) (fst st').
Proof.
  intros Hi Hc1 Gc1 Hc2 Gc2 Hm Gm. pose proof verif_lons_ge.
  unfold loop_hemi, lons_range, lons_p1_range, verif_lons_p1.
  change ((IZR i + 1.0) * (PI / IZR verif_lats))%R with (phi i).
  change ((IZR i + 1.0) * (1.0 / IZR hl))%R with (t_tex_fac_of i).
  edestruct (@for_each_range_inv (mesh * hemi_offsets)
               (fun j st =>
                  (mesh_inv (W_hemi i j) (fst st) /\ snd st = hemi_off i j 0) /\
                  geom_inv (Wv_hemi i j) (Wt_hemi i 0) (Wn_hemi i j)
                    (W_hemi i j) (fst st))
               (loop_hemi_coords sin_cos_theta_cache i (phi i)) 0 L
               (m, hemi_off i 0 0))
    as ([m1 o1] & -> & (Hm1 & Ho1) & Gm1);
    [| |intros j [m' o'] Hj ((Hm' & Ho') & Gm')|].
  - lia.
  - cbn [fst snd]. auto.
  - cbn [fst snd] in *. subst o'.
    apply loop_hemi_coords_geom; assumption.
  - cbn [fst snd bind] in *. subst o1.
    edestruct (@for_each_range_inv (mesh * hemi_offsets)
                 (fun j st =>
                    (mesh_inv (W_hemi i L) (fst st) /\
                     snd st = hemi_off i L j) /\
                    geom_inv (Wv_hemi i L) (Wt_hemi i j) (Wn_hemi i L)
                      (W_hemi i L) (fst st))
                 (loop_hemi_uvs s_tex_cache
                    (1.0 * (1.0 - t_tex_fac_of i) +
                     t_tex_fac_of i * uv_aspect_north)%R
                    (uv_aspect_south * (1.0 - t_tex_fac_of i) +
                     t_tex_fac_of i * 0.0)%R) 0 (L + 1)
                 (m1, hemi_off i L 0))
      as ([m2 o2] & -> & (Hm2 & Ho2) & Gm2);
      [| |intros j [m' o'] Hj ((Hm' & Ho') & Gm')|].
    + lia.
    + cbn [fst snd]. auto.
    + cbn [fst snd] in *. subst o'.
      apply loop_hemi_uvs_geom; assumption.
    + cbn [fst snd] in *. eexists; split; [reflexivity|]. cbn [fst snd].
      split; [split|].
      * eapply mesh_inv_weaken; [exact Hm2|].
        unfold W_hemi. incl.
      * subst o2. unfold hemi_off. f_equal; lia.
      * eapply geom_inv_weaken; [exact Gm2|..].
        -- unfold Wv_hemi. incl.
        -- unfold Wt_hemi. incl.
        -- unfold Wn_hemi. incl.
        -- unfold W_hemi. incl.
Qed.

(** The rings of the cylinder. *)
Lemma loop_ring_coords_geom m j vs0 :
  1 <= m < rg + 1 -> 0 <= j < L ->
  vs_inv vs0 ->
  grid_inv 1 L capsule_vertex (Wv_rings m j) vs0 ->
  exists st',
    loop_ring_coords (fac_of m) (1.0 - fac_of m)%R j
      (vs0, idx_v_cyl + (m - 1) * L + j) = Ok st' /\
    (vs_inv (fst st') /\ snd st' = idx_v_cyl + (m - 1) * L + (j + 1)) /\
    grid_inv 1 L capsule_vertex (Wv_rings m (j + 1)) (fst st').
Proof.
  intros Hm Hj Hvs Gv.
  destruct (@loop_ring_coords_ok (fac_of m) (1.0 - fac_of m)%R m j vs0 Hm Hj Hvs)
    as (st' & E & Hvs1 & Ho).
  exists st'. split; [exact E|]. split; [split; assumption|].
  pose proof Hvs as (Hvs' & _). pose proof verif_lons_ge.
  assert (Hprod : 0 <= (m - 1) * L /\ (m - 1) * L + L <= rg * L) by nia.
  revert E. unfold loop_ring_coords.
  rewrite (@grid_inv_getitem _ 1 L _ _ vs0 (idx_v_n_equator + j) (hl - 1) j Gv)
    by first [idx_arith | unfold Wv_rings, Wv_hemi, Wv_poles; lia].
  rewrite (@grid_inv_getitem _ 1 L _ _ vs0 (idx_v_s_equator + j) (hl + rg) j Gv)
    by first [idx_arith | unfold Wv_rings, Wv_hemi, Wv_poles; lia].
  unfold capsule_vertex at 1 2.
  rewrite ring_kind_north_equator, ring_kind_south_equator.
  cbn [bind ring_vertex].
  repeat set_ok. ok_inv.
  eapply grid_inv_weaken.
  - eapply grid_inv_zupd with (t0 := hl + m - 1) (j0 := j); [exact Gv|..].
    all: try lia.
    all: try bounds.
    unfold capsule_vertex. now rewrite ring_kind_cyl by lia.
  - unfold Wv_rings. incl.
Qed.

Lemma loop_ring_uvs_geom cache m j vts0 :
  1 <= m < rg + 1 -> 0 <= j < L + 1 ->
  len cache = L + 1 -> s_tex_cache_inv (L + 1) cache ->
  len vts0 = len_vts ->
  grid_inv L (L + 1) capsule_uv (Wt_rings m j) vts0 ->
  exists st',
    loop_ring_uvs cache
      (uv_aspect_north * (1.0 - fac_of m) + uv_aspect_south * fac_of m)%R j
      (vts0, idx_vt_cyl + (m - 1) * (L + 1) + j) = Ok st' /\
    (len (fst st') = len_vts /\
     snd st' = idx_vt_cyl + (m - 1) * (L + 1) + (j + 1)) /\
    grid_inv L (L + 1) capsule_uv (Wt_rings m (j + 1)) (fst st').
Proof.
  intros Hm Hj Hc Gc Hvts Gt.
  destruct (@loop_ring_uvs_ok cache
              (uv_aspect_north * (1.0 - fac_of m) + uv_aspect_south * fac_of m)%R
              m j vts0 Hm Hj Hc Hvts)
    as (st' & E & Hl).
  exists st'. split; [exact E|]. split; [exact Hl|].
  pose proof verif_lons_ge.
  assert (Hprod : 0 <= (m - 1) * L /\ (m - 1) * L + L <= rg * L) by nia.
  revert E. unfold loop_ring_uvs.
  rewrite (@grid_inv_getitem _ 0 (L + 1) _ _ cache j 0 j Gc)
    by (unfold W_cache; lia).
  cbn [bind].
  repeat set_ok. ok_inv.
  eapply grid_inv_weaken.
  - eapply grid_inv_zupd with (t0 := hl + m - 1) (j0 := j); [exact Gt|..].
    all: try lia.
    all: try bounds.
    unfold capsule_uv. now rewrite ring_kind_cyl by lia.
  - unfold Wt_rings. incl.
Qed.

Lemma loop_rings_geom cache m vs0 vts0 :
  1 <= m < rg + 1 ->
  len cache = L + 1 -> s_tex_cache_inv (L + 1) cache ->
  vs_inv vs0 -> len vts0 = len_vts ->
  grid_inv 1 L capsule_vertex (Wv_rings m 0) vs0 ->
  grid_inv L (L + 1) capsule_uv (Wt_rings m 0) vts0 ->
  exists vs1 vts1,
    loop_rings cache (1.0 / IZR (rg + 1)) uv_aspect_north uv_aspect_south m
      (vs0, vts0, idx_v_cyl + (m - 1) * L, idx_vt_cyl + (m - 1) * (L + 1))
    = Ok (vs1, vts1, idx_v_cyl + m * L, idx_vt_cyl + m * (L + 1)) /\
    (vs_inv vs1 /\ len vts1 = len_vts) /\
    grid_inv 1 L capsule_vertex (Wv_rings (m + 1) 0) vs1 /\
    grid_inv L (L + 1) capsule_uv (Wt_rings (m + 1) 0) vts1.
Proof.
  intros Hm Hc Gc Hvs Hvts Gv Gt. pose proof verif_lons_ge.
  unfold loop_rings, lons_range, lons_p1_range, verif_lons_p1.
  change (IZR m * (1.0 / IZR (rg + 1)))%R with (fac_of m).
  edestruct (@for_each_range_inv (list vec3 * Z)
               (fun j st =>
                  (vs_inv (fst st) /\
                   snd st = idx_v_cyl + (m - 1) * L + j) /\
                  grid_inv 1 L capsule_vertex (Wv_rings m j) (fst st))
               (loop_ring_coords (fac_of m) (1.0 - fac_of m)%R)
               0 L (vs0, idx_v_cyl + (m - 1) * L))
    as ([vs1 o1] & E1 & (Hvs1 & Ho1) & Gv1);
    [| |intros j [v' o'] Hj ((Hv' & Ho') & Gv')|].
  - lia.
  - cbn [fst snd]. split; [split; [exact Hvs|lia]|exact Gv].
  - cbn [fst snd] in *. subst o'. apply loop_ring_coords_geom; assumption.
  - rewrite E1. cbn [fst snd bind] in *. subst o1.
    edestruct (@for_each_range_inv (list vec2 * Z)
                 (fun j st =>
                    (len (fst st) = len_vts /\
                     snd st = idx_vt_cyl + (m - 1) * (L + 1) + j) /\
                    grid_inv L (L + 1) capsule_uv (Wt_rings m j) (fst st))
                 (loop_ring_uvs cache
                    (uv_aspect_north * (1.0 - fac_of m) +
                     uv_aspect_south * fac_of m)%R)
                 0 (L + 1) (vts0, idx_vt_cyl + (m - 1) * (L + 1)))
      as ([vts1 o2] & E2 & (Hvts1 & Ho2) & Gt1);
      [| |intros j [v' o'] Hj ((Hv' & Ho') & Gt')|].
    + lia.
    + cbn [fst snd]. split; [split; [exact Hvts|lia]|exact Gt].
    + cbn [fst snd] in *. subst o'. apply loop_ring_uvs_geom; assumption.
    + rewrite E2. cbn [fst snd bind] in *. subst o2.
      exists vs1, vts1. split; [|split; [split; assumption|split]].
      * replace (idx_v_cyl + (m - 1) * L + L) with (idx_v_cyl + m * L) by lia.
        replace (idx_vt_cyl + (m - 1) * (L + 1) + (L + 1))
          with (idx_vt_cyl + m * (L + 1)) by lia.
        reflexivity.
      * eapply grid_inv_weaken; [exact Gv1|].
        unfold Wv_rings. incl.
      * eapply grid_inv_weaken; [exact Gt1|].
        unfold Wt_rings. incl.
Qed.

(** The quads of the cylinder. *)
Lemma loop_cyl_quads_geom m j st :
  0 <= m < rg + 1 -> 0 <= j < L ->
  cyl_inv m j st ->
  grid_inv 0 L capsule_vt_face (W_cyl m j) (snd (fst (fst st))) ->
  grid_inv 0 L capsule_vn_face (W_cyl m j) (snd (fst st)) ->
  exists st',
    loop_cyl_quads m j st = Ok st' /\ cyl_inv m (j + 1) st' /\
    grid_inv 0 L capsule_vt_face (W_cyl m (j + 1)) (snd (fst (fst st'))) /\
    grid_inv 0 L capsule_vn_face (W_cyl m (j + 1)) (snd (fst st')).
Proof.
  intros Hm Hj Hst Gvt Gvn.
  destruct (@loop_cyl_quads_ok m j st Hm Hj Hst) as (st' & E & Hst').
  exists st'. split; [exact E|]. split; [exact Hst'|].
  destruct st as [[[v vt] vn] off]. cbn [fst snd] in *.
  destruct Hst as (Hf & Hvt & Hvn & ->).
  destruct (next_col verif_lons_ge Hj) as (Hn & Hn').
  pose proof Hf as (Hf' & _).
  pose proof Hvt as (Hvt' & _). pose proof Hvn as (Hvn' & _).
  pose proof verif_lons_ge.
  assert (Hprod : 0 <= m * L /\ m * L <= rg * L) by nia.
  revert E. unfold loop_cyl_quads.
  set (jn := (j + 1) mod L) in *.
  repeat set_ok. ok_inv.
  split.
  - eapply grid_inv_weaken.
    + eapply grid_inv_zupd with (t0 := hl + m) (j0 := j); [exact Gvt|..].
      all: try lia.
      all: try bounds.
      all: subst jn; index_face_eq.
    + unfold W_cyl. incl.
  - eapply grid_inv_weaken.
    + eapply grid_inv_zupd with (t0 := hl + m) (j0 := j); [exact Gvn|..].
      all: try lia.
      all: try bounds.
      all: subst jn; index_face_eq.
    + unfold W_cyl. incl.
Qed.

Lemma loop_cyl_geom m st :
  0 <= m < rg + 1 ->
  cyl_inv m 0 st ->
  grid_inv 0 L capsule_vt_face (W_cyl m 0) (snd (fst (fst st))) ->
  grid_inv 0 L capsule_vn_face (W_cyl m 0) (snd (fst st)) ->
  exists st',
    loop_cyl m st = Ok st' /\ cyl_inv (m + 1) 0 st' /\
    grid_inv 0 L capsule_vt_face (W_cyl (m + 1) 0) (snd (fst (fst st'))) /\
    grid_inv 0 L capsule_vn_face (W_cyl (m + 1) 0) (snd (fst st')).
Proof.
  intros Hm Hst Gvt Gvn. pose proof verif_lons_ge.
  unfold loop_cyl, lons_range.
  destruct (@for_each_range_inv _
              (fun j st => cyl_inv m j st /\
                 grid_inv 0 L capsule_vt_face (W_cyl m j) (snd (fst (fst st))) /\
                 grid_inv 0 L capsule_vn_face (W_cyl m j) (snd (fst st)))
              (loop_cyl_quads m) 0 L st)
    as (st' & E & Hst' & Gvt' & Gvn').
  - lia.
  - auto.
  - intros j s Hj (Hs & Gs1 & Gs2). now apply loop_cyl_quads_geom.
  - exists st'. split; [exact E|].
    destruct st' as [[[v vt] vn] off]. cbn [fst snd] in *.
    destruct Hst' as (Hf & Hvt & Hvn & ->).
    split; [|split].
    + unfold cyl_inv. split; [|split; [|split]]; try assumption; [|lia].
      eapply faces_inv_weaken; [exact Hf|].
      unfold W_cyl. incl.
    + eapply grid_inv_weaken; [exact Gvt'|].
      unfold W_cyl. incl.
    + eapply grid_inv_weaken; [exact Gvn'|].
      unfold W_cyl. incl.
Qed.

(** *** The whole builder, with its values *)

Lemma vt_aspect_south_of_eq : vt_aspect_south_of = Ok uv_aspect_south.
Proof.
  unfold vt_aspect_south_of, uv_aspect_south.
  rewrite (@fdiv_ok 1.0 3.0) by lra. cbn [bind].
  destruct (String.eqb uv_profile "ASPECT").
  - rewrite fdiv_ok; [reflexivity|].
    pose proof verif_rad_pos. pose proof verif_depth_pos. lra.
  - destruct (String.eqb uv_profile "UNIFORM"); [|reflexivity].
    rewrite fdiv_ok; [reflexivity|].
    apply not_0_IZR. pose proof half_lats_ge. pose proof verif_rings_ge.
    pose proof verif_lats_even. unfold verif_rings_p1. lia.
Qed.

Lemma grid_inv_empty {A : Type} off cols (g : Z -> Z -> A) (l : list A) :
  grid_inv off cols g (fun _ _ => False) l.
Proof. intros t j _ []. Qed.

(** The builder returns a mesh whose every written entry is the entry of
    the closed form. *)
Lemma create_capsule_data_geom :
  exists m,
    create_capsule_data = Ok m /\
    mesh_inv (fun s _ => 0 <= s <= K) m /\
    geom_inv Wv_all Wt_all Wn_all Wf_all m.
Proof.
  pose proof verif_lons_ge as HL. pose proof half_lats_ge as Hhl.
  pose proof verif_rings_ge as Hrg. pose proof verif_lats_even as Heven.
  pose proof ring_count_eq as HK.
  assert (Hlen_vs : 2 <= len_vs) by idx_arith.
  assert (Hlen_vts : 1 <= len_vts) by idx_arith.
  assert (Hlen_vns : 1 <= len_vns) by idx_arith.
  assert (Hlen_idx : 0 <= len_indices) by idx_arith.
  unfold create_capsule_data. cbv zeta.
  rewrite setitem_ok by (rewrite len_list_repeat; lia). cbn [bind].
  rewrite setitem_ok
    by (rewrite len_zupd, len_list_repeat by lia; idx_arith). cbn [bind].
  rewrite setitem_ok by (rewrite len_list_repeat; lia). cbn [bind].
  rewrite setitem_ok
    by (rewrite len_zupd, len_list_repeat by lia; idx_arith). cbn [bind].
  rewrite !fdiv_ok by (apply not_0_IZR; lia). cbn [bind].
  (* the poles, the equators and the fans *)
  unfold lons_range.
  edestruct (@for_each_range_inv (mesh * list (R * R))
               (fun j st =>
                  (mesh_inv (W_poles j) (fst st) /\ len (snd st) = L) /\
                  geom_inv (Wv_poles j) (Wt_poles j) (Wn_poles j) (W_poles j)
                    (fst st) /\
                  theta_cache_inv j (snd st))
               (loop_poles (2 * PI / IZR L) (1.0 / IZR L)) 0 L)
    as ([m1 cache1] & -> & (Hm1 & Hc1) & Gm1 & Gc1);
    [| |intros j [m' c'] Hj ((Hm' & Hc') & Gm' & Gc');
        apply loop_poles_geom; eassumption|].
  { lia. }
  { cbn [fst snd]. split; [split; [|apply len_list_repeat; lia]|split].
    - unfold mesh_inv; mesh_simpl.
      split; [|split; [|split; [|split; [|split]]]].
      + unfold vs_inv. rewrite !len_zupd, len_list_repeat by lia.
        split; [reflexivity|]. split.
        * rewrite zth_zupd_neq by idx_arith.
          apply zth_zupd_eq. rewrite len_list_repeat; lia.
        * apply zth_zupd_eq.
          rewrite len_zupd, len_list_repeat by lia. idx_arith.
      + apply len_list_repeat; lia.
      + apply vns_inv_zupd; [apply vns_inv_zupd|]; [|idx_arith|idx_arith].
        split; [apply len_list_repeat; lia|].
        intros k Hk. apply zth_list_repeat. revert Hk. idx_arith.
      + split; [apply len_list_repeat; lia|].
        unfold W_poles. intros s j ?. lia.
      + split; [apply len_list_repeat; lia|].
        apply Forall_list_repeat. unfold valid_face.
        repeat (apply Forall_cons; [lia|]). apply Forall_nil.
      + split; [apply len_list_repeat; lia|].
        apply Forall_list_repeat. unfold valid_face.
        repeat (apply Forall_cons; [lia|]). apply Forall_nil.
    - geom_simpl. split; [|split; [|split; [|split]]].
      + eapply grid_inv_weaken.
        * eapply grid_inv_zupd with (t0 := K) (j0 := 0);
            [eapply grid_inv_zupd with (t0 := -1) (j0 := L - 1);
             [apply grid_inv_empty|..]|..].
          all: try lia.
          all: rewrite ?len_zupd, ?len_list_repeat by lia.
          all: try idx_arith.
          -- reflexivity.
          -- unfold capsule_vertex. now rewrite ring_kind_south_cap.
        * unfold Wv_poles. clear. intros t j Hj. intuition lia.
      + eapply grid_inv_weaken; [apply grid_inv_empty|].
        unfold Wt_poles. clear. intros t j Hj. lia.
      + eapply grid_inv_weaken.
        * eapply grid_inv_zupd with (t0 := 2 * hl - 1) (j0 := 0);
            [eapply grid_inv_zupd with (t0 := -1) (j0 := L - 1);
             [apply grid_inv_empty|..]|..].
          all: try lia.
          all: rewrite ?len_zupd, ?len_list_repeat by lia.
          all: try idx_arith.
          -- reflexivity.
          -- unfold capsule_normal. now rewrite normal_kind_south_cap.
        * unfold Wn_poles. clear. intros t j Hj. intuition lia.
      + eapply grid_inv_weaken; [apply grid_inv_empty|].
        unfold W_poles. clear. intros t j Hj. lia.
      + eapply grid_inv_weaken; [apply grid_inv_empty|].
        unfold W_poles. clear. intros t j Hj. lia.
    - unfold theta_cache_inv. eapply grid_inv_weaken; [apply grid_inv_empty|].
      unfold W_cache. clear. intros t j Hj. lia. }
  cbn [fst snd bind] in *.
  (* the texture coordinates of the equators *)
  rewrite vt_aspect_south_of_eq. cbn [bind].
  fold uv_aspect_north.
  destruct Hm1 as (Hvs1 & Hvts1 & Hvns1 & Hf1 & Hvt1 & Hvn1).
  destruct Gm1 as (Gv1 & Gt1 & Gn1 & Gvt1 & Gvn1).
  unfold lons_p1_range, verif_lons_p1.
  edestruct (@for_each_range_inv (list vec2 * list R)
               (fun (j : Z) st =>
                  (len (fst st) = len_vts /\ len (snd st) = L + 1) /\
                  grid_inv L (L + 1) capsule_uv (Wt_equators j) (fst st) /\
                  s_tex_cache_inv j (snd st))
               (loop_equator_uvs (1.0 / IZR L) uv_aspect_north uv_aspect_south)
               0 (L + 1))
    as ([vts2 s_tex_cache] & -> & (Hvts2 & Hc2) & Gt2 & Gc2);
    [| |intros j [v' c'] Hj ((Hv' & Hc') & Gt' & Gc');
        apply loop_equator_uvs_geom; eassumption|].
  { lia. }
  { cbn [fst snd]. split; [split; [assumption|apply len_list_repeat; lia]|].
    split.
    - eapply grid_inv_weaken; [exact Gt1|].
      unfold Wt_equators. clear. intros t j Hj. intuition lia.
    - unfold s_tex_cache_inv. eapply grid_inv_weaken; [apply grid_inv_empty|].
      unfold W_cache. clear. intros t j Hj. lia. }
  cbn [fst snd bind] in *.
  (* the hemispheres *)
  unfold hemi_range, half_lats_n1.
  edestruct (@for_each_range_inv (mesh * hemi_offsets)
               (fun i st =>
                  (mesh_inv (W_hemi i 0) (fst st) /\
                   snd st = hemi_off i 0 0) /\
                  geom_inv (Wv_hemi i 0) (Wt_hemi i 0) (Wn_hemi i 0)
                    (W_hemi i 0) (fst st))
               (loop_hemi cache1 s_tex_cache (PI / IZR verif_lats)
                  (1.0 / IZR hl) uv_aspect_north uv_aspect_south)
               0 (hl - 1))
    as ([m3 o3] & -> & (Hm3 & _) & Gm3);
    [| |intros i [m' o'] Hi ((Hm' & Ho') & Gm'); cbn [fst snd] in *; subst o';
        apply loop_hemi_geom; eassumption|].
  { lia. }
  { cbn [fst snd]. split; [split|].
    - unfold mesh_inv; mesh_simpl.
      repeat (split; [assumption|]). split; [|split; assumption].
      eapply faces_inv_weaken; [exact Hf1|].
      unfold W_hemi, W_poles. intros s j. lia.
    - unfold hemi_off. f_equal; lia.
    - geom_simpl. split; [|split; [|split; [|split]]].
      + eapply grid_inv_weaken; [exact Gv1|].
        unfold Wv_hemi. clear. intros t j Hj. intuition lia.
      + eapply grid_inv_weaken; [exact Gt2|].
        unfold Wt_hemi. clear. intros t j Hj. intuition lia.
      + eapply grid_inv_weaken; [exact Gn1|].
        unfold Wn_hemi. clear. intros t j Hj. intuition lia.
      + eapply grid_inv_weaken; [exact Gvt1|].
        unfold W_hemi. clear. intros t j Hj. intuition lia.
      + eapply grid_inv_weaken; [exact Gvn1|].
        unfold W_hemi. clear. intros t j Hj. intuition lia. }
  cbn [fst snd bind] in *.
  destruct Hm3 as (Hvs3 & Hvts3 & Hvns3 & Hf3 & Hvt3 & Hvn3).
  destruct Gm3 as (Gv3 & Gt3 & Gn3 & Gvt3 & Gvn3).
  (* the rings of the cylinder *)
  assert (Hmid : exists vs4 vts4,
    (if calc_middle
     then to_fac <- fdiv 1.0 (IZR verif_rings_p1) ;;
          ' (vs4, vts4, _, _) <-
            for_each (range 1 verif_rings_p1)
              (loop_rings s_tex_cache to_fac uv_aspect_north uv_aspect_south)
              (vs m3, vts m3, idx_v_cyl, idx_vt_cyl) ;;
          Ok (vs4, vts4)
     else Ok (vs m3, vts m3)) = Ok (vs4, vts4) /\
    (vs_inv vs4 /\ len vts4 = len_vts) /\
    grid_inv 1 L capsule_vertex (Wv_rings (rg + 1) 0) vs4 /\
    grid_inv L (L + 1) capsule_uv (Wt_rings (rg + 1) 0) vts4).
  { unfold calc_middle. destruct (Z.ltb_spec 0 rg) as [Hpos|Hzero].
    - unfold verif_rings_p1.
      rewrite fdiv_ok by (apply not_0_IZR; lia). cbn [bind].
      edestruct (@for_each_range_inv (list vec3 * list vec2 * Z * Z)
                   (fun m st =>
                      let '(v, vt, vo, vto) := st in
                      (vs_inv v /\ len vt = len_vts) /\
                      (vo = idx_v_cyl + (m - 1) * L /\
                       vto = idx_vt_cyl + (m - 1) * (L + 1)) /\
                      grid_inv 1 L capsule_vertex (Wv_rings m 0) v /\
                      grid_inv L (L + 1) capsule_uv (Wt_rings m 0) vt)
                   (loop_rings s_tex_cache (1.0 / IZR (rg + 1))
                      uv_aspect_north uv_aspect_south)
                   1 (rg + 1) (vs m3, vts m3, idx_v_cyl, idx_vt_cyl))
        as ([[[vs4 vts4] vo] vto] & -> & Hl4 & _ & Gv4 & Gt4);
        [| |intros m [[[v' vt'] vo'] vto'] Hm
              ((Hv' & Hvt') & (-> & ->) & Gv' & Gt')|].
      + lia.
      + split; [split; assumption|]. split; [split; lia|]. split.
        * eapply grid_inv_weaken; [exact Gv3|].
          unfold Wv_rings. clear. intros t j Hj. intuition lia.
        * eapply grid_inv_weaken; [exact Gt3|].
          unfold Wt_rings. clear. intros t j Hj. intuition lia.
      + destruct (@loop_rings_geom s_tex_cache m v' vt')
          as (v'' & vt'' & -> & Hl'' & Gv'' & Gt''); try assumption.
        eexists; split; [reflexivity|].
        split; [assumption|]. split; [split; lia|]. split; assumption.
      + cbn [bind]. exists vs4, vts4. auto.
    - exists (vs m3), (vts m3). split; [reflexivity|].
      split; [split; assumption|]. split.
      + eapply grid_inv_weaken; [exact Gv3|].
        unfold Wv_rings. clear - Hzero Hrg. intros t j Hj. intuition lia.
      + eapply grid_inv_weaken; [exact Gt3|].
        unfold Wt_rings. clear - Hzero Hrg. intros t j Hj. intuition lia. }
  destruct Hmid as (vs4 & vts4 & -> & (Hvs4 & Hvts4) & Gv4 & Gt4). cbn [bind].
  (* the quads of the cylinder *)
  unfold verif_rings_p1.
  edestruct (@for_each_range_inv _
               (fun m st => cyl_inv m 0 st /\
                  grid_inv 0 L capsule_vt_face (W_cyl m 0) (snd (fst (fst st))) /\
                  grid_inv 0 L capsule_vn_face (W_cyl m 0) (snd (fst st)))
               loop_cyl
               0 (rg + 1) (v_indices m3, vt_indices m3, vn_indices m3, idx_fs_cyl))
    as ([[[v5 vt5] vn5] o5] & -> & (Hf5 & Hvt5 & Hvn5 & _) & Gvt5 & Gvn5).
  { lia. }
  { cbn [fst snd]. split; [|split].
    - unfold cyl_inv.
      split; [|split; [assumption|split; [assumption|lia]]].
      eapply faces_inv_weaken; [exact Hf3|].
      unfold W_cyl, W_hemi, W_poles. intros s j. lia.
    - eapply grid_inv_weaken; [exact Gvt3|].
      unfold W_cyl. clear. intros t j Hj. intuition lia.
    - eapply grid_inv_weaken; [exact Gvn3|].
      unfold W_cyl. clear. intros t j Hj. intuition lia. }
  { intros m st Hm (Hst & G1 & G2). now apply loop_cyl_geom. }
  cbn [bind fst snd] in *.
  eexists; split; [reflexivity|]. split.
  - unfold mesh_inv; mesh_simpl.
    repeat (split; [assumption|]). split; [|split; assumption].
    eapply faces_inv_weaken; [exact Hf5|].
    unfold W_cyl, W_hemi, W_poles. rewrite ring_count_eq. intros s j. lia.
  - geom_simpl. split; [|split; [|split; [|split]]].
    + eapply grid_inv_weaken; [exact Gv4|].
      unfold Wv_all, Wv_rings, Wv_hemi, Wv_poles. rewrite HK.
      clear - Hhl Hrg HL. intros t j Hj. lia.
    + eapply grid_inv_weaken; [exact Gt4|].
      unfold Wt_all, Wt_rings, Wt_hemi, Wt_equators, Wt_poles. rewrite HK.
      clear - Hhl Hrg HL. intros t j Hj. lia.
    + eapply grid_inv_weaken; [exact Gn3|].
      unfold Wn_all, Wn_hemi, Wn_poles.
      clear - Hhl Hrg HL. intros t j Hj. lia.
    + eapply grid_inv_weaken; [exact Gvt5|].
      unfold Wf_all, W_cyl, W_hemi, W_poles. rewrite HK.
      clear - Hhl Hrg HL. intros t j Hj. lia.
    + eapply grid_inv_weaken; [exact Gvn5|].
      unfold Wf_all, W_cyl, W_hemi, W_poles. rewrite HK.
      clear - Hhl Hrg HL. intros t j Hj. lia.
Qed.

(** *** What the builder returns *)

Lemma capsule_faces_table : capsule_faces L K = table face_row L 0 (K + 1).
Proof. reflexivity. Qed.

(** The vertex face list is the closed form, face by face. *)
Lemma faces_inv_all l :
  faces_inv (fun s _ => 0 <= s <= K) l -> l = capsule_faces L K.
Proof.
  intros (Hl & HW). pose proof verif_lons_ge as HL.
  assert (HK : 2 <= K) by idx_arith.
  assert (Hlen : len (capsule_faces L K) = len_indices).
  { rewrite capsule_faces_table, len_table by lia. idx_arith. }
  apply zth_ext; [congruence|].
  intros k Hk. rewrite Hl in Hk.
  assert (Hk' : 0 <= k < (K + 1) * L) by (revert Hk; idx_arith).
  pose proof (Z.div_mod k L ltac:(lia)) as Hdm.
  pose proof (Z.mod_pos_bound k L ltac:(lia)) as Hmod.
  assert (Hdiv : 0 <= k / L < K + 1).
  { split; [apply Z.div_pos; lia|apply Z.div_lt_upper_bound; lia]. }
  replace k with (k / L * L + k mod L) by lia.
  rewrite HW by lia.
  rewrite capsule_faces_table.
  replace (k / L * L + k mod L) with ((k / L - 0) * L + k mod L) by lia.
  now rewrite zth_table by lia.
Qed.

(** The builder returns; its buffers have the lengths it computed, the
    vertex faces are the closed form, the texture and normal faces index
    into their buffers, the poles are in place, and the normals past the
    south pole's are as allocated. *)
Lemma create_capsule_data_spec :
  exists m,
    create_capsule_data = Ok m /\
    (len (vs m) = len_vs /\ len (vts m) = len_vts /\ len (vns m) = len_vns) /\
    (len (v_indices m) = len_indices /\ len (vt_indices m) = len_indices /\
     len (vn_indices m) = len_indices) /\
    v_indices m = capsule_faces L K /\
    Forall (valid_face len_vts) (vt_indices m) /\
    Forall (valid_face len_vns) (vn_indices m) /\
    zth (vs m) 0 = Some (0.0, 0.0, summit)%R /\
    zth (vs m) idx_v_south_pole = Some (0.0, 0.0, - summit)%R /\
    (forall k, idx_vn_south_pole < k < len_vns ->
               zth (vns m) k = Some (0.0, 0.0, 1.0)%R).
Proof.
  destruct create_capsule_data_ok
    as (m & E & (Hvs & Hn & Hs) & Hvts & (Hvns & Hpast) & Hf & (Hvt & Hvtv)
        & (Hvn & Hvnv)).
  exists m. pose proof Hf as (Hfl & _). apply faces_inv_all in Hf.
  repeat (split; [first [assumption | tauto]|]). assumption.
Qed.

(** The lengths the builder computes, by the clamped parameters. *)
Lemma len_vs_formula : len_vs = 2 + L * (verif_lats + rg).
Proof. rewrite verif_lats_even, len_vs_eq. lia. Qed.

Lemma len_vts_formula : len_vts = 2 * L + (L + 1) * (verif_lats + rg).
Proof. rewrite verif_lats_even, len_vts_eq. lia. Qed.

Lemma len_vns_formula : len_vns = 2 + L * (verif_lats - 1) + (L - 1).
Proof. rewrite verif_lats_even, len_vns_eq. lia. Qed.

Lemma len_indices_formula : len_indices = L * (verif_lats + rg + 1).
Proof. rewrite verif_lats_even, len_indices_eq. lia. Qed.

Lemma idx_vn_south_pole_formula :
  idx_vn_south_pole = 1 + L * (verif_lats - 1).
Proof. rewrite verif_lats_even, idx_vn_south_pole_eq. lia. Qed.

Lemma ring_count_ge : 2 <= K.
Proof.
  unfold ring_count. pose proof half_lats_ge. pose proof verif_rings_ge.
  pose proof verif_lats_even. lia.
Qed.

(** *** The geometry of what the builder returns *)

Local Abbreviation vertex_index := (vertex_index L K).
Local Abbreviation on_surface := (on_surface L K).
Local Abbreviation surface_face := (surface_face L K).
Local Abbreviation normal_index := (normal_index longitudes latitudes rings).
Local Abbreviation vertex_point :=
  (vertex_point longitudes latitudes rings depth radius).
Local Abbreviation vertex_normal :=
  (vertex_normal longitudes latitudes rings).
Local Abbreviation surface_uv_face := (surface_uv_face latitudes rings).
Local Abbreviation uv_index := (uv_index longitudes).
Local Abbreviation vertex_buffer :=
  (vertex_buffer longitudes latitudes rings depth radius).
Local Abbreviation uv_buffer :=
  (uv_buffer longitudes latitudes rings depth radius uv_profile).
Local Abbreviation normal_buffer := (normal_buffer longitudes latitudes).
Local Abbreviation capsule_mesh :=
  (capsule_mesh longitudes latitudes rings depth radius uv_profile).
Local Abbreviation capsule_values :=
  (capsule_values longitudes latitudes rings depth radius uv_profile).

Local Open Scope R_scope.

Lemma triple_eq (a b c a' b' c' : R) :
  a = a' -> b = b' -> c = c' -> (a, b, c) = (a', b', c').
Proof. now intros -> -> ->. Qed.

Lemma sin_cos_sqr x : sin x * sin x + cos x * cos x = 1.
Proof. pose proof (sin2_cos2 x) as H. unfold Rsqr in H. exact H. Qed.

Lemma ratio_bounds a b : 0 <= a <= b -> 0 < b -> 0 <= a * (1.0 / b) <= 1.
Proof.
  intros Ha Hb.
  assert (Hi : 0 < / b) by (apply Rinv_0_lt_compat; lra).
  assert (Hr : b * / b = 1) by (apply Rinv_r; lra).
  replace (a * (1.0 / b)) with (a * / b) by (unfold Rdiv; lra).
  split; nra.
Qed.

Lemma ratio_bounds_strict a b : 0 < a < b -> 0 < a * (1.0 / b) < 1.
Proof.
  intros Ha.
  assert (Hi : 0 < / b) by (apply Rinv_0_lt_compat; lra).
  assert (Hr : b * / b = 1) by (apply Rinv_r; lra).
  replace (a * (1.0 / b)) with (a * / b) by (unfold Rdiv; lra).
  split; nra.
Qed.

(** The clamped parameters as real numbers. *)
Lemma half_depth_pos : 0.0001 <= half_depth.
Proof. pose proof verif_depth_pos. unfold half_depth. lra. Qed.

Lemma IZR_lons_pos : 3 <= IZR L.
Proof. apply IZR_le. apply verif_lons_ge. Qed.

Lemma IZR_half_lats_pos : 1 <= IZR hl.
Proof. apply IZR_le. apply half_lats_ge. Qed.

Lemma IZR_succ_fraction i n :
  (0 <= i < n - 1)%Z -> 0 < IZR i + 1.0 < IZR n.
Proof.
  intros Hi.
  assert (H1 : IZR 0 <= IZR i) by (apply IZR_le; lia).
  assert (H2 : IZR (i + 1) < IZR n) by (apply IZR_lt; lia).
  rewrite plus_IZR in H2. lra.
Qed.

Lemma phi_range i : (0 <= i < hl - 1)%Z -> 0 < phi i < PI / 2.
Proof.
  intros Hi. pose proof (@IZR_succ_fraction i hl Hi) as Ha.
  pose proof (@ratio_bounds_strict _ _ Ha) as Hq.
  pose proof PI_RGT_0 as Hpi.
  assert (E : phi i = (IZR i + 1.0) * (1.0 / IZR hl) * (PI / 2)).
  { unfold phi. rewrite verif_lats_even, mult_IZR.
    generalize (IZR i + 1.0). intros a.
    replace 1.0 with 1 by lra. field. lra. }
  rewrite E. nra.
Qed.

Lemma sin_phi_pos i : (0 <= i < hl - 1)%Z -> 0 < sin (phi i).
Proof.
  intros Hi. pose proof (@phi_range i Hi). pose proof PI_RGT_0.
  apply sin_gt_0; lra.
Qed.

Lemma cos_phi_pos i : (0 <= i < hl - 1)%Z -> 0 < cos (phi i).
Proof.
  intros Hi. pose proof (@phi_range i Hi). pose proof PI_RGT_0.
  apply cos_gt_0; lra.
Qed.

Lemma fac_range m : (1 <= m <= rg)%Z -> 0 < fac_of m < 1.
Proof.
  intros Hm. unfold fac_of. apply ratio_bounds_strict.
  assert (H1 : IZR 1 <= IZR m) by (apply IZR_le; lia).
  assert (H2 : IZR m < IZR (rg + 1)) by (apply IZR_lt; lia).
  lra.
Qed.

Lemma t_tex_fac_range i : (0 <= i < hl - 1)%Z -> 0 < t_tex_fac_of i < 1.
Proof.
  intros Hi. unfold t_tex_fac_of. apply ratio_bounds_strict.
  now apply IZR_succ_fraction.
Qed.

Lemma s_tex_range j : (0 <= j <= L)%Z -> 0 <= s_tex_of j <= 1.
Proof.
  intros Hj. unfold s_tex_of. apply ratio_bounds.
  - split; [apply (IZR_le 0)|apply IZR_le]; lia.
  - pose proof IZR_lons_pos. lra.
Qed.

Lemma cap_tex_range j :
  (0 <= j < L)%Z -> 0 <= (IZR j + 0.5) * (1.0 / IZR L) <= 1.
Proof.
  intros Hj. apply ratio_bounds.
  - assert (H1 : IZR 0 <= IZR j) by (apply IZR_le; lia).
    assert (H2 : IZR (j + 1) <= IZR L) by (apply IZR_le; lia).
    rewrite plus_IZR in H2. lra.
  - pose proof IZR_lons_pos. lra.
Qed.

(** The V coordinate of the south equator is at most one half, whatever
    the profile: the bands of the two hemispheres do not overlap. *)
Lemma uv_aspect_south_range : 0 < uv_aspect_south <= 1 / 2.
Proof.
  unfold uv_aspect_south.
  pose proof verif_rad_pos as Hr. pose proof verif_depth_pos as Hd.
  destruct (String.eqb uv_profile "ASPECT").
  - assert (Hs : 0 < verif_depth + 2.0 * verif_rad) by lra.
    assert (Hi : 0 < / (verif_depth + 2.0 * verif_rad))
      by (apply Rinv_0_lt_compat; lra).
    assert (Hm : (verif_depth + 2.0 * verif_rad) *
                 / (verif_depth + 2.0 * verif_rad) = 1)
      by (apply Rinv_r; lra).
    unfold Rdiv. split; nra.
  - destruct (String.eqb uv_profile "UNIFORM"); [|lra].
    pose proof IZR_half_lats_pos as Hh.
    assert (Hg : 0 <= IZR rg) by (apply (IZR_le 0); apply verif_rings_ge).
    rewrite verif_lats_even, !plus_IZR, mult_IZR.
    assert (Hs : 0 < IZR rg + 1 + 2 * IZR hl) by lra.
    assert (Hi : 0 < / (IZR rg + 1 + 2 * IZR hl))
      by (apply Rinv_0_lt_compat; lra).
    assert (Hm : (IZR rg + 1 + 2 * IZR hl) * / (IZR rg + 1 + 2 * IZR hl) = 1)
      by (apply Rinv_r; lra).
    unfold Rdiv. split; nra.
Qed.

Lemma uv_aspect_north_range : 1 / 2 <= uv_aspect_north < 1.
Proof. pose proof uv_aspect_south_range. unfold uv_aspect_north. lra. Qed.

Local Close Scope R_scope.

(** The rows of the vertex buffer by their kind, and the row of normals
    of each. *)
Lemma ring_cases t :
  0 <= t < K ->
  0 <= t < hl - 1 \/ t = hl - 1 \/ (exists m, 1 <= m <= rg /\ t = hl + m - 1) \/
  t = hl + rg \/ (exists i, 0 <= i < hl - 1 /\ t = hl + rg + 1 + i).
Proof.
  intros Ht. pose proof ring_count_eq.
  destruct (Z.lt_ge_cases t (hl - 1)); [lia|].
  destruct (Z.eq_dec t (hl - 1)); [lia|].
  destruct (Z.lt_ge_cases t (hl + rg)).
  { right. right. left. exists (t - hl + 1). lia. }
  destruct (Z.eq_dec t (hl + rg)); [lia|].
  right. right. right. right. exists (t - hl - rg - 1). lia.
Qed.

Lemma normal_row_north t : t < hl -> normal_row t = t.
Proof.
  intros Ht. unfold normal_row. destruct (Z.ltb_spec t hl); [reflexivity|lia].
Qed.

Lemma normal_row_cyl m : 1 <= m <= rg -> normal_row (hl + m - 1) = hl - 1.
Proof.
  intros Hm. unfold normal_row.
  destruct (Z.ltb_spec (hl + m - 1) hl); [lia|].
  destruct (Z.ltb_spec (hl + m - 1) (hl + rg)); [reflexivity|lia].
Qed.

Lemma normal_row_south t : hl + rg <= t -> normal_row t = t - rg - 1.
Proof.
  intros Ht. pose proof verif_rings_ge. unfold normal_row.
  destruct (Z.ltb_spec t hl); [lia|].
  destruct (Z.ltb_spec t (hl + rg)); [lia|reflexivity].
Qed.

Lemma normal_row_range t : 0 <= t < K -> 0 <= normal_row t < 2 * hl - 1.
Proof.
  intros Ht. pose proof ring_count_eq. pose proof half_lats_ge.
  pose proof verif_rings_ge. unfold normal_row.
  destruct (Z.ltb_spec t hl); [lia|].
  destruct (Z.ltb_spec t (hl + rg)); lia.
Qed.

Local Open Scope R_scope.

(** *** Outward normals *)

Lemma outward_north r h sp cp st ct :
  st * st + ct * ct = 1 -> sp * sp + cp * cp = 1 -> 0 <= cp -> 0 <= h ->
  outward_normal r h (r * sp * ct, r * sp * st, h - r * - cp)
    (sp * ct, sp * st, - - cp).
Proof.
  intros Ht Hp Hc Hh. split.
  - unfold dot.
    transitivity (sp * sp * (st * st + ct * ct) + cp * cp); [ring|].
    rewrite Ht. lra.
  - exists h. split; [lra|]. split; [|cbn [snd]; split; lra].
    unfold vadd, vscale. apply triple_eq; ring.
Qed.

Lemma outward_south r h sp cp st ct :
  st * st + ct * ct = 1 -> sp * sp + cp * cp = 1 -> 0 <= sp -> 0 <= h ->
  outward_normal r h (r * cp * ct, r * cp * st, - h - r * sp)
    (cp * ct, cp * st, - sp).
Proof.
  intros Ht Hp Hs Hh. split.
  - unfold dot.
    transitivity (cp * cp * (st * st + ct * ct) + sp * sp); [ring|].
    rewrite Ht. lra.
  - exists (- h). split; [lra|]. split; [|cbn [snd]; split; lra].
    unfold vadd, vscale. apply triple_eq; ring.
Qed.

Lemma outward_side r h st ct x y z :
  st * st + ct * ct = 1 -> - h <= z <= h -> x = r * ct -> y = r * st ->
  outward_normal r h (x, y, z) (ct, st, 0).
Proof.
  intros Ht Hz -> ->. split.
  - unfold dot. lra.
  - exists z. split; [lra|]. split; [|cbn [snd]; split; lra].
    unfold vadd, vscale. apply triple_eq; ring.
Qed.

Lemma outward_pole r h s :
  0 <= h -> s * s = 1 ->
  outward_normal r h (0.0, 0.0, s * (h + r)) (0.0, 0.0, s).
Proof.
  intros Hh Hs. split.
  - unfold dot. lra.
  - exists (s * h). split; [nra|]. split.
    + unfold vadd, vscale. apply triple_eq; lra.
    + cbn [snd]. split; intros Hc; nra.
Qed.

(** A point with an outward normal lies on the capsule, within its
    extent. *)
Lemma outward_on_capsule r h p n :
  0 <= r -> 0 <= h -> outward_normal r h p n ->
  on_capsule r h p /\
  - (h + r) <= snd p <= h + r /\
  fst (fst p) * fst (fst p) + snd (fst p) * snd (fst p) <= r * r.
Proof.
  intros Hr Hh (Hn & c & Hc & -> & Hlo & Hhi).
  destruct n as [[n0 n1] n2]. unfold dot in Hn. cbn [snd fst] in *.
  unfold vadd, vscale. cbn [fst snd].
  assert (Hn2 : -1 <= n2 <= 1) by nra.
  assert (Hxy : n0 * n0 + n1 * n1 <= 1) by nra.
  split; [|split; [nra|nra]].
  unfold on_capsule, axis_foot. cbn [snd]. cbv zeta.
  assert (Hfoot : Rmax (- h) (Rmin h (c + n2 * r)) = c).
  { unfold Rmax, Rmin.
    destruct (Rle_dec h (c + n2 * r)) as [H1|H1].
    - destruct (Rle_dec (- h) h); [|lra].
      destruct (Rlt_dec c h) as [H2|H2]; [|lra].
      specialize (Hlo H2). nra.
    - destruct (Rle_dec (- h) (c + n2 * r)) as [H2|H2].
      + destruct (Rlt_dec (- h) c) as [H3|H3].
        * specialize (Hhi H3).
          destruct (Rlt_dec c h) as [H4|H4]; [specialize (Hlo H4); nra|].
          nra.
        * assert (c = - h) by lra. subst c.
          destruct (Rlt_dec (- h) h) as [H4|H4].
          -- specialize (Hlo H4). nra.
          -- lra.
      + destruct (Rlt_dec (- h) c) as [H3|H3]; [specialize (Hhi H3); nra|].
        lra. }
  rewrite Hfoot. unfold vsub, dot.
  transitivity (r * r * (n0 * n0 + n1 * n1 + n2 * n2)); [ring|].
  rewrite Hn. ring.
Qed.

Local Close Scope R_scope.

Local Open Scope R_scope.

(** The normal the faces use at a vertex is the outward unit normal of
    the capsule at the coordinates of the vertex. *)
Lemma vertex_outward v :
  on_surface v ->
  outward_normal verif_rad half_depth (vertex_point v) (vertex_normal v).
Proof.
  pose proof verif_rad_pos as Hr. pose proof half_depth_pos as Hh.
  destruct v as [|t j|]; cbn [on_surface vertex_point vertex_normal
                                ring_vertex ring_normal].
  - intros _. unfold summit.
    replace (half_depth + verif_rad) with (1.0 * (half_depth + verif_rad))
      by lra.
    apply outward_pole; lra.
  - intros (Ht & Hj). unfold capsule_vertex, capsule_normal.
    pose proof (sin_cos_sqr (theta j)) as Hth.
    destruct (ring_cases Ht)
      as [Hn|[->|[(m & Hm & ->)|[->|(i & Hi & ->)]]]].
    + rewrite normal_row_north, ring_kind_north, normal_kind_north by lia.
      cbn [ring_vertex ring_normal].
      apply outward_north; try assumption; try lra.
      * apply sin_cos_sqr.
      * pose proof (@cos_phi_pos t Hn). lra.
    + rewrite normal_row_north, ring_kind_north_equator, normal_kind_equator
        by lia.
      cbn [ring_vertex ring_normal].
      apply outward_side; try assumption; try reflexivity. lra.
    + rewrite normal_row_cyl, ring_kind_cyl, normal_kind_equator by lia.
      cbn [ring_vertex ring_normal].
      pose proof (@fac_range m Hm) as Hf.
      apply outward_side; try assumption; [nra|lra|lra].
    + rewrite normal_row_south, ring_kind_south_equator by lia.
      replace (hl + rg - rg - 1)%Z with (hl - 1)%Z by lia.
      rewrite normal_kind_equator.
      cbn [ring_vertex ring_normal].
      apply outward_side; try assumption; try reflexivity. lra.
    + rewrite normal_row_south, ring_kind_south by lia.
      replace (hl + rg + 1 + i - rg - 1)%Z with (hl + i)%Z by lia.
      rewrite normal_kind_south by lia.
      cbn [ring_vertex ring_normal].
      apply outward_south; try assumption; try lra.
      * apply sin_cos_sqr.
      * pose proof (@sin_phi_pos i Hi). lra.
  - intros _. unfold summit.
    replace (- (half_depth + verif_rad))
      with (- 1.0 * (half_depth + verif_rad)) by lra.
    apply outward_pole; lra.
Qed.

Local Close Scope R_scope.

(** *** The buffers as a whole *)

(** A buffer all of whose rows hold the closed form is the table of the
    closed form. *)
Lemma grid_inv_table {A : Type} (g : Z -> Z -> A) n b l :
  0 < n -> 0 <= b -> len l = b * n ->
  grid_inv 0 n g (fun s _ => 0 <= s < b) l ->
  l = table g n 0 b.
Proof.
  intros Hn Hb Hl HW.
  apply zth_ext; [rewrite len_table by lia; lia|].
  intros k Hk. rewrite Hl in Hk.
  pose proof (Z.div_mod k n ltac:(lia)) as Hdm.
  pose proof (Z.mod_pos_bound k n ltac:(lia)) as Hmod.
  assert (Hdiv : 0 <= k / n < b).
  { split; [apply Z.div_pos; lia|apply Z.div_lt_upper_bound; lia]. }
  assert (E1 : zth l k = Some (g (k / n) (k mod n))).
  { replace k with (0 + k / n * n + k mod n) at 1 by lia. apply HW; lia. }
  assert (E2 : zth (table g n 0 b) k = Some (g (k / n) (k mod n))).
  { replace k with ((k / n - 0) * n + k mod n) at 1 by lia.
    apply zth_table; lia. }
  congruence.
Qed.

(** The place of an entry of a table. *)
Lemma zth_table_inv {A : Type} (g : Z -> Z -> A) n b k x :
  0 < n -> 0 <= b ->
  zth (table g n 0 b) k = Some x ->
  exists s j, 0 <= s < b /\ 0 <= j < n /\ k = s * n + j /\ x = g s j.
Proof.
  intros Hn Hb E. pose proof (zth_Some_lt _ _ E) as Hk.
  rewrite len_table in Hk by lia.
  pose proof (Z.div_mod k n ltac:(lia)) as Hdm.
  pose proof (Z.mod_pos_bound k n ltac:(lia)) as Hmod.
  assert (Hdiv : 0 <= k / n < b).
  { split; [apply Z.div_pos; lia|apply Z.div_lt_upper_bound; lia]. }
  exists (k / n), (k mod n). repeat (split; [lia|]).
  replace k with ((k / n - 0) * n + k mod n) in E at 1 by lia.
  rewrite zth_table in E by lia. congruence.
Qed.

Lemma create_capsule_data_values :
  exists m, create_capsule_data = Ok m /\ capsule_values m.
Proof.
  destruct create_capsule_data_geom
    as (m & E & ((Hvs & _) & Hvts & (Hvns & Hpast) & Hf & (Hvt & _) & (Hvn & _))
        & Gv & Gt & Gn & Gvt & Gvn).
  exists m. split; [exact E|].
  pose proof verif_lons_ge as HL. pose proof ring_count_ge as HK.
  assert (Hlen : len_indices = (K + 1) * L) by idx_arith.
  unfold capsule_values.
  split; [auto|]. split; [|auto].
  split; [|split].
  - apply faces_inv_all in Hf. rewrite Hf. apply capsule_faces_table.
  - apply grid_inv_table; try lia.
    eapply grid_inv_weaken; [exact Gvt|]. unfold Wf_all. intros t j. lia.
  - apply grid_inv_table; try lia.
    eapply grid_inv_weaken; [exact Gvn|]. unfold Wf_all. intros t j. lia.
Qed.

(** *** The entries at the corners of the faces *)

Lemma Forall2_map_same {A B C : Type} (R : B -> C -> Prop)
    (f : A -> B) (g : A -> C) (l : list A) :
  Forall (fun x => R (f x) (g x)) l -> Forall2 R (map f l) (map g l).
Proof. induction 1; simpl; constructor; auto. Qed.

Lemma Forall2_map_both {A B C D : Type} (R : C -> D -> Prop)
    (f : A -> C) (g : B -> D) (l1 : list A) (l2 : list B) :
  Forall2 (fun x y => R (f x) (g y)) l1 l2 -> Forall2 R (map f l1) (map g l2).
Proof. induction 1; simpl; constructor; auto. Qed.

Lemma Forall_zth {A : Type} (P : A -> Prop) (l : list A) :
  (forall k x, zth l k = Some x -> P x) -> Forall P l.
Proof.
  intros H. apply Forall_forall. intros x Hx.
  apply In_nth_error in Hx. destruct Hx as (n & Hn).
  apply (H (Z.of_nat n)). unfold zth.
  destruct (Z.ltb_spec (Z.of_nat n) 0); [lia|]. now rewrite Nat2Z.id.
Qed.

(** Every index of the vertex buffer is the index of a vertex of the
    surface. *)
Lemma vertex_of_index k :
  0 <= k < 2 + K * L -> exists v, on_surface v /\ vertex_index v = k.
Proof.
  intros Hk. pose proof verif_lons_ge as HL. pose proof ring_count_ge as HK.
  destruct (Z.eq_dec k 0) as [->|H0]; [exists NorthPole; split; now cbn|].
  destruct (Z.eq_dec k (1 + K * L)) as [->|H1];
    [exists SouthPole; split; now cbn|].
  pose proof (Z.div_mod (k - 1) L ltac:(lia)) as Hdm.
  pose proof (Z.mod_pos_bound (k - 1) L ltac:(lia)) as Hmod.
  assert (Hdiv : 0 <= (k - 1) / L < K).
  { split; [apply Z.div_pos; lia|apply Z.div_lt_upper_bound; lia]. }
  exists (Ring ((k - 1) / L) ((k - 1) mod L)).
  cbn [on_surface vertex_index]. split; [lia|lia].
Qed.

Lemma capsule_vn_face_surface s j :
  0 <= s <= K -> capsule_vn_face s j = map normal_index (surface_face s j).
Proof.
  intros Hs. pose proof ring_count_eq. pose proof half_lats_ge.
  pose proof verif_rings_ge.
  unfold capsule_vn_face, surface_face. cbv zeta.
  destruct (Z.eqb_spec s 0) as [->|Hs0]; [|destruct (Z.ltb_spec s K)];
    cbn [map normal_index].
  - rewrite normal_row_north by lia.
    repeat (apply (f_equal2 cons); [lia|]). reflexivity.
  - reflexivity.
  - rewrite normal_row_south by lia.
    repeat (apply (f_equal2 cons); [nia|]). reflexivity.
Qed.

Lemma capsule_vt_face_surface s j :
  capsule_vt_face s j = map uv_index (surface_uv_face s j).
Proof.
  unfold capsule_vt_face, surface_uv_face.
  destruct (s =? 0); [|destruct (s <? K)];
    cbn [map]; unfold uv_index, uv_row; cbn [fst snd].
  all: repeat (apply (f_equal2 cons); [lia|]); reflexivity.
Qed.

Section values.

Variable m : mesh.
Hypothesis Hm : capsule_values m.

Lemma vs_at v :
  on_surface v -> zth (vs m) (vertex_index v) = Some (vertex_point v).
Proof.
  destruct Hm as (_ & _ & Gv & _). pose proof verif_lons_ge as HL.
  pose proof ring_count_ge as HK.
  destruct v as [|t j|]; cbn [on_surface vertex_index vertex_point].
  - intros _. replace 0 with (1 + -1 * L + (L - 1)) at 1 by lia.
    rewrite Gv by (unfold Wv_all; lia).
    unfold capsule_vertex. now rewrite ring_kind_north_cap.
  - intros (Ht & Hj). apply Gv; [lia|]. unfold Wv_all. lia.
  - intros _. replace (1 + K * L) with (1 + K * L + 0) by lia.
    rewrite Gv by (unfold Wv_all; lia).
    unfold capsule_vertex. now rewrite ring_kind_south_cap.
Qed.

Lemma vns_at v :
  on_surface v -> zth (vns m) (normal_index v) = Some (vertex_normal v).
Proof.
  destruct Hm as (_ & _ & _ & _ & Gn & _). pose proof verif_lons_ge as HL.
  pose proof half_lats_ge as Hhl.
  destruct v as [|t j|]; cbn [on_surface normal_index vertex_normal].
  - intros _. replace 0 with (1 + -1 * L + (L - 1)) at 1 by lia.
    rewrite Gn by (unfold Wn_all; lia).
    unfold capsule_normal. now rewrite normal_kind_north_cap.
  - intros (Ht & Hj). pose proof (normal_row_range Ht).
    apply Gn; [lia|]. unfold Wn_all. lia.
  - intros _.
    replace (1 + (2 * hl - 1) * L) with (1 + (2 * hl - 1) * L + 0) by lia.
    rewrite Gn by (unfold Wn_all; lia).
    unfold capsule_normal. now rewrite normal_kind_south_cap.
Qed.

Lemma vts_at tc :
  Wt_all (fst tc) (snd tc) -> 0 <= snd tc <= L ->
  zth (vts m) (uv_index tc) = Some (capsule_uv (fst tc) (snd tc)).
Proof.
  destruct Hm as (_ & _ & _ & Gt & _).
  intros HW Hc. unfold uv_index, uv_row. apply Gt; [lia|assumption].
Qed.

(** The faces a position holds. *)
Lemma faces_at f vf :
  zth (v_indices m) f = Some vf ->
  exists s j, 0 <= s <= K /\ 0 <= j < L /\ f = s * L + j /\
              vf = map vertex_index (surface_face s j).
Proof.
  destruct Hm as (_ & (Hv & _) & _). pose proof verif_lons_ge as HL.
  pose proof ring_count_ge as HK.
  rewrite Hv. intros E. apply zth_table_inv in E; try lia.
  destruct E as (s & j & Hs & Hj & -> & ->).
  exists s, j. rewrite capsule_face_surface. repeat split; lia.
Qed.

Lemma vn_faces_at s j :
  0 <= s <= K -> 0 <= j < L ->
  zth (vn_indices m) (s * L + j) = Some (map normal_index (surface_face s j)).
Proof.
  destruct Hm as (_ & (_ & _ & Hvn) & _).
  intros Hs Hj. rewrite Hvn.
  replace (s * L + j) with ((s - 0) * L + j) by lia.
  rewrite zth_table by lia. now rewrite capsule_vn_face_surface.
Qed.

Lemma vt_faces_at s j :
  0 <= s <= K -> 0 <= j < L ->
  zth (vt_indices m) (s * L + j) = Some (map uv_index (surface_uv_face s j)).
Proof.
  destruct Hm as (_ & (_ & Hvt & _) & _).
  intros Hs Hj. rewrite Hvt.
  replace (s * L + j) with ((s - 0) * L + j) by lia.
  rewrite zth_table by lia. now rewrite capsule_vt_face_surface.
Qed.

(** At every corner of every face, the normal is the outward unit normal
    of the capsule at the vertex. *)
Lemma corner_normals f vf nf :
  zth (v_indices m) f = Some vf -> zth (vn_indices m) f = Some nf ->
  Forall2 (fun iv inn =>
             exists p n, zth (vs m) iv = Some p /\ zth (vns m) inn = Some n /\
                         outward_normal verif_rad half_depth p n) vf nf.
Proof.
  intros Ev En. destruct (@faces_at f vf Ev) as (s & j & Hs & Hj & -> & ->).
  rewrite vn_faces_at in En by assumption.
  apply Some_inj in En. subst nf.
  apply Forall2_map_same.
  eapply Forall_impl;
    [|apply (surface_face_on_surface verif_lons_ge ring_count_ge Hs Hj)].
  intros v Hv. exists (vertex_point v), (vertex_normal v).
  split; [now apply vs_at|]. split; [now apply vns_at|].
  now apply vertex_outward.
Qed.

(** Every vertex lies on the capsule, within its extent. *)
Lemma vertices_on_capsule :
  Forall (fun p =>
            on_capsule verif_rad half_depth p /\
            (- summit <= snd p <= summit)%R /\
            (fst (fst p) * fst (fst p) + snd (fst p) * snd (fst p) <=
             verif_rad * verif_rad)%R) (vs m).
Proof.
  pose proof verif_rad_pos as Hr. pose proof half_depth_pos as Hh.
  apply Forall_zth. intros k p Ek.
  pose proof (zth_Some_lt _ _ Ek) as Hk.
  destruct Hm as ((Hl & _) & _). rewrite Hl, len_vs_eq in Hk.
  destruct (@vertex_of_index k) as (v & Hv & <-).
  { rewrite ring_count_eq. lia. }
  rewrite vs_at in Ek by assumption. apply Some_inj in Ek. subst p.
  unfold summit.
  apply (@outward_on_capsule verif_rad half_depth _ (vertex_normal v));
    [lra|lra|].
  now apply vertex_outward.
Qed.

End values.

(** *** Texture coordinates *)

Local Open Scope R_scope.

(** The azimuth of a column of vertices is the U coordinate of the column
    of texture coordinates it goes with, as a fraction of the full turn:
    the column after the last one is the first one, a full turn on. *)
Lemma azimuth c j :
  (0 <= c <= L)%Z -> j = (c mod L)%Z ->
  cos (theta j) = cos (2 * PI * s_tex_of c) /\
  sin (theta j) = sin (2 * PI * s_tex_of c).
Proof.
  intros Hc ->. pose proof IZR_lons_pos as HL.
  destruct (Z.eq_dec c L) as [->|Hne].
  - rewrite Z_mod_same_full. unfold theta, s_tex_of.
    replace (0 * (2 * PI / IZR L)) with 0 by lra.
    replace (2 * PI * (IZR L * (1.0 / IZR L))) with (2 * PI)
      by (replace 1.0 with 1 by lra; field; lra).
    rewrite cos_0, sin_0, cos_2PI, sin_2PI. split; reflexivity.
  - rewrite Z.mod_small by lia. unfold theta, s_tex_of.
    replace (2 * PI * (IZR c * (1.0 / IZR L))) with (IZR c * (2 * PI / IZR L))
      by (replace 1.0 with 1 by lra; field; lra).
    split; reflexivity.
Qed.

Lemma uv_fits_intro h vn vs rho th x y z u v :
  0 <= rho ->
  cos th = cos (2 * PI * u) /\ sin th = sin (2 * PI * u) ->
  x = rho * cos th -> y = rho * sin th ->
  (h <= z -> vn <= v <= 1) ->
  (- h <= z <= h -> vs <= v <= vn) ->
  (z <= - h -> 0 <= v <= vs) ->
  uv_fits h vn vs (x, y, z) (u, v).
Proof.
  intros Hrho (Hc & Hs) -> -> H1 H2 H3. unfold uv_fits. cbn [fst snd].
  split; [|auto]. exists rho. rewrite <- Hc, <- Hs. auto.
Qed.

(** The texture coordinate of column [c] of a row fits the vertex of the
    column of that row that it goes with. *)
Lemma uv_fits_ring t c j :
  (0 <= t < K)%Z -> (0 <= c <= L)%Z -> j = (c mod L)%Z ->
  uv_fits half_depth uv_aspect_north uv_aspect_south
    (capsule_vertex t j) (capsule_uv t c).
Proof.
  intros Ht Hc Hj.
  pose proof verif_rad_pos as Hr. pose proof half_depth_pos as Hh.
  pose proof uv_aspect_south_range as Hvs.
  pose proof uv_aspect_north_range as Hvn.
  pose proof (azimuth Hc Hj) as Haz.
  unfold capsule_vertex, capsule_uv.
  destruct (ring_cases Ht)
    as [Hn|[->|[(m & Hm & ->)|[->|(i & Hi & ->)]]]].
  - rewrite ring_kind_north by lia. cbn [ring_vertex ring_uv].
    pose proof (@sin_phi_pos t Hn). pose proof (@cos_phi_pos t Hn).
    pose proof (@t_tex_fac_range t Hn).
    apply uv_fits_intro with (rho := verif_rad * sin (phi t)) (th := theta j);
      try assumption; try reflexivity; try nra.
  - rewrite ring_kind_north_equator. cbn [ring_vertex ring_uv].
    apply uv_fits_intro with (rho := verif_rad) (th := theta j);
      try assumption; try reflexivity; try lra.
  - rewrite ring_kind_cyl by lia. cbn [ring_vertex ring_uv].
    pose proof (@fac_range m Hm).
    apply uv_fits_intro with (rho := verif_rad) (th := theta j);
      try assumption; try nra.
  - rewrite ring_kind_south_equator. cbn [ring_vertex ring_uv].
    apply uv_fits_intro with (rho := verif_rad) (th := theta j);
      try assumption; try reflexivity; try lra.
  - rewrite ring_kind_south by lia. cbn [ring_vertex ring_uv].
    pose proof (@sin_phi_pos i Hi). pose proof (@cos_phi_pos i Hi).
    pose proof (@t_tex_fac_range i Hi).
    apply uv_fits_intro with (rho := verif_rad * cos (phi i)) (th := theta j);
      try assumption; try reflexivity; try nra.
Qed.

Lemma uv_fits_north_pole c :
  uv_fits half_depth uv_aspect_north uv_aspect_south
    (vertex_point NorthPole) (capsule_uv (-1) c).
Proof.
  pose proof verif_rad_pos as Hr. pose proof half_depth_pos as Hh.
  pose proof uv_aspect_north_range as Hvn.
  unfold capsule_uv. rewrite ring_kind_north_cap.
  cbn [vertex_point ring_vertex ring_uv]. unfold uv_fits, summit.
  cbn [fst snd]. split; [exists 0; lra|]. split; [|split]; lra.
Qed.

Lemma uv_fits_south_pole c :
  uv_fits half_depth uv_aspect_north uv_aspect_south
    (vertex_point SouthPole) (capsule_uv K c).
Proof.
  pose proof verif_rad_pos as Hr. pose proof half_depth_pos as Hh.
  pose proof uv_aspect_south_range as Hvs.
  unfold capsule_uv. rewrite ring_kind_south_cap.
  cbn [vertex_point ring_vertex ring_uv]. unfold uv_fits, summit.
  cbn [fst snd]. split; [exists 0; lra|]. split; [|split]; lra.
Qed.

(** Every texture coordinate the builder writes lies in the unit
    square. *)
Lemma capsule_uv_in_unit_square t c :
  Wt_all t c -> (0 <= c <= L)%Z -> in_unit_square (capsule_uv t c).
Proof.
  intros HW Hc. pose proof ring_count_ge as HK.
  pose proof uv_aspect_south_range as Hvs.
  pose proof uv_aspect_north_range as Hvn.
  unfold capsule_uv, in_unit_square.
  destruct HW as [(-> & H1)|[Ht|(-> & HL)]].
  - rewrite ring_kind_north_cap. cbn [ring_uv fst snd].
    split; [|lra]. apply cap_tex_range. lia.
  - pose proof (s_tex_range Hc) as Hs.
    destruct (ring_cases Ht)
      as [Hn|[->|[(m & Hm & ->)|[->|(i & Hi & ->)]]]].
    + rewrite ring_kind_north by lia. cbn [ring_uv fst snd].
      pose proof (@t_tex_fac_range t Hn). split; [assumption|nra].
    + rewrite ring_kind_north_equator. cbn [ring_uv fst snd].
      split; [assumption|lra].
    + rewrite ring_kind_cyl by lia. cbn [ring_uv fst snd].
      pose proof (@fac_range m Hm). split; [assumption|nra].
    + rewrite ring_kind_south_equator. cbn [ring_uv fst snd].
      split; [assumption|lra].
    + rewrite ring_kind_south by lia. cbn [ring_uv fst snd].
      pose proof (@t_tex_fac_range i Hi). split; [assumption|nra].
  - rewrite ring_kind_south_cap. cbn [ring_uv fst snd].
    split; [|lra]. apply cap_tex_range. lia.
Qed.

Local Close Scope R_scope.

(** The corners of a face in the texture: each is written, and fits the
    vertex at that corner. *)
Lemma surface_uv_face_fits s j :
  0 <= s <= K -> 0 <= j < L ->
  Forall2 (fun v tc =>
             on_surface v /\
             (Wt_all (fst tc) (snd tc) /\ 0 <= snd tc <= L) /\
             uv_fits half_depth uv_aspect_north uv_aspect_south
               (vertex_point v) (capsule_uv (fst tc) (snd tc)))
    (surface_face s j) (surface_uv_face s j).
Proof.
  intros Hs Hj. pose proof verif_lons_ge as HL. pose proof ring_count_ge as HK.
  destruct (next_col HL Hj) as (Hn & Hn').
  assert (Hmod : j = j mod L) by (rewrite Z.mod_small; lia).
  unfold surface_face, surface_uv_face. cbv zeta.
  destruct (Z.eqb_spec s 0) as [->|Hs0]; [|destruct (Z.ltb_spec s K)].
  all: repeat (apply Forall2_cons; [|]); try apply Forall2_nil.
  all: cbn [on_surface fst snd vertex_point]; unfold Wt_all.
  all: split; [lia|split; [lia|]].
  all: first [ apply uv_fits_north_pole | apply uv_fits_south_pole
             | apply uv_fits_ring; first [lia | assumption | reflexivity] ].
Qed.

(** Every index of the texture coordinate buffer is that of a column of a
    row, of the north cap or of the south cap. *)
Lemma uv_of_index k :
  0 <= k < 2 * L + (L + 1) * K ->
  exists tc, (Wt_all (fst tc) (snd tc) /\ 0 <= snd tc <= L) /\ uv_index tc = k.
Proof.
  intros Hk. pose proof verif_lons_ge as HL. pose proof ring_count_ge as HK.
  unfold uv_index, uv_row, Wt_all.
  destruct (Z.lt_ge_cases k L) as [H0|H0].
  { exists (-1, k + 1). cbn [fst snd]. lia. }
  destruct (Z.lt_ge_cases k (L + (L + 1) * K)) as [H1|H1].
  - pose proof (Z.div_mod (k - L) (L + 1) ltac:(lia)) as Hdm.
    pose proof (Z.mod_pos_bound (k - L) (L + 1) ltac:(lia)) as Hmod.
    assert (Hdiv : 0 <= (k - L) / (L + 1) < K).
    { split; [apply Z.div_pos; lia|apply Z.div_lt_upper_bound; lia]. }
    exists ((k - L) / (L + 1), (k - L) mod (L + 1)). cbn [fst snd]. lia.
  - exists (K, k - L - (L + 1) * K). cbn [fst snd]. lia.
Qed.

Section texture_values.

Variable m : mesh.
Hypothesis Hm : capsule_values m.

(** At every corner of every face, the texture coordinate fits the
    vertex. *)
Lemma corner_uvs f vf tf :
  zth (v_indices m) f = Some vf -> zth (vt_indices m) f = Some tf ->
  Forall2 (fun iv it =>
             exists p uv, zth (vs m) iv = Some p /\ zth (vts m) it = Some uv /\
                          uv_fits half_depth uv_aspect_north uv_aspect_south
                            p uv) vf tf.
Proof.
  intros Ev Et. destruct (@faces_at m Hm f vf Ev) as (s & j & Hs & Hj & -> & ->).
  rewrite (vt_faces_at Hm) in Et by assumption.
  apply Some_inj in Et. subst tf.
  apply Forall2_map_both.
  eapply Forall2_impl; [|apply surface_uv_face_fits; assumption].
  cbv beta. intros v tc (Hv & (HW & Hc) & Hfit).
  exists (vertex_point v), (capsule_uv (fst tc) (snd tc)).
  split; [now apply vs_at|]. split; [now apply vts_at|]. exact Hfit.
Qed.

Lemma uvs_in_unit_square : Forall in_unit_square (vts m).
Proof.
  apply Forall_zth. intros k uv Ek.
  pose proof (zth_Some_lt _ _ Ek) as Hk.
  destruct Hm as ((_ & Hl & _) & _). rewrite Hl, len_vts_eq in Hk.
  destruct (@uv_of_index k) as (tc & (HW & Hc) & <-).
  { rewrite ring_count_eq. lia. }
  rewrite (vts_at Hm) in Ek by assumption. apply Some_inj in Ek. subst uv.
  now apply capsule_uv_in_unit_square.
Qed.

End texture_values.

(** *** The buffers in closed form *)

Lemma zth_cons_0 {A : Type} (x : A) l : zth (x :: l) 0 = Some x.
Proof. reflexivity. Qed.

Lemma zth_cons_pos {A : Type} (x : A) l k :
  0 < k -> zth (x :: l) k = zth l (k - 1).
Proof.
  intros Hk. unfold zth.
  destruct (Z.ltb_spec k 0); [lia|]. destruct (Z.ltb_spec (k - 1) 0); [lia|].
  replace (Z.to_nat k) with (S (Z.to_nat (k - 1))) by lia. reflexivity.
Qed.

Lemma len_cons {A : Type} (x : A) l : len (x :: l) = 1 + len l.
Proof. unfold len. cbn [List.length]. lia. Qed.

(** A buffer that holds a first entry, the rows of a closed form and a
    tail. *)
Lemma grid_inv_rows {A : Type} (g : Z -> Z -> A) n b x tail l :
  0 < n -> 0 <= b ->
  len l = 1 + b * n + len tail ->
  zth l 0 = Some x ->
  grid_inv 1 n g (fun t _ => 0 <= t < b) l ->
  (forall k, 0 <= k < len tail -> zth l (1 + b * n + k) = zth tail k) ->
  l = x :: table g n 0 b ++ tail.
Proof.
  intros Hn Hb Hl H0 HW Ht.
  apply zth_ext.
  { rewrite len_cons, len_app, len_table by lia. lia. }
  intros k Hk. rewrite Hl in Hk.
  destruct (Z.eq_dec k 0) as [->|Hk0]; [now rewrite zth_cons_0|].
  rewrite zth_cons_pos by lia.
  destruct (Z.lt_ge_cases (k - 1) (b * n)) as [Hlt|Hge].
  - rewrite zth_app_l by (rewrite len_table by lia; lia).
    pose proof (Z.div_mod (k - 1) n ltac:(lia)) as Hdm.
    pose proof (Z.mod_pos_bound (k - 1) n ltac:(lia)) as Hmod.
    assert (Hdiv : 0 <= (k - 1) / n < b).
    { split; [apply Z.div_pos; lia|apply Z.div_lt_upper_bound; lia]. }
    assert (E1 : zth l k = Some (g ((k - 1) / n) ((k - 1) mod n))).
    { replace k with (1 + (k - 1) / n * n + (k - 1) mod n) at 1 by lia.
      apply HW; lia. }
    assert (E2 : zth (table g n 0 b) (k - 1) =
                 Some (g ((k - 1) / n) ((k - 1) mod n))).
    { replace (k - 1) with (((k - 1) / n - 0) * n + (k - 1) mod n) at 1 by lia.
      apply zth_table; lia. }
    congruence.
  - rewrite zth_app_r by (rewrite len_table by lia; lia).
    rewrite len_table by lia.
    replace (k - 1 - (b - 0) * n) with (k - (1 + b * n)) by lia.
    rewrite <- Ht by lia. f_equal. lia.
Qed.

Lemma mesh_eta (m : mesh) :
  m = Mesh (vs m) (vts m) (vns m) (v_indices m) (vt_indices m) (vn_indices m).
Proof. now destruct m. Qed.

Section closed_form.

Variable m : mesh.
Hypothesis Hm : capsule_values m.

Lemma vs_closed_form : vs m = vertex_buffer.
Proof.
  pose proof Hm as ((Hl & _) & _ & Gv & _).
  pose proof verif_lons_ge as HL. pose proof ring_count_ge as HK.
  rewrite len_vs_eq, <- ring_count_eq in Hl.
  apply grid_inv_rows; try lia.
  - change (len [ring_vertex SouthCap 0]) with 1. lia.
  - apply (@vs_at m Hm NorthPole). exact I.
  - eapply grid_inv_weaken; [exact Gv|]. unfold Wv_all. intros t j. lia.
  - intros k Hk. change (len [ring_vertex SouthCap 0]) with 1 in Hk.
    assert (k = 0) by lia. subst k.
    replace (1 + K * L + 0) with (vertex_index SouthPole) by (cbn; lia).
    rewrite (@vs_at m Hm SouthPole) by exact I. reflexivity.
Qed.

Lemma vns_closed_form : vns m = normal_buffer.
Proof.
  pose proof Hm as ((_ & _ & Hl) & _ & _ & _ & Gn & Hpast).
  pose proof verif_lons_ge as HL. pose proof half_lats_ge as Hhl.
  rewrite len_vns_eq in Hl. rewrite len_vns_eq, idx_vn_south_pole_eq in Hpast.
  assert (Htail : len (ring_normal SouthCap 0 ::
                       list_repeat (0.0, 0.0, 1.0)%R (L - 1)) = L).
  { rewrite len_cons, len_list_repeat by lia. lia. }
  apply grid_inv_rows; try lia.
  - apply (@vns_at m Hm NorthPole). exact I.
  - eapply grid_inv_weaken; [exact Gn|]. unfold Wn_all. intros t j. lia.
  - intros k Hk. rewrite Htail in Hk.
    destruct (Z.eq_dec k 0) as [->|Hk0].
    + rewrite zth_cons_0.
      replace (1 + (2 * hl - 1) * L + 0) with (normal_index SouthPole)
        by (cbn; lia).
      apply (@vns_at m Hm SouthPole). exact I.
    + rewrite zth_cons_pos, zth_list_repeat by lia. apply Hpast. nia.
Qed.

Lemma vts_closed_form : vts m = uv_buffer.
Proof.
  pose proof Hm as ((_ & Hl & _) & _ & _ & Gt & _).
  pose proof verif_lons_ge as HL. pose proof ring_count_ge as HK.
  rewrite len_vts_eq, <- ring_count_eq in Hl.
  unfold uv_buffer.
  apply zth_ext.
  { rewrite !len_app, !len_map, len_range, len_table by lia. lia. }
  intros k Hk. rewrite Hl in Hk.
  destruct (@uv_of_index k) as ([t c] & (HW & Hc) & <-); [lia|].
  rewrite (vts_at Hm) by assumption.
  cbn [fst snd] in *. unfold uv_index, uv_row, capsule_uv. cbn [fst snd].
  unfold Wt_all in HW.
  destruct HW as [(-> & H1)|[Ht|(-> & H1)]].
  - rewrite zth_app_l by (rewrite len_map, len_range by lia; lia).
    rewrite zth_map.
    replace (L + -1 * (L + 1) + c) with (c - 1) by lia.
    rewrite zth_range by lia. cbn [option_map].
    rewrite ring_kind_north_cap. do 2 f_equal. lia.
  - rewrite zth_app_r by (rewrite len_map, len_range by lia; nia).
    rewrite len_map, len_range by lia.
    rewrite zth_app_l by (rewrite len_table by lia; nia).
    replace (L + t * (L + 1) + c - (L - 0)) with ((t - 0) * (L + 1) + c) by lia.
    rewrite zth_table by lia. reflexivity.
  - rewrite zth_app_r by (rewrite len_map, len_range by lia; nia).
    rewrite len_map, len_range by lia.
    rewrite zth_app_r by (rewrite len_table by lia; nia).
    rewrite len_table by lia.
    replace (L + K * (L + 1) + c - (L - 0) - (K - 0) * (L + 1)) with c by lia.
    rewrite zth_map, zth_range by lia. cbn [option_map].
    rewrite ring_kind_south_cap. reflexivity.
Qed.

Lemma mesh_closed_form : m = capsule_mesh.
Proof.
  pose proof Hm as (_ & (Hv & Hvt & Hvn) & _).
  transitivity (Mesh (vs m) (vts m) (vns m) (v_indices m) (vt_indices m)
                  (vn_indices m)); [apply mesh_eta|].
  rewrite vs_closed_form, vts_closed_form, vns_closed_form, Hv, Hvt, Hvn.
  reflexivity.
Qed.

End closed_form.

(** The builder computes the capsule of the closed form. *)
Lemma create_capsule_data_closed_form : create_capsule_data = Ok capsule_mesh.
Proof.
  destruct create_capsule_data_values as (m & E & Hm).
  rewrite E. f_equal. now apply mesh_closed_form.
Qed.

Lemma capsule_mesh_values : capsule_values capsule_mesh.
Proof.
  destruct create_capsule_data_values as (m & E & Hm).
  now rewrite <- (mesh_closed_form Hm).
Qed.

(** *** The normals are unit vectors *)

Lemma capsule_normal_unit r j :
  0 <= r < 2 * hl - 1 -> 0 <= j < L ->
  dot (capsule_normal r j) (capsule_normal r j) = 1%R.
Proof.
  intros Hr Hj. pose proof ring_count_eq. pose proof verif_rings_ge.
  destruct (Z.lt_ge_cases r hl) as [Hlt|Hge].
  - assert (Hon : on_surface (Ring r j)) by (cbn; lia).
    pose proof (proj1 (@vertex_outward _ Hon)) as Hu.
    cbn [vertex_normal] in Hu. now rewrite normal_row_north in Hu by lia.
  - assert (Hon : on_surface (Ring (r + rg + 1) j)) by (cbn; lia).
    pose proof (proj1 (@vertex_outward _ Hon)) as Hu.
    cbn [vertex_normal] in Hu. rewrite normal_row_south in Hu by lia.
    now replace (r + rg + 1 - rg - 1) with r in Hu by lia.
Qed.

Lemma normal_buffer_unit : Forall (fun n => dot n n = 1%R) normal_buffer.
Proof.
  unfold normal_buffer. apply Forall_cons.
  { cbn [ring_normal]. unfold dot. lra. }
  apply Forall_app. split.
  - apply Forall_forall. intros n Hn. apply In_table in Hn.
    destruct Hn as (r & j & Hr & Hj & ->). now apply capsule_normal_unit.
  - apply Forall_cons.
    { cbn [ring_normal]. unfold dot. lra. }
    apply Forall_list_repeat. unfold dot. lra.
Qed.

(** *** The count of the edges *)

Lemma len_flat_map_const {A B : Type} (g : A -> list B) c (l : list A) :
  (forall x, In x l -> len (g x) = c) -> len (flat_map g l) = c * len l.
Proof.
  induction l as [|x l IH]; intros H; cbn [flat_map].
  - unfold len. simpl. lia.
  - rewrite len_app, len_cons, IH by (intros; apply H; now right).
    rewrite (H x) by now left. lia.
Qed.

Lemma len_face_edges {A : Type} (f : list A) : len (face_edges f) = len f.
Proof.
  unfold len. f_equal. destruct f as [|x tl]; [reflexivity|].
  unfold face_edges. rewrite length_combine, length_app. cbn [List.length]. lia.
Qed.

Lemma len_capsule_face s j :
  len (capsule_face L K s j) = if (s =? 0) || negb (s <? K) then 3 else 4.
Proof.
  unfold capsule_face. cbv zeta.
  destruct (s =? 0); [reflexivity|]. destruct (s <? K); reflexivity.
Qed.

Lemma len_row_edges s :
  len (flat_map face_edges (map (capsule_face L K s) (range 0 L))) =
  (if (s =? 0) || negb (s <? K) then 3 else 4) * L.
Proof.
  pose proof verif_lons_ge.
  rewrite len_flat_map_const
    with (c := if (s =? 0) || negb (s <? K) then 3 else 4).
  - rewrite len_map, len_range by lia. lia.
  - intros f Hf. apply in_map_iff in Hf. destruct Hf as (j & <- & _).
    rewrite len_face_edges. apply len_capsule_face.
Qed.

Lemma len_band_edges a :
  1 <= a <= K ->
  len (flat_map face_edges (table (capsule_face L K) L a (K + 1))) =
  4 * L * (K - a) + 3 * L.
Proof.
  intros Ha. remember (Z.to_nat (K - a)) as d eqn:Ed.
  revert a Ha Ed. induction d as [|d IH]; intros a Ha Ed.
  - assert (a = K) by lia. subst a.
    rewrite table_cons, table_nil by lia. rewrite app_nil_r, len_row_edges.
    destruct (Z.eqb_spec K 0); [lia|]. destruct (Z.ltb_spec K K); [lia|].
    cbn [orb negb]. lia.
  - rewrite table_cons by lia. rewrite flat_map_app, len_app, len_row_edges.
    rewrite IH by lia.
    destruct (Z.eqb_spec a 0); [lia|]. destruct (Z.ltb_spec a K); [|lia].
    cbn [orb negb]. lia.
Qed.

(** The faces have [2 * (V + F - 2)] sides in all, for [V] vertices and
    [F] faces: half as many edges, each shared by two faces, give the
    count [V - E + F = 2] of a sphere. *)
Lemma capsule_edges_count :
  len (flat_map face_edges (table (capsule_face L K) L 0 (K + 1))) =
  2 * ((2 + K * L) + (K + 1) * L - 2).
Proof.
  pose proof ring_count_ge as HK.
  rewrite table_cons by lia. rewrite flat_map_app, len_app, len_row_edges.
  rewrite len_band_edges by lia. cbn [Z.eqb orb]. lia.
Qed.

(** *** No entry is left unused *)

Lemma vertex_in_face v :
  on_surface v ->
  exists s j, 0 <= s <= K /\ 0 <= j < L /\ In v (surface_face s j).
Proof.
  pose proof verif_lons_ge as HL. pose proof ring_count_ge as HK.
  destruct v as [|t j|]; cbn [on_surface].
  - intros _. exists 0, 0. repeat (split; [lia|]).
    unfold surface_face. cbn [Z.eqb]. now left.
  - intros (Ht & Hj). destruct (Z.eq_dec t 0) as [->|Ht0].
    + exists 0, j. repeat (split; [lia|]).
      unfold surface_face. cbn [Z.eqb]. right. now left.
    + exists t, j. repeat (split; [lia|]).
      unfold surface_face. cbv zeta.
      destruct (Z.eqb_spec t 0); [lia|]. destruct (Z.ltb_spec t K); [|lia].
      right. now left.
  - intros _. exists K, 0. repeat (split; [lia|]).
    unfold surface_face. cbv zeta.
    destruct (Z.eqb_spec K 0); [lia|]. destruct (Z.ltb_spec K K); [lia|].
    now left.
Qed.

Lemma uv_in_face tc :
  Wt_all (fst tc) (snd tc) -> 0 <= snd tc <= L ->
  exists s j, 0 <= s <= K /\ 0 <= j < L /\ In tc (surface_uv_face s j).
Proof.
  pose proof verif_lons_ge as HL. pose proof ring_count_ge as HK.
  destruct tc as [t c]. cbn [fst snd]. unfold Wt_all. intros HW Hc.
  assert (Hcol : exists j, 0 <= j < L /\ (c = j \/ (c = j + 1 /\ c = L))).
  { destruct (Z.eq_dec c L) as [->|Hne]; [exists (L - 1)|exists c]; lia. }
  destruct HW as [(-> & H1)|[Ht|(-> & H1)]].
  - exists 0, (c - 1). repeat (split; [lia|]).
    unfold surface_uv_face. cbn [Z.eqb]. left. f_equal. lia.
  - destruct Hcol as (j & Hj & Hcj).
    destruct (Z.eq_dec t 0) as [->|Ht0].
    + exists 0, j. repeat (split; [lia|]).
      unfold surface_uv_face. cbn [Z.eqb].
      destruct Hcj as [->|(-> & _)]; [right; now left|right; right; now left].
    + exists t, j. repeat (split; [lia|]).
      unfold surface_uv_face.
      destruct (Z.eqb_spec t 0); [lia|]. destruct (Z.ltb_spec t K); [|lia].
      destruct Hcj as [->|(-> & _)];
        [right; now left|right; right; now left].
  - exists K, c. repeat (split; [lia|]).
    unfold surface_uv_face.
    destruct (Z.eqb_spec K 0); [lia|]. destruct (Z.ltb_spec K K); [lia|].
    now left.
Qed.

(** The normal of a row of the normal buffer is that of a vertex. *)
Lemma normal_of_index k :
  0 <= k <= 1 + (2 * hl - 1) * L ->
  exists v, on_surface v /\ normal_index v = k.
Proof.
  intros Hk. pose proof verif_lons_ge as HL. pose proof half_lats_ge as Hhl.
  pose proof ring_count_eq as HK. pose proof verif_rings_ge as Hrg.
  destruct (Z.eq_dec k 0) as [->|H0]; [exists NorthPole; split; now cbn|].
  destruct (Z.eq_dec k (1 + (2 * hl - 1) * L)) as [->|H1];
    [exists SouthPole; split; now cbn|].
  pose proof (Z.div_mod (k - 1) L ltac:(lia)) as Hdm.
  pose proof (Z.mod_pos_bound (k - 1) L ltac:(lia)) as Hmod.
  assert (Hdiv : 0 <= (k - 1) / L < 2 * hl - 1).
  { split; [apply Z.div_pos; lia|apply Z.div_lt_upper_bound; lia]. }
  set (r := (k - 1) / L) in *.
  destruct (Z.lt_ge_cases r hl) as [Hlt|Hge].
  - exists (Ring r ((k - 1) mod L)). cbn [on_surface normal_index].
    rewrite normal_row_north by lia. split; lia.
  - exists (Ring (r + rg + 1) ((k - 1) mod L)). cbn [on_surface normal_index].
    rewrite normal_row_south by lia. split; [lia|].
    replace (r + rg + 1 - rg - 1) with r by lia. lia.
Qed.

Lemma normal_index_bound v :
  on_surface v -> 0 <= normal_index v <= 1 + (2 * hl - 1) * L.
Proof.
  pose proof verif_lons_ge as HL. pose proof half_lats_ge as Hhl.
  destruct v as [|t j|]; cbn [on_surface normal_index]; [nia| |nia].
  intros (Ht & Hj). pose proof (normal_row_range Ht). nia.
Qed.

(** Every vertex, every texture coordinate and every normal up to the
    south pole's is at a corner of a face, and no face uses a normal past
    the south pole's. *)
Lemma capsule_mesh_all_used :
  (forall k, 0 <= k < len vertex_buffer ->
     exists f, In f (v_indices capsule_mesh) /\ In k f) /\
  (forall k, 0 <= k < len uv_buffer ->
     exists f, In f (vt_indices capsule_mesh) /\ In k f) /\
  (forall k, 0 <= k <= idx_vn_south_pole ->
     exists f, In f (vn_indices capsule_mesh) /\ In k f) /\
  (forall f k, In f (vn_indices capsule_mesh) -> In k f ->
     0 <= k <= idx_vn_south_pole).
Proof.
  pose proof capsule_mesh_values as Hm.
  pose proof Hm as ((Hl1 & Hl2 & _) & _).
  pose proof verif_lons_ge as HL. pose proof ring_count_ge as HK.
  cbn [capsule_mesh vs vts vns v_indices vt_indices vn_indices] in *.
  rewrite idx_vn_south_pole_eq.
  split; [|split; [|split]].
  - intros k Hk. rewrite Hl1, len_vs_eq, <- ring_count_eq in Hk.
    destruct (@vertex_of_index k) as (v & Hv & <-); [lia|].
    destruct (@vertex_in_face _ Hv) as (s & j & Hs & Hj & Hin).
    exists (capsule_face L K s j). split.
    + apply In_table. exists s, j. repeat split; lia.
    + rewrite capsule_face_surface. now apply in_map.
  - intros k Hk. rewrite Hl2, len_vts_eq, <- ring_count_eq in Hk.
    destruct (@uv_of_index k) as (tc & (HW & Hc) & <-); [lia|].
    destruct (@uv_in_face _ HW Hc) as (s & j & Hs & Hj & Hin).
    exists (capsule_vt_face s j). split.
    + apply In_table. exists s, j. repeat split; lia.
    + rewrite capsule_vt_face_surface. now apply in_map.
  - intros k Hk.
    destruct (@normal_of_index k) as (v & Hv & <-); [lia|].
    destruct (@vertex_in_face _ Hv) as (s & j & Hs & Hj & Hin).
    exists (capsule_vn_face s j). split.
    + apply In_table. exists s, j. repeat split; lia.
    + rewrite capsule_vn_face_surface by lia. now apply in_map.
  - intros f k Hf Hk. apply In_table in Hf.
    destruct Hf as (s & j & Hs & Hj & ->).
    rewrite capsule_vn_face_surface in Hk by lia.
    apply in_map_iff in Hk. destruct Hk as (v & <- & Hv).
    replace (L * (2 * hl - 1)) with ((2 * hl - 1) * L) by lia.
    apply normal_index_bound.
    pose proof (@surface_face_on_surface L K HL HK s j ltac:(lia) Hj) as Hon.
    rewrite Forall_forall in Hon. now apply Hon.
Qed.

(** *** One normal for each vertex *)

Lemma zth_In {A : Type} (l : list A) k x : zth l k = Some x -> In x l.
Proof.
  unfold zth. destruct (k <? 0); [discriminate|]. apply nth_error_In.
Qed.

Lemma zth_map_Some {A B : Type} (g : A -> B) (l : list A) k y :
  zth (map g l) k = Some y -> exists x, zth l k = Some x /\ g x = y.
Proof.
  rewrite zth_map. destruct (zth l k) as [x|]; [|discriminate].
  intros E. apply Some_inj in E. now exists x.
Qed.

Section normals_by_vertex.

Variable m : mesh.
Hypothesis Hm : capsule_values m.

(** Two corners at the same vertex, of the same face or of two, have the
    same entry of the normal buffer. *)
Lemma corner_normal_by_vertex f f' vf vf' nf nf' k k' i :
  zth (v_indices m) f = Some vf -> zth (vn_indices m) f = Some nf ->
  zth (v_indices m) f' = Some vf' -> zth (vn_indices m) f' = Some nf' ->
  zth vf k = Some i -> zth vf' k' = Some i ->
  exists n, zth nf k = Some n /\ zth nf' k' = Some n.
Proof.
  intros Ev En Ev' En' Ek Ek'.
  pose proof verif_lons_ge as HL. pose proof ring_count_ge as HK.
  destruct (@faces_at m Hm f vf Ev) as (s & j & Hs & Hj & -> & ->).
  destruct (@faces_at m Hm f' vf' Ev') as (s' & j' & Hs' & Hj' & -> & ->).
  rewrite (vn_faces_at Hm) in En, En' by assumption.
  apply Some_inj in En, En'. subst nf nf'.
  apply zth_map_Some in Ek, Ek'.
  destruct Ek as (v & Ek & Hv), Ek' as (v' & Ek' & Hv').
  assert (Hon : on_surface v).
  { pose proof (@surface_face_on_surface L K HL HK s j Hs Hj) as H.
    rewrite Forall_forall in H. apply H. eapply zth_In, Ek. }
  assert (Hon' : on_surface v').
  { pose proof (@surface_face_on_surface L K HL HK s' j' Hs' Hj') as H.
    rewrite Forall_forall in H. apply H. eapply zth_In, Ek'. }
  assert (v = v').
  { apply (@vertex_index_inj L K); try assumption. congruence. }
  subst v'. exists (normal_index v).
  rewrite !zth_map, Ek, Ek'. split; reflexivity.
Qed.

End normals_by_vertex.

Lemma capsule_mesh_edges :
  len (flat_map face_edges (v_indices capsule_mesh)) =
  2 * (len (vs capsule_mesh) + len (v_indices capsule_mesh) - 2).
Proof.
  pose proof capsule_mesh_values as ((Hl & _) & _).
  pose proof verif_lons_ge as HL. pose proof ring_count_ge as HK.
  rewrite Hl, len_vs_eq, <- ring_count_eq.
  cbn [capsule_mesh v_indices]. rewrite capsule_edges_count.
  rewrite len_table by lia. lia.
Qed.

(** *** Ready for the conversion to a BMesh *)

Lemma len_capsule_vt_face s j :
  len (capsule_vt_face s j) = len (capsule_face L K s j).
Proof.
  unfold capsule_vt_face, capsule_face. cbv zeta.
  destruct (s =? 0); [reflexivity|]. destruct (s <? K); reflexivity.
Qed.

Lemma len_capsule_vn_face s j :
  len (capsule_vn_face s j) = len (capsule_face L K s j).
Proof.
  unfold capsule_vn_face, capsule_face. cbv zeta.
  destruct (s =? 0); [reflexivity|]. destruct (s <? K); reflexivity.
Qed.

Lemma capsule_mesh_bmesh_ready : bmesh_ready capsule_mesh.
Proof.
  pose proof verif_lons_ge as HL. pose proof ring_count_ge as HK.
  destruct create_capsule_data_spec
    as (m & E & _ & _ & _ & Hvt & Hvn & _).
  rewrite create_capsule_data_closed_form in E. apply Ok_inj in E. subst m.
  pose proof capsule_mesh_values as ((Hl1 & Hl2 & Hl3) & _).
  unfold bmesh_ready.
  cbn [capsule_mesh vs vts vns v_indices vt_indices vn_indices] in *.
  rewrite !len_table by lia.
  split; [reflexivity|]. split; [reflexivity|].
  intros i f Ef. apply zth_table_inv in Ef; try lia.
  destruct Ef as (s & j & Hs & Hj & -> & ->).
  assert (Etf : zth (table capsule_vt_face L 0 (K + 1)) (s * L + j) =
                Some (capsule_vt_face s j)).
  { replace (s * L + j) with ((s - 0) * L + j) by lia.
    now rewrite zth_table by lia. }
  assert (Enf : zth (table capsule_vn_face L 0 (K + 1)) (s * L + j) =
                Some (capsule_vn_face s j)).
  { replace (s * L + j) with ((s - 0) * L + j) by lia.
    now rewrite zth_table by lia. }
  split; [rewrite len_capsule_face; destruct (_ || _); lia|].
  split; [apply capsule_face_NoDup; lia|].
  split.
  { rewrite Hl1, len_vs_eq, <- ring_count_eq.
    replace (2 + L * K) with (2 + K * L) by lia.
    apply capsule_face_valid; lia. }
  split.
  { exists (capsule_vt_face s j), (capsule_vn_face s j).
    split; [exact Etf|]. split; [exact Enf|].
    split; [apply len_capsule_vt_face|]. split; [apply len_capsule_vn_face|].
    rewrite Forall_forall in Hvt, Hvn. rewrite Hl2, Hl3.
    split; [eapply Hvt, zth_In, Etf|eapply Hvn, zth_In, Enf]. }
  intros i' f' Ef' Hsame. apply zth_table_inv in Ef'; try lia.
  destruct Ef' as (s' & j' & Hs' & Hj' & -> & ->).
  apply (@capsule_face_same_corners L K HL HK) in Hsame; lia.
Qed.

End builder_correct.

(* ================================================================== *)
(** ** The Builder: clamping *)
(* ================================================================== *)

Lemma fmax_idem a x : fmax a (fmax a x) = fmax a x.
Proof. unfold fmax. repeat destruct (Rlt_dec _ _); lra. Qed.

Lemma fmax_Rmax a x : fmax a x = Rmax a x.
Proof.
  unfold fmax, Rmax. destruct (Rlt_dec a x), (Rle_dec a x); lra.
Qed.

Lemma verif_rad_idem x : verif_rad (verif_rad x) = verif_rad x.
Proof. apply fmax_idem. Qed.

Lemma verif_depth_idem x : verif_depth (verif_depth x) = verif_depth x.
Proof. apply fmax_idem. Qed.

Lemma verif_rings_idem x : verif_rings (verif_rings x) = verif_rings x.
Proof. unfold verif_rings. lia. Qed.

Lemma verif_lons_idem x : verif_lons (verif_lons x) = verif_lons x.
Proof. unfold verif_lons. lia. Qed.

Lemma verif_lats_idem x : verif_lats (verif_lats x) = verif_lats x.
Proof.
  pose proof (verif_lats_even x) as He. pose proof (half_lats_ge x) as Hh.
  unfold verif_lats at 1. cbv zeta.
  replace (Z.max 2 (verif_lats x)) with (verif_lats x) by lia.
  rewrite He at 1. rewrite Z.mul_comm, Z.mod_mul by lia. reflexivity.
Qed.

(** The builder reads its arguments only through their clamped values:
    clamping them beforehand changes nothing. *)
Lemma create_capsule_data_clamped longitudes latitudes rings depth radius uv :
  create_capsule_data (verif_lons longitudes) (verif_lats latitudes)
    (verif_rings rings) (verif_depth depth) (verif_rad radius) uv =
  create_capsule_data longitudes latitudes rings depth radius uv.
Proof.
  unfold create_capsule_data, loop_cyl, loop_cyl_quads, loop_rings,
    loop_ring_coords, loop_hemi, loop_hemi_coords, loop_equator_uvs,
    vt_aspect_south_of, loop_poles, hemi_range, lons_p1_range, lons_range,
    len_indices, len_vns, len_vts, len_vs,
    idx_fs_south_hemi, idx_fs_south_equat, idx_fs_cyl,
    idx_vn_south_pole, idx_vn_south_cap, idx_vn_south,
    idx_vt_s_cap, idx_vt_s_polar, idx_vt_s_hemi, idx_vt_s_equator, idx_vt_cyl,
    idx_vt_n_equator,
    idx_v_south_pole, idx_v_south_cap, idx_v_south, idx_v_s_equator, idx_v_cyl,
    idx_v_n_equator, summit, half_depth, v_lons_v_sections_p1,
    v_lons_half_lat_n1, verif_lons_p1, verif_rings_p1, half_lats_n2,
    half_lats_n1, half_lats, calc_middle.
  rewrite !verif_lons_idem, !verif_lats_idem, !verif_rings_idem,
    !verif_depth_idem, !verif_rad_idem.
  reflexivity.
Qed.

(* ================================================================== *)
(** ** The Builder: the allocations *)
(* ================================================================== *)

Lemma py_list_mul_granted (out_of_memory : nat -> Z -> bool) {A : Type}
    site (x : A) n :
  list_mul_error out_of_memory site n = None ->
  py_list_mul out_of_memory site x n = Ok (list_repeat x n).
Proof. intros H. unfold py_list_mul. now rewrite H. Qed.

Lemma py_list_mul_overflow (out_of_memory : nat -> Z -> bool) {A : Type}
    site (x : A) n :
  sys_maxsize < n -> py_list_mul out_of_memory site x n = Raise OverflowError.
Proof.
  intros H. unfold py_list_mul, list_mul_error.
  destruct (Z.ltb_spec sys_maxsize n); [|lia].
  now rewrite orb_true_r.
Qed.

(** With every list granted, the builder is the builder. *)
Lemma create_capsule_data_allocating_granted
    out_of_memory longitudes latitudes rings depth radius uv :
  allocations_granted out_of_memory longitudes latitudes rings ->
  create_capsule_data_allocating out_of_memory longitudes latitudes rings
    depth radius uv =
  create_capsule_data longitudes latitudes rings depth radius uv.
Proof.
  unfold allocations_granted, list_allocations. intros H.
  repeat match goal with
         | H : Forall _ (_ :: _) |- _ =>
             let E := fresh "E" in
             let H' := fresh "H" in
             apply Forall_cons_iff in H; destruct H as (E & H');
             cbn [fst snd] in E
         end.
  unfold create_capsule_data_allocating, create_capsule_data.
  rewrite !py_list_mul_granted by assumption. reflexivity.
Qed.

(** The lists are those of the clamped arguments. *)
Lemma list_allocations_clamped longitudes latitudes rings :
  list_allocations (verif_lons longitudes) (verif_lats latitudes)
    (verif_rings rings) =
  list_allocations longitudes latitudes rings.
Proof.
  unfold list_allocations, len_indices, len_vns, len_vts, len_vs,
    idx_fs_south_hemi, idx_fs_south_equat, idx_fs_cyl,
    idx_vn_south_pole, idx_vn_south_cap, idx_vn_south,
    idx_vt_s_cap, idx_vt_s_polar, idx_vt_s_hemi, idx_vt_s_equator, idx_vt_cyl,
    idx_vt_n_equator,
    idx_v_south_pole, idx_v_south_cap, idx_v_south, idx_v_s_equator, idx_v_cyl,
    idx_v_n_equator, v_lons_v_sections_p1,
    v_lons_half_lat_n1, verif_lons_p1, verif_rings_p1, half_lats_n2,
    half_lats_n1, half_lats, calc_middle.
  rewrite !verif_lons_idem, !verif_lats_idem, !verif_rings_idem.
  reflexivity.
Qed.

Lemma allocations_granted_clamped out_of_memory longitudes latitudes rings :
  allocations_granted out_of_memory longitudes latitudes rings ->
  allocations_granted out_of_memory (verif_lons longitudes)
    (verif_lats latitudes) (verif_rings rings).
Proof.
  unfold allocations_granted. now rewrite list_allocations_clamped.
Qed.

(** The runtime that has room for every list within the index range. *)
Lemma allocations_granted_small longitudes latitudes rings :
  Forall (fun a => - sys_maxsize - 1 <= snd a <= sys_maxsize)
    (list_allocations longitudes latitudes rings) ->
  allocations_granted (fun _ _ => false) longitudes latitudes rings.
Proof.
  unfold allocations_granted. apply Forall_impl. intros [site n] Hn.
  cbn [fst snd] in *. unfold list_mul_error.
  destruct (Z.ltb_spec n (- sys_maxsize - 1)); [lia|].
  destruct (Z.ltb_spec sys_maxsize n); [lia|]. reflexivity.
Qed.

(** The first list does not fit an index: [OverflowError], whatever room
    the runtime has. *)
Lemma create_capsule_data_allocating_overflow
    out_of_memory longitudes latitudes rings depth radius uv :
  sys_maxsize < len_vs longitudes latitudes rings ->
  create_capsule_data_allocating out_of_memory longitudes latitudes rings
    depth radius uv = Raise OverflowError.
Proof.
  intros H. unfold create_capsule_data_allocating.
  now rewrite py_list_mul_overflow by assumption.
Qed.

(* ================================================================== *)
(** ** The Fitter *)
(* ================================================================== *)

Local Open Scope R_scope.

(** *** Rows of three floats *)

Ltac vec_split :=
  repeat match goal with
         | v : vec3 |- _ => destruct v as [[? ?] ?]
         | v : (R * R * R)%type |- _ => destruct v as [[? ?] ?]
         end.

Lemma vec3_eq (a b c a' b' c' : R) :
  a = a' -> b = b' -> c = c' -> (a, b, c) = (a', b', c').
Proof. now intros -> -> ->. Qed.

Lemma dot_self_nonneg a : 0 <= dot a a.
Proof. vec_split. unfold dot. nra. Qed.

Lemma norm_nonneg a : 0 <= norm a.
Proof. apply sqrt_pos. Qed.

Lemma norm_sqr a : norm a * norm a = dot a a.
Proof. apply sqrt_sqrt, dot_self_nonneg. Qed.

Lemma norm_unit_dot a : norm a = 1 -> dot a a = 1.
Proof. intros H. rewrite <- norm_sqr, H. lra. Qed.

Lemma dot_unit_norm a : dot a a = 1 -> norm a = 1.
Proof. intros H. unfold norm. rewrite H. apply sqrt_1. Qed.

Lemma dot_zero_norm a : dot a a = 0 -> norm a = 0.
Proof. intros H. unfold norm. rewrite H. apply sqrt_0. Qed.

Lemma norm_pos_dot a : 0 < norm a -> 0 < dot a a.
Proof. intros H. rewrite <- norm_sqr. nra. Qed.

Lemma dot_comm a b : dot a b = dot b a.
Proof. vec_split. unfold dot. ring. Qed.

Lemma dot_vdiv a b k l :
  k <> 0 -> l <> 0 -> dot (vdiv a k) (vdiv b l) = dot a b / (k * l).
Proof. intros Hk Hl. vec_split. unfold dot, vdiv. field. auto. Qed.

Lemma norm_vdiv_unit a : norm a <> 0 -> norm (vdiv a (norm a)) = 1.
Proof.
  intros H. apply dot_unit_norm. rewrite dot_vdiv by assumption.
  rewrite norm_sqr. rewrite <- norm_sqr. field. assumption.
Qed.

Lemma dot_cross_l a b : dot (cross a b) a = 0.
Proof. vec_split. unfold dot, cross. ring. Qed.

Lemma dot_cross_r a b : dot (cross a b) b = 0.
Proof. vec_split. unfold dot, cross. ring. Qed.

(** Lagrange's identity. *)
Lemma dot_cross_cross a b :
  dot (cross a b) (cross a b) = dot a a * dot b b - dot a b * dot a b.
Proof. vec_split. unfold dot, cross. ring. Qed.

Lemma cauchy_schwarz a b : dot a b * dot a b <= dot a a * dot b b.
Proof.
  pose proof (dot_self_nonneg (cross a b)) as H.
  rewrite dot_cross_cross in H. lra.
Qed.

(** *** The largest and the smallest of a list *)

Lemma fold_left_fmax_spec l a :
  (forall x, In x (a :: l) -> x <= fold_left fmax l a) /\
  In (fold_left fmax l a) (a :: l).
Proof.
  revert a. induction l as [|y l IH]; intros a.
  - simpl. split; [intros x [<-|[]]; lra|auto].
  - cbn [fold_left]. destruct (IH (fmax a y)) as (Hge & Hin).
    assert (Ha : a <= fmax a y /\ y <= fmax a y /\ (fmax a y = a \/ fmax a y = y)).
    { unfold fmax. destruct (Rlt_dec a y); lra. }
    split.
    + intros x [<-|[<-|Hx]].
      * apply Rle_trans with (fmax a y); [tauto|]. apply Hge. now left.
      * apply Rle_trans with (fmax a y); [tauto|]. apply Hge. now left.
      * apply Hge. now right.
    + destruct Hin as [Hin|Hin]; [|right; right; assumption].
      rewrite <- Hin. destruct Ha as (_ & _ & [->| ->]); simpl; auto.
Qed.

Lemma fold_left_Rmax_spec l a :
  (forall x, In x (a :: l) -> x <= fold_left Rmax l a) /\
  In (fold_left Rmax l a) (a :: l).
Proof.
  revert a. induction l as [|y l IH]; intros a.
  - simpl. split; [intros x [<-|[]]; lra|auto].
  - cbn [fold_left]. destruct (IH (Rmax a y)) as (Hge & Hin).
    assert (Ha : a <= Rmax a y /\ y <= Rmax a y /\ (Rmax a y = a \/ Rmax a y = y)).
    { unfold Rmax. destruct (Rle_dec a y); lra. }
    split.
    + intros x [<-|[<-|Hx]].
      * apply Rle_trans with (Rmax a y); [tauto|]. apply Hge. now left.
      * apply Rle_trans with (Rmax a y); [tauto|]. apply Hge. now left.
      * apply Hge. now right.
    + destruct Hin as [Hin|Hin]; [|right; right; assumption].
      rewrite <- Hin. destruct Ha as (_ & _ & [->| ->]); simpl; auto.
Qed.

Lemma fold_left_Rmin_spec l a :
  (forall x, In x (a :: l) -> fold_left Rmin l a <= x) /\
  In (fold_left Rmin l a) (a :: l).
Proof.
  revert a. induction l as [|y l IH]; intros a.
  - simpl. split; [intros x [<-|[]]; lra|auto].
  - cbn [fold_left]. destruct (IH (Rmin a y)) as (Hge & Hin).
    assert (Ha : Rmin a y <= a /\ Rmin a y <= y /\ (Rmin a y = a \/ Rmin a y = y)).
    { unfold Rmin. destruct (Rle_dec a y); lra. }
    split.
    + intros x [<-|[<-|Hx]].
      * apply Rle_trans with (Rmin a y); [|tauto]. apply Hge. now left.
      * apply Rle_trans with (Rmin a y); [|tauto]. apply Hge. now left.
      * apply Hge. now right.
    + destruct Hin as [Hin|Hin]; [|right; right; assumption].
      rewrite <- Hin. destruct Ha as (_ & _ & [->| ->]); simpl; auto.
Qed.

Lemma py_max_spec xs :
  xs <> [] ->
  exists m, py_max xs = Ok m /\ (forall x, In x xs -> x <= m) /\ In m xs.
Proof.
  destruct xs as [|a l]; [congruence|]. intros _.
  exists (fold_left fmax l a). split; [reflexivity|].
  apply fold_left_fmax_spec.
Qed.

Lemma np_max_spec xs :
  xs <> [] ->
  exists m, np_max xs = Ok m /\ (forall x, In x xs -> x <= m) /\ In m xs.
Proof.
  destruct xs as [|a l]; [congruence|]. intros _.
  exists (fold_left Rmax l a). split; [reflexivity|].
  apply fold_left_Rmax_spec.
Qed.

Lemma np_min_spec xs :
  xs <> [] ->
  exists m, np_min xs = Ok m /\ (forall x, In x xs -> m <= x) /\ In m xs.
Proof.
  destruct xs as [|a l]; [congruence|]. intros _.
  exists (fold_left Rmin l a). split; [reflexivity|].
  apply fold_left_Rmin_spec.
Qed.

(** *** The result of the Fitter *)

Lemma column_axes_matrix x y z :
  column (axes_matrix (x, y, z)) 0 = x /\
  column (axes_matrix (x, y, z)) 1 = y /\
  column (axes_matrix (x, y, z)) 2 = z.
Proof. vec_split. repeat split. Qed.

(** *** The radius: distances to the axis *)

Lemma vsub_foot p c a t :
  vsub p (vadd c (vscale a t)) = vsub (vsub p c) (vscale a t).
Proof. vec_split. unfold vsub, vadd, vscale. apply vec3_eq; ring. Qed.

Lemma dot_vsub_vscale v a t :
  dot (vsub v (vscale a t)) a = dot v a - t * dot a a.
Proof. vec_split. unfold dot, vsub, vscale. ring. Qed.

Lemma dot_self_shift v a t0 t :
  dot (vsub v (vscale a t)) (vsub v (vscale a t)) =
  dot (vsub v (vscale a t0)) (vsub v (vscale a t0)) +
  2 * (t0 - t) * dot (vsub v (vscale a t0)) a +
  (t0 - t) * (t0 - t) * dot a a.
Proof. vec_split. unfold dot, vsub, vscale. ring. Qed.

(** For a unit axis, what [distance_to_axis] measures is the distance to
    the foot of the perpendicular. *)
Lemma distance_to_axis_perpendicular p c a :
  norm a = 1 -> perpendicular_distance p c a (distance_to_axis p c a).
Proof.
  intros Ha. apply norm_unit_dot in Ha.
  exists (dot (vsub p c) a). cbv zeta. rewrite vsub_foot.
  split; [|reflexivity].
  rewrite dot_vsub_vscale, Ha. ring.
Qed.

(** The perpendicular distance is the least distance from the point to a
    point of the line. *)
Lemma perpendicular_distance_least p c a d t :
  perpendicular_distance p c a d ->
  d <= norm (vsub p (vadd c (vscale a t))).
Proof.
  intros (t0 & Hperp & ->). cbv zeta in *.
  rewrite !vsub_foot in *.
  unfold norm. apply sqrt_le_1; try apply dot_self_nonneg.
  rewrite (dot_self_shift (vsub p c) a t0 t), Hperp.
  assert (0 <= (t0 - t) * (t0 - t) * dot a a).
  { apply Rmult_le_pos; [apply Rle_0_sqr|apply dot_self_nonneg]. }
  lra.
Qed.

(** *** The rotation: an orthonormal basis *)

Lemma orthonormal_of_orthogonal x y z :
  norm x <> 0 -> norm y <> 0 -> norm z <> 0 ->
  dot x y = 0 -> dot x z = 0 -> dot y z = 0 ->
  orthonormal_columns
    (axes_matrix (vdiv x (norm x), vdiv y (norm y), vdiv z (norm z))).
Proof.
  intros Hx Hy Hz Hxy Hxz Hyz. unfold orthonormal_columns.
  destruct (column_axes_matrix (vdiv x (norm x)) (vdiv y (norm y))
              (vdiv z (norm z))) as (-> & -> & ->).
  rewrite !norm_vdiv_unit, !dot_vdiv by assumption.
  rewrite Hxy, Hxz, Hyz. unfold Rdiv. rewrite !Rmult_0_l. repeat split.
Qed.

Lemma norm_cross_orthogonal a b :
  dot a a = 1 -> dot a b = 0 -> norm (cross a b) = norm b.
Proof.
  intros Ha Hab. unfold norm. f_equal.
  rewrite dot_cross_cross, Ha, Hab. ring.
Qed.

Lemma norm_cross_orthogonal_r a b :
  dot b b = 1 -> dot a b = 0 -> norm (cross a b) = norm a.
Proof.
  intros Hb Hab. unfold norm. f_equal.
  rewrite dot_cross_cross, Hb, Hab. ring.
Qed.

Ltac orthogonal :=
  first [ assumption | apply dot_cross_l | apply dot_cross_r
        | rewrite dot_comm;
          first [ assumption | apply dot_cross_l | apply dot_cross_r ] ].

(** With a unit principal axis that is not near-parallel to the reference
    axis, the three axes are orthonormal. *)
Lemma fit_axes_orthonormal a cylinder_axis :
  norm a = 1 ->
  1e-6 <= norm (cross (reference_axis cylinder_axis) a) ->
  orthonormal_columns (axes_matrix (fit_axes a cylinder_axis)).
Proof.
  intros Ha Href. pose proof (norm_unit_dot _ Ha) as Haa.
  unfold fit_axes, reference_axis in *.
  destruct (String.eqb cylinder_axis "X");
    [|destruct (String.eqb cylinder_axis "Y")]; cbv zeta.
  - (* x = a, y = (0,0,1) x a, z = a x y *)
    set (y := cross (0, 0, 1) a) in *.
    assert (Hay : dot a y = 0) by (rewrite dot_comm; apply dot_cross_r).
    assert (Hz : norm (cross a y) = norm y)
      by now apply norm_cross_orthogonal.
    destruct (Rlt_dec (norm y) 1e-6); [lra|].
    apply orthonormal_of_orthogonal; rewrite ?Hz; try lra; orthogonal.
  - (* y = a, x = (0,0,1) x a, z = x x y *)
    set (x := cross (0, 0, 1) a) in *.
    assert (Hxa : dot x a = 0) by apply dot_cross_r.
    assert (Hz : norm (cross x a) = norm x)
      by now apply norm_cross_orthogonal_r.
    destruct (Rlt_dec (norm a) 1e-6); [lra|].
    apply orthonormal_of_orthogonal; rewrite ?Hz; try lra; orthogonal.
  - (* z = a, x = (0,1,0) x a, y = a x x *)
    set (x := cross (0, 1, 0) a) in *.
    assert (Hax : dot a x = 0) by (rewrite dot_comm; apply dot_cross_r).
    assert (Hy : norm (cross a x) = norm x)
      by now apply norm_cross_orthogonal.
    destruct (Rlt_dec (norm (cross a x)) 1e-6); [lra|].
    apply orthonormal_of_orthogonal; rewrite ?Hy; try lra; orthogonal.
Qed.

(** *** Clouds of two points *)

Lemma np_mean_two p q : np_mean [p; q] = vscale (vadd p q) (/ 2).
Proof.
  vec_split. unfold np_mean, vdiv, vscale, vadd. cbn [fold_left List.length INR].
  apply vec3_eq; field.
Qed.

Lemma vsub_mean_l p q : vsub p (np_mean [p; q]) = vscale (vsub p q) (/ 2).
Proof.
  rewrite np_mean_two. vec_split. unfold vsub, vscale, vadd.
  apply vec3_eq; field.
Qed.

Lemma vsub_mean_r p q : vsub q (np_mean [p; q]) = vscale (vsub p q) (- / 2).
Proof.
  rewrite np_mean_two. vec_split. unfold vsub, vscale, vadd.
  apply vec3_eq; field.
Qed.

Lemma dot_vscale_l w k b : dot (vscale w k) b = k * dot w b.
Proof. vec_split. unfold dot, vscale. ring. Qed.

Lemma dot_vscale_self w k : dot (vscale w k) (vscale w k) = k * k * dot w w.
Proof. vec_split. unfold dot, vscale. ring. Qed.

Lemma dot_vsub_l p q a : dot (vsub p q) a = dot p a - dot q a.
Proof. vec_split. unfold dot, vsub. ring. Qed.

Lemma dot_reject v a t :
  dot (vsub v (vscale a t)) (vsub v (vscale a t)) =
  dot v v - 2 * t * dot v a + t * t * dot a a.
Proof. vec_split. unfold dot, vsub, vscale. ring. Qed.

Lemma distance_to_axis_sqr p c a :
  dot a a = 1 ->
  distance_to_axis p c a =
  sqrt (dot (vsub p c) (vsub p c) - dot (vsub p c) a * dot (vsub p c) a).
Proof.
  intros Ha. unfold distance_to_axis, norm. f_equal.
  rewrite dot_reject, Ha. ring.
Qed.

Lemma sum_sqr_zero x y z :
  x * x + y * y + z * z = 0 -> x = 0 /\ y = 0 /\ z = 0.
Proof.
  intros H.
  pose proof (Rle_0_sqr x) as Hx. pose proof (Rle_0_sqr y) as Hy.
  pose proof (Rle_0_sqr z) as Hz. unfold Rsqr in *.
  repeat split; apply Rsqr_0_uniq; unfold Rsqr; lra.
Qed.

Lemma vsub_distinct p q : p <> q -> 0 < dot (vsub p q) (vsub p q).
Proof.
  intros Hne. destruct (dot_self_nonneg (vsub p q)) as [H|H]; [assumption|].
  exfalso. apply Hne. vec_split. unfold dot, vsub in H.
  symmetry in H. apply sum_sqr_zero in H. destruct H as (H1 & H2 & H3).
  apply vec3_eq; lra.
Qed.

Lemma Rmax_minus_Rmin x y : Rmax x y - Rmin x y = Rabs (x - y).
Proof.
  unfold Rmax, Rmin, Rabs.
  destruct (Rle_dec x y), (Rcase_abs (x - y)); lra.
Qed.

(** The distance of a point on the line is zero, whatever the axis. *)
Lemma distance_to_axis_same p a : distance_to_axis p p a = 0.
Proof.
  unfold distance_to_axis. apply dot_zero_norm.
  vec_split. unfold dot, vsub, vscale. ring.
Qed.

(** The principal axis of two different points runs along the line
    through them. *)
Lemma principal_axis_two p q a :
  p <> q ->
  is_principal_axis [vsub p (np_mean [p; q]); vsub q (np_mean [p; q])] a ->
  dot a a = 1 /\
  dot (vsub p q) a * dot (vsub p q) a = dot (vsub p q) (vsub p q).
Proof.
  intros Hne (Ha & Hmax). apply norm_unit_dot in Ha. split; [assumption|].
  pose proof (vsub_distinct Hne) as Hw.
  set (w := vsub p q) in *.
  assert (Hn : norm w <> 0).
  { intros E. pose proof (norm_sqr w) as Hs. rewrite E in Hs. lra. }
  specialize (Hmax (vdiv w (norm w)) (@norm_vdiv_unit w Hn)).
  rewrite vsub_mean_l, vsub_mean_r in Hmax. fold w in Hmax.
  cbn [map fold_right] in Hmax. rewrite !dot_vscale_l in Hmax.
  assert (Hb : dot w (vdiv w (norm w)) = norm w).
  { replace (dot w (vdiv w (norm w))) with (dot w w / norm w).
    - rewrite <- norm_sqr. field. assumption.
    - clear. vec_split. unfold dot, vdiv. unfold Rdiv. ring. }
  rewrite Hb in Hmax.
  pose proof (norm_sqr w) as Hs.
  pose proof (cauchy_schwarz w a) as Hcs. rewrite Ha in Hcs.
  nra.
Qed.

Section fitter_correct.

Variable linalg_svd_vh : list vec3 -> vec3 * vec3 * vec3.

Local Abbreviation calculate_radius_height :=
  (calculate_radius_height linalg_svd_vh).
Local Abbreviation principal_axis_of := (principal_axis_of linalg_svd_vh).

Lemma calculate_radius_height_short points cylinder_axis :
  (len points < 2)%Z ->
  calculate_radius_height points cylinder_axis = Raise ValueError.
Proof.
  intros H. unfold calculate_radius_height.
  destruct (Z.ltb_spec (len points) 2); [reflexivity|lia].
Qed.

Lemma calculate_radius_height_eq points cylinder_axis :
  (2 <= len points)%Z ->
  calculate_radius_height points cylinder_axis =
  (let a := principal_axis_of points in
   let projections := map (fun p => dot p a) points in
   min_projection <- np_min projections ;;
   max_projection <- np_max projections ;;
   radius <- py_max (map (fun p => distance_to_axis p (np_mean points) a)
                       points) ;;
   Ok (radius, max_projection - min_projection,
       vadd (np_mean points)
         (vscale a ((min_projection + max_projection) / 2.0)),
       axes_matrix (fit_axes a cylinder_axis))).
Proof.
  intros H. unfold calculate_radius_height, principal_axis_of, fit_axes.
  destruct (Z.ltb_spec (len points) 2); [lia|].
  destruct (linalg_svd_vh _) as [[vh0 vh1] vh2]. cbn [fst]. cbv zeta.
  destruct (np_min _); [|reflexivity]. cbn [bind].
  destruct (np_max _); [|reflexivity]. cbn [bind].
  destruct (py_max _); [|reflexivity]. cbn [bind].
  destruct vh0 as [[pa0 pa1] pa2].
  destruct (String.eqb cylinder_axis "X");
    [|destruct (String.eqb cylinder_axis "Y")];
    cbv beta iota zeta delta [cross];
    destruct (Rlt_dec _ _); reflexivity.
Qed.

Lemma calculate_radius_height_spec points cylinder_axis :
  (2 <= len points)%Z ->
  let a := principal_axis_of points in
  exists min_projection max_projection radius,
    calculate_radius_height points cylinder_axis =
      Ok (radius, max_projection - min_projection,
          vadd (np_mean points)
            (vscale a ((min_projection + max_projection) / 2.0)),
          axes_matrix (fit_axes a cylinder_axis)) /\
    (forall p, In p points -> min_projection <= dot p a <= max_projection) /\
    (exists p, In p points /\ dot p a = min_projection) /\
    (exists p, In p points /\ dot p a = max_projection) /\
    (forall p, In p points -> distance_to_axis p (np_mean points) a <= radius) /\
    (exists p, In p points /\ distance_to_axis p (np_mean points) a = radius).
Proof.
  intros H a. rewrite calculate_radius_height_eq by assumption. fold a.
  cbv zeta.
  assert (Hne : points <> []).
  { intros ->. unfold len in H. simpl in H. lia. }
  assert (Hne' : forall (f : vec3 -> R), map f points <> []).
  { intros f E. apply map_eq_nil in E. contradiction. }
  destruct (np_min_spec (Hne' (fun p => dot p a))) as (mn & -> & Hmn & Hmn').
  destruct (np_max_spec (Hne' (fun p => dot p a))) as (mx & -> & Hmx & Hmx').
  destruct (py_max_spec (Hne' (fun p => distance_to_axis p (np_mean points) a)))
    as (r & -> & Hr & Hr').
  cbn [bind]. exists mn, mx, r. split; [reflexivity|].
  apply in_map_iff in Hmn', Hmx', Hr'.
  destruct Hmn' as (p1 & E1 & H1), Hmx' as (p2 & E2 & H2),
      Hr' as (p3 & E3 & H3).
  split.
  { intros p Hp.
    split; [apply Hmn|apply Hmx]; apply (in_map (fun p => dot p a));
      assumption. }
  split; [eauto|]. split; [eauto|]. split; [|eauto].
  intros p Hp. apply Hr.
  apply (in_map (fun p => distance_to_axis p (np_mean points) a)).
  assumption.
Qed.

(** The axial coordinate of the returned center, for a unit axis: the
    midpoint of the projections plus the projection of the centroid. *)
Lemma fit_center_projection points a mn mx :
  dot a a = 1 ->
  dot (vadd (np_mean points) (vscale a ((mn + mx) / 2.0))) a =
  dot (np_mean points) a + (mn + mx) / 2.
Proof.
  intros Ha. generalize (np_mean points) as c. intros c.
  replace (dot (vadd c (vscale a ((mn + mx) / 2.0))) a)
    with (dot c a + (mn + mx) / 2.0 * dot a a)
    by (vec_split; unfold dot, vadd, vscale; ring).
  rewrite Ha. lra.
Qed.

Lemma np_mean_same p : np_mean [p; p] = p.
Proof.
  rewrite np_mean_two. vec_split. unfold vscale, vadd. apply vec3_eq; field.
Qed.

(** Two identical points: no error, radius 0 and height 0. *)
Lemma fit_identical_points p cylinder_axis :
  exists center rotation,
    calculate_radius_height [p; p] cylinder_axis =
      Ok (0, 0, center, rotation).
Proof.
  destruct (@calculate_radius_height_spec [p; p] cylinder_axis)
    as (mn & mx & r & E & _ & (p1 & H1 & E1) & (p2 & H2 & E2) & _
        & (p3 & H3 & E3)).
  { unfold len. simpl. lia. }
  set (a := principal_axis_of [p; p]) in *.
  assert (Hall : forall x, In x [p; p] -> x = p).
  { intros x [<-|[<-|[]]]; reflexivity. }
  apply Hall in H1, H2, H3. subst p1 p2 p3.
  rewrite np_mean_same, distance_to_axis_same in E3.
  rewrite E. subst r. replace (mx - mn) with 0 by lra. eauto.
Qed.

(** Two different points, the singular vector being what numpy promises:
    radius 0 and the distance between the points as height. *)
Lemma fit_distinct_points p q cylinder_axis :
  p <> q ->
  is_principal_axis (map (fun x => vsub x (np_mean [p; q])) [p; q])
    (principal_axis_of [p; q]) ->
  exists center rotation,
    calculate_radius_height [p; q] cylinder_axis =
      Ok (0, norm (vsub p q), center, rotation).
Proof.
  intros Hne Hax.
  destruct (@calculate_radius_height_spec [p; q] cylinder_axis)
    as (mn & mx & r & E & Hb & (p1 & H1 & E1) & (p2 & H2 & E2) & _
        & (p3 & H3 & E3)).
  { unfold len. simpl. lia. }
  set (a := principal_axis_of [p; q]) in *.
  cbn [map] in Hax.
  destruct (principal_axis_two Hne Hax) as (Ha & Hwa).
  set (w := vsub p q) in *.
  (* the radius *)
  assert (Hdist : forall x, In x [p; q] ->
                            distance_to_axis x (np_mean [p; q]) a = 0).
  { intros x Hx. rewrite distance_to_axis_sqr by assumption.
    assert (Hk : exists k, vsub x (np_mean [p; q]) = vscale w k).
    { destruct Hx as [<-|[<-|[]]];
        [exists (/ 2); apply vsub_mean_l|exists (- / 2); apply vsub_mean_r]. }
    destruct Hk as (k & ->).
    rewrite dot_vscale_self, !dot_vscale_l.
    replace (k * k * dot w w - k * dot w a * (k * dot w a))
      with (k * k * (dot w w - dot w a * dot w a)) by ring.
    rewrite Hwa, Rminus_diag, Rmult_0_r. apply sqrt_0. }
  rewrite (Hdist p3 H3) in E3. subst r.
  (* the height *)
  assert (Hh : mx - mn = norm w).
  { assert (Habs : mx - mn = Rabs (dot w a)).
    { unfold w. rewrite dot_vsub_l.
      pose proof (Hb p (or_introl eq_refl)) as Hp.
      pose proof (Hb q (or_intror (or_introl eq_refl))) as Hq.
      unfold Rabs. destruct (Rcase_abs (dot p a - dot q a));
        destruct H1 as [<-|[<-|[]]]; destruct H2 as [<-|[<-|[]]]; lra. }
    rewrite Habs, <- sqrt_Rsqr_abs. unfold Rsqr, norm. now rewrite Hwa. }
  rewrite E, Hh. eauto.
Qed.

End fitter_correct.

(** *** The rotation: its hand and the column of the hint *)

Lemma det3_axes_matrix x y z :
  det3 (axes_matrix (x, y, z)) = dot (cross x y) z.
Proof.
  vec_split. unfold det3, axes_matrix, to_4x4, dot, cross.
  cbn [map app nth]. ring.
Qed.

Lemma dot_cross_vdiv x y z k l n :
  k <> 0 -> l <> 0 -> n <> 0 ->
  dot (cross (vdiv x k) (vdiv y l)) (vdiv z n) =
  dot (cross x y) z / (k * l * n).
Proof.
  intros Hk Hl Hn. vec_split. unfold dot, cross, vdiv. field. auto.
Qed.

(** The scalar triple product does not change when its vectors are
    moved round. *)
Lemma triple_cyclic x y a : dot (cross x y) a = dot (cross a x) y.
Proof. vec_split. unfold dot, cross. ring. Qed.

Lemma det3_right_handed x y z :
  norm x <> 0 -> norm y <> 0 -> norm z <> 0 ->
  dot (cross x y) z = norm x * norm y * norm z ->
  det3 (axes_matrix (vdiv x (norm x), vdiv y (norm y), vdiv z (norm z))) = 1.
Proof.
  intros Hx Hy Hz E.
  rewrite det3_axes_matrix, dot_cross_vdiv, E by assumption.
  field. auto.
Qed.

(** With a unit principal axis that is not near-parallel to the reference
    axis, the three axes are right-handed. *)
Lemma fit_axes_det a cylinder_axis :
  norm a = 1 ->
  1e-6 <= norm (cross (reference_axis cylinder_axis) a) ->
  det3 (axes_matrix (fit_axes a cylinder_axis)) = 1.
Proof.
  intros Ha Href. pose proof (norm_unit_dot _ Ha) as Haa.
  unfold fit_axes, reference_axis in *.
  destruct (String.eqb cylinder_axis "X");
    [|destruct (String.eqb cylinder_axis "Y")]; cbv zeta.
  - set (y := cross (0, 0, 1) a) in *.
    assert (Hay : dot a y = 0) by (rewrite dot_comm; apply dot_cross_r).
    assert (Hz : norm (cross a y) = norm y)
      by now apply norm_cross_orthogonal.
    destruct (Rlt_dec (norm y) 1e-6); [lra|].
    apply det3_right_handed; rewrite ?Hz; try lra.
    rewrite <- (norm_sqr (cross a y)), Hz, Ha. ring.
  - set (x := cross (0, 0, 1) a) in *.
    assert (Hxa : dot x a = 0) by apply dot_cross_r.
    assert (Hz : norm (cross x a) = norm x)
      by now apply norm_cross_orthogonal_r.
    destruct (Rlt_dec (norm a) 1e-6); [lra|].
    apply det3_right_handed; rewrite ?Hz; try lra.
    rewrite <- (norm_sqr (cross x a)), Hz, Ha. ring.
  - set (x := cross (0, 1, 0) a) in *.
    assert (Hax : dot a x = 0) by (rewrite dot_comm; apply dot_cross_r).
    assert (Hy : norm (cross a x) = norm x)
      by now apply norm_cross_orthogonal.
    destruct (Rlt_dec (norm (cross a x)) 1e-6); [lra|].
    apply det3_right_handed; rewrite ?Hy; try lra.
    rewrite triple_cyclic, <- (norm_sqr (cross a x)), Hy, Ha. ring.
Qed.

Lemma vdiv_unit a : norm a = 1 -> vdiv a (norm a) = a.
Proof.
  intros ->. vec_split. unfold vdiv. apply vec3_eq; field.
Qed.

(** The column the hint names is the unit principal axis, whatever the
    other two are. *)
Lemma fit_axes_hint_column a cylinder_axis :
  norm a = 1 ->
  column (axes_matrix (fit_axes a cylinder_axis)) (hint_column cylinder_axis) = a.
Proof.
  intros Ha. unfold fit_axes, hint_column.
  destruct (String.eqb cylinder_axis "X");
    [|destruct (String.eqb cylinder_axis "Y")]; cbv zeta;
    destruct (Rlt_dec _ _); try (exfalso; lra);
    match goal with
    | |- column (axes_matrix (?x, ?y, ?z)) _ = _ =>
        destruct (column_axes_matrix x y z) as (E0 & E1 & E2)
    end;
    rewrite ?E0, ?E1, ?E2; now apply vdiv_unit.
Qed.

(** Under any hint but X and Y, when the second axis is shorter than the
    threshold it is computed anew as what the first axis is: the first
    two columns are the same, and the matrix is no rotation. *)
Lemma fit_axes_fallback a cylinder_axis :
  cylinder_axis <> "X"%string -> cylinder_axis <> "Y"%string ->
  norm (cross a (cross (0, 1, 0) a)) < 1e-6 ->
  let m := axes_matrix (fit_axes a cylinder_axis) in
  column m 0 = column m 1 /\ ~ orthonormal_columns m.
Proof.
  intros HX HY Hy. apply String.eqb_neq in HX, HY.
  cbv zeta. unfold fit_axes. rewrite HX, HY. cbv zeta.
  destruct (Rlt_dec _ _) as [_|Hn]; [|contradiction].
  set (x := cross (0, 1, 0) a).
  destruct (column_axes_matrix (vdiv x (norm x)) (vdiv x (norm x))
              (vdiv a (norm a))) as (E0 & E1 & _).
  assert (E : column (axes_matrix (vdiv x (norm x), vdiv x (norm x),
                                   vdiv a (norm a))) 0 =
              column (axes_matrix (vdiv x (norm x), vdiv x (norm x),
                                   vdiv a (norm a))) 1)
    by now rewrite E0, E1.
  split; [exact E|].
  intros (H0 & _ & _ & H01 & _). rewrite <- E in H01.
  apply dot_zero_norm in H01. lra.
Qed.

(** *** Moving the points *)

Lemma fold_left_vadd_shift d l acc k :
  fold_left vadd (map (fun p => vadd p d) l) (vadd acc (vscale d k)) =
  vadd (fold_left vadd l acc) (vscale d (k + INR (List.length l))).
Proof.
  revert acc k. induction l as [|p l IH]; intros acc k; cbn [map fold_left].
  - cbn [List.length INR]. now rewrite Rplus_0_r.
  - replace (vadd (vadd acc (vscale d k)) (vadd p d))
      with (vadd (vadd acc p) (vscale d (k + 1)))
      by (vec_split; unfold vadd, vscale; apply vec3_eq; ring).
    rewrite IH. cbn [List.length]. rewrite S_INR.
    f_equal. f_equal. ring.
Qed.

Lemma np_mean_shift d l :
  l <> [] -> np_mean (map (fun p => vadd p d) l) = vadd (np_mean l) d.
Proof.
  intros Hl. unfold np_mean. rewrite length_map.
  replace ((0, 0, 0) : vec3) with (vadd (0, 0, 0) (vscale d 0)) at 1
    by (vec_split; unfold vadd, vscale; apply vec3_eq; ring).
  rewrite fold_left_vadd_shift.
  assert (Hn : INR (List.length l) <> 0).
  { apply not_0_INR. destruct l; [contradiction|discriminate]. }
  generalize dependent (INR (List.length l)). intros n Hn.
  generalize (fold_left vadd l (0, 0, 0)). intros s.
  vec_split. unfold vdiv, vadd, vscale. apply vec3_eq; field; assumption.
Qed.

Lemma vsub_shift p c d : vsub (vadd p d) (vadd c d) = vsub p c.
Proof. vec_split. unfold vsub, vadd. apply vec3_eq; ring. Qed.

Lemma centered_shift d l :
  l <> [] ->
  map (fun p => vsub p (np_mean (map (fun p => vadd p d) l)))
    (map (fun p => vadd p d) l) =
  map (fun p => vsub p (np_mean l)) l.
Proof.
  intros Hl. rewrite np_mean_shift, map_map by assumption.
  apply map_ext. intros p. apply vsub_shift.
Qed.

Lemma dot_vadd_l p d a : dot (vadd p d) a = dot p a + dot d a.
Proof. vec_split. unfold dot, vadd. ring. Qed.

Lemma Rmin_shift x y k : Rmin (x + k) (y + k) = Rmin x y + k.
Proof. unfold Rmin. repeat destruct (Rle_dec _ _); lra. Qed.

Lemma Rmax_shift x y k : Rmax (x + k) (y + k) = Rmax x y + k.
Proof. unfold Rmax. repeat destruct (Rle_dec _ _); lra. Qed.

Lemma np_min_shift xs k mn :
  np_min xs = Ok mn -> np_min (map (fun y => y + k) xs) = Ok (mn + k).
Proof.
  destruct xs as [|x xs]; [discriminate|]. cbn [np_min map].
  intros E. apply Ok_inj in E. subst mn. f_equal.
  revert x. induction xs as [|y xs IH]; intros x; cbn [map fold_left].
  - reflexivity.
  - rewrite Rmin_shift. apply IH.
Qed.

Lemma np_max_shift xs k mx :
  np_max xs = Ok mx -> np_max (map (fun y => y + k) xs) = Ok (mx + k).
Proof.
  destruct xs as [|x xs]; [discriminate|]. cbn [np_max map].
  intros E. apply Ok_inj in E. subst mx. f_equal.
  revert x. induction xs as [|y xs IH]; intros x; cbn [map fold_left].
  - reflexivity.
  - rewrite Rmax_shift. apply IH.
Qed.

Section fitter_moves.

Variable linalg_svd_vh : list vec3 -> vec3 * vec3 * vec3.

Local Abbreviation calculate_radius_height :=
  (calculate_radius_height linalg_svd_vh).
Local Abbreviation principal_axis_of := (principal_axis_of linalg_svd_vh).

Lemma len_nonempty {A : Type} (l : list A) : (2 <= len l)%Z -> l <> [].
Proof. intros H ->. unfold len in H. simpl in H. lia. Qed.

Lemma principal_axis_shift d points :
  points <> [] ->
  principal_axis_of (map (fun p => vadd p d) points) = principal_axis_of points.
Proof.
  intros Hne. unfold principal_axis_of. now rewrite centered_shift.
Qed.

End fitter_moves.

(** *** The Fitter where the decomposition may raise *)

Section fitter_raising.

Variable linalg_svd : list vec3 -> res (vec3 * vec3 * vec3).

Local Abbreviation calculate_radius_height_raising :=
  (calculate_radius_height_raising linalg_svd).

Lemma calculate_radius_height_raising_short points cylinder_axis :
  (len points < 2)%Z ->
  calculate_radius_height_raising points cylinder_axis = Raise ValueError.
Proof.
  intros H. unfold calculate_radius_height_raising.
  destruct (Z.ltb_spec (len points) 2); [reflexivity|lia].
Qed.

(** When the decomposition returns, the Fitter is the Fitter. *)
Lemma calculate_radius_height_raising_returns points cylinder_axis vh :
  (2 <= len points)%Z ->
  linalg_svd (map (fun p => vsub p (np_mean points)) points) = Ok vh ->
  calculate_radius_height_raising points cylinder_axis =
  calculate_radius_height (fun _ => vh) points cylinder_axis.
Proof.
  intros H E. unfold calculate_radius_height_raising, calculate_radius_height.
  destruct (Z.ltb_spec (len points) 2); [lia|].
  rewrite E. cbn [bind]. destruct vh as [[vh0 vh1] vh2]. reflexivity.
Qed.

(** What the decomposition raises, the Fitter raises. *)
Lemma calculate_radius_height_raising_raises points cylinder_axis e :
  (2 <= len points)%Z ->
  linalg_svd (map (fun p => vsub p (np_mean points)) points) = Raise e ->
  calculate_radius_height_raising points cylinder_axis = Raise e.
Proof.
  intros H E. unfold calculate_radius_height_raising.
  destruct (Z.ltb_spec (len points) 2); [lia|].
  rewrite E. reflexivity.
Qed.

End fitter_raising.

Local Close Scope R_scope.

(* ================================================================== *)
(** ** The conversion to a BMesh *)
(* ================================================================== *)

(** *** Lists filled entry by entry *)

Lemma getitem_zth {A : Type} (l : list A) i x :
  zth l i = Some x -> getitem l i = Ok x.
Proof.
  intros E. destruct (@getitem_ok _ l i (@zth_Some_lt _ l i x E))
    as (y & -> & Ey).
  congruence.
Qed.

Lemma getitem_raise {A : Type} (l : list A) i e :
  getitem l i = Raise e -> e = IndexError.
Proof.
  unfold getitem, subscript. cbv zeta.
  destruct (_ && _); cbn [bind].
  - destruct (nth_error _ _); congruence.
  - congruence.
Qed.

Lemma zupd_middle {A : Type} (l1 l2 : list A) d v i :
  len l1 = i -> zupd (l1 ++ d :: l2) i v = l1 ++ v :: l2.
Proof.
  unfold zupd, len. intros <-. rewrite Nat2Z.id.
  induction l1 as [|x l1 IH]; simpl; congruence.
Qed.

Lemma list_repeat_succ {A : Type} (d : A) n :
  0 < n -> list_repeat d n = d :: list_repeat d (n - 1).
Proof.
  intros Hn. unfold list_repeat.
  replace (Z.to_nat n) with (S (Z.to_nat (n - 1))) by lia. reflexivity.
Qed.

Lemma len_nil_inv {A : Type} (l : list A) : len l = 0 -> l = [].
Proof. destruct l; [reflexivity|]. unfold len. simpl. lia. Qed.

(** A list allocated with a filler and assigned entry after entry is the
    list of the entries. *)
Lemma fill_loop {A : Type} (body : Z -> list A -> res (list A))
    (xs : list A) d :
  (forall j x l, zth xs j = Some x -> len l = len xs ->
                 body j l = Ok (zupd l j x)) ->
  for_each (range 0 (len xs)) body (list_repeat d (len xs)) = Ok xs.
Proof.
  intros Hb.
  destruct (@for_each_range_inv _
              (fun j l => exists done rest,
                   xs = done ++ rest /\ len done = j /\
                   l = done ++ list_repeat d (len rest))
              body 0 (len xs) (list_repeat d (len xs)))
    as (l & E & done & rest & Hx & Hl & ->).
  - apply len_nonneg.
  - exists [], xs. repeat split.
  - intros j l Hj (done & rest & Hx & Hd & ->).
    destruct rest as [|x rest].
    { rewrite app_nil_r in Hx. subst xs. lia. }
    pose proof (len_nonneg rest) as Hr.
    rewrite (Hb j x).
    + eexists. split; [reflexivity|]. exists (done ++ [x]), rest.
      split; [subst xs; now rewrite <- app_assoc|].
      split; [rewrite len_app; change (len [x]) with 1; lia|].
      rewrite len_cons, list_repeat_succ by lia.
      replace (1 + len rest - 1) with (len rest) by lia.
      rewrite zupd_middle by assumption. now rewrite <- app_assoc.
    + subst xs. rewrite zth_app_r by lia.
      replace (j - len done) with 0 by lia. reflexivity.
    + rewrite len_app, len_list_repeat, Hx, len_app by apply len_nonneg.
      reflexivity.
  - rewrite E. f_equal.
    assert (Hr : len rest = 0).
    { rewrite Hx, len_app in Hl. lia. }
    apply len_nil_inv in Hr. subst rest. now rewrite app_nil_r in *.
Qed.

(** *** Lists related entry by entry *)

Lemma Forall2_len {A B : Type} (R : A -> B -> Prop) l1 l2 :
  Forall2 R l1 l2 -> len l1 = len l2.
Proof. intros H. unfold len. now rewrite (Forall2_length H). Qed.

Lemma Forall2_nth_error_r {A B : Type} (R : A -> B -> Prop) l1 l2 n a :
  Forall2 R l1 l2 -> nth_error l1 n = Some a ->
  exists b, nth_error l2 n = Some b /\ R a b.
Proof.
  intros H. revert n. induction H as [|x y l1 l2 Hxy H IH]; intros [|n] E;
    simpl in *; try discriminate.
  - exists y. split; congruence.
  - now apply IH.
Qed.

Lemma Forall2_zth_r {A B : Type} (R : A -> B -> Prop) l1 l2 k a :
  Forall2 R l1 l2 -> zth l1 k = Some a ->
  exists b, zth l2 k = Some b /\ R a b.
Proof.
  unfold zth. destruct (k <? 0); [discriminate|].
  apply Forall2_nth_error_r.
Qed.

Lemma Forall2_In_r {A B : Type} (R : A -> B -> Prop) l1 l2 a :
  Forall2 R l1 l2 -> In a l1 -> exists b, In b l2 /\ R a b.
Proof.
  induction 1 as [|x y l1 l2 Hxy H IH]; intros Ha; [contradiction|].
  destruct Ha as [->|Ha].
  - exists y. split; [now left|assumption].
  - destruct (IH Ha) as (b & Hb & Hab). exists b. split; [now right|assumption].
Qed.

Lemma Forall2_In_l {A B : Type} (R : A -> B -> Prop) l1 l2 b :
  Forall2 R l1 l2 -> In b l2 -> exists a, In a l1 /\ R a b.
Proof.
  induction 1 as [|x y l1 l2 Hxy H IH]; intros Hb; [contradiction|].
  destruct Hb as [->|Hb].
  - exists x. split; [now left|assumption].
  - destruct (IH Hb) as (a & Ha & Hab). exists a. split; [now right|assumption].
Qed.

Lemma NoDup_zth_inj {A : Type} (l : list A) i j x :
  NoDup l -> zth l i = Some x -> zth l j = Some x -> i = j.
Proof.
  intros Hnd Ei Ej.
  pose proof (zth_Some_lt _ _ Ei) as Hi. pose proof (zth_Some_lt _ _ Ej) as Hj.
  unfold zth, len in *.
  destruct (Z.ltb_spec i 0); [lia|]. destruct (Z.ltb_spec j 0); [lia|].
  rewrite NoDup_nth_error in Hnd.
  assert (Z.to_nat i = Z.to_nat j); [|lia].
  apply Hnd; [lia|congruence].
Qed.

Lemma NoDup_snoc {A : Type} (l : list A) x :
  NoDup l -> ~ In x l -> NoDup (l ++ [x]).
Proof.
  intros Hl Hx. induction Hl as [|y l Hy Hl IH]; simpl.
  - constructor; [intros []|constructor].
  - constructor.
    + rewrite in_app_iff. intros [H|[->|[]]]; [contradiction|].
      apply Hx. now left.
    + apply IH. intros H. apply Hx. now right.
Qed.

Lemma valid_face_zth n (f : face) k x :
  valid_face n f -> zth f k = Some x -> 0 <= x < n.
Proof.
  intros Hf E. unfold valid_face in Hf. rewrite Forall_forall in Hf.
  apply Hf. eapply zth_In, E.
Qed.

(** *** The loops of the conversion *)

Section bmesh_correct.

Variable api : bmesh_api.
Variable verts_of : BMesh api -> list (BMVert api).
Variable faces_of : BMesh api -> list (list (BMVert api)).
Hypothesis laws : bmesh_laws api verts_of faces_of.

(** The vertices of the mesh that the indices of a face name. *)
Local Abbreviation named_by verts :=
  (Forall2 (fun (v : BMVert api) (i : Z) => zth verts i = Some v)).

Lemma named_exist (verts : list (BMVert api)) (f : face) :
  valid_face (len verts) f -> exists fv, named_by verts fv f.
Proof.
  unfold valid_face. induction 1 as [|i f Hi Hf (fv & IH)].
  - exists []. constructor.
  - destruct (zth_lt_Some verts Hi) as (v & Hv).
    exists (v :: fv). now constructor.
Qed.

Lemma named_NoDup (verts : list (BMVert api)) fv (f : face) :
  NoDup verts -> NoDup f -> named_by verts fv f -> NoDup fv.
Proof.
  intros Hnd Hf H. induction H as [|v i fv f Hvi H IH]; [constructor|].
  inversion Hf as [|? ? Hi Hf']; subst. constructor; [|now apply IH].
  intros Hv. destruct (Forall2_In_r _ H Hv) as (i' & Hi' & Hvi').
  cbv beta in Hvi'.
  assert (i = i') by apply (NoDup_zth_inj _ _ Hnd Hvi Hvi').
  subst i'. contradiction.
Qed.

Lemma named_incl (verts : list (BMVert api)) fv (f : face) :
  named_by verts fv f -> incl fv verts.
Proof.
  intros H v Hv. destruct (Forall2_In_r _ H Hv) as (i & _ & Hvi).
  eapply zth_In, Hvi.
Qed.

(** Faces on the same vertices have the same indices. *)
Lemma named_same_corners (verts : list (BMVert api)) fv gv (f g : face) :
  NoDup verts -> named_by verts fv f -> named_by verts gv g ->
  same_corners gv fv -> same_corners f g.
Proof.
  intros Hnd Hf Hg Hs i. split; intros Hi.
  - destruct (Forall2_In_l _ Hf Hi) as (v & Hv & Hvi).
    apply Hs in Hv. destruct (Forall2_In_r _ Hg Hv) as (i' & Hi' & Hvi').
    cbv beta in *. now rewrite (NoDup_zth_inj _ _ Hnd Hvi Hvi').
  - destruct (Forall2_In_l _ Hg Hi) as (v & Hv & Hvi).
    apply Hs in Hv. destruct (Forall2_In_r _ Hf Hv) as (i' & Hi' & Hvi').
    cbv beta in *. now rewrite (NoDup_zth_inj _ _ Hnd Hvi Hvi').
Qed.

(** The first loop makes a vertex for each entry of [vs]. *)
Lemma loop_verts_ok (vs : list vec3) :
  exists verts bm,
    for_each (range 0 (len vs)) (loop_verts api vs)
      (list_repeat None (len vs), bmesh_new api) = Ok (map Some verts, bm) /\
    verts_of bm = verts /\ len verts = len vs /\ NoDup verts /\
    faces_of bm = [].
Proof.
  destruct laws as [(Hnv & Hnf) Hvn _ _ _ _].
  destruct (@for_each_range_inv _
              (fun j (st : list (option (BMVert api)) * BMesh api) =>
                 exists verts,
                   fst st = map Some verts ++ list_repeat None (len vs - j) /\
                   len verts = j /\ verts_of (snd st) = verts /\
                   NoDup verts /\ faces_of (snd st) = [])
              (loop_verts api vs) 0 (len vs)
              (list_repeat None (len vs), bmesh_new api))
    as ((bm_verts & bm) & E & verts & Hb & Hl & Hv & Hnd & Hf).
  - apply len_nonneg.
  - exists []. cbn [fst snd map app]. rewrite Z.sub_0_r.
    repeat split; try assumption. constructor.
  - intros j (bm_verts & bm) Hj (verts & Hb & Hl & Hv & Hnd & Hf).
    cbn [fst snd] in *. subst bm_verts. unfold loop_verts.
    destruct (@getitem_ok _ vs j Hj) as (co & -> & _). cbn [bind].
    destruct (Hvn co bm) as (v & bm' & -> & Hfresh & Hv' & Hf').
    cbn [bind]. rewrite setitem_ok.
    2:{ rewrite len_app, len_map, len_list_repeat by lia. lia. }
    cbn [bind]. eexists. split; [reflexivity|].
    exists (verts ++ [v]). cbn [fst snd].
    split.
    { rewrite list_repeat_succ by lia.
      rewrite zupd_middle by (rewrite len_map; assumption).
      rewrite map_app, <- app_assoc. cbn [map app].
      now replace (len vs - (j + 1)) with (len vs - j - 1) by lia. }
    split; [rewrite len_app; change (len [v]) with 1; lia|].
    split; [congruence|].
    split; [apply NoDup_snoc; congruence|congruence].
  - cbn [fst snd] in *. exists verts, bm.
    rewrite E, Hb. replace (len vs - len vs) with 0 by lia.
    change (list_repeat None 0) with (@nil (option (BMVert api))).
    rewrite app_nil_r. auto.
Qed.

(** The loop over the corners of a face finds the vertices its indices
    name. *)
Lemma loop_face_verts_ok (verts : list (BMVert api)) fv (f : face) :
  named_by verts fv f ->
  for_each (range 0 (len f)) (loop_face_verts api (map Some verts) f)
    (list_repeat None (len f)) = Ok (map Some fv).
Proof.
  intros H.
  replace (len f) with (len (map Some fv))
    by (rewrite len_map; apply (Forall2_len H)).
  apply fill_loop. intros j x l Hx Hl.
  apply zth_map_Some in Hx. destruct Hx as (v & Hv & <-).
  destruct (Forall2_zth_r _ H Hv) as (i & Hi & Hvi). cbv beta in Hvi.
  unfold loop_face_verts.
  rewrite (getitem_zth _ _ Hi). cbn [bind].
  rewrite (@getitem_zth _ (map Some verts) i (Some v))
    by (rewrite zth_map, Hvi; reflexivity).
  cbn [bind]. apply setitem_ok.
  rewrite Hl, len_map. apply (zth_Some_lt _ _ Hv).
Qed.

(** The loop that assigns texture coordinates and normals raises
    nothing and leaves the vertices and the faces as they are. *)
Lemma loop_corners_ok (vts : list vec2) (vns : list vec3) (tf nf : face)
    layer loops n bm :
  len loops = n -> len tf = n -> len nf = n ->
  valid_face (len vts) tf -> valid_face (len vns) nf ->
  exists bm',
    for_each (range 0 n) (loop_corners api vts vns tf nf layer loops) bm =
      Ok bm' /\
    verts_of bm' = verts_of bm /\ faces_of bm' = faces_of bm.
Proof.
  intros Hl Ht Hn Hvt Hvn.
  destruct laws as [_ _ _ _ Hsu Hsn].
  apply (@for_each_range_inv _
           (fun _ bm' => verts_of bm' = verts_of bm /\
                         faces_of bm' = faces_of bm)).
  - subst n. apply len_nonneg.
  - split; reflexivity.
  - intros k bm1 Hk (Hv1 & Hf1). unfold loop_corners.
    destruct (@getitem_ok _ loops k ltac:(lia)) as (lp & -> & _).
    destruct (@getitem_ok _ tf k ltac:(lia)) as (ti & -> & Eti).
    destruct (@getitem_ok _ nf k ltac:(lia)) as (ni & Eni' & Eni).
    cbn [bind].
    destruct (@getitem_ok _ vts ti (valid_face_zth _ Hvt Eti)) as (uv & -> & _).
    cbn [bind].
    destruct (Hsu lp layer uv bm1) as (bm2 & -> & Hv2 & Hf2). cbn [bind].
    rewrite Eni'. cbn [bind].
    destruct (@getitem_ok _ vns ni (valid_face_zth _ Hvn Eni)) as (nn & -> & _).
    cbn [bind].
    destruct (Hsn lp nn bm2) as (bm3 & -> & Hv3 & Hf3).
    exists bm3. split; [reflexivity|]. split; congruence.
Qed.

(** The loop over the faces makes a face for each face of
    [v_indices]. *)
Lemma loop_faces_ok (m : mesh) verts layer bm :
  bmesh_ready m ->
  len verts = len (vs m) -> NoDup verts ->
  verts_of bm = verts -> faces_of bm = [] ->
  exists bm_faces bm',
    for_each (range 0 (len (v_indices m)))
      (loop_faces api (vts m) (vns m) (v_indices m) (vt_indices m)
         (vn_indices m) (map Some verts) layer)
      (list_repeat None (len (v_indices m)), bm) = Ok (bm_faces, bm') /\
    verts_of bm' = verts /\
    Forall2 (named_by verts) (faces_of bm') (v_indices m).
Proof.
  intros (Hlt & Hln & Hready) Hlv Hnd Hv Hf.
  destruct laws as [_ _ _ Hfn _ _].
  destruct (@for_each_range_inv _
              (fun i (st : list (option (BMFace api)) * BMesh api) =>
                 len (fst st) = len (v_indices m) /\
                 verts_of (snd st) = verts /\
                 exists done rest,
                   v_indices m = done ++ rest /\ len done = i /\
                   Forall2 (named_by verts) (faces_of (snd st)) done)
              (loop_faces api (vts m) (vns m) (v_indices m) (vt_indices m)
                 (vn_indices m) (map Some verts) layer)
              0 (len (v_indices m))
              (list_repeat None (len (v_indices m)), bm))
    as ((bm_faces & bm') & E & Hlen & Hv' & done & rest & Hx & Hd & Hall).
  - apply len_nonneg.
  - cbn [fst snd]. split; [apply len_list_repeat, len_nonneg|].
    split; [assumption|]. exists [], (v_indices m).
    rewrite Hf. repeat split. constructor.
  - intros i (bm_faces & bm1) Hi (Hlen & Hv1 & done & rest & Hx & Hd & Hall).
    cbn [fst snd] in *.
    destruct rest as [|f rest].
    { rewrite app_nil_r in Hx. rewrite Hx in Hi. lia. }
    assert (Ef : zth (v_indices m) i = Some f).
    { rewrite Hx, zth_app_r by lia.
      replace (i - len done) with 0 by lia. reflexivity. }
    destruct (Hready i f Ef)
      as (H3 & Hfnd & Hfv & (tf & nf & Etf & Enf & Hltf & Hlnf & Hvtf & Hvnf)
          & Huniq).
    rewrite <- Hlv in Hfv.
    destruct (@named_exist verts f Hfv) as (fv & Hnamed).
    unfold loop_faces.
    rewrite (getitem_zth _ _ Ef), (getitem_zth _ _ Etf), (getitem_zth _ _ Enf).
    cbn [bind]. cbv zeta.
    rewrite (@loop_face_verts_ok verts fv f Hnamed). cbn [bind].
    pose proof (Forall2_length Hnamed) as Hlfv.
    destruct (Hfn fv bm1) as (bf & bm2 & -> & Hv2 & Hf2 & Hloops).
    { unfold len in H3. lia. }
    { exact (@named_NoDup verts fv f Hnd Hfnd Hnamed). }
    { rewrite Hv1. exact (@named_incl verts fv f Hnamed). }
    { intros gv Hgv Hsame.
      destruct (Forall2_In_r _ Hall Hgv) as (g & Hg & Hgnamed).
      apply In_nth_error in Hg. destruct Hg as (k & Hk).
      assert (Hkl : (k < List.length done)%nat).
      { apply nth_error_Some. unfold face in *. congruence. }
      assert (Ek : zth (v_indices m) (Z.of_nat k) = Some g).
      { rewrite Hx, zth_app_l by (unfold len; lia).
        unfold zth. destruct (Z.ltb_spec (Z.of_nat k) 0); [lia|].
        now rewrite Nat2Z.id. }
      pose proof (@named_same_corners verts fv gv f g Hnd Hnamed Hgnamed Hsame) as Hs.
      pose proof (Huniq _ _ Ek Hs). unfold len in Hd. lia. }
    cbn [bind]. rewrite setitem_ok by lia. cbn [bind].
    destruct (@loop_corners_ok (vts m) (vns m) tf nf layer
                (face_loops api bf bm2) (len f) bm2)
      as (bm3 & -> & Hv3 & Hf3); try assumption.
    { unfold len. rewrite Hloops, Hlfv. reflexivity. }
    cbn [bind]. eexists. split; [reflexivity|]. cbn [fst snd].
    split; [now rewrite len_zupd|]. split; [congruence|].
    exists (done ++ [f]), rest.
    split; [now rewrite <- app_assoc|].
    split; [rewrite len_app; change (len [f]) with 1; lia|].
    rewrite Hf3, Hf2. apply Forall2_app; [assumption|].
    constructor; [assumption|constructor].
  - cbn [fst snd] in *. exists bm_faces, bm'. split; [exact E|].
    split; [assumption|].
    assert (Hr : len rest = 0) by (rewrite Hx, len_app in Hd; lia).
    apply len_nil_inv in Hr. subst rest. rewrite app_nil_r in Hx.
    now rewrite Hx.
Qed.

(** On a mesh that is ready for it, the conversion raises nothing and
    returns the mesh of the lists. *)
Lemma mesh_data_to_bmesh_ok (m : mesh) :
  bmesh_ready m ->
  exists bm,
    mesh_data_to_bmesh api (vs m) (vts m) (vns m) (v_indices m)
      (vt_indices m) (vn_indices m) = Ok bm /\
    bmesh_of api verts_of faces_of (vs m) (v_indices m) bm.
Proof.
  intros Hready. unfold mesh_data_to_bmesh. cbv zeta.
  destruct (loop_verts_ok (vs m)) as (verts & bm1 & -> & Hv1 & Hl & Hnd & Hf1).
  cbn [bind].
  destruct laws as [_ _ Huv _ _ _].
  destruct (Huv bm1) as (layer & bm2 & -> & Hv2 & Hf2). cbn [bind].
  destruct (@loop_faces_ok m verts layer bm2 Hready Hl Hnd)
    as (bm_faces & bm3 & -> & Hv3 & Hall); [congruence|congruence|].
  cbn [bind]. exists bm3. split; [reflexivity|].
  unfold bmesh_of. rewrite Hv3. auto.
Qed.

End bmesh_correct.

(** *** Missing faces *)

Section bmesh_errors.

Variable api : bmesh_api.
Variable verts_of : BMesh api -> list (BMVert api).
Variable faces_of : BMesh api -> list (list (BMVert api)).
Hypothesis laws : bmesh_laws api verts_of faces_of.

(** With a vertex face and no texture face, or no normal face, to go
    with it, the first subscript of the loop over the faces is out of
    range. *)
Lemma mesh_data_to_bmesh_missing (m : mesh) :
  v_indices m <> [] -> vt_indices m = [] \/ vn_indices m = [] ->
  mesh_data_to_bmesh api (vs m) (vts m) (vns m) (v_indices m)
    (vt_indices m) (vn_indices m) = Raise IndexError.
Proof.
  intros Hv Hmiss. unfold mesh_data_to_bmesh. cbv zeta.
  destruct (loop_verts_ok laws (vs m)) as (verts & bm1 & -> & _).
  cbn [bind].
  destruct laws as [_ _ Huv _ _ _].
  destruct (Huv bm1) as (layer & bm2 & -> & _). cbn [bind].
  destruct (v_indices m) as [|f fs] eqn:Ef; [contradiction|].
  rewrite range_cons by (rewrite len_cons; pose proof (len_nonneg fs); lia).
  cbn [for_each]. unfold loop_faces at 1.
  change (getitem (f :: fs) 0) with (Ok f : res face). cbn [bind].
  destruct Hmiss as [-> | ->].
  - reflexivity.
  - destruct (getitem (vt_indices m) 0) as [tf|e] eqn:Et; [reflexivity|].
    now rewrite (getitem_raise _ _ Et).
Qed.

End bmesh_errors.

(** *** The module that keeps the vertices and the faces only *)

Lemma all_some_map {A : Type} (l : list A) : all_some (map Some l) = Some l.
Proof.
  induction l as [|x l IH]; [reflexivity|]. cbn [map all_some].
  now rewrite IH.
Qed.

Lemma list_max_fresh l : ~ In (S (list_max l)) l.
Proof.
  intros H. assert (Hle : (list_max l <= list_max l)%nat) by lia.
  rewrite list_max_le, Forall_forall in Hle. apply Hle in H. lia.
Qed.

Lemma plain_bmesh_laws : bmesh_laws plain_bmesh plain_verts_of plain_faces_of.
Proof.
  constructor.
  - split; reflexivity.
  - intros co [verts faces]. do 2 eexists.
    split; [reflexivity|]. split; [apply list_max_fresh|].
    split; reflexivity.
  - intros bm. exists tt, bm. repeat split.
  - intros verts [vs0 faces] _ _ _ _. eexists. eexists.
    cbn [plain_bmesh faces_new]. rewrite all_some_map.
    split; [reflexivity|]. split; [reflexivity|]. split; [reflexivity|].
    cbv [face_loops plain_bmesh]. now rewrite length_map, length_seq.
  - intros loop layer uv bm. exists bm. repeat split.
  - intros loop n bm. exists bm. repeat split.
Qed.

(* ================================================================== *)
(** ** The Builder: the claims *)
(* ================================================================== *)

Lemma Some_vec3_eq (a b c a' b' c' : R) :
  a = a' -> b = b' -> c = c' -> Some (a, b, c) = Some (a', b', c').
Proof. now intros -> -> ->. Qed.


(** C1 (the code allocates more normals than the claim counts).  With
    longitudes 4, latitudes 2, rings 0, depth 1.0 and radius 0.5 the
    builder returns 10 vertices, 18 texture coordinates and 12 faces in
    each face list, as the claim says; but it returns 9 normals where the
    claim counts [2 + 4 * (2 - 1) = 6]: the last precomputed normal
    offset, the south pole's, is 5, and the entries 6, 7 and 8 past it
    still hold the value they were allocated with. *)
Theorem C1_normals_past_south_pole :
  exists m,
    create_capsule_data 4 2 0 1.0 0.5 "FIXED" = Ok m /\
    len (vs m) = 10 /\ len (vts m) = 18 /\
    len (v_indices m) = 12 /\ len (vt_indices m) = 12 /\
    len (vn_indices m) = 12 /\
    idx_vn_south_pole 4 2 = 5 /\
    len (vns m) = 9 /\
    zth (vns m) 6 = Some (0.0, 0.0, 1.0)%R /\
    zth (vns m) 7 = Some (0.0, 0.0, 1.0)%R /\
    zth (vns m) 8 = Some (0.0, 0.0, 1.0)%R.
Proof.
  destruct (create_capsule_data_spec 4 2 0 1.0 0.5 "FIXED")
    as (m & E & (Hvs & Hvts & Hvns) & (Hv & Hvt & Hvn) & _ & _ & _ & _ & _
        & Hpast).
  exists m. split; [assumption|].
  change (len_vs 4 2 0) with 10 in Hvs.
  change (len_vts 4 2 0) with 18 in Hvts.
  change (len_vns 4 2) with 9 in Hvns, Hpast.
  change (len_indices 4 2 0) with 12 in Hv, Hvt, Hvn.
  change (idx_vn_south_pole 4 2) with 5 in Hpast.
  repeat (split; [first [assumption | reflexivity]|]).
  repeat split; apply Hpast; lia.
Qed.

(** C2.  With longitudes 4, latitudes 2, rings 0, depth 1.0 and radius 0.5
    the builder returns 10 vertices and 12 faces: 4 triangles of the north
    fan, 4 quads of the cylinder and 4 triangles of the south fan; vertex
    0, the north pole, is at (0, 0, 1.0) and vertex 9, the south pole, at
    (0, 0, -1.0). *)
Theorem C2_concrete_capsule :
  exists m,
    create_capsule_data 4 2 0 1.0 0.5 "FIXED" = Ok m /\
    len (vs m) = 10 /\
    len (v_indices m) = 12 /\
    v_indices m =
      [[0; 1; 2]; [0; 2; 3]; [0; 3; 4]; [0; 4; 1];
       [1; 5; 6; 2]; [2; 6; 7; 3]; [3; 7; 8; 4]; [4; 8; 5; 1];
       [9; 6; 5]; [9; 7; 6]; [9; 8; 7]; [9; 5; 8]] /\
    zth (vs m) 0 = Some (0.0, 0.0, 1.0)%R /\
    zth (vs m) 9 = Some (0.0, 0.0, - 1.0)%R.
Proof.
  destruct (create_capsule_data_spec 4 2 0 1.0 0.5 "FIXED")
    as (m & E & (Hvs & _ & _) & (Hv & _ & _) & Hf & _ & _ & Hn & Hs & _).
  exists m. split; [assumption|].
  change (len_vs 4 2 0) with 10 in Hvs.
  change (len_indices 4 2 0) with 12 in Hv.
  change (idx_v_south_pole 4 2 0) with 9 in Hs.
  assert (Hsummit : summit 1.0 0.5 = 1.0%R).
  { unfold summit, half_depth, verif_depth, verif_rad, fmax.
    repeat destruct (Rlt_dec _ _); lra. }
  repeat (split; [assumption|]).
  split; [rewrite Hn|rewrite Hs]; apply Some_vec3_eq; rewrite ?Hsummit; lra.
Qed.

(** C3.  For every input the vertex faces the builder returns make a
    closed, consistently wound surface: every edge between consecutive
    indices of a face is shared by exactly two faces, one running along it
    in each direction. *)
Theorem C3_closed_surface longitudes latitudes rings depth radius uv :
  exists m,
    create_capsule_data longitudes latitudes rings depth radius uv = Ok m /\
    closed_oriented (v_indices m).
Proof.
  destruct (create_capsule_data_spec longitudes latitudes rings depth radius uv)
    as (m & E & _ & _ & Hf & _).
  exists m. split; [assumption|]. rewrite Hf.
  apply capsule_faces_closed_oriented;
    [apply verif_lons_ge|apply ring_count_ge].
Qed.

(** C7, as the code has it.  The builder raises nothing as long as the
    runtime grants the eight lists it allocates: for every such input,
    zero, negative and other out-of-range values included, it returns a
    mesh, the one it returns for the clamped arguments, where the radius
    is clamped to at least 0.0001, the depth to at least 0.0002, the
    rings to at least 0, the longitudes to at least 3, and the latitudes
    to at least 2 and then to the next even number.  The mesh is
    complete: its three buffers and three face lists have the lengths
    the clamped arguments give, every face has three or four corners,
    and every index of a face lies within its buffer. *)
Theorem C7_builder_fails_only_on_allocation
    (out_of_memory : nat -> Z -> bool)
    longitudes latitudes rings depth radius uv :
  allocations_granted out_of_memory longitudes latitudes rings ->
  let L := verif_lons longitudes in
  let lats := verif_lats latitudes in
  let rgs := verif_rings rings in
  exists m,
    create_capsule_data_allocating out_of_memory longitudes latitudes rings
      depth radius uv = Ok m /\
    create_capsule_data_allocating out_of_memory L lats rgs
      (verif_depth depth) (verif_rad radius) uv = Ok m /\
    (verif_rad radius = Rmax 0.0001 radius /\
     verif_depth depth = Rmax 0.0002 depth /\
     rgs = Z.max 0 rings /\
     L = Z.max 3 longitudes /\
     lats = (if Z.even (Z.max 2 latitudes) then Z.max 2 latitudes
             else Z.max 2 latitudes + 1) /\
     Z.even lats = true) /\
    (len (vs m) = 2 + L * (lats + rgs) /\
     len (vts m) = 2 * L + (L + 1) * (lats + rgs) /\
     len (vns m) = 2 + L * (lats - 1) + (L - 1) /\
     len (v_indices m) = L * (lats + rgs + 1) /\
     len (vt_indices m) = L * (lats + rgs + 1) /\
     len (vn_indices m) = L * (lats + rgs + 1)) /\
    Forall (fun f => len f = 3 \/ len f = 4) (v_indices m) /\
    Forall (valid_face (len (vs m))) (v_indices m) /\
    Forall (valid_face (len (vts m))) (vt_indices m) /\
    Forall (valid_face (len (vns m))) (vn_indices m).
Proof.
  intros Hgranted L lats rgs. subst L lats rgs.
  pose proof (@allocations_granted_clamped out_of_memory longitudes latitudes
                rings Hgranted) as Hclamped.
  rewrite (@create_capsule_data_allocating_granted out_of_memory longitudes
             latitudes rings depth radius uv Hgranted).
  rewrite (@create_capsule_data_allocating_granted out_of_memory
             (verif_lons longitudes) (verif_lats latitudes) (verif_rings rings)
             (verif_depth depth) (verif_rad radius) uv Hclamped).
  rewrite create_capsule_data_clamped.
  destruct (create_capsule_data_spec longitudes latitudes rings depth radius uv)
    as (m & E & (Hvs & Hvts & Hvns) & (Hv & Hvt & Hvn) & Hf & Hvtv & Hvnv & _).
  exists m. split; [assumption|]. split; [assumption|].
  pose proof (verif_lons_ge longitudes) as HL.
  pose proof (ring_count_ge latitudes rings) as HK.
  split.
  { split; [apply fmax_Rmax|]. split; [apply fmax_Rmax|].
    split; [reflexivity|]. split; [reflexivity|].
    split.
    - unfold verif_lats. cbv zeta. rewrite Zeven_mod.
      destruct (Z.max 2 latitudes mod 2 =? 0); reflexivity.
    - rewrite verif_lats_even, Z.even_mul. reflexivity. }
  split.
  { rewrite Hvs, Hvts, Hvns, Hv, Hvt, Hvn.
    rewrite len_vs_formula, len_vts_formula, len_vns_formula,
      len_indices_formula.
    repeat split; reflexivity. }
  rewrite Hvs, Hvts, Hvns, Hf.
  assert (Hlen : len_vs longitudes latitudes rings =
                 2 + ring_count latitudes rings * verif_lons longitudes).
  { rewrite len_vs_formula. unfold ring_count. lia. }
  split; [|split; [|split; assumption]].
  - apply Forall_forall. intros f Hin.
    apply In_table in Hin. destruct Hin as (s & j & Hs & Hj & ->).
    unfold capsule_face. cbv zeta.
    destruct (s =? 0); [now left|]. destruct (s <? _); [now right|now left].
  - rewrite Hlen. apply Forall_forall. intros f Hin.
    apply In_table in Hin. destruct Hin as (s & j & Hs & Hj & ->).
    apply capsule_face_valid; lia.
Qed.

Lemma C7_builder_fails_only_on_allocation_witness :
  allocations_granted (fun _ _ => false) 0 (-3) (-1) /\
  exists m,
    create_capsule_data_allocating (fun _ _ => false) 0 (-3) (-1) 0.0 (- 2.0)
      "ASPECT" = Ok m /\
    create_capsule_data_allocating (fun _ _ => false) (verif_lons 0)
      (verif_lats (-3)) (verif_rings (-1)) (verif_depth 0.0)
      (verif_rad (- 2.0)) "ASPECT" = Ok m /\
    (verif_rad (- 2.0) = Rmax 0.0001 (- 2.0) /\
     verif_depth 0.0 = Rmax 0.0002 0.0 /\
     verif_rings (-1) = Z.max 0 (-1) /\
     verif_lons 0 = Z.max 3 0 /\
     verif_lats (-3) = (if Z.even (Z.max 2 (-3)) then Z.max 2 (-3)
                        else Z.max 2 (-3) + 1) /\
     Z.even (verif_lats (-3)) = true) /\
    (len (vs m) = 2 + verif_lons 0 * (verif_lats (-3) + verif_rings (-1)) /\
     len (vts m) =
       2 * verif_lons 0 +
       (verif_lons 0 + 1) * (verif_lats (-3) + verif_rings (-1)) /\
     len (vns m) =
       2 + verif_lons 0 * (verif_lats (-3) - 1) + (verif_lons 0 - 1) /\
     len (v_indices m) =
       verif_lons 0 * (verif_lats (-3) + verif_rings (-1) + 1) /\
     len (vt_indices m) =
       verif_lons 0 * (verif_lats (-3) + verif_rings (-1) + 1) /\
     len (vn_indices m) =
       verif_lons 0 * (verif_lats (-3) + verif_rings (-1) + 1)) /\
    Forall (fun f => len f = 3 \/ len f = 4) (v_indices m) /\
    Forall (valid_face (len (vs m))) (v_indices m) /\
    Forall (valid_face (len (vts m))) (vt_indices m) /\
    Forall (valid_face (len (vns m))) (vn_indices m).
Proof.
  assert (H : allocations_granted (fun _ _ => false) 0 (-3) (-1)).
  { apply (@allocations_granted_small 0 (-3) (-1)).
    repeat (constructor; [vm_compute; split; discriminate|]). constructor. }
  split; [exact H|].
  exact (@C7_builder_fails_only_on_allocation (fun _ _ => false)
           0 (-3) (-1) 0.0%R (- 2.0)%R "ASPECT"%string H).
Defined.

(** C7, against the claim as stated.  With longitudes 2^63 (and
    latitudes 2, rings 0, depth 1.0, radius 0.5) the first list the
    builder allocates, [vs], would have more than [sys.maxsize] entries:
    the builder raises [OverflowError], whatever room the runtime has. *)
Lemma C7_overflow_at_huge_longitudes :
  sys_maxsize < len_vs (2 ^ 63) 2 0 /\
  forall out_of_memory,
    create_capsule_data_allocating out_of_memory (2 ^ 63) 2 0 1.0 0.5 "FIXED" =
    Raise OverflowError.
Proof.
  assert (H : sys_maxsize < len_vs (2 ^ 63) 2 0) by (vm_compute; reflexivity).
  split; [exact H|].
  intros out_of_memory.
  exact (@create_capsule_data_allocating_overflow out_of_memory (2 ^ 63) 2 0
           1.0%R 0.5%R "FIXED"%string H).
Qed.

(** C10.  For every input, every index in every face of the three face
    lists the builder returns is an index into the vertex, texture
    coordinate or normal buffer it returns with them, and the indices of
    each vertex face are different. *)
Theorem C10_indices_valid longitudes latitudes rings depth radius uv :
  exists m,
    create_capsule_data longitudes latitudes rings depth radius uv = Ok m /\
    Forall (valid_face (len (vs m))) (v_indices m) /\
    Forall (valid_face (len (vts m))) (vt_indices m) /\
    Forall (valid_face (len (vns m))) (vn_indices m) /\
    Forall (@NoDup Z) (v_indices m).
Proof.
  destruct (create_capsule_data_spec longitudes latitudes rings depth radius uv)
    as (m & E & (Hvs & Hvts & Hvns) & _ & Hf & Hvt & Hvn & _).
  exists m. split; [assumption|].
  rewrite Hvs, Hvts, Hvns, Hf.
  pose proof (verif_lons_ge longitudes) as HL.
  pose proof (ring_count_ge latitudes rings) as HK.
  assert (Hlen : len_vs longitudes latitudes rings =
                 2 + ring_count latitudes rings * verif_lons longitudes).
  { rewrite len_vs_formula. unfold ring_count. lia. }
  split; [|split; [assumption|split; [assumption|]]].
  - rewrite Hlen. apply Forall_forall. intros f Hin.
    apply In_table in Hin. destruct Hin as (s & j & Hs & Hj & ->).
    apply capsule_face_valid; lia.
  - apply Forall_forall. intros f Hin.
    apply In_table in Hin. destruct Hin as (s & j & Hs & Hj & ->).
    apply capsule_face_NoDup; lia.
Qed.

(** X2.  For every input the vertex faces the builder returns are, in order,
    the faces of the closed form for the clamped longitudes and
    [lats + rings] rings: a fan of triangles about the north pole, the
    bands of quads from ring to ring, and a fan of triangles about the
    south pole. *)
Theorem builder_faces_closed_form longitudes latitudes rings depth radius uv :
  exists m,
    create_capsule_data longitudes latitudes rings depth radius uv = Ok m /\
    v_indices m =
      capsule_faces (verif_lons longitudes)
        (verif_lats latitudes + verif_rings rings).
Proof.
  destruct (create_capsule_data_spec longitudes latitudes rings depth radius uv)
    as (m & E & _ & _ & Hf & _).
  exists m. split; assumption.
Qed.

(** X3.  For every input the first vertex the builder returns is the north
    pole [(0, 0, summit)] and the last one the south pole
    [(0, 0, - summit)], where [summit] is half the clamped depth plus the
    clamped radius. *)
Theorem builder_poles longitudes latitudes rings depth radius uv :
  exists m,
    create_capsule_data longitudes latitudes rings depth radius uv = Ok m /\
    zth (vs m) 0 =
      Some (0.0, 0.0, verif_depth depth * 0.5 + verif_rad radius)%R /\
    zth (vs m) (len (vs m) - 1) =
      Some (0.0, 0.0, - (verif_depth depth * 0.5 + verif_rad radius))%R.
Proof.
  destruct (create_capsule_data_spec longitudes latitudes rings depth radius uv)
    as (m & E & (Hvs & _ & _) & _ & _ & _ & _ & Hn & Hs & _).
  exists m. split; [assumption|]. split; [exact Hn|].
  rewrite Hvs. unfold len_vs.
  replace (idx_v_south_pole longitudes latitudes rings + 1 - 1)
    with (idx_v_south_pole longitudes latitudes rings) by lia.
  exact Hs.
Qed.

(* ================================================================== *)
(** ** The Builder: what the mesh is *)
(* ================================================================== *)


(** X6.  Every vertex the builder returns lies on the capsule of the
    clamped radius about the segment of the z axis between the heights
    [- half_depth] and [half_depth]: at that radius from its nearest
    point of the segment.  Its height is within the two summits and its
    distance to the z axis within the radius. *)
Theorem builder_vertices_on_capsule longitudes latitudes rings depth radius uv :
  exists m,
    create_capsule_data longitudes latitudes rings depth radius uv = Ok m /\
    Forall (fun p =>
              on_capsule (verif_rad radius) (half_depth depth) p /\
              (- summit depth radius <= snd p <= summit depth radius)%R /\
              (fst (fst p) * fst (fst p) + snd (fst p) * snd (fst p) <=
               verif_rad radius * verif_rad radius)%R) (vs m).
Proof.
  exists (capsule_mesh longitudes latitudes rings depth radius uv).
  split; [apply create_capsule_data_closed_form|].
  apply (@vertices_on_capsule longitudes latitudes rings depth radius uv).
  apply capsule_mesh_values.
Qed.

(** X7.  At every corner of every face the builder returns, the entry of
    the normal buffer is the outward unit normal of the capsule at the
    entry of the vertex buffer: the vertex is the point at the clamped
    radius from the axis segment in the direction of the normal. *)
Theorem builder_corner_normals longitudes latitudes rings depth radius uv :
  exists m,
    create_capsule_data longitudes latitudes rings depth radius uv = Ok m /\
    forall f vf nf,
      zth (v_indices m) f = Some vf -> zth (vn_indices m) f = Some nf ->
      Forall2 (fun iv inn =>
                 exists p n,
                   zth (vs m) iv = Some p /\ zth (vns m) inn = Some n /\
                   outward_normal (verif_rad radius) (half_depth depth) p n)
        vf nf.
Proof.
  exists (capsule_mesh longitudes latitudes rings depth radius uv).
  split; [apply create_capsule_data_closed_form|].
  apply (@corner_normals longitudes latitudes rings depth radius uv).
  apply capsule_mesh_values.
Qed.

(** X8.  Every normal the builder returns is a unit vector, those past
    the south pole's that it never writes included. *)
Theorem builder_normals_unit longitudes latitudes rings depth radius uv :
  exists m,
    create_capsule_data longitudes latitudes rings depth radius uv = Ok m /\
    Forall (fun n => dot n n = 1%R) (vns m).
Proof.
  exists (capsule_mesh longitudes latitudes rings depth radius uv).
  split; [apply create_capsule_data_closed_form|].
  cbn [capsule_mesh vns].
  exact (normal_buffer_unit longitudes latitudes rings depth radius).
Qed.

(** X9.  In the mesh the builder returns, two face corners at the same
    vertex, of one face or of two, have the same entry of the normal
    buffer: the normal a vertex gets does not depend on the corner it is
    read from. *)
Theorem builder_normal_by_vertex longitudes latitudes rings depth radius uv :
  exists m,
    create_capsule_data longitudes latitudes rings depth radius uv = Ok m /\
    forall f f' vf vf' nf nf' k k' i,
      zth (v_indices m) f = Some vf -> zth (vn_indices m) f = Some nf ->
      zth (v_indices m) f' = Some vf' -> zth (vn_indices m) f' = Some nf' ->
      zth vf k = Some i -> zth vf' k' = Some i ->
      exists n, zth nf k = Some n /\ zth nf' k' = Some n.
Proof.
  exists (capsule_mesh longitudes latitudes rings depth radius uv).
  split; [apply create_capsule_data_closed_form|].
  apply (@corner_normal_by_vertex longitudes latitudes rings depth radius uv).
  apply capsule_mesh_values.
Qed.

(** X10.  Every texture coordinate the builder returns lies in the unit
    square, for each of the three profiles and for any other string. *)
Theorem builder_uvs_in_unit_square longitudes latitudes rings depth radius uv :
  exists m,
    create_capsule_data longitudes latitudes rings depth radius uv = Ok m /\
    Forall in_unit_square (vts m).
Proof.
  exists (capsule_mesh longitudes latitudes rings depth radius uv).
  split; [apply create_capsule_data_closed_form|].
  apply (@uvs_in_unit_square longitudes latitudes rings depth radius uv).
  apply capsule_mesh_values.
Qed.

(** X11.  At every corner of every face the builder returns, the texture
    coordinate fits the vertex: U is the azimuth of the vertex about the
    z axis as a fraction of the full turn, and V lies between the north
    equator's V and 1 for a vertex of the north hemisphere, between the
    two equators' for one of the cylinder, and between 0 and the south
    equator's for one of the south hemisphere. *)
Theorem builder_corner_uvs longitudes latitudes rings depth radius uv :
  exists m,
    create_capsule_data longitudes latitudes rings depth radius uv = Ok m /\
    forall f vf tf,
      zth (v_indices m) f = Some vf -> zth (vt_indices m) f = Some tf ->
      Forall2 (fun iv it =>
                 exists p t,
                   zth (vs m) iv = Some p /\ zth (vts m) it = Some t /\
                   uv_fits (half_depth depth)
                     (uv_aspect_north latitudes rings depth radius uv)
                     (uv_aspect_south latitudes rings depth radius uv) p t)
        vf tf.
Proof.
  exists (capsule_mesh longitudes latitudes rings depth radius uv).
  split; [apply create_capsule_data_closed_form|].
  apply (@corner_uvs longitudes latitudes rings depth radius uv).
  apply capsule_mesh_values.
Qed.

(** X12.  The faces the builder returns have [2 * (V + F - 2)] sides in
    all, [V] being the number of vertices and [F] that of faces.  As
    every edge is a side of two faces, the edges are [E = V + F - 2]:
    the count of a sphere, [V - E + F = 2]. *)
Theorem builder_edge_count longitudes latitudes rings depth radius uv :
  exists m,
    create_capsule_data longitudes latitudes rings depth radius uv = Ok m /\
    len (flat_map face_edges (v_indices m)) =
    2 * (len (vs m) + len (v_indices m) - 2).
Proof.
  exists (capsule_mesh longitudes latitudes rings depth radius uv).
  split; [apply create_capsule_data_closed_form|].
  apply capsule_mesh_edges.
Qed.

(** X13.  In the mesh the builder returns no entry is left over but the
    normals it never writes: every vertex is a corner of a face, every
    texture coordinate is that of a corner, every normal up to the south
    pole's is that of a corner, and no corner has a normal past the
    south pole's. *)
Theorem builder_all_entries_used longitudes latitudes rings depth radius uv :
  exists m,
    create_capsule_data longitudes latitudes rings depth radius uv = Ok m /\
    (forall k, 0 <= k < len (vs m) ->
       exists f, In f (v_indices m) /\ In k f) /\
    (forall k, 0 <= k < len (vts m) ->
       exists f, In f (vt_indices m) /\ In k f) /\
    (forall k, 0 <= k <= idx_vn_south_pole longitudes latitudes ->
       exists f, In f (vn_indices m) /\ In k f) /\
    (forall f k, In f (vn_indices m) -> In k f ->
       0 <= k <= idx_vn_south_pole longitudes latitudes).
Proof.
  exists (capsule_mesh longitudes latitudes rings depth radius uv).
  split; [apply create_capsule_data_closed_form|].
  apply capsule_mesh_all_used.
Qed.

(** X14.  The three face lists and the normals the builder returns
    depend on the longitudes, latitudes and rings only, not on the
    depth, the radius or the profile; the vertices do not depend on the
    profile. *)
Theorem builder_shape_independent
    longitudes latitudes rings depth radius uv depth' radius' uv' :
  exists m m' m'',
    create_capsule_data longitudes latitudes rings depth radius uv = Ok m /\
    create_capsule_data longitudes latitudes rings depth' radius' uv' = Ok m' /\
    create_capsule_data longitudes latitudes rings depth radius uv' = Ok m'' /\
    v_indices m = v_indices m' /\ vt_indices m = vt_indices m' /\
    vn_indices m = vn_indices m' /\ vns m = vns m' /\
    vs m = vs m''.
Proof.
  exists (capsule_mesh longitudes latitudes rings depth radius uv),
    (capsule_mesh longitudes latitudes rings depth' radius' uv'),
    (capsule_mesh longitudes latitudes rings depth radius uv').
  repeat (split; [apply create_capsule_data_closed_form|]).
  repeat split.
Qed.

(* ================================================================== *)
(** ** The Fitter: the claims *)
(* ================================================================== *)

Local Open Scope R_scope.

Unset Implicit Arguments.

Lemma norm_e1 : norm (1, 0, 0) = 1.
Proof. apply dot_unit_norm. unfold dot. ring. Qed.

Lemma norm_e3 : norm (0, 0, 1) = 1.
Proof. apply dot_unit_norm. unfold dot. ring. Qed.

(** C4.  For a cloud of at least two points and a unit principal axis,
    the Fitter returns, and the radius it returns is the largest
    perpendicular distance from a point of the cloud to the line through
    the centroid along the principal axis: no point is farther from the
    line, and some point is exactly that far. *)
Theorem C4_radius_is_max_distance
    (linalg_svd_vh : list vec3 -> vec3 * vec3 * vec3) points cylinder_axis :
  (2 <= len points)%Z ->
  norm (principal_axis_of linalg_svd_vh points) = 1 ->
  exists radius height center rotation,
    calculate_radius_height linalg_svd_vh points cylinder_axis =
      Ok (radius, height, center, rotation) /\
    (forall p, In p points ->
       exists d,
         perpendicular_distance p (np_mean points)
           (principal_axis_of linalg_svd_vh points) d /\
         d <= radius) /\
    (exists p, In p points /\
       perpendicular_distance p (np_mean points)
         (principal_axis_of linalg_svd_vh points) radius).
Proof.
  intros Hlen Ha.
  destruct (@calculate_radius_height_spec linalg_svd_vh points cylinder_axis Hlen)
    as (mn & mx & r & E & _ & _ & _ & Hle & (p0 & Hp0 & Er)).
  exists r, (mx - mn). do 2 eexists. split; [exact E|]. split.
  - intros p Hp. eexists. split.
    + apply distance_to_axis_perpendicular; assumption.
    + apply Hle. assumption.
  - exists p0. split; [assumption|]. rewrite <- Er.
    apply distance_to_axis_perpendicular; assumption.
Qed.

Lemma C4_radius_is_max_distance_witness :
  let svd := vh_const (1, 0, 0) (0, 1, 0) (0, 0, 1) in
  let points := [(0, 0, 0); (2, 0, 0)] in
  (2 <= len points)%Z /\
  norm (principal_axis_of svd points) = 1 /\
  exists radius height center rotation,
    calculate_radius_height svd points "Z" =
      Ok (radius, height, center, rotation) /\
    (forall p, In p points ->
       exists d,
         perpendicular_distance p (np_mean points)
           (principal_axis_of svd points) d /\
         d <= radius) /\
    (exists p, In p points /\
       perpendicular_distance p (np_mean points)
         (principal_axis_of svd points) radius).
Proof.
  cbv zeta.
  assert (H1 : (2 <= len [(0, 0, 0); (2, 0, 0)])%Z) by (vm_compute; discriminate).
  assert (H2 : norm (principal_axis_of (vh_const (1, 0, 0) (0, 1, 0) (0, 0, 1))
                       [(0, 0, 0); (2, 0, 0)]) = 1) by exact norm_e1.
  split; [exact H1|]. split; [exact H2|].
  exact (C4_radius_is_max_distance
           (vh_const (1, 0, 0) (0, 1, 0) (0, 0, 1)) [(0, 0, 0); (2, 0, 0)] "Z"
           H1 H2).
Defined.

(** The centroid, the singular vector and the run of the Fitter on the
    points (0, 0, 10) and (0, 0, 12). *)
Lemma fit_off_origin_run a2 :
  a2 * a2 = 1 ->
  exists radius rotation,
    calculate_radius_height (vh_const (0, 0, a2) (1, 0, 0) (0, 1, 0))
      [(0, 0, 10); (0, 0, 12)] "Z" =
    Ok (radius, 2, (0, 0, 22), rotation).
Proof.
  intros Ha.
  destruct (@calculate_radius_height_spec
              (vh_const (0, 0, a2) (1, 0, 0) (0, 1, 0))
              [(0, 0, 10); (0, 0, 12)] "Z")
    as (mn & mx & r & E & Hb & (p1 & H1 & E1) & (p2 & H2 & E2) & _).
  { vm_compute. discriminate. }
  change (principal_axis_of (vh_const (0, 0, a2) (1, 0, 0) (0, 1, 0))
            [(0, 0, 10); (0, 0, 12)]) with (0, 0, a2) in *.
  pose proof (Hb _ (or_introl eq_refl)) as Hp.
  pose proof (Hb _ (or_intror (or_introl eq_refl))) as Hq.
  unfold dot in Hp, Hq.
  assert (Hsum : mn + mx = 22 * a2 /\ (mx - mn) * (mx - mn) = 4 /\ 0 <= mx - mn).
  { destruct H1 as [<-|[<-|[]]]; destruct H2 as [<-|[<-|[]]];
      unfold dot in *; nra. }
  destruct Hsum as (Hs & Hd & Hd').
  assert (Hh : mx - mn = 2) by nra.
  exists r. eexists. rewrite E, Hh. do 3 f_equal.
  rewrite np_mean_two. unfold vadd, vscale. rewrite Hs.
  apply vec3_eq; first [lra | nra].
Qed.

(** C5 (the code puts the center off the interval).  For the points
    (0, 0, 10) and (0, 0, 12) the principal axis is (0, 0, 1) or its
    opposite; either way the Fitter returns height 2 and center
    (0, 0, 22): the midpoint 11 of the projections, which it took of the
    points as given, is added along the axis to the centroid (0, 0, 11).
    The projection of the point (0, 0, 10) on the axis is 10, resp. -10,
    while the interval of the claim, of half-length 1 about the
    projection 22, resp. -22, of the center, is [21, 23], resp.
    [-23, -21]. *)
Theorem C5_center_misses_projections :
  is_principal_axis
    (map (fun p => vsub p (np_mean [(0, 0, 10); (0, 0, 12)]))
       [(0, 0, 10); (0, 0, 12)]) (0, 0, 1) /\
  (exists radius rotation,
     calculate_radius_height (vh_const (0, 0, 1) (1, 0, 0) (0, 1, 0))
       [(0, 0, 10); (0, 0, 12)] "Z" = Ok (radius, 2, (0, 0, 22), rotation)) /\
  (exists radius rotation,
     calculate_radius_height (vh_const (0, 0, -1) (1, 0, 0) (0, 1, 0))
       [(0, 0, 10); (0, 0, 12)] "Z" = Ok (radius, 2, (0, 0, 22), rotation)) /\
  dot (0, 0, 10) (0, 0, 1) < dot (0, 0, 22) (0, 0, 1) - 2 / 2 /\
  dot (0, 0, 22) (0, 0, -1) + 2 / 2 < dot (0, 0, 10) (0, 0, -1).
Proof.
  split; [|split; [|split; [|split]]].
  - split; [exact norm_e3|]. intros b Hb. apply norm_unit_dot in Hb.
    cbn [map]. rewrite vsub_mean_l, vsub_mean_r. cbn [map fold_right].
    rewrite !dot_vscale_l. destruct b as [[b0 b1] b2].
    unfold dot, vsub in *. nra.
  - apply (fit_off_origin_run 1). ring.
  - apply (fit_off_origin_run (-1)). ring.
  - unfold dot. lra.
  - unfold dot. lra.
Qed.



(** C8.  For a cloud of at least two points whose principal axis is a
    unit vector and not near-parallel to the reference axis of the hint
    (their cross product is at least 1e-6 long), the columns of the
    rotation the Fitter returns are unit vectors, orthogonal to each
    other. *)
Theorem C8_rotation_orthonormal
    (linalg_svd_vh : list vec3 -> vec3 * vec3 * vec3) points cylinder_axis :
  (2 <= len points)%Z ->
  norm (principal_axis_of linalg_svd_vh points) = 1 ->
  1e-6 <= norm (cross (reference_axis cylinder_axis)
                  (principal_axis_of linalg_svd_vh points)) ->
  exists radius height center rotation,
    calculate_radius_height linalg_svd_vh points cylinder_axis =
      Ok (radius, height, center, rotation) /\
    orthonormal_columns rotation.
Proof.
  intros Hlen Ha Href.
  destruct (@calculate_radius_height_spec linalg_svd_vh points cylinder_axis Hlen)
    as (mn & mx & r & E & _).
  do 4 eexists. split; [exact E|].
  apply fit_axes_orthonormal; assumption.
Qed.

Lemma C8_rotation_orthonormal_witness :
  let svd := vh_const (1, 0, 0) (0, 1, 0) (0, 0, 1) in
  let points := [(0, 0, 0); (2, 0, 0)] in
  (2 <= len points)%Z /\
  norm (principal_axis_of svd points) = 1 /\
  1e-6 <= norm (cross (reference_axis "X") (principal_axis_of svd points)) /\
  exists radius height center rotation,
    calculate_radius_height svd points "X" =
      Ok (radius, height, center, rotation) /\
    orthonormal_columns rotation.
Proof.
  cbv zeta.
  assert (H1 : (2 <= len [(0, 0, 0); (2, 0, 0)])%Z) by (vm_compute; discriminate).
  assert (H2 : norm (principal_axis_of (vh_const (1, 0, 0) (0, 1, 0) (0, 0, 1))
                       [(0, 0, 0); (2, 0, 0)]) = 1) by exact norm_e1.
  assert (H3 : 1e-6 <= norm (cross (reference_axis "X")
                   (principal_axis_of (vh_const (1, 0, 0) (0, 1, 0) (0, 0, 1))
                      [(0, 0, 0); (2, 0, 0)]))).
  { change (reference_axis "X") with (0, 0, 1).
    change (principal_axis_of _ _) with (1, 0, 0).
    replace (norm (cross (0, 0, 1) (1, 0, 0))) with 1; [lra|].
    symmetry. apply dot_unit_norm. unfold dot, cross. ring. }
  split; [exact H1|]. split; [exact H2|]. split; [exact H3|].
  exact (C8_rotation_orthonormal
           (vh_const (1, 0, 0) (0, 1, 0) (0, 0, 1)) [(0, 0, 0); (2, 0, 0)] "X"
           H1 H2 H3).
Defined.

(** C9, as the code has it.  Given exactly two identical points the
    Fitter raises nothing and reports no missing axis: it returns a
    radius, a height, a center and a rotation, with radius 0 and height
    0.  Given exactly two different points, the singular vector being
    the principal axis numpy promises, it returns radius approximately 0
    and the distance between the two points as height, as the claim has
    it: over the real numbers of this embedding, which do not round,
    the radius is 0. *)
Theorem C9_two_points
    (linalg_svd_vh : list vec3 -> vec3 * vec3 * vec3) cylinder_axis :
  (forall p,
     exists center rotation,
       calculate_radius_height linalg_svd_vh [p; p] cylinder_axis =
         Ok (0, 0, center, rotation)) /\
  (forall p q,
     p <> q ->
     is_principal_axis (map (fun x => vsub x (np_mean [p; q])) [p; q])
       (principal_axis_of linalg_svd_vh [p; q]) ->
     exists center rotation,
       calculate_radius_height linalg_svd_vh [p; q] cylinder_axis =
         Ok (0, norm (vsub p q), center, rotation)).
Proof.
  split.
  - intros p. apply fit_identical_points.
  - intros p q. apply fit_distinct_points.
Qed.

Lemma C9_two_points_witness :
  let svd := vh_const (0, 0, 1) (1, 0, 0) (0, 1, 0) in
  (0, 0, 10) <> (0, 0, 12) /\
  is_principal_axis
    (map (fun x => vsub x (np_mean [(0, 0, 10); (0, 0, 12)]))
       [(0, 0, 10); (0, 0, 12)])
    (principal_axis_of svd [(0, 0, 10); (0, 0, 12)]) /\
  exists center rotation,
    calculate_radius_height svd [(0, 0, 10); (0, 0, 12)] "Z" =
      Ok (0, norm (vsub (0, 0, 10) (0, 0, 12)), center, rotation).
Proof.
  cbv zeta.
  assert (H1 : (0, 0, 10) <> (0, 0, 12)).
  { intros E. injection E as E. lra. }
  assert (H2 : is_principal_axis
                 (map (fun x => vsub x (np_mean [(0, 0, 10); (0, 0, 12)]))
                    [(0, 0, 10); (0, 0, 12)])
                 (principal_axis_of (vh_const (0, 0, 1) (1, 0, 0) (0, 1, 0))
                    [(0, 0, 10); (0, 0, 12)])).
  { split; [exact norm_e3|]. intros b Hb. apply norm_unit_dot in Hb.
    change (principal_axis_of _ _) with (0, 0, 1).
    cbn [map]. rewrite vsub_mean_l, vsub_mean_r. cbn [map fold_right].
    rewrite !dot_vscale_l. destruct b as [[b0 b1] b2].
    unfold dot, vsub in *. nra. }
  split; [exact H1|]. split; [exact H2|].
  exact (proj2 (C9_two_points (vh_const (0, 0, 1) (1, 0, 0) (0, 1, 0)) "Z")
           (0, 0, 10) (0, 0, 12) H1 H2).
Defined.

(** C9, against the claim as stated.  For the two identical points
    (0, 0, 0) and (0, 0, 0), for which numpy returns the identity as
    [vh], the Fitter raises no error and reports no missing axis: it
    returns radius 0, height 0 and the center (0, 0, 0). *)
Lemma C9_identical_points_return :
  exists rotation,
    calculate_radius_height (vh_const (1, 0, 0) (0, 1, 0) (0, 0, 1))
      [(0, 0, 0); (0, 0, 0)] "Z" =
    Ok (0, 0, (0, 0, 0), rotation).
Proof.
  destruct (@calculate_radius_height_spec
              (vh_const (1, 0, 0) (0, 1, 0) (0, 0, 1))
              [(0, 0, 0); (0, 0, 0)] "Z")
    as (mn & mx & r & E & _ & (p1 & H1 & E1) & (p2 & H2 & E2) & _
        & (p3 & H3 & E3)).
  { vm_compute. discriminate. }
  assert (Hall : forall x : vec3, In x [(0, 0, 0); (0, 0, 0)] -> x = (0, 0, 0)).
  { intros x [<-|[<-|[]]]; reflexivity. }
  apply Hall in H1, H2, H3. subst p1 p2 p3.
  rewrite np_mean_same, distance_to_axis_same in E3.
  change (principal_axis_of _ _) with (1, 0, 0) in *.
  unfold dot in E1, E2.
  rewrite E. subst r. replace (mx - mn) with 0 by lra.
  replace (vadd (np_mean [(0, 0, 0); (0, 0, 0)])
             (vscale (1, 0, 0) ((mn + mx) / 2.0))) with ((0, 0, 0) : vec3).
  - eexists. reflexivity.
  - rewrite np_mean_same. unfold vadd, vscale. apply vec3_eq; lra.
Qed.

(** X4.  The height the Fitter returns is the extent of the projections of
    the points on the principal axis, and for a unit axis every
    projection lies within half the height of the midpoint of the
    projections, which is the axial coordinate of the returned center
    less that of the centroid. *)
Theorem fitter_height_interval
    (linalg_svd_vh : list vec3 -> vec3 * vec3 * vec3) points cylinder_axis :
  (2 <= len points)%Z ->
  norm (principal_axis_of linalg_svd_vh points) = 1 ->
  exists radius height center rotation,
    calculate_radius_height linalg_svd_vh points cylinder_axis =
      Ok (radius, height, center, rotation) /\
    (exists p1 p2,
       In p1 points /\ In p2 points /\
       height = dot p2 (principal_axis_of linalg_svd_vh points) -
                dot p1 (principal_axis_of linalg_svd_vh points)) /\
    (forall p, In p points ->
       let a := principal_axis_of linalg_svd_vh points in
       let mid := dot center a - dot (np_mean points) a in
       mid - height / 2 <= dot p a <= mid + height / 2).
Proof.
  intros Hlen Ha. apply norm_unit_dot in Ha.
  destruct (@calculate_radius_height_spec linalg_svd_vh points cylinder_axis Hlen)
    as (mn & mx & r & E & Hb & (p1 & H1 & E1) & (p2 & H2 & E2) & _).
  do 4 eexists. split; [exact E|]. split.
  - exists p1, p2. rewrite E1, E2. auto.
  - intros p Hp. cbv zeta. rewrite fit_center_projection by assumption.
    specialize (Hb p Hp). lra.
Qed.

Lemma fitter_height_interval_witness :
  let svd := vh_const (1, 0, 0) (0, 1, 0) (0, 0, 1) in
  let points := [(0, 0, 0); (2, 0, 0)] in
  (2 <= len points)%Z /\
  norm (principal_axis_of svd points) = 1 /\
  exists radius height center rotation,
    calculate_radius_height svd points "Z" =
      Ok (radius, height, center, rotation) /\
    (exists p1 p2,
       In p1 points /\ In p2 points /\
       height = dot p2 (principal_axis_of svd points) -
                dot p1 (principal_axis_of svd points)) /\
    (forall p, In p points ->
       let a := principal_axis_of svd points in
       let mid := dot center a - dot (np_mean points) a in
       mid - height / 2 <= dot p a <= mid + height / 2).
Proof.
  cbv zeta.
  assert (H1 : (2 <= len [(0, 0, 0); (2, 0, 0)])%Z) by (vm_compute; discriminate).
  assert (H2 : norm (principal_axis_of (vh_const (1, 0, 0) (0, 1, 0) (0, 0, 1))
                       [(0, 0, 0); (2, 0, 0)]) = 1) by exact norm_e1.
  split; [exact H1|]. split; [exact H2|].
  exact (fitter_height_interval
           (vh_const (1, 0, 0) (0, 1, 0) (0, 0, 1)) [(0, 0, 0); (2, 0, 0)] "Z"
           H1 H2).
Defined.

Local Close Scope R_scope.

(* ================================================================== *)
(** ** The Fitter: the rotation, and moving the points *)
(* ================================================================== *)

Local Open Scope R_scope.

Lemma len_two (p q : vec3) : (2 <= len [p; q])%Z.
Proof. vm_compute. discriminate. Qed.

Lemma norm_ref_cross_e1 : 1e-6 <= norm (cross (reference_axis "X") (1, 0, 0)).
Proof.
  change (reference_axis "X") with ((0, 0, 1) : vec3).
  replace (norm (cross (0, 0, 1) (1, 0, 0))) with 1; [lra|].
  symmetry. apply dot_unit_norm. unfold dot, cross. ring.
Qed.

(** A unit vector a tenth of the threshold off the y axis. *)
Lemma norm_near_y : norm (1e-7, sqrt (1 - 1e-14), 0) = 1.
Proof.
  apply dot_unit_norm. unfold dot. rewrite sqrt_sqrt by lra. lra.
Qed.

Lemma norm_cross_near_y :
  norm (cross (0, 1, 0) (1e-7, sqrt (1 - 1e-14), 0)) = 1e-7.
Proof.
  unfold norm, cross, dot.
  replace (_ + _ + _) with (1e-7 * 1e-7) by ring.
  apply sqrt_square. lra.
Qed.

(** X15.  For a cloud of at least two points whose principal axis is a
    unit vector and not near-parallel to the reference axis of the hint
    (their cross product is at least 1e-6 long), the rotation the Fitter
    returns has determinant 1: its columns are right-handed, and it
    mirrors nothing. *)
Theorem fitter_rotation_proper
    (linalg_svd_vh : list vec3 -> vec3 * vec3 * vec3) points cylinder_axis :
  (2 <= len points)%Z ->
  norm (principal_axis_of linalg_svd_vh points) = 1 ->
  1e-6 <= norm (cross (reference_axis cylinder_axis)
                  (principal_axis_of linalg_svd_vh points)) ->
  exists radius height center rotation,
    calculate_radius_height linalg_svd_vh points cylinder_axis =
      Ok (radius, height, center, rotation) /\
    det3 rotation = 1.
Proof.
  intros Hlen Ha Href.
  destruct (@calculate_radius_height_spec linalg_svd_vh points cylinder_axis Hlen)
    as (mn & mx & r & E & _).
  do 4 eexists. split; [exact E|].
  apply fit_axes_det; assumption.
Qed.

Lemma fitter_rotation_proper_witness :
  let svd := vh_const (1, 0, 0) (0, 1, 0) (0, 0, 1) in
  let points := [(0, 0, 0); (2, 0, 0)] in
  (2 <= len points)%Z /\
  norm (principal_axis_of svd points) = 1 /\
  1e-6 <= norm (cross (reference_axis "X") (principal_axis_of svd points)) /\
  exists radius height center rotation,
    calculate_radius_height svd points "X" =
      Ok (radius, height, center, rotation) /\
    det3 rotation = 1.
Proof.
  cbv zeta.
  split; [apply len_two|]. split; [exact norm_e1|].
  split; [exact norm_ref_cross_e1|].
  exact (fitter_rotation_proper
           (vh_const (1, 0, 0) (0, 1, 0) (0, 0, 1)) [(0, 0, 0); (2, 0, 0)] "X"
           (len_two _ _) norm_e1 norm_ref_cross_e1).
Defined.

(** X16.  For a cloud of at least two points whose principal axis is a
    unit vector, the column of the returned rotation that the hint names
    (the first for X, the second for Y, the third for any other hint) is
    the principal axis itself, whatever the other two columns are. *)
Theorem fitter_axis_column
    (linalg_svd_vh : list vec3 -> vec3 * vec3 * vec3) points cylinder_axis :
  (2 <= len points)%Z ->
  norm (principal_axis_of linalg_svd_vh points) = 1 ->
  exists radius height center rotation,
    calculate_radius_height linalg_svd_vh points cylinder_axis =
      Ok (radius, height, center, rotation) /\
    column rotation (hint_column cylinder_axis) =
    principal_axis_of linalg_svd_vh points.
Proof.
  intros Hlen Ha.
  destruct (@calculate_radius_height_spec linalg_svd_vh points cylinder_axis Hlen)
    as (mn & mx & r & E & _).
  do 4 eexists. split; [exact E|].
  apply fit_axes_hint_column; assumption.
Qed.

Lemma fitter_axis_column_witness :
  let svd := vh_const (0, 0, 1) (0, 1, 0) (1, 0, 0) in
  let points := [(0, 0, 1); (0, 0, 4)] in
  (2 <= len points)%Z /\
  norm (principal_axis_of svd points) = 1 /\
  exists radius height center rotation,
    calculate_radius_height svd points "Y" =
      Ok (radius, height, center, rotation) /\
    column rotation (hint_column "Y") = principal_axis_of svd points.
Proof.
  cbv zeta.
  split; [apply len_two|]. split; [exact norm_e3|].
  exact (fitter_axis_column
           (vh_const (0, 0, 1) (0, 1, 0) (1, 0, 0)) [(0, 0, 1); (0, 0, 4)] "Y"
           (len_two _ _) norm_e3).
Defined.

(** X17.  Under any hint but X and Y (Z is the default), for a cloud of
    at least two points whose principal axis is a unit vector
    near-parallel to the y axis (its cross product with (0, 1, 0) is
    shorter than 1e-6, and not zero, so that nothing is divided by
    zero), the Fitter computes the second axis anew as the very cross
    product the first axis is: the first two columns of the returned
    rotation are the same, and the matrix is not orthonormal. *)
Theorem fitter_fallback_degenerate
    (linalg_svd_vh : list vec3 -> vec3 * vec3 * vec3) points cylinder_axis :
  (2 <= len points)%Z ->
  cylinder_axis <> "X"%string -> cylinder_axis <> "Y"%string ->
  norm (principal_axis_of linalg_svd_vh points) = 1 ->
  0 < norm (cross (0, 1, 0) (principal_axis_of linalg_svd_vh points)) < 1e-6 ->
  exists radius height center rotation,
    calculate_radius_height linalg_svd_vh points cylinder_axis =
      Ok (radius, height, center, rotation) /\
    column rotation 0 = column rotation 1 /\
    ~ orthonormal_columns rotation.
Proof.
  intros Hlen HX HY Ha Hx.
  destruct (@calculate_radius_height_spec linalg_svd_vh points cylinder_axis Hlen)
    as (mn & mx & r & E & _).
  do 4 eexists. split; [exact E|].
  apply fit_axes_fallback; try assumption.
  rewrite norm_cross_orthogonal; [lra|now apply norm_unit_dot|].
  rewrite dot_comm. apply dot_cross_r.
Qed.

Lemma fitter_fallback_degenerate_witness :
  let svd := vh_const (1e-7, sqrt (1 - 1e-14), 0) (0, 0, 1) (1, 0, 0) in
  let points := [(0, 0, 0); (2e-7, 2 * sqrt (1 - 1e-14), 0)] in
  (2 <= len points)%Z /\
  "Z"%string <> "X"%string /\ "Z"%string <> "Y"%string /\
  norm (principal_axis_of svd points) = 1 /\
  0 < norm (cross (0, 1, 0) (principal_axis_of svd points)) < 1e-6 /\
  exists radius height center rotation,
    calculate_radius_height svd points "Z" =
      Ok (radius, height, center, rotation) /\
    column rotation 0 = column rotation 1 /\
    ~ orthonormal_columns rotation.
Proof.
  cbv zeta.
  assert (HX : "Z"%string <> "X"%string) by discriminate.
  assert (HY : "Z"%string <> "Y"%string) by discriminate.
  assert (Hx : 0 < norm (cross (0, 1, 0)
                  (principal_axis_of
                     (vh_const (1e-7, sqrt (1 - 1e-14), 0) (0, 0, 1) (1, 0, 0))
                     [(0, 0, 0); (2e-7, 2 * sqrt (1 - 1e-14), 0)])) < 1e-6).
  { change (principal_axis_of _ _) with (1e-7, sqrt (1 - 1e-14), 0).
    rewrite norm_cross_near_y. lra. }
  split; [apply len_two|]. split; [exact HX|]. split; [exact HY|].
  split; [exact norm_near_y|]. split; [exact Hx|].
  exact (fitter_fallback_degenerate
           (vh_const (1e-7, sqrt (1 - 1e-14), 0) (0, 0, 1) (1, 0, 0))
           [(0, 0, 0); (2e-7, 2 * sqrt (1 - 1e-14), 0)] "Z"
           (len_two _ _) HX HY norm_near_y Hx).
Defined.

(** X18.  For a cloud of at least two points, whatever the singular
    vector is, the radius and the height the Fitter returns are not
    negative. *)
Theorem fitter_radius_height_nonneg
    (linalg_svd_vh : list vec3 -> vec3 * vec3 * vec3) points cylinder_axis :
  (2 <= len points)%Z ->
  exists radius height center rotation,
    calculate_radius_height linalg_svd_vh points cylinder_axis =
      Ok (radius, height, center, rotation) /\
    0 <= radius /\ 0 <= height.
Proof.
  intros Hlen.
  destruct (@calculate_radius_height_spec linalg_svd_vh points cylinder_axis Hlen)
    as (mn & mx & r & E & Hb & (p1 & H1 & E1) & _ & _ & (p3 & H3 & E3)).
  do 4 eexists. split; [exact E|]. split.
  - rewrite <- E3. apply norm_nonneg.
  - specialize (Hb p1 H1). lra.
Qed.

Lemma fitter_radius_height_nonneg_witness :
  let svd := vh_const (1, 0, 0) (0, 1, 0) (0, 0, 1) in
  let points := [(0, 0, 0); (2, 1, 0); (4, 0, 0)] in
  (2 <= len points)%Z /\
  exists radius height center rotation,
    calculate_radius_height svd points "Z" =
      Ok (radius, height, center, rotation) /\
    0 <= radius /\ 0 <= height.
Proof.
  cbv zeta.
  assert (H : (2 <= len [(0, 0, 0); (2, 1, 0); (4, 0, 0)])%Z)
    by (vm_compute; discriminate).
  split; [exact H|].
  exact (fitter_radius_height_nonneg
           (vh_const (1, 0, 0) (0, 1, 0) (0, 0, 1))
           [(0, 0, 0); (2, 1, 0); (4, 0, 0)] "Z" H).
Defined.

(** X19.  Moving every point of a cloud of at least two points by the
    same vector [d] leaves the radius, the height and the rotation the
    Fitter returns as they are (the singular value decomposition gets
    the same centered points), and moves the returned center by [d] and
    then, along the principal axis [a], by [dot d a] once more: by [d]
    alone only when [d] is perpendicular to the axis. *)
Theorem fitter_translation
    (linalg_svd_vh : list vec3 -> vec3 * vec3 * vec3) points cylinder_axis d :
  (2 <= len points)%Z ->
  exists radius height center rotation,
    calculate_radius_height linalg_svd_vh points cylinder_axis =
      Ok (radius, height, center, rotation) /\
    calculate_radius_height linalg_svd_vh
      (map (fun p => vadd p d) points) cylinder_axis =
      Ok (radius, height,
          vadd (vadd center d)
            (vscale (principal_axis_of linalg_svd_vh points)
               (dot d (principal_axis_of linalg_svd_vh points))),
          rotation).
Proof.
  intros Hlen. pose proof (len_nonempty Hlen) as Hne.
  assert (Hlen' : (2 <= len (map (fun p => vadd p d) points))%Z)
    by now rewrite len_map.
  rewrite (@calculate_radius_height_eq linalg_svd_vh _ cylinder_axis Hlen').
  rewrite (@calculate_radius_height_eq linalg_svd_vh _ cylinder_axis Hlen).
  rewrite principal_axis_shift, np_mean_shift by assumption.
  set (a := principal_axis_of linalg_svd_vh points). cbv zeta.
  (* the projections and the distances of the moved points *)
  rewrite !map_map.
  rewrite (map_ext (fun p => dot (vadd p d) a)
             (fun p => dot p a + dot d a))
    by (intros; apply dot_vadd_l).
  rewrite (map_ext
             (fun p => distance_to_axis (vadd p d) (vadd (np_mean points) d) a)
             (fun p => distance_to_axis p (np_mean points) a))
    by (intros; unfold distance_to_axis; now rewrite vsub_shift).
  rewrite <- (map_map (fun p => dot p a) (fun y => y + dot d a)).
  assert (Hne' : forall (f : vec3 -> R), map f points <> []).
  { intros f E. apply map_eq_nil in E. contradiction. }
  destruct (np_min_spec (Hne' (fun p => dot p a))) as (mn & Emn & _).
  destruct (np_max_spec (Hne' (fun p => dot p a))) as (mx & Emx & _).
  destruct (py_max_spec (Hne' (fun p => distance_to_axis p (np_mean points) a)))
    as (r & Er & _).
  rewrite (np_min_shift _ (dot d a) Emn), (np_max_shift _ (dot d a) Emx),
    Emn, Emx, Er.
  cbn [bind]. do 4 eexists. split; [reflexivity|].
  (* the height and the center *)
  replace (mx + dot d a - (mn + dot d a)) with (mx - mn) by lra.
  replace (vadd (vadd (np_mean points) d)
             (vscale a ((mn + dot d a + (mx + dot d a)) / 2.0)))
    with (vadd (vadd (vadd (np_mean points) (vscale a ((mn + mx) / 2.0))) d)
            (vscale a (dot d a))); [reflexivity|].
  generalize (np_mean points). intros c. generalize (dot d a). intros k.
  vec_split. unfold vadd, vscale. apply vec3_eq; lra.
Qed.

Lemma fitter_translation_witness :
  let svd := vh_const (0, 0, 1) (0, 1, 0) (1, 0, 0) in
  let points := [(0, 0, 0); (0, 0, 2)] in
  let d := (0, 0, 10) in
  (2 <= len points)%Z /\
  exists radius height center rotation,
    calculate_radius_height svd points "Z" =
      Ok (radius, height, center, rotation) /\
    calculate_radius_height svd (map (fun p => vadd p d) points) "Z" =
      Ok (radius, height,
          vadd (vadd center d)
            (vscale (principal_axis_of svd points)
               (dot d (principal_axis_of svd points))),
          rotation).
Proof.
  cbv zeta.
  split; [apply len_two|].
  exact (fitter_translation
           (vh_const (0, 0, 1) (0, 1, 0) (1, 0, 0)) [(0, 0, 0); (0, 0, 2)] "Z"
           (0, 0, 10) (len_two _ _)).
Defined.

Local Close Scope R_scope.

(* ================================================================== *)
(** ** The conversion to a BMesh: what it needs and what it returns *)
(* ================================================================== *)

(** X20.  Whatever module stands for [bmesh], as long as it keeps the
    laws of [bmesh_laws], the conversion raises nothing on a mesh that
    is ready for it, and returns the mesh of the lists: a vertex for
    each entry of [vs], all different, and for each face of
    [v_indices], in order, a face on the vertices its indices name. *)
Theorem bmesh_conversion_returns
    (api : bmesh_api) (verts_of : BMesh api -> list (BMVert api))
    (faces_of : BMesh api -> list (list (BMVert api))) (m : mesh) :
  bmesh_laws api verts_of faces_of ->
  bmesh_ready m ->
  exists bm,
    mesh_data_to_bmesh api (vs m) (vts m) (vns m) (v_indices m)
      (vt_indices m) (vn_indices m) = Ok bm /\
    bmesh_of api verts_of faces_of (vs m) (v_indices m) bm.
Proof.
  intros Hlaws Hready.
  exact (@mesh_data_to_bmesh_ok api verts_of faces_of Hlaws m Hready).
Qed.

Lemma bmesh_conversion_returns_witness :
  let m := capsule_mesh 4 2 0 1.0 0.5 "FIXED" in
  bmesh_laws plain_bmesh plain_verts_of plain_faces_of /\
  bmesh_ready m /\
  exists bm,
    mesh_data_to_bmesh plain_bmesh (vs m) (vts m) (vns m) (v_indices m)
      (vt_indices m) (vn_indices m) = Ok bm /\
    bmesh_of plain_bmesh plain_verts_of plain_faces_of (vs m) (v_indices m) bm.
Proof.
  cbv zeta.
  split; [exact plain_bmesh_laws|].
  split; [exact (capsule_mesh_bmesh_ready 4 2 0 1.0 0.5 "FIXED")|].
  exact (bmesh_conversion_returns plain_bmesh plain_verts_of plain_faces_of
           (capsule_mesh 4 2 0 1.0 0.5 "FIXED") plain_bmesh_laws
           (capsule_mesh_bmesh_ready 4 2 0 1.0 0.5 "FIXED")).
Defined.

(** X21.  For every input the mesh the builder returns is ready for the
    conversion: as many texture and normal faces as vertex faces; every
    vertex face of three or four corners, all different, with a texture
    face and a normal face of as many corners; every index within its
    buffer; and no two vertex faces on the same corners. *)
Theorem builder_mesh_bmesh_ready longitudes latitudes rings depth radius uv :
  exists m,
    create_capsule_data longitudes latitudes rings depth radius uv = Ok m /\
    bmesh_ready m /\
    Forall (fun f => len f = 3 \/ len f = 4) (v_indices m).
Proof.
  exists (capsule_mesh longitudes latitudes rings depth radius uv).
  split; [apply create_capsule_data_closed_form|].
  split; [apply capsule_mesh_bmesh_ready|].
  cbn [capsule_mesh v_indices]. apply Forall_forall. intros f Hf.
  apply In_table in Hf. destruct Hf as (s & j & _ & _ & ->).
  rewrite len_capsule_face. destruct (_ || _); lia.
Qed.

(** X22.  The two functions compose: whatever module stands for
    [bmesh], as long as it keeps the laws of [bmesh_laws], the
    conversion of what the builder returns raises nothing, for every
    input of the builder, and returns a mesh with a vertex for each
    entry of [vs] and a face for each face of [v_indices]. *)
Theorem builder_to_bmesh
    (api : bmesh_api) (verts_of : BMesh api -> list (BMVert api))
    (faces_of : BMesh api -> list (list (BMVert api)))
    longitudes latitudes rings depth radius uv :
  bmesh_laws api verts_of faces_of ->
  exists m bm,
    create_capsule_data longitudes latitudes rings depth radius uv = Ok m /\
    mesh_data_to_bmesh api (vs m) (vts m) (vns m) (v_indices m)
      (vt_indices m) (vn_indices m) = Ok bm /\
    bmesh_of api verts_of faces_of (vs m) (v_indices m) bm.
Proof.
  intros Hlaws.
  exists (capsule_mesh longitudes latitudes rings depth radius uv).
  destruct (@mesh_data_to_bmesh_ok api verts_of faces_of Hlaws
              (capsule_mesh longitudes latitudes rings depth radius uv)
              (capsule_mesh_bmesh_ready longitudes latitudes rings depth
                 radius uv))
    as (bm & E & Hbm).
  exists bm. split; [apply create_capsule_data_closed_form|].
  split; assumption.
Qed.

Lemma builder_to_bmesh_witness :
  bmesh_laws plain_bmesh plain_verts_of plain_faces_of /\
  exists m bm,
    create_capsule_data 32 16 0 1.0 0.5 "FIXED" = Ok m /\
    mesh_data_to_bmesh plain_bmesh (vs m) (vts m) (vns m) (v_indices m)
      (vt_indices m) (vn_indices m) = Ok bm /\
    bmesh_of plain_bmesh plain_verts_of plain_faces_of (vs m) (v_indices m) bm.
Proof.
  split; [exact plain_bmesh_laws|].
  exact (builder_to_bmesh plain_bmesh plain_verts_of plain_faces_of
           32 16 0 1.0 0.5 "FIXED" plain_bmesh_laws).
Defined.

(** X23.  Given a vertex face and no texture face, or no normal face,
    the conversion raises [IndexError]: the loop over the faces reads
    the three face lists at the same position, once the vertices are
    made. *)
Theorem bmesh_conversion_missing_faces
    (api : bmesh_api) (verts_of : BMesh api -> list (BMVert api))
    (faces_of : BMesh api -> list (list (BMVert api))) (m : mesh) :
  bmesh_laws api verts_of faces_of ->
  v_indices m <> [] ->
  vt_indices m = [] \/ vn_indices m = [] ->
  mesh_data_to_bmesh api (vs m) (vts m) (vns m) (v_indices m)
    (vt_indices m) (vn_indices m) = Raise IndexError.
Proof.
  intros Hlaws Hv Hmiss.
  exact (@mesh_data_to_bmesh_missing api verts_of faces_of Hlaws m Hv Hmiss).
Qed.

Lemma bmesh_conversion_missing_faces_witness :
  let m := Mesh [(0, 0, 0); (1, 0, 0); (0, 1, 0)]%R [] [(0, 0, 1)%R]
             [[0; 1; 2]] [] [[0; 0; 0]] in
  bmesh_laws plain_bmesh plain_verts_of plain_faces_of /\
  v_indices m <> [] /\
  (vt_indices m = [] \/ vn_indices m = []) /\
  mesh_data_to_bmesh plain_bmesh (vs m) (vts m) (vns m) (v_indices m)
    (vt_indices m) (vn_indices m) = Raise IndexError.
Proof.
  cbv zeta.
  assert (Hv : v_indices (Mesh [(0, 0, 0); (1, 0, 0); (0, 1, 0)]%R []
                            [(0, 0, 1)%R] [[0; 1; 2]] [] [[0; 0; 0]]) <> [])
    by discriminate.
  assert (Hm : vt_indices (Mesh [(0, 0, 0); (1, 0, 0); (0, 1, 0)]%R []
                             [(0, 0, 1)%R] [[0; 1; 2]] [] [[0; 0; 0]]) = [] \/
               vn_indices (Mesh [(0, 0, 0); (1, 0, 0); (0, 1, 0)]%R []
                             [(0, 0, 1)%R] [[0; 1; 2]] [] [[0; 0; 0]]) = [])
    by (left; reflexivity).
  split; [exact plain_bmesh_laws|]. split; [exact Hv|]. split; [exact Hm|].
  exact (bmesh_conversion_missing_faces plain_bmesh plain_verts_of
           plain_faces_of _ plain_bmesh_laws Hv Hm).
Defined.
